(** * dwm (vain's branch): a shallow embedding of the window-management
    state machine of [dwm.c] with the defaults of [config.def.h].

    The file follows the first of the two [dwm.c] variants of the
    repository (the one without decorated borders).

    Conventions of the embedding.
    - A C [int] is a [Z]; signed overflow is undefined in C, so the model
      describes the runs without it.  An [unsigned int] is a [Z] kept in
      [0, 2^32) by [u32]; where the source mixes [int] and [unsigned]
      (as [tile] does) the conversions [u32] and [s32] are written out.
    - A C [float] is an IEEE binary32 number, a [double] a binary64 one,
      both as [spec_float] with the operations of [SpecFloat] at the
      matching precision.
    - A [Client *] is the window id of the client ([c->win], unique among
      the managed clients); the structs live in a store keyed by it.  The
      [next] and [snext] chains of a monitor are the lists [m_clients] and
      [m_stack] of window ids.
    - A [Monitor *] is the position of the monitor in the [mons] chain:
      monitors are only ever appended to and removed from the end of it.
    - Requests sent to the X server (drawing, grabs, properties, window
      configuration) leave the modelled state untouched and are left out;
      what the program reads back from the server is an input of the
      function that reads it. *)

From Stdlib Require Import ZArith Lia List Bool String.
From Stdlib Require Import Floats.SpecFloat.
From stdpp Require Import base option list gmap strings.

Local Open Scope Z_scope.

(* ================================================================= *)
(** ** Machine integers *)

Definition u32 (z : Z) : Z := z mod 2 ^ 32.

(** Conversion of an [unsigned int] to [int] (two's complement). *)
Definition s32 (z : Z) : Z :=
  let r := u32 z in if r <? 2 ^ 31 then r else r - 2 ^ 32.

Definition MAX (a b : Z) : Z := if a >? b then a else b.
Definition MIN (a b : Z) : Z := if a <? b then a else b.

(** [a % b] of C99: the remainder of the division truncated towards zero. *)
Definition c_rem (a b : Z) : Z := Z.rem a b.

(** A C truth value: anything but zero. *)
Definition truthy (z : Z) : bool := negb (z =? 0).

(* ================================================================= *)
(** ** Floating point *)

Definition float32 : Type := spec_float.
Definition float64 : Type := spec_float.

Module F32.
Definition prec : Z := 24.
Definition emax : Z := 128.
Definition of_int (z : Z) : float32 := binary_normalize prec emax z 0 false.
Definition mul : float32 -> float32 -> float32 := SFmul prec emax.
Definition div : float32 -> float32 -> float32 := SFdiv prec emax.
Definition add : float32 -> float32 -> float32 := SFadd prec emax.
Definition ltb : float32 -> float32 -> bool := SFltb.
Definition zero : float32 := S754_zero false.
End F32.

Module F64.
Definition prec : Z := 53.
Definition emax : Z := 1024.
Definition of_int (z : Z) : float64 := binary_normalize prec emax z 0 false.
Definition add : float64 -> float64 -> float64 := SFadd prec emax.
Definition sub : float64 -> float64 -> float64 := SFsub prec emax.
Definition mul : float64 -> float64 -> float64 := SFmul prec emax.
Definition div : float64 -> float64 -> float64 := SFdiv prec emax.
Definition ltb : float64 -> float64 -> bool := SFltb.
(** The promotion of a [float]: the same number, with a binary64 mantissa. *)
Definition of_f32 (f : float32) : float64 :=
  match f with
  | S754_finite s m e => binary_round prec emax s m e
  | _ => f
  end.
(** The conversion to [float], rounding to nearest. *)
Definition to_f32 (f : float64) : float32 :=
  match f with
  | S754_finite s m e => binary_round F32.prec F32.emax s m e
  | _ => f
  end.
(** A decimal constant [n/d] of the source, as the compiler rounds it. *)
Definition ratio (n d : Z) : float64 := div (of_int n) (of_int d).
Definition half : float64 := ratio 1 2.
(** The conversion to [int]: the fractional part is discarded.  It is
    undefined in C for a NaN or an infinity; the model then gives 0. *)
Definition to_int (f : float64) : Z :=
  match f with
  | S754_finite s m e =>
      let a := match e with
               | Z0 => Zpos m
               | Zpos p => Zpos m * 2 ^ Zpos p
               | Zneg p => Zpos m / 2 ^ Zpos p
               end in
      if s then - a else a
  | _ => 0
  end.
End F64.

(* ================================================================= *)
(** ** The configuration ([config.h]) *)

(** The arrange function of a layout: [tile], [monocle], or none. *)
Inductive ArrangeFn : Type := ArrTile | ArrMonocle.

Record Layout : Type := MkLayout {
  lt_symbol : string;
  lt_arrange : option ArrangeFn
}.

Record Rule : Type := MkRule {
  r_class : option string;
  r_instance : option string;
  r_title : option string;
  r_tags : Z;
  r_isfloating : bool;
  r_monitor : Z;
  r_sizehints : bool
}.

Record Config : Type := MkConfig {
  cfg_ntags : Z;                 (* LENGTH(tags) *)
  cfg_startuptags : Z;
  cfg_rules : list Rule;
  cfg_borderpx : Z;
  cfg_snap : Z;
  cfg_uselessgap : Z;
  cfg_showbar : bool;
  cfg_topbar : bool;
  cfg_nmaster_dynamic_max : Z;
  cfg_nmaster : Z;
  cfg_mfact : float32;
  cfg_sizehints_default : bool;
  cfg_layouts : list Layout       (* the first entry is the default *)
}.

Definition layout_tile : Layout := MkLayout "[]=" (Some ArrTile).
Definition layout_float : Layout := MkLayout "><>" None.
Definition layout_monocle : Layout := MkLayout "[M]" (Some ArrMonocle).

(** The values of [config.def.h]. *)
Definition default_config : Config := {|
  cfg_ntags := 9;
  cfg_startuptags := 1;
  cfg_rules :=
    [ MkRule (Some "Gimp"%string) None None 0 true (-1) false;
      MkRule (Some "Firefox"%string) None None (Z.shiftl 1 8) false (-1) false ];
  cfg_borderpx := 5;
  cfg_snap := 32;
  cfg_uselessgap := 5;
  cfg_showbar := true;
  cfg_topbar := true;
  cfg_nmaster_dynamic_max := 4;
  cfg_nmaster := 0;
  cfg_mfact := F64.to_f32 (F64.ratio 55 100);
  cfg_sizehints_default := true;
  cfg_layouts := [ layout_tile; layout_float; layout_monocle ]
|}.

(** [#define TAGMASK ((1 << LENGTH(tags)) - 1)] *)
Definition TAGMASK (cfg : Config) : Z := Z.shiftl 1 (cfg_ntags cfg) - 1.

(** [layouts[0]]; a configuration without layouts does not compile. *)
Definition first_layout (cfg : Config) : Layout :=
  match cfg_layouts cfg with
  | l :: _ => l
  | [] => layout_float
  end.

(* ================================================================= *)
(** ** Clients, monitors and the global state *)

Record Client : Type := MkClient {
  c_name : string;  (* char name[256] *)
  c_mina : float32;
  c_maxa : float32;
  c_x : Z;
  c_y : Z;
  c_w : Z;
  c_h : Z;
  c_oldx : Z;
  c_oldy : Z;
  c_oldw : Z;
  c_oldh : Z;
  c_basew : Z;
  c_baseh : Z;
  c_incw : Z;
  c_inch : Z;
  c_maxw : Z;
  c_maxh : Z;
  c_minw : Z;
  c_minh : Z;
  c_bw : Z;
  c_oldbw : Z;
  c_tags : Z;  (* unsigned int tags *)
  c_isfixed : bool;
  c_isfloating : bool;
  c_isurgent : bool;
  c_neverfocus : bool;
  c_oldstate : bool;
  c_isfullscreen : bool;
  c_sizehints : bool;
  c_mon : nat;  (* Monitor *mon: position in the monitor list *)
  c_win : Z  (* Window win *)
}.

Definition set_c_name (v : string) (r : Client) : Client :=
  MkClient v (c_mina r) (c_maxa r) (c_x r) (c_y r) (c_w r) (c_h r)
    (c_oldx r) (c_oldy r) (c_oldw r) (c_oldh r) (c_basew r) (c_baseh r)
    (c_incw r) (c_inch r) (c_maxw r) (c_maxh r) (c_minw r) (c_minh r)
    (c_bw r) (c_oldbw r) (c_tags r) (c_isfixed r) (c_isfloating r)
    (c_isurgent r) (c_neverfocus r) (c_oldstate r) (c_isfullscreen r)
    (c_sizehints r) (c_mon r) (c_win r) .
Definition set_c_mina (v : float32) (r : Client) : Client :=
  MkClient (c_name r) v (c_maxa r) (c_x r) (c_y r) (c_w r) (c_h r)
    (c_oldx r) (c_oldy r) (c_oldw r) (c_oldh r) (c_basew r) (c_baseh r)
    (c_incw r) (c_inch r) (c_maxw r) (c_maxh r) (c_minw r) (c_minh r)
    (c_bw r) (c_oldbw r) (c_tags r) (c_isfixed r) (c_isfloating r)
    (c_isurgent r) (c_neverfocus r) (c_oldstate r) (c_isfullscreen r)
    (c_sizehints r) (c_mon r) (c_win r) .
Definition set_c_maxa (v : float32) (r : Client) : Client :=
  MkClient (c_name r) (c_mina r) v (c_x r) (c_y r) (c_w r) (c_h r)
    (c_oldx r) (c_oldy r) (c_oldw r) (c_oldh r) (c_basew r) (c_baseh r)
    (c_incw r) (c_inch r) (c_maxw r) (c_maxh r) (c_minw r) (c_minh r)
    (c_bw r) (c_oldbw r) (c_tags r) (c_isfixed r) (c_isfloating r)
    (c_isurgent r) (c_neverfocus r) (c_oldstate r) (c_isfullscreen r)
    (c_sizehints r) (c_mon r) (c_win r) .
Definition set_c_x (v : Z) (r : Client) : Client :=
  MkClient (c_name r) (c_mina r) (c_maxa r) v (c_y r) (c_w r) (c_h r)
    (c_oldx r) (c_oldy r) (c_oldw r) (c_oldh r) (c_basew r) (c_baseh r)
    (c_incw r) (c_inch r) (c_maxw r) (c_maxh r) (c_minw r) (c_minh r)
    (c_bw r) (c_oldbw r) (c_tags r) (c_isfixed r) (c_isfloating r)
    (c_isurgent r) (c_neverfocus r) (c_oldstate r) (c_isfullscreen r)
    (c_sizehints r) (c_mon r) (c_win r) .
Definition set_c_y (v : Z) (r : Client) : Client :=
  MkClient (c_name r) (c_mina r) (c_maxa r) (c_x r) v (c_w r) (c_h r)
    (c_oldx r) (c_oldy r) (c_oldw r) (c_oldh r) (c_basew r) (c_baseh r)
    (c_incw r) (c_inch r) (c_maxw r) (c_maxh r) (c_minw r) (c_minh r)
    (c_bw r) (c_oldbw r) (c_tags r) (c_isfixed r) (c_isfloating r)
    (c_isurgent r) (c_neverfocus r) (c_oldstate r) (c_isfullscreen r)
    (c_sizehints r) (c_mon r) (c_win r) .
Definition set_c_w (v : Z) (r : Client) : Client :=
  MkClient (c_name r) (c_mina r) (c_maxa r) (c_x r) (c_y r) v (c_h r)
    (c_oldx r) (c_oldy r) (c_oldw r) (c_oldh r) (c_basew r) (c_baseh r)
    (c_incw r) (c_inch r) (c_maxw r) (c_maxh r) (c_minw r) (c_minh r)
    (c_bw r) (c_oldbw r) (c_tags r) (c_isfixed r) (c_isfloating r)
    (c_isurgent r) (c_neverfocus r) (c_oldstate r) (c_isfullscreen r)
    (c_sizehints r) (c_mon r) (c_win r) .
Definition set_c_h (v : Z) (r : Client) : Client :=
  MkClient (c_name r) (c_mina r) (c_maxa r) (c_x r) (c_y r) (c_w r) v
    (c_oldx r) (c_oldy r) (c_oldw r) (c_oldh r) (c_basew r) (c_baseh r)
    (c_incw r) (c_inch r) (c_maxw r) (c_maxh r) (c_minw r) (c_minh r)
    (c_bw r) (c_oldbw r) (c_tags r) (c_isfixed r) (c_isfloating r)
    (c_isurgent r) (c_neverfocus r) (c_oldstate r) (c_isfullscreen r)
    (c_sizehints r) (c_mon r) (c_win r) .
Definition set_c_oldx (v : Z) (r : Client) : Client :=
  MkClient (c_name r) (c_mina r) (c_maxa r) (c_x r) (c_y r) (c_w r) (c_h r)
    v (c_oldy r) (c_oldw r) (c_oldh r) (c_basew r) (c_baseh r) (c_incw r)
    (c_inch r) (c_maxw r) (c_maxh r) (c_minw r) (c_minh r) (c_bw r)
    (c_oldbw r) (c_tags r) (c_isfixed r) (c_isfloating r) (c_isurgent r)
    (c_neverfocus r) (c_oldstate r) (c_isfullscreen r) (c_sizehints r)
    (c_mon r) (c_win r) .
Definition set_c_oldy (v : Z) (r : Client) : Client :=
  MkClient (c_name r) (c_mina r) (c_maxa r) (c_x r) (c_y r) (c_w r) (c_h r)
    (c_oldx r) v (c_oldw r) (c_oldh r) (c_basew r) (c_baseh r) (c_incw r)
    (c_inch r) (c_maxw r) (c_maxh r) (c_minw r) (c_minh r) (c_bw r)
    (c_oldbw r) (c_tags r) (c_isfixed r) (c_isfloating r) (c_isurgent r)
    (c_neverfocus r) (c_oldstate r) (c_isfullscreen r) (c_sizehints r)
    (c_mon r) (c_win r) .
Definition set_c_oldw (v : Z) (r : Client) : Client :=
  MkClient (c_name r) (c_mina r) (c_maxa r) (c_x r) (c_y r) (c_w r) (c_h r)
    (c_oldx r) (c_oldy r) v (c_oldh r) (c_basew r) (c_baseh r) (c_incw r)
    (c_inch r) (c_maxw r) (c_maxh r) (c_minw r) (c_minh r) (c_bw r)
    (c_oldbw r) (c_tags r) (c_isfixed r) (c_isfloating r) (c_isurgent r)
    (c_neverfocus r) (c_oldstate r) (c_isfullscreen r) (c_sizehints r)
    (c_mon r) (c_win r) .
Definition set_c_oldh (v : Z) (r : Client) : Client :=
  MkClient (c_name r) (c_mina r) (c_maxa r) (c_x r) (c_y r) (c_w r) (c_h r)
    (c_oldx r) (c_oldy r) (c_oldw r) v (c_basew r) (c_baseh r) (c_incw r)
    (c_inch r) (c_maxw r) (c_maxh r) (c_minw r) (c_minh r) (c_bw r)
    (c_oldbw r) (c_tags r) (c_isfixed r) (c_isfloating r) (c_isurgent r)
    (c_neverfocus r) (c_oldstate r) (c_isfullscreen r) (c_sizehints r)
    (c_mon r) (c_win r) .
Definition set_c_basew (v : Z) (r : Client) : Client :=
  MkClient (c_name r) (c_mina r) (c_maxa r) (c_x r) (c_y r) (c_w r) (c_h r)
    (c_oldx r) (c_oldy r) (c_oldw r) (c_oldh r) v (c_baseh r) (c_incw r)
    (c_inch r) (c_maxw r) (c_maxh r) (c_minw r) (c_minh r) (c_bw r)
    (c_oldbw r) (c_tags r) (c_isfixed r) (c_isfloating r) (c_isurgent r)
    (c_neverfocus r) (c_oldstate r) (c_isfullscreen r) (c_sizehints r)
    (c_mon r) (c_win r) .
Definition set_c_baseh (v : Z) (r : Client) : Client :=
  MkClient (c_name r) (c_mina r) (c_maxa r) (c_x r) (c_y r) (c_w r) (c_h r)
    (c_oldx r) (c_oldy r) (c_oldw r) (c_oldh r) (c_basew r) v (c_incw r)
    (c_inch r) (c_maxw r) (c_maxh r) (c_minw r) (c_minh r) (c_bw r)
    (c_oldbw r) (c_tags r) (c_isfixed r) (c_isfloating r) (c_isurgent r)
    (c_neverfocus r) (c_oldstate r) (c_isfullscreen r) (c_sizehints r)
    (c_mon r) (c_win r) .
Definition set_c_incw (v : Z) (r : Client) : Client :=
  MkClient (c_name r) (c_mina r) (c_maxa r) (c_x r) (c_y r) (c_w r) (c_h r)
    (c_oldx r) (c_oldy r) (c_oldw r) (c_oldh r) (c_basew r) (c_baseh r) v
    (c_inch r) (c_maxw r) (c_maxh r) (c_minw r) (c_minh r) (c_bw r)
    (c_oldbw r) (c_tags r) (c_isfixed r) (c_isfloating r) (c_isurgent r)
    (c_neverfocus r) (c_oldstate r) (c_isfullscreen r) (c_sizehints r)
    (c_mon r) (c_win r) .
Definition set_c_inch (v : Z) (r : Client) : Client :=
  MkClient (c_name r) (c_mina r) (c_maxa r) (c_x r) (c_y r) (c_w r) (c_h r)
    (c_oldx r) (c_oldy r) (c_oldw r) (c_oldh r) (c_basew r) (c_baseh r)
    (c_incw r) v (c_maxw r) (c_maxh r) (c_minw r) (c_minh r) (c_bw r)
    (c_oldbw r) (c_tags r) (c_isfixed r) (c_isfloating r) (c_isurgent r)
    (c_neverfocus r) (c_oldstate r) (c_isfullscreen r) (c_sizehints r)
    (c_mon r) (c_win r) .
Definition set_c_maxw (v : Z) (r : Client) : Client :=
  MkClient (c_name r) (c_mina r) (c_maxa r) (c_x r) (c_y r) (c_w r) (c_h r)
    (c_oldx r) (c_oldy r) (c_oldw r) (c_oldh r) (c_basew r) (c_baseh r)
    (c_incw r) (c_inch r) v (c_maxh r) (c_minw r) (c_minh r) (c_bw r)
    (c_oldbw r) (c_tags r) (c_isfixed r) (c_isfloating r) (c_isurgent r)
    (c_neverfocus r) (c_oldstate r) (c_isfullscreen r) (c_sizehints r)
    (c_mon r) (c_win r) .
Definition set_c_maxh (v : Z) (r : Client) : Client :=
  MkClient (c_name r) (c_mina r) (c_maxa r) (c_x r) (c_y r) (c_w r) (c_h r)
    (c_oldx r) (c_oldy r) (c_oldw r) (c_oldh r) (c_basew r) (c_baseh r)
    (c_incw r) (c_inch r) (c_maxw r) v (c_minw r) (c_minh r) (c_bw r)
    (c_oldbw r) (c_tags r) (c_isfixed r) (c_isfloating r) (c_isurgent r)
    (c_neverfocus r) (c_oldstate r) (c_isfullscreen r) (c_sizehints r)
    (c_mon r) (c_win r) .
Definition set_c_minw (v : Z) (r : Client) : Client :=
  MkClient (c_name r) (c_mina r) (c_maxa r) (c_x r) (c_y r) (c_w r) (c_h r)
    (c_oldx r) (c_oldy r) (c_oldw r) (c_oldh r) (c_basew r) (c_baseh r)
    (c_incw r) (c_inch r) (c_maxw r) (c_maxh r) v (c_minh r) (c_bw r)
    (c_oldbw r) (c_tags r) (c_isfixed r) (c_isfloating r) (c_isurgent r)
    (c_neverfocus r) (c_oldstate r) (c_isfullscreen r) (c_sizehints r)
    (c_mon r) (c_win r) .
Definition set_c_minh (v : Z) (r : Client) : Client :=
  MkClient (c_name r) (c_mina r) (c_maxa r) (c_x r) (c_y r) (c_w r) (c_h r)
    (c_oldx r) (c_oldy r) (c_oldw r) (c_oldh r) (c_basew r) (c_baseh r)
    (c_incw r) (c_inch r) (c_maxw r) (c_maxh r) (c_minw r) v (c_bw r)
    (c_oldbw r) (c_tags r) (c_isfixed r) (c_isfloating r) (c_isurgent r)
    (c_neverfocus r) (c_oldstate r) (c_isfullscreen r) (c_sizehints r)
    (c_mon r) (c_win r) .
Definition set_c_bw (v : Z) (r : Client) : Client :=
  MkClient (c_name r) (c_mina r) (c_maxa r) (c_x r) (c_y r) (c_w r) (c_h r)
    (c_oldx r) (c_oldy r) (c_oldw r) (c_oldh r) (c_basew r) (c_baseh r)
    (c_incw r) (c_inch r) (c_maxw r) (c_maxh r) (c_minw r) (c_minh r) v
    (c_oldbw r) (c_tags r) (c_isfixed r) (c_isfloating r) (c_isurgent r)
    (c_neverfocus r) (c_oldstate r) (c_isfullscreen r) (c_sizehints r)
    (c_mon r) (c_win r) .
Definition set_c_oldbw (v : Z) (r : Client) : Client :=
  MkClient (c_name r) (c_mina r) (c_maxa r) (c_x r) (c_y r) (c_w r) (c_h r)
    (c_oldx r) (c_oldy r) (c_oldw r) (c_oldh r) (c_basew r) (c_baseh r)
    (c_incw r) (c_inch r) (c_maxw r) (c_maxh r) (c_minw r) (c_minh r)
    (c_bw r) v (c_tags r) (c_isfixed r) (c_isfloating r) (c_isurgent r)
    (c_neverfocus r) (c_oldstate r) (c_isfullscreen r) (c_sizehints r)
    (c_mon r) (c_win r) .
Definition set_c_tags (v : Z) (r : Client) : Client :=
  MkClient (c_name r) (c_mina r) (c_maxa r) (c_x r) (c_y r) (c_w r) (c_h r)
    (c_oldx r) (c_oldy r) (c_oldw r) (c_oldh r) (c_basew r) (c_baseh r)
    (c_incw r) (c_inch r) (c_maxw r) (c_maxh r) (c_minw r) (c_minh r)
    (c_bw r) (c_oldbw r) v (c_isfixed r) (c_isfloating r) (c_isurgent r)
    (c_neverfocus r) (c_oldstate r) (c_isfullscreen r) (c_sizehints r)
    (c_mon r) (c_win r) .
Definition set_c_isfixed (v : bool) (r : Client) : Client :=
  MkClient (c_name r) (c_mina r) (c_maxa r) (c_x r) (c_y r) (c_w r) (c_h r)
    (c_oldx r) (c_oldy r) (c_oldw r) (c_oldh r) (c_basew r) (c_baseh r)
    (c_incw r) (c_inch r) (c_maxw r) (c_maxh r) (c_minw r) (c_minh r)
    (c_bw r) (c_oldbw r) (c_tags r) v (c_isfloating r) (c_isurgent r)
    (c_neverfocus r) (c_oldstate r) (c_isfullscreen r) (c_sizehints r)
    (c_mon r) (c_win r) .
Definition set_c_isfloating (v : bool) (r : Client) : Client :=
  MkClient (c_name r) (c_mina r) (c_maxa r) (c_x r) (c_y r) (c_w r) (c_h r)
    (c_oldx r) (c_oldy r) (c_oldw r) (c_oldh r) (c_basew r) (c_baseh r)
    (c_incw r) (c_inch r) (c_maxw r) (c_maxh r) (c_minw r) (c_minh r)
    (c_bw r) (c_oldbw r) (c_tags r) (c_isfixed r) v (c_isurgent r)
    (c_neverfocus r) (c_oldstate r) (c_isfullscreen r) (c_sizehints r)
    (c_mon r) (c_win r) .
Definition set_c_isurgent (v : bool) (r : Client) : Client :=
  MkClient (c_name r) (c_mina r) (c_maxa r) (c_x r) (c_y r) (c_w r) (c_h r)
    (c_oldx r) (c_oldy r) (c_oldw r) (c_oldh r) (c_basew r) (c_baseh r)
    (c_incw r) (c_inch r) (c_maxw r) (c_maxh r) (c_minw r) (c_minh r)
    (c_bw r) (c_oldbw r) (c_tags r) (c_isfixed r) (c_isfloating r) v
    (c_neverfocus r) (c_oldstate r) (c_isfullscreen r) (c_sizehints r)
    (c_mon r) (c_win r) .
Definition set_c_neverfocus (v : bool) (r : Client) : Client :=
  MkClient (c_name r) (c_mina r) (c_maxa r) (c_x r) (c_y r) (c_w r) (c_h r)
    (c_oldx r) (c_oldy r) (c_oldw r) (c_oldh r) (c_basew r) (c_baseh r)
    (c_incw r) (c_inch r) (c_maxw r) (c_maxh r) (c_minw r) (c_minh r)
    (c_bw r) (c_oldbw r) (c_tags r) (c_isfixed r) (c_isfloating r)
    (c_isurgent r) v (c_oldstate r) (c_isfullscreen r) (c_sizehints r)
    (c_mon r) (c_win r) .
Definition set_c_oldstate (v : bool) (r : Client) : Client :=
  MkClient (c_name r) (c_mina r) (c_maxa r) (c_x r) (c_y r) (c_w r) (c_h r)
    (c_oldx r) (c_oldy r) (c_oldw r) (c_oldh r) (c_basew r) (c_baseh r)
    (c_incw r) (c_inch r) (c_maxw r) (c_maxh r) (c_minw r) (c_minh r)
    (c_bw r) (c_oldbw r) (c_tags r) (c_isfixed r) (c_isfloating r)
    (c_isurgent r) (c_neverfocus r) v (c_isfullscreen r) (c_sizehints r)
    (c_mon r) (c_win r) .
Definition set_c_isfullscreen (v : bool) (r : Client) : Client :=
  MkClient (c_name r) (c_mina r) (c_maxa r) (c_x r) (c_y r) (c_w r) (c_h r)
    (c_oldx r) (c_oldy r) (c_oldw r) (c_oldh r) (c_basew r) (c_baseh r)
    (c_incw r) (c_inch r) (c_maxw r) (c_maxh r) (c_minw r) (c_minh r)
    (c_bw r) (c_oldbw r) (c_tags r) (c_isfixed r) (c_isfloating r)
    (c_isurgent r) (c_neverfocus r) (c_oldstate r) v (c_sizehints r)
    (c_mon r) (c_win r) .
Definition set_c_sizehints (v : bool) (r : Client) : Client :=
  MkClient (c_name r) (c_mina r) (c_maxa r) (c_x r) (c_y r) (c_w r) (c_h r)
    (c_oldx r) (c_oldy r) (c_oldw r) (c_oldh r) (c_basew r) (c_baseh r)
    (c_incw r) (c_inch r) (c_maxw r) (c_maxh r) (c_minw r) (c_minh r)
    (c_bw r) (c_oldbw r) (c_tags r) (c_isfixed r) (c_isfloating r)
    (c_isurgent r) (c_neverfocus r) (c_oldstate r) (c_isfullscreen r) v
    (c_mon r) (c_win r) .
Definition set_c_mon (v : nat) (r : Client) : Client :=
  MkClient (c_name r) (c_mina r) (c_maxa r) (c_x r) (c_y r) (c_w r) (c_h r)
    (c_oldx r) (c_oldy r) (c_oldw r) (c_oldh r) (c_basew r) (c_baseh r)
    (c_incw r) (c_inch r) (c_maxw r) (c_maxh r) (c_minw r) (c_minh r)
    (c_bw r) (c_oldbw r) (c_tags r) (c_isfixed r) (c_isfloating r)
    (c_isurgent r) (c_neverfocus r) (c_oldstate r) (c_isfullscreen r)
    (c_sizehints r) v (c_win r) .

(** [struct Monitor].  A monitor is named by its position in the list
    [mons], which is the [next] chain.  Two fields of the struct serve
    the display alone and have no counterpart here: [ltsymbol], the text
    of the layout that [arrangemon] and [monocle] write and [drawbar]
    shows, and [barrier], the pointer barriers.  An equality of monitors
    below is an equality of the other fields. *)
Record Monitor : Type := MkMonitor {
  m_mfact : float32;
  m_nmaster : Z;
  m_nmaster_dynamic_max : Z;
  m_num : Z;
  m_by : Z;  (* bar geometry *)
  m_mx : Z;
  m_my : Z;
  m_mw : Z;
  m_mh : Z;  (* screen size *)
  m_wx : Z;
  m_wy : Z;
  m_ww : Z;
  m_wh : Z;  (* window area *)
  m_lmx : Z;
  m_lmy : Z;
  m_seltags : Z;  (* unsigned int seltags *)
  m_tagset0 : Z;  (* tagset[0] *)
  m_tagset1 : Z;  (* tagset[1] *)
  m_showbar : bool;
  m_topbar : bool;
  m_clients : list Z;  (* Client *clients: the next-chain, by window *)
  m_sel : option Z;  (* Client *sel *)
  m_stack : list Z;  (* Client *stack: the snext-chain, by window *)
  m_barwin : Z;  (* Window barwin *)
  m_lt : Layout  (* const Layout *lt *)
}.

Definition set_m_mfact (v : float32) (r : Monitor) : Monitor :=
  MkMonitor v (m_nmaster r) (m_nmaster_dynamic_max r) (m_num r) (m_by r)
    (m_mx r) (m_my r) (m_mw r) (m_mh r) (m_wx r) (m_wy r) (m_ww r) (m_wh r)
    (m_lmx r) (m_lmy r) (m_seltags r) (m_tagset0 r) (m_tagset1 r)
    (m_showbar r) (m_topbar r) (m_clients r) (m_sel r) (m_stack r)
    (m_barwin r) (m_lt r) .
Definition set_m_nmaster (v : Z) (r : Monitor) : Monitor :=
  MkMonitor (m_mfact r) v (m_nmaster_dynamic_max r) (m_num r) (m_by r)
    (m_mx r) (m_my r) (m_mw r) (m_mh r) (m_wx r) (m_wy r) (m_ww r) (m_wh r)
    (m_lmx r) (m_lmy r) (m_seltags r) (m_tagset0 r) (m_tagset1 r)
    (m_showbar r) (m_topbar r) (m_clients r) (m_sel r) (m_stack r)
    (m_barwin r) (m_lt r) .
Definition set_m_nmaster_dynamic_max (v : Z) (r : Monitor) : Monitor :=
  MkMonitor (m_mfact r) (m_nmaster r) v (m_num r) (m_by r) (m_mx r)
    (m_my r) (m_mw r) (m_mh r) (m_wx r) (m_wy r) (m_ww r) (m_wh r)
    (m_lmx r) (m_lmy r) (m_seltags r) (m_tagset0 r) (m_tagset1 r)
    (m_showbar r) (m_topbar r) (m_clients r) (m_sel r) (m_stack r)
    (m_barwin r) (m_lt r) .
Definition set_m_num (v : Z) (r : Monitor) : Monitor :=
  MkMonitor (m_mfact r) (m_nmaster r) (m_nmaster_dynamic_max r) v (m_by r)
    (m_mx r) (m_my r) (m_mw r) (m_mh r) (m_wx r) (m_wy r) (m_ww r) (m_wh r)
    (m_lmx r) (m_lmy r) (m_seltags r) (m_tagset0 r) (m_tagset1 r)
    (m_showbar r) (m_topbar r) (m_clients r) (m_sel r) (m_stack r)
    (m_barwin r) (m_lt r) .
Definition set_m_by (v : Z) (r : Monitor) : Monitor :=
  MkMonitor (m_mfact r) (m_nmaster r) (m_nmaster_dynamic_max r) (m_num r) v
    (m_mx r) (m_my r) (m_mw r) (m_mh r) (m_wx r) (m_wy r) (m_ww r) (m_wh r)
    (m_lmx r) (m_lmy r) (m_seltags r) (m_tagset0 r) (m_tagset1 r)
    (m_showbar r) (m_topbar r) (m_clients r) (m_sel r) (m_stack r)
    (m_barwin r) (m_lt r) .
Definition set_m_mx (v : Z) (r : Monitor) : Monitor :=
  MkMonitor (m_mfact r) (m_nmaster r) (m_nmaster_dynamic_max r) (m_num r)
    (m_by r) v (m_my r) (m_mw r) (m_mh r) (m_wx r) (m_wy r) (m_ww r)
    (m_wh r) (m_lmx r) (m_lmy r) (m_seltags r) (m_tagset0 r) (m_tagset1 r)
    (m_showbar r) (m_topbar r) (m_clients r) (m_sel r) (m_stack r)
    (m_barwin r) (m_lt r) .
Definition set_m_my (v : Z) (r : Monitor) : Monitor :=
  MkMonitor (m_mfact r) (m_nmaster r) (m_nmaster_dynamic_max r) (m_num r)
    (m_by r) (m_mx r) v (m_mw r) (m_mh r) (m_wx r) (m_wy r) (m_ww r)
    (m_wh r) (m_lmx r) (m_lmy r) (m_seltags r) (m_tagset0 r) (m_tagset1 r)
    (m_showbar r) (m_topbar r) (m_clients r) (m_sel r) (m_stack r)
    (m_barwin r) (m_lt r) .
Definition set_m_mw (v : Z) (r : Monitor) : Monitor :=
  MkMonitor (m_mfact r) (m_nmaster r) (m_nmaster_dynamic_max r) (m_num r)
    (m_by r) (m_mx r) (m_my r) v (m_mh r) (m_wx r) (m_wy r) (m_ww r)
    (m_wh r) (m_lmx r) (m_lmy r) (m_seltags r) (m_tagset0 r) (m_tagset1 r)
    (m_showbar r) (m_topbar r) (m_clients r) (m_sel r) (m_stack r)
    (m_barwin r) (m_lt r) .
Definition set_m_mh (v : Z) (r : Monitor) : Monitor :=
  MkMonitor (m_mfact r) (m_nmaster r) (m_nmaster_dynamic_max r) (m_num r)
    (m_by r) (m_mx r) (m_my r) (m_mw r) v (m_wx r) (m_wy r) (m_ww r)
    (m_wh r) (m_lmx r) (m_lmy r) (m_seltags r) (m_tagset0 r) (m_tagset1 r)
    (m_showbar r) (m_topbar r) (m_clients r) (m_sel r) (m_stack r)
    (m_barwin r) (m_lt r) .
Definition set_m_wx (v : Z) (r : Monitor) : Monitor :=
  MkMonitor (m_mfact r) (m_nmaster r) (m_nmaster_dynamic_max r) (m_num r)
    (m_by r) (m_mx r) (m_my r) (m_mw r) (m_mh r) v (m_wy r) (m_ww r)
    (m_wh r) (m_lmx r) (m_lmy r) (m_seltags r) (m_tagset0 r) (m_tagset1 r)
    (m_showbar r) (m_topbar r) (m_clients r) (m_sel r) (m_stack r)
    (m_barwin r) (m_lt r) .
Definition set_m_wy (v : Z) (r : Monitor) : Monitor :=
  MkMonitor (m_mfact r) (m_nmaster r) (m_nmaster_dynamic_max r) (m_num r)
    (m_by r) (m_mx r) (m_my r) (m_mw r) (m_mh r) (m_wx r) v (m_ww r)
    (m_wh r) (m_lmx r) (m_lmy r) (m_seltags r) (m_tagset0 r) (m_tagset1 r)
    (m_showbar r) (m_topbar r) (m_clients r) (m_sel r) (m_stack r)
    (m_barwin r) (m_lt r) .
Definition set_m_ww (v : Z) (r : Monitor) : Monitor :=
  MkMonitor (m_mfact r) (m_nmaster r) (m_nmaster_dynamic_max r) (m_num r)
    (m_by r) (m_mx r) (m_my r) (m_mw r) (m_mh r) (m_wx r) (m_wy r) v
    (m_wh r) (m_lmx r) (m_lmy r) (m_seltags r) (m_tagset0 r) (m_tagset1 r)
    (m_showbar r) (m_topbar r) (m_clients r) (m_sel r) (m_stack r)
    (m_barwin r) (m_lt r) .
Definition set_m_wh (v : Z) (r : Monitor) : Monitor :=
  MkMonitor (m_mfact r) (m_nmaster r) (m_nmaster_dynamic_max r) (m_num r)
    (m_by r) (m_mx r) (m_my r) (m_mw r) (m_mh r) (m_wx r) (m_wy r) (m_ww r)
    v (m_lmx r) (m_lmy r) (m_seltags r) (m_tagset0 r) (m_tagset1 r)
    (m_showbar r) (m_topbar r) (m_clients r) (m_sel r) (m_stack r)
    (m_barwin r) (m_lt r) .
Definition set_m_lmx (v : Z) (r : Monitor) : Monitor :=
  MkMonitor (m_mfact r) (m_nmaster r) (m_nmaster_dynamic_max r) (m_num r)
    (m_by r) (m_mx r) (m_my r) (m_mw r) (m_mh r) (m_wx r) (m_wy r) (m_ww r)
    (m_wh r) v (m_lmy r) (m_seltags r) (m_tagset0 r) (m_tagset1 r)
    (m_showbar r) (m_topbar r) (m_clients r) (m_sel r) (m_stack r)
    (m_barwin r) (m_lt r) .
Definition set_m_lmy (v : Z) (r : Monitor) : Monitor :=
  MkMonitor (m_mfact r) (m_nmaster r) (m_nmaster_dynamic_max r) (m_num r)
    (m_by r) (m_mx r) (m_my r) (m_mw r) (m_mh r) (m_wx r) (m_wy r) (m_ww r)
    (m_wh r) (m_lmx r) v (m_seltags r) (m_tagset0 r) (m_tagset1 r)
    (m_showbar r) (m_topbar r) (m_clients r) (m_sel r) (m_stack r)
    (m_barwin r) (m_lt r) .
Definition set_m_seltags (v : Z) (r : Monitor) : Monitor :=
  MkMonitor (m_mfact r) (m_nmaster r) (m_nmaster_dynamic_max r) (m_num r)
    (m_by r) (m_mx r) (m_my r) (m_mw r) (m_mh r) (m_wx r) (m_wy r) (m_ww r)
    (m_wh r) (m_lmx r) (m_lmy r) v (m_tagset0 r) (m_tagset1 r)
    (m_showbar r) (m_topbar r) (m_clients r) (m_sel r) (m_stack r)
    (m_barwin r) (m_lt r) .
Definition set_m_tagset0 (v : Z) (r : Monitor) : Monitor :=
  MkMonitor (m_mfact r) (m_nmaster r) (m_nmaster_dynamic_max r) (m_num r)
    (m_by r) (m_mx r) (m_my r) (m_mw r) (m_mh r) (m_wx r) (m_wy r) (m_ww r)
    (m_wh r) (m_lmx r) (m_lmy r) (m_seltags r) v (m_tagset1 r)
    (m_showbar r) (m_topbar r) (m_clients r) (m_sel r) (m_stack r)
    (m_barwin r) (m_lt r) .
Definition set_m_tagset1 (v : Z) (r : Monitor) : Monitor :=
  MkMonitor (m_mfact r) (m_nmaster r) (m_nmaster_dynamic_max r) (m_num r)
    (m_by r) (m_mx r) (m_my r) (m_mw r) (m_mh r) (m_wx r) (m_wy r) (m_ww r)
    (m_wh r) (m_lmx r) (m_lmy r) (m_seltags r) (m_tagset0 r) v
    (m_showbar r) (m_topbar r) (m_clients r) (m_sel r) (m_stack r)
    (m_barwin r) (m_lt r) .
Definition set_m_showbar (v : bool) (r : Monitor) : Monitor :=
  MkMonitor (m_mfact r) (m_nmaster r) (m_nmaster_dynamic_max r) (m_num r)
    (m_by r) (m_mx r) (m_my r) (m_mw r) (m_mh r) (m_wx r) (m_wy r) (m_ww r)
    (m_wh r) (m_lmx r) (m_lmy r) (m_seltags r) (m_tagset0 r) (m_tagset1 r)
    v (m_topbar r) (m_clients r) (m_sel r) (m_stack r) (m_barwin r)
    (m_lt r) .
Definition set_m_topbar (v : bool) (r : Monitor) : Monitor :=
  MkMonitor (m_mfact r) (m_nmaster r) (m_nmaster_dynamic_max r) (m_num r)
    (m_by r) (m_mx r) (m_my r) (m_mw r) (m_mh r) (m_wx r) (m_wy r) (m_ww r)
    (m_wh r) (m_lmx r) (m_lmy r) (m_seltags r) (m_tagset0 r) (m_tagset1 r)
    (m_showbar r) v (m_clients r) (m_sel r) (m_stack r) (m_barwin r)
    (m_lt r) .
Definition set_m_clients (v : list Z) (r : Monitor) : Monitor :=
  MkMonitor (m_mfact r) (m_nmaster r) (m_nmaster_dynamic_max r) (m_num r)
    (m_by r) (m_mx r) (m_my r) (m_mw r) (m_mh r) (m_wx r) (m_wy r) (m_ww r)
    (m_wh r) (m_lmx r) (m_lmy r) (m_seltags r) (m_tagset0 r) (m_tagset1 r)
    (m_showbar r) (m_topbar r) v (m_sel r) (m_stack r) (m_barwin r)
    (m_lt r) .
Definition set_m_sel (v : option Z) (r : Monitor) : Monitor :=
  MkMonitor (m_mfact r) (m_nmaster r) (m_nmaster_dynamic_max r) (m_num r)
    (m_by r) (m_mx r) (m_my r) (m_mw r) (m_mh r) (m_wx r) (m_wy r) (m_ww r)
    (m_wh r) (m_lmx r) (m_lmy r) (m_seltags r) (m_tagset0 r) (m_tagset1 r)
    (m_showbar r) (m_topbar r) (m_clients r) v (m_stack r) (m_barwin r)
    (m_lt r) .
Definition set_m_stack (v : list Z) (r : Monitor) : Monitor :=
  MkMonitor (m_mfact r) (m_nmaster r) (m_nmaster_dynamic_max r) (m_num r)
    (m_by r) (m_mx r) (m_my r) (m_mw r) (m_mh r) (m_wx r) (m_wy r) (m_ww r)
    (m_wh r) (m_lmx r) (m_lmy r) (m_seltags r) (m_tagset0 r) (m_tagset1 r)
    (m_showbar r) (m_topbar r) (m_clients r) (m_sel r) v (m_barwin r)
    (m_lt r) .
Definition set_m_barwin (v : Z) (r : Monitor) : Monitor :=
  MkMonitor (m_mfact r) (m_nmaster r) (m_nmaster_dynamic_max r) (m_num r)
    (m_by r) (m_mx r) (m_my r) (m_mw r) (m_mh r) (m_wx r) (m_wy r) (m_ww r)
    (m_wh r) (m_lmx r) (m_lmy r) (m_seltags r) (m_tagset0 r) (m_tagset1 r)
    (m_showbar r) (m_topbar r) (m_clients r) (m_sel r) (m_stack r) v
    (m_lt r) .
Definition set_m_lt (v : Layout) (r : Monitor) : Monitor :=
  MkMonitor (m_mfact r) (m_nmaster r) (m_nmaster_dynamic_max r) (m_num r)
    (m_by r) (m_mx r) (m_my r) (m_mw r) (m_mh r) (m_wx r) (m_wy r) (m_ww r)
    (m_wh r) (m_lmx r) (m_lmy r) (m_seltags r) (m_tagset0 r) (m_tagset1 r)
    (m_showbar r) (m_topbar r) (m_clients r) (m_sel r) (m_stack r)
    (m_barwin r) v.

Record World : Type := MkWorld {
  store : gmap Z Client;  (* the allocated Client structs, by window *)
  mons : list Monitor;  (* Monitor *mons: the next-chain *)
  selmon : nat;  (* Monitor *selmon *)
  prevmon : option nat;  (* Monitor *prevmon *)
  prevclient : option Z;  (* Client *prevclient *)
  gappx : Z;
  sw : Z;
  sh : Z;  (* X display screen geometry *)
  bh : Z;  (* bar height *)
  root : Z;  (* Window root *)
  motion_mon : option nat;  (* static Monitor *mon of motionnotify *)
  running : bool;
  dorestart : bool
}.

Definition set_store (v : gmap Z Client) (r : World) : World :=
  MkWorld v (mons r) (selmon r) (prevmon r) (prevclient r) (gappx r) (sw r)
    (sh r) (bh r) (root r) (motion_mon r) (running r) (dorestart r) .
Definition set_mons (v : list Monitor) (r : World) : World :=
  MkWorld (store r) v (selmon r) (prevmon r) (prevclient r) (gappx r)
    (sw r) (sh r) (bh r) (root r) (motion_mon r) (running r) (dorestart r)
    .
Definition set_selmon (v : nat) (r : World) : World :=
  MkWorld (store r) (mons r) v (prevmon r) (prevclient r) (gappx r) (sw r)
    (sh r) (bh r) (root r) (motion_mon r) (running r) (dorestart r) .
Definition set_prevmon (v : option nat) (r : World) : World :=
  MkWorld (store r) (mons r) (selmon r) v (prevclient r) (gappx r) (sw r)
    (sh r) (bh r) (root r) (motion_mon r) (running r) (dorestart r) .
Definition set_prevclient (v : option Z) (r : World) : World :=
  MkWorld (store r) (mons r) (selmon r) (prevmon r) v (gappx r) (sw r)
    (sh r) (bh r) (root r) (motion_mon r) (running r) (dorestart r) .
Definition set_gappx (v : Z) (r : World) : World :=
  MkWorld (store r) (mons r) (selmon r) (prevmon r) (prevclient r) v (sw r)
    (sh r) (bh r) (root r) (motion_mon r) (running r) (dorestart r) .
Definition set_sw (v : Z) (r : World) : World :=
  MkWorld (store r) (mons r) (selmon r) (prevmon r) (prevclient r)
    (gappx r) v (sh r) (bh r) (root r) (motion_mon r) (running r)
    (dorestart r) .
Definition set_sh (v : Z) (r : World) : World :=
  MkWorld (store r) (mons r) (selmon r) (prevmon r) (prevclient r)
    (gappx r) (sw r) v (bh r) (root r) (motion_mon r) (running r)
    (dorestart r) .
Definition set_bh (v : Z) (r : World) : World :=
  MkWorld (store r) (mons r) (selmon r) (prevmon r) (prevclient r)
    (gappx r) (sw r) (sh r) v (root r) (motion_mon r) (running r)
    (dorestart r) .
Definition set_root (v : Z) (r : World) : World :=
  MkWorld (store r) (mons r) (selmon r) (prevmon r) (prevclient r)
    (gappx r) (sw r) (sh r) (bh r) v (motion_mon r) (running r)
    (dorestart r) .
Definition set_motion_mon (v : option nat) (r : World) : World :=
  MkWorld (store r) (mons r) (selmon r) (prevmon r) (prevclient r)
    (gappx r) (sw r) (sh r) (bh r) (root r) v (running r) (dorestart r) .
Definition set_running (v : bool) (r : World) : World :=
  MkWorld (store r) (mons r) (selmon r) (prevmon r) (prevclient r)
    (gappx r) (sw r) (sh r) (bh r) (root r) (motion_mon r) v (dorestart r)
    .
Definition set_dorestart (v : bool) (r : World) : World :=
  MkWorld (store r) (mons r) (selmon r) (prevmon r) (prevclient r)
    (gappx r) (sw r) (sh r) (bh r) (root r) (motion_mon r) (running r) v.


(** [m->tagset[i]] and [m->tagset[i] = v]; [seltags] is only ever 0 or 1. *)
Definition m_tagset (m : Monitor) (i : Z) : Z :=
  if i =? 0 then m_tagset0 m else m_tagset1 m.

Definition set_m_tagset (i v : Z) (m : Monitor) : Monitor :=
  if i =? 0 then set_m_tagset0 v m else set_m_tagset1 v m.

(** [m->tagset[m->seltags]] *)
Definition cur_tagset (m : Monitor) : Z := m_tagset m (m_seltags m).

(** [#define WIDTH(X)  ((X)->w + 2 * (X)->bw)] and [HEIGHT]. *)
Definition WIDTH (c : Client) : Z := c_w c + 2 * c_bw c.
Definition HEIGHT (c : Client) : Z := c_h c + 2 * c_bw c.

(** Writing through a pointer: [c->f = v] and [m->f = v]. *)
Definition upd_client (c : Z) (f : Client -> Client) (W : World) : World :=
  set_store (alter f c (store W)) W.

Definition upd_mon (i : nat) (f : Monitor -> Monitor) (W : World) : World :=
  set_mons (alter f i (mons W)) W.

(** Reading through a pointer.  A pointer to no struct is a crash in C;
    the model then leaves the state as it is. *)
Definition with_client (c : Z) (W : World) (k : Client -> World) : World :=
  match store W !! c with
  | Some cl => k cl
  | None => W
  end.

Definition with_mon (i : nat) (W : World) (k : Monitor -> World) : World :=
  match mons W !! i with
  | Some m => k m
  | None => W
  end.

(** [#define ISVISIBLE(C) ((C->tags & C->mon->tagset[C->mon->seltags]))] *)
Definition visible_on (m : Monitor) (cl : Client) : bool :=
  truthy (Z.land (c_tags cl) (cur_tagset m)).

Definition ISVISIBLE (W : World) (c : Z) : bool :=
  match store W !! c with
  | Some cl =>
      match mons W !! c_mon cl with
      | Some m => visible_on m cl
      | None => false
      end
  | None => false
  end.

(* ================================================================= *)
(** ** The client list and the focus stack *)

(** Unlinking [c] from a chain: the walk along the [next] (or [snext])
    pointers up to [c], followed by [*tc = c->next], drops the first
    occurrence of [c].  (On a chain without [c] the C code would hang
    [c->next] at its end; the lists of a monitor always hold the clients
    that are detached from them.) *)
Fixpoint unlink (c : Z) (l : list Z) : list Z :=
  match l with
  | [] => []
  | a :: l' => if a =? c then l' else a :: unlink c l'
  end.

Definition attach (c : Z) (W : World) : World :=
  with_client c W (fun cl =>
    upd_mon (c_mon cl) (fun m => set_m_clients (c :: m_clients m) m) W).

Definition attachstack (c : Z) (W : World) : World :=
  with_client c W (fun cl =>
    upd_mon (c_mon cl) (fun m => set_m_stack (c :: m_stack m) m) W).

Definition detach (c : Z) (W : World) : World :=
  with_client c W (fun cl =>
    upd_mon (c_mon cl) (fun m => set_m_clients (unlink c (m_clients m)) m) W).

(** [for(t = stack; t && !ISVISIBLE(t); t = t->snext);] *)
Definition first_visible (W : World) (l : list Z) : option Z :=
  List.find (ISVISIBLE W) l.

Definition detachstack (c : Z) (W : World) : World :=
  with_client c W (fun cl =>
    let W1 :=
      upd_mon (c_mon cl) (fun m => set_m_stack (unlink c (m_stack m)) m) W in
    with_mon (c_mon cl) W1 (fun m =>
      if decide (m_sel m = Some c)
      then upd_mon (c_mon cl) (set_m_sel (first_visible W1 (m_stack m))) W1
      else W1)).

(** [unfocus]: besides the requests to the server, it records the client
    in [prevclient]. *)
Definition unfocus (oc : option Z) (setfocus : bool) (W : World) : World :=
  match oc with
  | None => W
  | Some c => set_prevclient (Some c) W
  end.

(** [clearurgent] *)
Definition clearurgent (c : Z) (W : World) : World :=
  upd_client c (set_c_isurgent false) W.

(** [selmon->sel] *)
Definition selmon_sel (W : World) : option Z :=
  match mons W !! selmon W with
  | Some m => m_sel m
  | None => None
  end.

Definition focus (oc : option Z) (W : World) : World :=
  let pick :=
    match mons W !! selmon W with
    | Some m => first_visible W (m_stack m)
    | None => None
    end in
  let c :=
    match oc with
    | Some c0 => if ISVISIBLE W c0 then Some c0 else pick
    | None => pick
    end in
  let W1 :=
    match selmon_sel W with
    | Some s => if decide (Some s = c) then W else unfocus (Some s) false W
    | None => W
    end in
  let W2 :=
    match c with
    | Some c1 =>
        with_client c1 W1 (fun cl =>
          let Wa := if decide (c_mon cl = selmon W1) then W1
                    else set_selmon (c_mon cl) W1 in
          let Wb := if c_isurgent cl then clearurgent c1 Wa else Wa in
          attachstack c1 (detachstack c1 Wb))
    | None => W1
    end in
  upd_mon (selmon W2) (set_m_sel c) W2.

(* ================================================================= *)
(** ** Geometry: size hints and resizing *)

(** A rectangle [(x, y, w, h)]. *)
Definition Rect : Type := (Z * Z * Z * Z)%type.

(** [!c->mon->lt->arrange]: the layout of the monitor is the floating one. *)
Definition lt_floating (m : Monitor) : bool :=
  match lt_arrange (m_lt m) with
  | None => true
  | Some _ => false
  end.

(** The aspect-ratio step of [applysizehints] on the pair [( *w, *h )]. *)
Definition aspect_adjust (c : Client) (w h : Z) : Z * Z :=
  if F32.ltb F32.zero (c_mina c) && F32.ltb F32.zero (c_maxa c) then
    if F32.ltb (c_maxa c) (F32.div (F32.of_int w) (F32.of_int h)) then
      (F64.to_int
         (F64.add (F64.of_f32 (F32.mul (F32.of_int h) (c_maxa c))) F64.half),
       h)
    else if F32.ltb (c_mina c) (F32.div (F32.of_int h) (F32.of_int w)) then
      (w,
       F64.to_int
         (F64.add (F64.of_f32 (F32.mul (F32.of_int w) (c_mina c))) F64.half))
    else (w, h)
  else (w, h).

(** The size-hint block of [applysizehints] (ICCCM 4.1.2.3) on one pair
    of dimensions. *)
Definition hint_size (c : Client) (w h : Z) : Z * Z :=
  let baseismin := (c_basew c =? c_minw c) && (c_baseh c =? c_minh c) in
  let '(w, h) := if negb baseismin
                 then (w - c_basew c, h - c_baseh c) else (w, h) in
  let '(w, h) := aspect_adjust c w h in
  let '(w, h) := if baseismin
                 then (w - c_basew c, h - c_baseh c) else (w, h) in
  let w := if truthy (c_incw c) then w - c_rem w (c_incw c) else w in
  let h := if truthy (c_inch c) then h - c_rem h (c_inch c) else h in
  let w := MAX (w + c_basew c) (c_minw c) in
  let h := MAX (h + c_baseh c) (c_minh c) in
  let w := if truthy (c_maxw c) then MIN w (c_maxw c) else w in
  let h := if truthy (c_maxh c) then MIN h (c_maxh c) else h in
  (w, h).

(** [applysizehints(c, &x, &y, &w, &h, interact)] for a client [c] on the
    monitor [m]; [sw], [sh] and [bh] are the globals of that name.  The
    result is the adjusted rectangle and the returned flag. *)
Definition applysizehints (sw sh bh : Z) (m : Monitor) (c : Client)
    (r : Rect) (interact : bool) : Rect * bool :=
  let '(x, y, w, h) := r in
  let w := MAX 1 w in
  let h := MAX 1 h in
  let '(x, y) :=
    if interact then
      let x := if x >=? sw then sw - WIDTH c else x in
      let y := if y >? sh then sh - HEIGHT c else y in
      let x := if x + w + 2 * c_bw c <? 0 then 0 else x in
      let y := if y + h + 2 * c_bw c <? 0 then 0 else y in
      (x, y)
    else
      let x := if x >=? m_wx m + m_ww m
               then m_wx m + m_ww m - WIDTH c else x in
      let y := if y >=? m_wy m + m_wh m
               then m_wy m + m_wh m - HEIGHT c else y in
      let x := if x + w + 2 * c_bw c <=? m_wx m then m_wx m else x in
      let y := if y + h + 2 * c_bw c <=? m_wy m then m_wy m else y in
      (x, y) in
  let h := if h <? bh then bh else h in
  let w := if w <? bh then bh else w in
  let '(w, h) :=
    if c_sizehints c || c_isfloating c || lt_floating m
    then hint_size c w h else (w, h) in
  ((x, y, w, h),
   negb ((x =? c_x c) && (y =? c_y c) && (w =? c_w c) && (h =? c_h c))).

(** The assignments of [resizeclient] to the struct. *)
Definition resizeclient_fields (r : Rect) (c : Client) : Client :=
  let '(x, y, w, h) := r in
  set_c_h h (set_c_oldh (c_h c)
    (set_c_w w (set_c_oldw (c_w c)
      (set_c_y y (set_c_oldy (c_y c)
        (set_c_x x (set_c_oldx (c_x c) c))))))).

Definition resizeclient (c : Z) (r : Rect) (W : World) : World :=
  upd_client c (resizeclient_fields r) W.

Definition resize (c : Z) (r : Rect) (interact : bool) (W : World) : World :=
  with_client c W (fun cl =>
    with_mon (c_mon cl) W (fun m =>
      let '(r', changed) := applysizehints (sw W) (sh W) (bh W) m cl r interact in
      if changed then resizeclient c r' W else W)).

(* ================================================================= *)
(** ** Layouts *)

(** The test of [nexttiled]: the client is neither floating nor hidden. *)
Definition is_tiled (W : World) (c : Z) : bool :=
  match store W !! c with
  | Some cl => negb (c_isfloating cl || negb (ISVISIBLE W c))
  | None => false
  end.

(** [nexttiled(c)]: the rest of the chain from the first tiled client on. *)
Fixpoint nexttiled (W : World) (l : list Z) : list Z :=
  match l with
  | [] => []
  | c :: l' => if is_tiled W c then l else nexttiled W l'
  end.

(** [for(n = 0, c = nexttiled(m->clients); c; c = nexttiled(c->next), n++);] *)
Fixpoint count_tiled (W : World) (l : list Z) : Z :=
  match l with
  | [] => 0
  | c :: l' => (if is_tiled W c then 1 else 0) + count_tiled W l'
  end.

(** [actual_nmaster] of [tile], an [unsigned int]. *)
Definition actual_nmaster (m : Monitor) (n : Z) : Z :=
  if truthy (m_nmaster m) then u32 (m_nmaster m)
  else
    let a := MAX (n / 2) 1 in
    let b := u32 (m_nmaster_dynamic_max m) in
    if a <? b then a else b.

(** [mw] of [tile], an [unsigned int]; the product is a [float]. *)
Definition master_width (m : Monitor) (n : Z) : Z :=
  let an := actual_nmaster m n in
  if n >? an then
    if truthy an
    then u32 (F64.to_int (F32.mul (F32.of_int (m_ww m)) (m_mfact m)))
    else 0
  else u32 (m_ww m).

(** The rectangle [tile] asks [resize] for, for the [i]-th tiled client
    [c] of [n], with the running offsets [my] and [ty]. *)
Definition tile_request (g : Z) (m : Monitor) (n i my ty : Z) (c : Client)
    : Rect :=
  let an := actual_nmaster m n in
  let mw := master_width m n in
  if i <? an then
    let h := u32 (m_wh m - my) / u32 (MIN n an - i) in
    (m_wx m + g,
     s32 (m_wy m + my + g),
     s32 (mw - 2 * c_bw c - 2 * g),
     s32 (h - 2 * c_bw c - 2 * g))
  else
    let h := u32 (m_wh m - ty) / u32 (n - i) in
    (s32 (m_wx m + mw + g),
     s32 (m_wy m + ty + g),
     s32 (m_ww m - mw - 2 * c_bw c - 2 * g),
     s32 (h - 2 * c_bw c - 2 * g)).

(** The body of the second loop of [tile], over the chain [l], for the
    monitor at position [mi] as it was when [tile] was entered ([resize]
    changes clients only). *)
Fixpoint tile_loop (mi : nat) (m : Monitor) (n : Z) (l : list Z)
    (i my ty : Z) (W : World) : World :=
  match l with
  | [] => W
  | c :: l' =>
      if is_tiled W c then
        match store W !! c with
        | Some cl =>
            let W' := resize c (tile_request (gappx W) m n i my ty cl) false W in
            let hc := match store W' !! c with
                      | Some cl' => HEIGHT cl'
                      | None => 0
                      end in
            if i <? actual_nmaster m n
            then tile_loop mi m n l' (i + 1) (u32 (my + hc + 2 * gappx W)) ty W'
            else tile_loop mi m n l' (i + 1) my (u32 (ty + hc + 2 * gappx W)) W'
        | None => tile_loop mi m n l' i my ty W
        end
      else tile_loop mi m n l' i my ty W
  end.

Definition tile (mi : nat) (W : World) : World :=
  with_mon mi W (fun m =>
    let n := count_tiled W (m_clients m) in
    if n =? 0 then W
    else tile_loop mi m n (m_clients m) 0 0 0 W).

Fixpoint monocle_loop (m : Monitor) (l : list Z) (W : World) : World :=
  match l with
  | [] => W
  | c :: l' =>
      if is_tiled W c then
        match store W !! c with
        | Some cl =>
            monocle_loop m l'
              (resize c (m_wx m + gappx W, m_wy m + gappx W,
                         m_ww m - 2 * c_bw cl - 2 * gappx W,
                         m_wh m - 2 * c_bw cl - 2 * gappx W) false W)
        | None => monocle_loop m l' W
        end
      else monocle_loop m l' W
  end.

(** [monocle].  The count [n] of visible clients is used for nothing but
    the text ["[n]"] that the source writes to [m->ltsymbol]; the symbol
    is read by [drawbar] alone and has no field in [Monitor], so that
    write is not modelled. *)
Definition monocle (mi : nat) (W : World) : World :=
  with_mon mi W (fun m => monocle_loop m (m_clients m) W).

(** [arrangemon].  The source first copies [m->lt->symbol] to
    [m->ltsymbol]; the symbol has no field in [Monitor] (see there), so
    that write is not modelled. *)
Definition arrangemon (mi : nat) (W : World) : World :=
  with_mon mi W (fun m =>
    match lt_arrange (m_lt m) with
    | Some ArrTile => tile mi W
    | Some ArrMonocle => monocle mi W
    | None => W
    end).

(** [showhide] along the [snext] chain [l]: the visible clients are shown
    top down, and resized when they float. *)
Fixpoint showhide (l : list Z) (W : World) : World :=
  match l with
  | [] => W
  | c :: l' =>
      if ISVISIBLE W c then
        let W' :=
          with_client c W (fun cl =>
            with_mon (c_mon cl) W (fun m =>
              if (lt_floating m || c_isfloating cl) && negb (c_isfullscreen cl)
              then resize c (c_x cl, c_y cl, c_w cl, c_h cl) false W
              else W)) in
        showhide l' W'
      else showhide l' W
  end.

Definition showhide_mon (mi : nat) (W : World) : World :=
  with_mon mi W (fun m => showhide (m_stack m) W).

(** [arrange(m)]; [None] is the null pointer, for all monitors. *)
Definition arrange (om : option nat) (W : World) : World :=
  match om with
  | Some mi => arrangemon mi (showhide_mon mi W)
  | None =>
      let all := seq 0 (length (mons W)) in
      fold_left (fun W mi => arrangemon mi W) all
        (fold_left (fun W mi => showhide_mon mi W) all W)
  end.

(* ================================================================= *)
(** ** Tags and views *)

(** The assignments of [view] to [selmon], once its guard is passed:
    [selmon->seltags ^= 1], and the new mask stored if it is not empty. *)
Definition view_flip (cfg : Config) (ui : Z) (m : Monitor) : Monitor :=
  let m1 := set_m_seltags (Z.lxor (m_seltags m) 1) m in
  if truthy (Z.land ui (TAGMASK cfg))
  then set_m_tagset (m_seltags m1) (Z.land ui (TAGMASK cfg)) m1
  else m1.

Definition view (cfg : Config) (ui : Z) (W : World) : World :=
  with_mon (selmon W) W (fun m =>
    if Z.land ui (TAGMASK cfg) =? cur_tagset m then W
    else
      let W1 := focus None (upd_mon (selmon W) (view_flip cfg ui) W) in
      arrange (Some (selmon W1)) W1).

(** The slot that is not the active one: the previous view. *)
Definition prev_tagset (m : Monitor) : Z :=
  m_tagset m (Z.lxor (m_seltags m) 1).

Definition toggleview (cfg : Config) (ui : Z) (W : World) : World :=
  with_mon (selmon W) W (fun m =>
    let newtagset := Z.lxor (cur_tagset m) (Z.land ui (TAGMASK cfg)) in
    if truthy newtagset then
      let W1 :=
        focus None
          (upd_mon (selmon W) (fun m => set_m_tagset (m_seltags m) newtagset m) W) in
      arrange (Some (selmon W1)) W1
    else W).

Definition tag (cfg : Config) (ui : Z) (W : World) : World :=
  match selmon_sel W with
  | Some s =>
      if truthy (Z.land ui (TAGMASK cfg)) then
        let W1 :=
          focus None (upd_client s (set_c_tags (Z.land ui (TAGMASK cfg))) W) in
        arrange (Some (selmon W1)) W1
      else W
  | None => W
  end.

Definition toggletag (cfg : Config) (ui : Z) (W : World) : World :=
  match selmon_sel W with
  | Some s =>
      with_client s W (fun cl =>
        let newtags := Z.lxor (c_tags cl) (Z.land ui (TAGMASK cfg)) in
        if truthy newtags then
          let W1 := focus None (upd_client s (set_c_tags newtags) W) in
          arrange (Some (selmon W1)) W1
        else W)
  | None => W
  end.

(** [shiftmask]: a circular shift of the mask by [dir] places, on an
    [unsigned int] (a shift by more than the number of tags is undefined
    in C). *)
Definition shiftmask (cfg : Config) (m dir : Z) : Z :=
  if dir >? 0
  then u32 (Z.lor (u32 (Z.shiftl m dir)) (Z.shiftr m (cfg_ntags cfg - dir)))
  else u32 (Z.lor (Z.shiftr m (- dir)) (u32 (Z.shiftl m (cfg_ntags cfg + dir)))).

Definition shiftview (cfg : Config) (i : Z) (W : World) : World :=
  with_mon (selmon W) W (fun m => view cfg (shiftmask cfg (cur_tagset m) i) W).

Definition tagrel (cfg : Config) (i : Z) (W : World) : World :=
  match selmon_sel W with
  | Some s =>
      with_client s W (fun cl => tag cfg (shiftmask cfg (c_tags cl) i) W)
  | None => W
  end.

(* ================================================================= *)
(** ** Monitors: direction, focus, sending clients *)

(** The loop of [dirtomon] over the monitors, numbered from [i] on; the
    accumulator is [(nearest, faraway, min_d_pos, min_d_neg)]. *)
Fixpoint dirtomon_loop (sm : Monitor) (dir : Z) (l : list Monitor) (i : nat)
    (acc : nat * nat * Z * Z) : nat * nat * Z * Z :=
  match l with
  | [] => acc
  | m :: l' =>
      let '(nearest, faraway, min_d_pos, min_d_neg) := acc in
      let d0 := if (dir >? 1) || (dir <? -1)
                then m_my m - m_my sm else m_mx m - m_mx sm in
      let d := d0 * dir in
      let acc' :=
        if d >? 0 then
          if (min_d_pos =? 0) || (d <? min_d_pos)
          then (i, faraway, d, min_d_neg) else acc
        else if d <? 0 then
          if (min_d_neg =? 0) || (d <? min_d_neg)
          then (nearest, i, min_d_pos, d) else acc
        else acc in
      dirtomon_loop sm dir l' (S i) acc'
  end.

Definition dirtomon_dir (dir : Z) (W : World) : nat :=
  match mons W !! selmon W with
  | Some sm =>
      let '(nearest, faraway, _, _) :=
        dirtomon_loop sm dir (mons W) 0%nat (selmon W, selmon W, 0, 0) in
      if decide (nearest = selmon W) then faraway else nearest
  | None => selmon W
  end.

Definition dirtomon (dir : Z) (W : World) : nat :=
  if dir =? 0 then
    match prevmon W with
    | Some m => m
    | None => dirtomon_dir 1 W
    end
  else dirtomon_dir dir W.

(** [!mons->next] *)
Definition single_monitor (W : World) : bool :=
  match mons W with
  | _ :: _ :: _ => false
  | _ => true
  end.

Definition focusmon (i : Z) (W : World) : World :=
  if single_monitor W then W
  else
    let m := dirtomon i W in
    if decide (m = selmon W) then W
    else
      let W1 := unfocus (selmon_sel W) false W in
      focus None (set_selmon m (set_prevmon (Some (selmon W1)) W1)).

(** [(int)(0.5 * n)] for an [int] [n]. *)
Definition half_of (n : Z) : Z := F64.to_int (F64.mul F64.half (F64.of_int n)).

Definition focusmonwarp (i : Z) (W : World) : World :=
  let W1 :=
    match selmon_sel W with
    | Some s =>
        with_client s W (fun cl =>
          upd_mon (selmon W)
            (fun m => set_m_lmy (c_y cl + half_of (c_h cl))
                        (set_m_lmx (c_x cl + half_of (c_w cl)) m)) W)
    | None => W
    end in
  focusmon i W1.

Definition sendmon (c : Z) (m : nat) (W : World) : World :=
  with_client c W (fun cl =>
    if decide (c_mon cl = m) then W
    else
      let W1 := detachstack c (detach c (unfocus (Some c) true W)) in
      let W2 := upd_client c (set_c_mon m) W1 in
      let W3 :=
        with_mon m W2 (fun tm => upd_client c (set_c_tags (cur_tagset tm)) W2) in
      arrange None (focus None (attachstack c (attach c W3)))).

Definition tagmon (i : Z) (W : World) : World :=
  match selmon_sel W with
  | Some s => if single_monitor W then W else sendmon s (dirtomon i W) W
  | None => W
  end.

(* ================================================================= *)
(** ** Moving along and inside the client list *)

(** The part of a chain before, and after, the first occurrence of [c]. *)
Fixpoint chain_before (c : Z) (l : list Z) : list Z :=
  match l with
  | [] => []
  | a :: l' => if a =? c then [] else a :: chain_before c l'
  end.

Fixpoint chain_after (c : Z) (l : list Z) : list Z :=
  match l with
  | [] => []
  | a :: l' => if a =? c then l' else chain_after c l'
  end.

(** The last client of a chain that passes a test (a loop that keeps
    overwriting its result). *)
Definition find_last (p : Z -> bool) (l : list Z) : option Z :=
  List.find p (rev l).

(** The client that [focusstack] and [movestack] move to from [s]: the
    next (or the previous) client passing the test, wrapping around. *)
Definition stack_neighbour (p : Z -> bool) (i s : Z) (l : list Z) : option Z :=
  if i >? 0 then
    match List.find p (chain_after s l) with
    | Some c => Some c
    | None => List.find p l
    end
  else
    match find_last p (chain_before s l) with
    | Some c => Some c
    | None => find_last p (s :: chain_after s l)
    end.

Definition focusstack (i : Z) (W : World) : World :=
  match mons W !! selmon W with
  | Some m =>
      match m_sel m with
      | Some s =>
          match stack_neighbour (ISVISIBLE W) i s (m_clients m) with
          | Some c => focus (Some c) W
          | None => W
          end
      | None => W
      end
  | None => W
  end.

(** Exchanging the places of [a] and [b] in a chain, which is what the
    pointer surgery of [movestack] does to [selmon->clients]. *)
Definition swap_clients (a b : Z) (l : list Z) : list Z :=
  map (fun c => if c =? a then b else if c =? b then a else c) l.

Definition movestack (i : Z) (W : World) : World :=
  match mons W !! selmon W with
  | Some m =>
      match m_sel m with
      | Some s =>
          let p c :=
            ISVISIBLE W c &&
            match store W !! c with
            | Some cl => negb (c_isfloating cl)
            | None => false
            end in
          match stack_neighbour p i s (m_clients m) with
          | Some c =>
              if c =? s then W
              else
                arrange (Some (selmon W))
                  (upd_mon (selmon W)
                     (fun m => set_m_clients (swap_clients s c (m_clients m)) m) W)
          | None => W
          end
      | None => W
      end
  | None => W
  end.

Definition pop (c : Z) (W : World) : World :=
  let W1 := focus (Some c) (attach c (detach c W)) in
  with_client c W1 (fun cl => arrange (Some (c_mon cl)) W1).

(** [swapfocus].  Without a previous client the loop ends on the null
    pointer, which is [prevclient]: after [focus(NULL)] the source reads
    [c->mon] through it, a crash. *)
Definition swapfocus (W : World) : World :=
  with_mon (selmon W) W (fun m =>
    match prevclient W with
    | Some p =>
        if bool_decide (p ∈ m_clients m) then focus (Some p) W else W
    | None => W
    end).

(* ================================================================= *)
(** ** Layout parameters, floating and fullscreen *)

Definition setlayout (arg : option Layout) (W : World) : World :=
  let W1 :=
    match arg with
    | Some l => upd_mon (selmon W) (set_m_lt l) W
    | None => W
    end in
  match selmon_sel W1 with
  | Some _ => arrange (Some (selmon W1)) W1
  | None => W1
  end.

Definition setmfact (arg : float32) (W : World) : World :=
  with_mon (selmon W) W (fun m =>
    if lt_floating m then W
    else
      let one := F64.of_int 1 in
      let f :=
        F64.to_f32
          (if F64.ltb (F64.of_f32 arg) one
           then F64.of_f32 (F32.add arg (m_mfact m))
           else F64.sub (F64.of_f32 arg) one) in
      if F64.ltb (F64.of_f32 f) (F64.ratio 1 10)
         || F64.ltb (F64.ratio 9 10) (F64.of_f32 f)
      then W
      else arrange (Some (selmon W)) (upd_mon (selmon W) (set_m_mfact f) W)).

Definition incnmaster (i : Z) (W : World) : World :=
  arrange (Some (selmon W))
    (upd_mon (selmon W) (fun m => set_m_nmaster (MAX (m_nmaster m + i) 0) m) W).

Definition updatebarpos (bh : Z) (m : Monitor) : Monitor :=
  let m := set_m_wh (m_mh m) (set_m_wy (m_my m) m) in
  if m_showbar m then
    let m := set_m_wh (m_wh m - bh) m in
    let m := set_m_by (if m_topbar m then m_wy m else m_wy m + m_wh m) m in
    set_m_wy (if m_topbar m then m_wy m + bh else m_wy m) m
  else set_m_by (- bh) m.

Definition togglebar (W : World) : World :=
  arrange (Some (selmon W))
    (upd_mon (selmon W)
       (fun m => updatebarpos (bh W) (set_m_showbar (negb (m_showbar m)) m)) W).

Definition togglefloating (W : World) : World :=
  match selmon_sel W with
  | Some s =>
      with_client s W (fun cl =>
        if c_isfullscreen cl then W
        else
          let fl := negb (c_isfloating cl) || c_isfixed cl in
          let W1 := upd_client s (set_c_isfloating fl) W in
          let W2 := if fl
                    then resize s (c_x cl, c_y cl, c_w cl, c_h cl) false W1
                    else W1 in
          arrange (Some (selmon W2)) W2)
  | None => W
  end.

Definition setfullscreen (c : Z) (fullscreen : bool) (W : World) : World :=
  with_client c W (fun cl =>
    if fullscreen then
      let W1 :=
        upd_client c
          (fun cl => set_c_isfloating true
                       (set_c_bw 0
                          (set_c_oldbw (c_bw cl)
                             (set_c_oldstate (c_isfloating cl)
                                (set_c_isfullscreen true cl))))) W in
      with_mon (c_mon cl) W1 (fun m =>
        resizeclient c (m_mx m, m_my m, m_mw m, m_mh m) W1)
    else
      let W1 :=
        upd_client c
          (fun cl => set_c_h (c_oldh cl)
                       (set_c_w (c_oldw cl)
                          (set_c_y (c_oldy cl)
                             (set_c_x (c_oldx cl)
                                (set_c_bw (c_oldbw cl)
                                   (set_c_isfloating (c_oldstate cl)
                                      (set_c_isfullscreen false cl))))))) W in
      let W2 :=
        with_client c W1 (fun cl1 =>
          resizeclient c (c_x cl1, c_y cl1, c_w cl1, c_h cl1) W1) in
      arrange (Some (c_mon cl)) W2).

Definition togglefullscreen (W : World) : World :=
  match selmon_sel W with
  | Some c =>
      with_client c W (fun cl => setfullscreen c (negb (c_isfullscreen cl)) W)
  | None => W
  end.

(** The guard shared by [centerfloater] and [maximizefloater]. *)
Definition floater_guard (W : World)
    (k : Z -> Client -> Monitor -> World) : World :=
  match selmon_sel W with
  | Some s =>
      with_client s W (fun cl =>
        with_mon (selmon W) W (fun m =>
          if c_isfullscreen cl || negb (c_isfloating cl || lt_floating m)
          then W else k s cl m))
  | None => W
  end.

(** [wx + 0.5 * n], a [double], passed for an [int]. *)
Definition plus_half_of (a n : Z) : Z :=
  F64.to_int (F64.add (F64.of_int a) (F64.mul F64.half (F64.of_int n))).

Definition centerfloater (W : World) : World :=
  floater_guard W (fun s cl m =>
    resize s
      (plus_half_of (m_wx m) (m_ww m - c_w cl - 2 * c_bw cl),
       plus_half_of (m_wy m) (m_wh m - c_h cl - 2 * c_bw cl),
       c_w cl, c_h cl) false W).

Definition maximizefloater (W : World) : World :=
  floater_guard W (fun s cl m =>
    resize s
      (m_wx m + gappx W, m_wy m + gappx W,
       m_ww m - 2 * c_bw cl - 2 * gappx W,
       m_wh m - 2 * c_bw cl - 2 * gappx W) false W).

Definition modgap (i : Z) (W : World) : World :=
  let g := gappx W + i in
  let W1 := set_gappx (if g <? 0 then 0 else g) W in
  fold_left (fun W mi => arrange (Some mi) W) (seq 0 (length (mons W1))) W1.

Definition quit (W : World) : World := set_running false W.

Definition restart (W : World) : World :=
  set_running false (set_dorestart true W).

(* ================================================================= *)
(** ** What [manage] reads from the server *)

Record XWindowAttributes : Type := MkXWindowAttributes {
  wa_x : Z;
  wa_y : Z;
  wa_width : Z;
  wa_height : Z;
  wa_border_width : Z;
  wa_override_redirect : bool
}.

(** The fields of [XSizeHints] that [updatesizehints] reads, with the
    flags it tests; the aspect ratios are pairs of [int]s. *)
Record XSizeHints : Type := MkXSizeHints {
  sz_PBaseSize : bool;
  sz_PMinSize : bool;
  sz_PResizeInc : bool;
  sz_PMaxSize : bool;
  sz_PAspect : bool;
  sz_base_width : Z;
  sz_base_height : Z;
  sz_min_width : Z;
  sz_min_height : Z;
  sz_width_inc : Z;
  sz_height_inc : Z;
  sz_max_width : Z;
  sz_max_height : Z;
  sz_min_aspect : Z * Z;          (* (x, y) *)
  sz_max_aspect : Z * Z
}.

Record XWMHints : Type := MkXWMHints {
  wmh_urgency : bool;             (* flags & XUrgencyHint *)
  wmh_inputhint : bool;           (* flags & InputHint *)
  wmh_input : bool
}.

(** The properties of a window, as the calls of Xlib return them. *)
Record WinProps : Type := MkWinProps {
  wp_name : string;                   (* _NET_WM_NAME, else WM_NAME *)
  wp_transient : option Z;            (* XGetTransientForHint, when it succeeds *)
  wp_class : option string;           (* XGetClassHint: res_class *)
  wp_instance : option string;        (* XGetClassHint: res_name *)
  wp_state_fullscreen : bool;         (* _NET_WM_STATE is _NET_WM_STATE_FULLSCREEN *)
  wp_type_dialog : bool;              (* _NET_WM_WINDOW_TYPE is ..._DIALOG *)
  wp_normal_hints : option XSizeHints;(* XGetWMNormalHints *)
  wp_wm_hints : option XWMHints       (* XGetWMHints *)
}.

(** The struct that [calloc] returns, with [c->win = w]. *)
Definition new_client (w : Z) : Client := {|
  c_name := ""; c_mina := F32.zero; c_maxa := F32.zero;
  c_x := 0; c_y := 0; c_w := 0; c_h := 0;
  c_oldx := 0; c_oldy := 0; c_oldw := 0; c_oldh := 0;
  c_basew := 0; c_baseh := 0; c_incw := 0; c_inch := 0;
  c_maxw := 0; c_maxh := 0; c_minw := 0; c_minh := 0;
  c_bw := 0; c_oldbw := 0; c_tags := 0;
  c_isfixed := false; c_isfloating := false; c_isurgent := false;
  c_neverfocus := false; c_oldstate := false; c_isfullscreen := false;
  c_sizehints := false; c_mon := 0%nat; c_win := w
|}.

(** [strstr(s, sub)] is not null. *)
Definition strstr (s sub : string) : bool :=
  match String.index 0 sub s with
  | Some _ => true
  | None => false
  end.

(** [wintoclient]: the search of the client lists of all monitors. *)
Definition wintoclient (W : World) (w : Z) : option Z :=
  if existsb (fun m => bool_decide (w ∈ m_clients m)) (mons W)
  then Some w else None.

(** [updatetitle]; an empty name marks a broken client. *)
Definition updatetitle (name : string) (c : Client) : Client :=
  set_c_name (if String.eqb name "" then "broken"%string else name) c.

(* ================================================================= *)
(** ** Rules and the management of a window *)

Definition rule_matches (r : Rule) (name class instance : string) : bool :=
  match r_title r with None => true | Some s => strstr name s end
  && match r_class r with None => true | Some s => strstr class s end
  && match r_instance r with None => true | Some s => strstr instance s end.

(** The monitor whose [num] is [n]:
    [for(m = mons; m && m->num != r->monitor; m = m->next);] *)
Fixpoint mon_by_num (n : Z) (l : list Monitor) (i : nat) : option nat :=
  match l with
  | [] => None
  | m :: l' => if m_num m =? n then Some i else mon_by_num n l' (S i)
  end.

(** The loop of [applyrules] over the rule table. *)
Fixpoint applyrules_loop (W : World) (class instance : string)
    (rs : list Rule) (c : Client) : Client :=
  match rs with
  | [] => c
  | r :: rs' =>
      let c' :=
        if rule_matches r (c_name c) class instance then
          let c1 := set_c_tags (Z.lor (c_tags c) (r_tags r))
                      (set_c_sizehints (r_sizehints r)
                         (set_c_isfloating (r_isfloating r) c)) in
          match mon_by_num (r_monitor r) (mons W) 0%nat with
          | Some m => set_c_mon m c1
          | None => c1
          end
        else c in
      applyrules_loop W class instance rs' c'
  end.

Definition applyrules (cfg : Config) (W : World) (p : WinProps) (c : Client)
    : Client :=
  let c0 := set_c_sizehints (cfg_sizehints_default cfg)
              (set_c_tags 0 (set_c_isfloating false c)) in
  let class := default "broken"%string (wp_class p) in
  let instance := default "broken"%string (wp_instance p) in
  let c1 := applyrules_loop W class instance (cfg_rules cfg) c0 in
  let t := Z.land (c_tags c1) (TAGMASK cfg) in
  set_c_tags
    (if truthy t then t
     else match mons W !! c_mon c1 with
          | Some m => cur_tagset m
          | None => 0
          end) c1.

(** The assignments of [setfullscreen(c, True)] to the struct, for a
    client of the monitor [m]. *)
Definition fullscreen_fields (m : Monitor) (c : Client) : Client :=
  resizeclient_fields (m_mx m, m_my m, m_mw m, m_mh m)
    (set_c_isfloating true
       (set_c_bw 0
          (set_c_oldbw (c_bw c)
             (set_c_oldstate (c_isfloating c)
                (set_c_isfullscreen true c))))).

Definition updatewindowtype_new (m : Monitor) (p : WinProps) (c : Client)
    : Client :=
  let c1 := if wp_state_fullscreen p then fullscreen_fields m c else c in
  if wp_type_dialog p then set_c_isfloating true c1 else c1.

Definition no_size_hints : XSizeHints :=
  MkXSizeHints false false false false false 0 0 0 0 0 0 0 0 (0, 0) (0, 0).

Definition updatesizehints (oh : option XSizeHints) (c : Client) : Client :=
  let sz := default no_size_hints oh in
  let '(basew, baseh) :=
    if sz_PBaseSize sz then (sz_base_width sz, sz_base_height sz)
    else if sz_PMinSize sz then (sz_min_width sz, sz_min_height sz)
    else (0, 0) in
  let '(incw, inch) :=
    if sz_PResizeInc sz then (sz_width_inc sz, sz_height_inc sz) else (0, 0) in
  let '(maxw, maxh) :=
    if sz_PMaxSize sz then (sz_max_width sz, sz_max_height sz) else (0, 0) in
  let '(minw, minh) :=
    if sz_PMinSize sz then (sz_min_width sz, sz_min_height sz)
    else if sz_PBaseSize sz then (sz_base_width sz, sz_base_height sz)
    else (0, 0) in
  let '(mina, maxa) :=
    if sz_PAspect sz then
      (F32.div (F32.of_int (snd (sz_min_aspect sz)))
               (F32.of_int (fst (sz_min_aspect sz))),
       F32.div (F32.of_int (fst (sz_max_aspect sz)))
               (F32.of_int (snd (sz_max_aspect sz))))
    else (F32.zero, F32.zero) in
  let isfixed :=
    truthy maxw && truthy minw && truthy maxh && truthy minh
    && (maxw =? minw) && (maxh =? minh) in
  set_c_isfixed isfixed
    (set_c_maxa maxa (set_c_mina mina
      (set_c_minh minh (set_c_minw minw
        (set_c_maxh maxh (set_c_maxw maxw
          (set_c_inch inch (set_c_incw incw
            (set_c_baseh baseh (set_c_basew basew c)))))))))).

(** [updatewmhints]; [is_sel] is the test [c == selmon->sel]. *)
Definition updatewmhints (oh : option XWMHints) (is_sel : bool) (c : Client)
    : Client :=
  match oh with
  | Some wmh =>
      let c1 := if is_sel && wmh_urgency wmh then c
                else set_c_isurgent (wmh_urgency wmh) c in
      set_c_neverfocus
        (if wmh_inputhint wmh then negb (wmh_input wmh) else false) c1
  | None => c
  end.

(** The first statements of [manage]: the new struct gets its title,
    and its monitor and tags either from the managed client [t] that the
    transient-for hint names, or from [selmon] and the rules. *)
Definition manage_origin (cfg : Config) (W : World) (w : Z) (p : WinProps)
    (t : option Client) : Client :=
  let c := updatetitle (wp_name p) (new_client w) in
  match t with
  | Some tc => set_c_tags (c_tags tc) (set_c_mon (c_mon tc) c)
  | None => applyrules cfg W p (set_c_mon (selmon W) c)
  end.

(** The client that [manage] builds before it attaches it. *)
Definition manage_client (cfg : Config) (W : World) (w : Z)
    (wa : XWindowAttributes) (p : WinProps) (t : option Client) : Client :=
  let c := manage_origin cfg W w p t in
  let c := set_c_oldbw (wa_border_width wa)
             (set_c_oldh (wa_height wa) (set_c_h (wa_height wa)
               (set_c_oldw (wa_width wa) (set_c_w (wa_width wa)
                 (set_c_oldy (wa_y wa) (set_c_y (wa_y wa)
                   (set_c_oldx (wa_x wa) (set_c_x (wa_x wa) c)))))))) in
  match mons W !! c_mon c with
  | None => c
  | Some m =>
      let b := cfg_borderpx cfg in
      let c := if c_x c + c_w c + 2 * b >? m_mx m + m_mw m
               then set_c_x (m_mx m + m_mw m - c_w c - 2 * b) c else c in
      let c := if c_y c + c_h c + 2 * b >? m_my m + m_mh m
               then set_c_y (m_my m + m_mh m - c_h c - 2 * b) c else c in
      let c := set_c_x (MAX (c_x c) (m_mx m)) c in
      let c := set_c_y
                 (MAX (c_y c) (m_my m + (if m_topbar m then bh W else 0))) c in
      let c := if (wa_x wa =? 0) && (wa_y wa =? 0)
               then set_c_y (c_y c + gappx W) (set_c_x (c_x c + gappx W) c)
               else c in
      let c := set_c_bw b c in
      let c := updatewindowtype_new m p c in
      let c := updatesizehints (wp_normal_hints p) c in
      let c := updatewmhints (wp_wm_hints p) false c in
      if c_isfloating c then c
      else
        let f := negb (default 0 (wp_transient p) =? 0) || c_isfixed c in
        set_c_oldstate f (set_c_isfloating f c)
  end.

(** The managed client that the transient-for hint of a new window names:
    [XGetTransientForHint(dpy, w, &trans) && (t = wintoclient(trans))]. *)
Definition transient_parent (W : World) (p : WinProps) : option Client :=
  match wp_transient p with
  | Some tr =>
      match wintoclient W tr with
      | Some t => store W !! t
      | None => None
      end
  | None => None
  end.

(** [manage]; the struct enters the store when it is attached.  Its
    [mon] has to point to a monitor. *)
Definition manage (cfg : Config) (w : Z) (wa : XWindowAttributes)
    (p : WinProps) (W : World) : World :=
  let c := manage_client cfg W w wa p (transient_parent W p) in
  with_mon (c_mon c) W (fun _ =>
    let W1 := attachstack w (attach w (set_store (<[w := c]> (store W)) W)) in
    let W2 := if decide (c_mon c = selmon W1)
              then unfocus (selmon_sel W1) false W1 else W1 in
    let W3 := upd_mon (c_mon c) (set_m_sel (Some w)) W2 in
    focus None (arrange (Some (c_mon c)) W3)).

(** [unmanage]; [free(c)] removes the struct from the store. *)
Definition unmanage (c : Z) (destroyed : bool) (W : World) : World :=
  with_client c W (fun cl =>
    let W1 := detachstack c (detach c W) in
    let W2 := set_store (delete c (store W1)) W1 in
    arrange (Some (c_mon cl)) (focus None W2)).

(* ================================================================= *)
(** ** The monitors *)

Definition createmon (cfg : Config) : Monitor := {|
  m_mfact := cfg_mfact cfg;
  m_nmaster := cfg_nmaster cfg;
  m_nmaster_dynamic_max := cfg_nmaster_dynamic_max cfg;
  m_num := 0; m_by := 0;
  m_mx := 0; m_my := 0; m_mw := 0; m_mh := 0;
  m_wx := 0; m_wy := 0; m_ww := 0; m_wh := 0;
  m_lmx := 0; m_lmy := 0;
  m_seltags := 0;
  m_tagset0 := cfg_startuptags cfg;
  m_tagset1 := cfg_startuptags cfg;
  m_showbar := cfg_showbar cfg;
  m_topbar := cfg_topbar cfg;
  m_clients := []; m_sel := None; m_stack := [];
  m_barwin := 0;
  m_lt := first_layout cfg
|}.

(** [#define INTERSECT(x,y,w,h,m)] *)
Definition INTERSECT (x y w h : Z) (m : Monitor) : Z :=
  MAX 0 (MIN (x + w) (m_wx m + m_ww m) - MAX x (m_wx m))
  * MAX 0 (MIN (y + h) (m_wy m + m_wh m) - MAX y (m_wy m)).

Fixpoint recttomon_loop (x y w h : Z) (l : list Monitor) (i : nat)
    (r : nat) (area : Z) : nat :=
  match l with
  | [] => r
  | m :: l' =>
      let a := INTERSECT x y w h m in
      if a >? area then recttomon_loop x y w h l' (S i) i a
      else recttomon_loop x y w h l' (S i) r area
  end.

Definition recttomon (x y w h : Z) (W : World) : nat :=
  recttomon_loop x y w h (mons W) 0%nat (selmon W) 0.

(** The position of the first monitor whose bar is the window [w]. *)
Fixpoint mon_by_barwin (w : Z) (l : list Monitor) (i : nat) : option nat :=
  match l with
  | [] => None
  | m :: l' => if w =? m_barwin m then Some i else mon_by_barwin w l' (S i)
  end.

(** [wintomon(w)]; [ptr] is what [getrootptr] gives, when it succeeds. *)
Definition wintomon (w : Z) (ptr : option (Z * Z)) (W : World) : nat :=
  match (if w =? root W then ptr else None) with
  | Some (x, y) => recttomon x y 1 1 W
  | None =>
      match mon_by_barwin w (mons W) 0%nat with
      | Some m => m
      | None =>
          match wintoclient W w with
          | Some c =>
              match store W !! c with
              | Some cl => c_mon cl
              | None => selmon W
              end
          | None => selmon W
          end
      end
  end.

(** [updatebars]: a monitor without a bar gets one; [newwin i] is the
    window that the server creates for the monitor at position [i]. *)
Definition updatebars (newwin : nat -> Z) (W : World) : World :=
  set_mons
    (imap (fun i m => if m_barwin m =? 0 then set_m_barwin (newwin i) m else m)
       (mons W)) W.

Record XineramaScreenInfo : Type := MkXineramaScreenInfo {
  x_org : Z;
  y_org : Z;
  xi_width : Z;
  xi_height : Z
}.

Definition same_geom (a b : XineramaScreenInfo) : bool :=
  (x_org a =? x_org b) && (y_org a =? y_org b)
  && (xi_width a =? xi_width b) && (xi_height a =? xi_height b).

Definition isuniquegeom (unique : list XineramaScreenInfo)
    (info : XineramaScreenInfo) : bool :=
  negb (existsb (fun u => same_geom u info) unique).

(** The screens with a geometry of their own, in the order of the query. *)
Definition unique_geoms (info : list XineramaScreenInfo)
    : list XineramaScreenInfo :=
  fold_left (fun unique i => if isuniquegeom unique i then unique ++ [i]
                             else unique) info [].

Definition geom_differs (u : XineramaScreenInfo) (m : Monitor) : bool :=
  negb ((x_org u =? m_mx m) && (y_org u =? m_my m)
        && (xi_width u =? m_mw m) && (xi_height u =? m_mh m)).

(** The assignments of [updategeom] to the monitor at position [i] whose
    screen is [u]. *)
Definition set_geom (bh : Z) (i : nat) (u : XineramaScreenInfo) (m : Monitor)
    : Monitor :=
  let m := set_m_num (Z.of_nat i) m in
  let m := set_m_wx (x_org u) (set_m_mx (x_org u) m) in
  let m := set_m_wy (y_org u) (set_m_my (y_org u) m) in
  let m := set_m_ww (xi_width u) (set_m_mw (xi_width u) m) in
  let m := set_m_wh (xi_height u) (set_m_mh (xi_height u) m) in
  let m := set_m_lmx (m_wx m + half_of (m_ww m)) m in
  let m := set_m_lmy (m_wy m + half_of (m_wh m)) m in
  updatebarpos bh m.

(** Is the monitor at position [i] one that the geometry loop updates? *)
Definition geom_dirty (n : nat) (unique : list XineramaScreenInfo)
    (i : nat) (m : Monitor) : bool :=
  match unique !! i with
  | Some u => (n <=? i)%nat || geom_differs u m
  | None => false
  end.

(** The branch [n <= nn] of [updategeom]: new monitors are appended, and
    the geometries brought up to date. *)
Definition updategeom_grow (cfg : Config) (n : nat)
    (unique : list XineramaScreenInfo) (W : World) : World * bool :=
  let ms := mons W ++ replicate (length unique - n)%nat (createmon cfg) in
  let dirty := existsb (fun b : bool => b) (imap (geom_dirty n unique) ms) in
  let upd i m :=
    match unique !! i with
    | Some u => if geom_dirty n unique i m then set_geom (bh W) i u m else m
    | None => m
    end in
  (set_mons (imap upd ms) W, dirty).

(** One turn of the loop that empties the monitor at position [last]:
    [c = m->clients; m->clients = c->next; detachstack(c); c->mon = mons;
     attach(c); attachstack(c);] *)
Definition drain_one (c : Z) (last : nat) (W : World) : World :=
  let W1 := upd_mon last (fun m => set_m_clients (tail (m_clients m)) m) W in
  let W2 := detachstack c W1 in
  let W3 := upd_client c (set_c_mon 0%nat) W2 in
  attachstack c (attach c W3).

(** [while(m->clients) ...], for at most [fuel] turns.  When [m] is not
    the first monitor every turn shortens [m->clients], and the length of
    that list is fuel enough. *)
Fixpoint drain (fuel : nat) (last : nat) (W : World) : World :=
  match fuel with
  | O => W
  | S k =>
      match mons W !! last with
      | Some m =>
          match m_clients m with
          | c :: _ => drain k last (drain_one c last W)
          | [] => W
          end
      | None => W
      end
  end.

(** One turn of the loop of the branch [nn < n]: the last monitor is
    emptied into the first and freed. *)
Definition remove_last_mon (Wd : World * bool) : World * bool :=
  let '(W, dirty) := Wd in
  let last := (length (mons W) - 1)%nat in
  match mons W !! last with
  | Some m =>
      let W1 := drain (length (m_clients m)) last W in
      let W2 := if decide (last = selmon W1) then set_selmon 0%nat W1 else W1 in
      (set_mons (take last (mons W2)) W2,
       dirty || match m_clients m with [] => false | _ => true end)
  | None => Wd
  end.

(** [updategeom]; [xin] is the answer of [XineramaQueryScreens] when
    Xinerama is active, [ptr] that of [getrootptr].  The result carries
    the returned flag. *)
Definition updategeom (cfg : Config) (xin : option (list XineramaScreenInfo))
    (ptr : option (Z * Z)) (W : World) : World * bool :=
  let W := set_prevmon None W in
  let '(W1, dirty) :=
    match xin with
    | Some info =>
        let n := length (mons W) in
        let unique := unique_geoms info in
        if (n <=? length unique)%nat
        then updategeom_grow cfg n unique W
        else Nat.iter (n - length unique) remove_last_mon (W, false)
    | None =>
        let W0 := match mons W with
                  | [] => set_mons [createmon cfg] W
                  | _ => W
                  end in
        match mons W0 !! 0%nat with
        | Some m =>
            if negb (m_mw m =? sw W0) || negb (m_mh m =? sh W0) then
              (upd_mon 0%nat
                 (fun m => updatebarpos (bh W0)
                             (set_m_wh (sh W0) (set_m_mh (sh W0)
                               (set_m_ww (sw W0) (set_m_mw (sw W0) m))))) W0,
               true)
            else (W0, false)
        | None => (W0, false)
        end
    end in
  if dirty then
    let W2 := set_selmon 0%nat W1 in
    (set_selmon (wintomon (root W2) ptr W2) W2, true)
  else (W1, false).

(* ================================================================= *)
(** ** Requests of clients *)

Record XConfigureRequestEvent : Type := MkXConfigureRequestEvent {
  cr_window : Z;
  cr_value_mask : Z;
  cr_x : Z;
  cr_y : Z;
  cr_width : Z;
  cr_height : Z;
  cr_border_width : Z
}.

(** The bits of [value_mask], from [X.h]. *)
Definition CWX : Z := 1.
Definition CWY : Z := 2.
Definition CWWidth : Z := 4.
Definition CWHeight : Z := 8.
Definition CWBorderWidth : Z := 16.

(** The assignments of [configurerequest] to a floating client of the
    monitor [m]; [/] of C truncates. *)
Definition configurerequest_fields (ev : XConfigureRequestEvent) (m : Monitor)
    (c : Client) : Client :=
  let has b := truthy (Z.land (cr_value_mask ev) b) in
  let c := if has CWX
           then set_c_x (m_mx m + cr_x ev) (set_c_oldx (c_x c) c) else c in
  let c := if has CWY
           then set_c_y (m_my m + cr_y ev) (set_c_oldy (c_y c) c) else c in
  let c := if has CWWidth
           then set_c_w (cr_width ev) (set_c_oldw (c_w c) c) else c in
  let c := if has CWHeight
           then set_c_h (cr_height ev) (set_c_oldh (c_h c) c) else c in
  let c := if (c_x c + c_w c >? m_mx m + m_mw m) && c_isfloating c
           then set_c_x (m_mx m + (Z.quot (m_mw m) 2 - Z.quot (WIDTH c) 2)) c
           else c in
  if (c_y c + c_h c >? m_my m + m_mh m) && c_isfloating c
  then set_c_y (m_my m + (Z.quot (m_mh m) 2 - Z.quot (HEIGHT c) 2)) c
  else c.

Definition configurerequest (ev : XConfigureRequestEvent) (W : World) : World :=
  match wintoclient W (cr_window ev) with
  | Some c =>
      with_client c W (fun cl =>
        if truthy (Z.land (cr_value_mask ev) CWBorderWidth)
        then upd_client c (set_c_bw (cr_border_width ev)) W
        else
          with_mon (selmon W) W (fun sm =>
            if c_isfloating cl || lt_floating sm then
              with_mon (c_mon cl) W (fun m =>
                upd_client c (configurerequest_fields ev m) W)
            else W))
  | None => W
  end.

(** [maprequest]; [wa] is the answer of [XGetWindowAttributes], when it
    succeeds. *)
Definition maprequest (cfg : Config) (w : Z) (wa : option XWindowAttributes)
    (p : WinProps) (W : World) : World :=
  match wa with
  | None => W
  | Some a =>
      if wa_override_redirect a then W
      else
        match wintoclient W w with
        | Some _ => W
        | None => manage cfg w a p W
        end
  end.

(* ================================================================= *)
(** ** Moving and resizing with the mouse *)

(** The events that the loops of [movemouse] and [resizemouse] take from
    the queue before the button is released. *)
Inductive MouseEv : Type :=
  | MConfigureRequest (ev : XConfigureRequestEvent)
  | MExpose
  | MMapRequest (w : Z) (wa : option XWindowAttributes) (p : WinProps)
  | MMotion (x y : Z).

Definition mouse_loop (cfg : Config) (motion : Z -> Z -> World -> World)
    (evs : list MouseEv) (W : World) : World :=
  fold_left
    (fun W ev =>
       match ev with
       | MConfigureRequest e => configurerequest e W
       | MExpose => W
       | MMapRequest w wa p => maprequest cfg w wa p W
       | MMotion x y => motion x y W
       end) evs W.

(** What both functions do once the button is released. *)
Definition mouse_release (c : Z) (W : World) : World :=
  with_client c W (fun cl =>
    let m := recttomon (c_x cl) (c_y cl) (c_w cl) (c_h cl) W in
    if decide (m = selmon W) then W
    else focus None (set_selmon m (sendmon c m W))).

(** The [MotionNotify] case of [movemouse]; [(x, y)] is the pointer when
    the move began and [(ocx, ocy)] the place of the client then. *)
Definition movemouse_motion (cfg : Config) (c : Z) (ocx ocy x y : Z)
    (ex ey : Z) (W : World) : World :=
  with_client c W (fun cl =>
    with_mon (selmon W) W (fun sm =>
      let nx := ocx + (ex - x) in
      let ny := ocy + (ey - y) in
      let inside :=
        (nx >=? m_wx sm) && (nx <=? m_wx sm + m_ww sm)
        && (ny >=? m_wy sm) && (ny <=? m_wy sm + m_wh sm) in
      let nx' :=
        if Z.abs (m_wx sm - nx) <? cfg_snap cfg then m_wx sm
        else if Z.abs ((m_wx sm + m_ww sm) - (nx + WIDTH cl)) <? cfg_snap cfg
             then m_wx sm + m_ww sm - WIDTH cl
             else nx in
      let ny' :=
        if Z.abs (m_wy sm - ny) <? cfg_snap cfg then m_wy sm
        else if Z.abs ((m_wy sm + m_wh sm) - (ny + HEIGHT cl)) <? cfg_snap cfg
             then m_wy sm + m_wh sm - HEIGHT cl
             else ny in
      let '(nx, ny) := if inside then (nx', ny') else (nx, ny) in
      let W1 :=
        if inside && negb (c_isfloating cl) && negb (lt_floating sm)
           && ((Z.abs (nx - c_x cl) >? cfg_snap cfg)
               || (Z.abs (ny - c_y cl) >? cfg_snap cfg))
        then togglefloating W else W in
      with_client c W1 (fun cl1 =>
        with_mon (selmon W1) W1 (fun sm1 =>
          if lt_floating sm1 || c_isfloating cl1
          then resize c (nx, ny, c_w cl1, c_h cl1) true W1
          else W1)))).

(** [movemouse]; [grab] tells whether [XGrabPointer] succeeded and [ptr]
    is the answer of [getrootptr]. *)
Definition movemouse (cfg : Config) (grab : bool) (ptr : option (Z * Z))
    (evs : list MouseEv) (W : World) : World :=
  match selmon_sel W with
  | Some c =>
      with_client c W (fun cl =>
        if c_isfullscreen cl then W
        else if negb grab then W
        else
          match ptr with
          | None => W
          | Some (x, y) =>
              mouse_release c
                (mouse_loop cfg (movemouse_motion cfg c (c_x cl) (c_y cl) x y)
                   evs W)
          end)
  | None => W
  end.

(** The [MotionNotify] case of [resizemouse]. *)
Definition resizemouse_motion (cfg : Config) (c : Z) (ocx ocy : Z)
    (ex ey : Z) (W : World) : World :=
  with_client c W (fun cl =>
    with_mon (selmon W) W (fun sm =>
      with_mon (c_mon cl) W (fun cm =>
        let nw := MAX (ex - ocx - 2 * c_bw cl + 1) 1 in
        let nh := MAX (ey - ocy - 2 * c_bw cl + 1) 1 in
        let inside :=
          (m_wx cm + nw >=? m_wx sm) && (m_wx cm + nw <=? m_wx sm + m_ww sm)
          && (m_wy cm + nh >=? m_wy sm) && (m_wy cm + nh <=? m_wy sm + m_wh sm) in
        let W1 :=
          if inside && negb (c_isfloating cl) && negb (lt_floating sm)
             && ((Z.abs (nw - c_w cl) >? cfg_snap cfg)
                 || (Z.abs (nh - c_h cl) >? cfg_snap cfg))
          then togglefloating W else W in
        with_client c W1 (fun cl1 =>
          with_mon (selmon W1) W1 (fun sm1 =>
            if lt_floating sm1 || c_isfloating cl1
            then resize c (c_x cl1, c_y cl1, nw, nh) true W1
            else W1))))).

Definition resizemouse (cfg : Config) (grab : bool) (evs : list MouseEv)
    (W : World) : World :=
  match selmon_sel W with
  | Some c =>
      with_client c W (fun cl =>
        if c_isfullscreen cl then W
        else if negb grab then W
        else
          mouse_release c
            (mouse_loop cfg (resizemouse_motion cfg c (c_x cl) (c_y cl)) evs W))
  | None => W
  end.

(* ================================================================= *)
(** ** Actions and events *)

(** The functions that a key or a button can be bound to, with their
    argument and with what they read from the server while they run. *)
Inductive Action : Type :=
  | ASpawn
  | AKillclient
  | ATogglebar
  | AFocusstack (i : Z)
  | AIncnmaster (i : Z)
  | ASetmfact (f : float32)
  | AView (ui : Z)
  | AToggleview (ui : Z)
  | ATag (ui : Z)
  | AToggletag (ui : Z)
  | ASetlayout (l : option Layout)
  | ATogglefloating
  | ATogglefullscreen
  | AFocusmon (i : Z)
  | AFocusmonwarp (i : Z)
  | ATagmon (i : Z)
  | ACenterfloater
  | AMaximizefloater
  | AModgap (i : Z)
  | AMovestack (i : Z)
  | AShiftview (i : Z)
  | ATagrel (i : Z)
  | ASwapfocus
  | AMovemouse (grab : bool) (ptr : option (Z * Z)) (evs : list MouseEv)
  | AResizemouse (grab : bool) (evs : list MouseEv)
  | AQuit
  | ARestart.

Definition run_action (cfg : Config) (a : Action) (W : World) : World :=
  match a with
  | ASpawn | AKillclient => W
  | ATogglebar => togglebar W
  | AFocusstack i => focusstack i W
  | AIncnmaster i => incnmaster i W
  | ASetmfact f => setmfact f W
  | AView ui => view cfg ui W
  | AToggleview ui => toggleview cfg ui W
  | ATag ui => tag cfg ui W
  | AToggletag ui => toggletag cfg ui W
  | ASetlayout l => setlayout l W
  | ATogglefloating => togglefloating W
  | ATogglefullscreen => togglefullscreen W
  | AFocusmon i => focusmon i W
  | AFocusmonwarp i => focusmonwarp i W
  | ATagmon i => tagmon i W
  | ACenterfloater => centerfloater W
  | AMaximizefloater => maximizefloater W
  | AModgap i => modgap i W
  | AMovestack i => movestack i W
  | AShiftview i => shiftview cfg i W
  | ATagrel i => tagrel cfg i W
  | ASwapfocus => swapfocus W
  | AMovemouse grab ptr evs => movemouse cfg grab ptr evs W
  | AResizemouse grab evs => resizemouse cfg grab evs W
  | AQuit => quit W
  | ARestart => restart W
  end.

Definition run_actions (cfg : Config) (l : list Action) (W : World) : World :=
  fold_left (fun W a => run_action cfg a W) l W.

(** The message of a [ClientMessage] event. *)
Inductive ClientMsg : Type :=
  | NetWMStateMsg (verb : Z) (names_fullscreen : bool)
  | NetActiveWindowMsg
  | OtherMsg.

(** The property that a [PropertyNotify] event names. *)
Inductive PropAtom : Type :=
  | PropTransientFor
  | PropNormalHints
  | PropWMHints
  | PropWMName
  | PropNetWMName
  | PropNetWMWindowType
  | PropOther.

(** The events with a handler.  The bindings of keys and buttons belong
    to the configuration: a [KeyPress] carries the actions of the entries
    of [keys] that match it, a [ButtonPress] those of [buttons], for a
    click on the root window and for one on a client window. *)
Inductive Event : Type :=
  | EvButtonPress (w : Z) (ptr : option (Z * Z))
      (on_root on_client : list Action)
  | EvClientMessage (w : Z) (msg : ClientMsg)
  | EvConfigureRequest (ev : XConfigureRequestEvent)
  | EvConfigureNotify (w : Z) (width height : Z)
      (xin : option (list XineramaScreenInfo)) (ptr : option (Z * Z))
      (newwin : nat -> Z)
  | EvDestroyNotify (w : Z)
  | EvEnterNotify (w : Z) (normal inferior : bool) (ptr : option (Z * Z))
  | EvExpose
  | EvFocusIn
  | EvKeyPress (bound : list Action)
  | EvMappingNotify
  | EvMapRequest (w : Z) (wa : option XWindowAttributes) (p : WinProps)
  | EvMotionNotify (w : Z) (x_root y_root : Z)
  | EvPropertyNotify (w : Z) (deleted : bool) (atom : PropAtom) (p : WinProps)
  | EvUnmapNotify (w : Z) (send_event : bool).

(* ================================================================= *)
(** ** The event handlers *)

Definition buttonpress (cfg : Config) (w : Z) (ptr : option (Z * Z))
    (on_root on_client : list Action) (W : World) : World :=
  let m := wintomon w ptr W in
  let W1 := if decide (m = selmon W) then W
            else focus None (set_selmon m (unfocus (selmon_sel W) true W)) in
  match wintoclient W1 w with
  | Some c => run_actions cfg on_client (focus (Some c) W1)
  | None => run_actions cfg on_root W1
  end.

Definition clientmessage (w : Z) (msg : ClientMsg) (W : World) : World :=
  match wintoclient W w with
  | Some c =>
      with_client c W (fun cl =>
        match msg with
        | NetWMStateMsg verb names_fullscreen =>
            if names_fullscreen
            then setfullscreen c
                   ((verb =? 1) || ((verb =? 2) && negb (c_isfullscreen cl))) W
            else W
        | NetActiveWindowMsg =>
            let W1 :=
              if ISVISIBLE W c then W
              else
                upd_mon (c_mon cl)
                  (fun m =>
                     let m1 := set_m_seltags (Z.lxor (m_seltags m) 1) m in
                     set_m_tagset (m_seltags m1) (c_tags cl) m1) W in
            pop c W1
        | OtherMsg => W
        end)
  | None => W
  end.

Definition configurenotify (cfg : Config) (w width height : Z)
    (xin : option (list XineramaScreenInfo)) (ptr : option (Z * Z))
    (newwin : nat -> Z) (W : World) : World :=
  if w =? root W then
    let dirty := negb (sw W =? width) || negb (sh W =? height) in
    let '(W1, changed) := updategeom cfg xin ptr (set_sh height (set_sw width W)) in
    if changed || dirty
    then arrange None (focus None (updatebars newwin W1))
    else W1
  else W.

Definition destroynotify (w : Z) (W : World) : World :=
  match wintoclient W w with
  | Some c => unmanage c true W
  | None => W
  end.

Definition enternotify (w : Z) (normal inferior : bool) (ptr : option (Z * Z))
    (W : World) : World :=
  if (negb normal || inferior) && negb (w =? root W) then W
  else
    let c := wintoclient W w in
    let m := match c with
             | Some c0 =>
                 match store W !! c0 with
                 | Some cl => c_mon cl
                 | None => selmon W
                 end
             | None => wintomon w ptr W
             end in
    if decide (m = selmon W) then
      match c with
      | Some c0 => if decide (Some c0 = selmon_sel W) then W
                   else focus (Some c0) W
      | None => W
      end
    else focus c (set_selmon m (unfocus (selmon_sel W) true W)).

Definition motionnotify (w x_root y_root : Z) (W : World) : World :=
  if w =? root W then
    let m := recttomon x_root y_root 1 1 W in
    let W1 :=
      match motion_mon W with
      | Some mon =>
          if decide (m = mon) then W
          else focus None (set_selmon m (unfocus (selmon_sel W) true W))
      | None => W
      end in
    set_motion_mon (Some m) W1
  else W.

Definition propertynotify (w : Z) (deleted : bool) (atom : PropAtom)
    (p : WinProps) (W : World) : World :=
  if (w =? root W) && match atom with PropWMName => true | _ => false end
  then W
  else if deleted then W
  else
    match wintoclient W w with
    | Some c =>
        with_client c W (fun cl =>
          let W1 :=
            match atom with
            | PropTransientFor =>
                if c_isfloating cl then W
                else
                  match wp_transient p with
                  | Some tr =>
                      let fl := match wintoclient W tr with
                                | Some _ => true
                                | None => false
                                end in
                      let W' := upd_client c (set_c_isfloating fl) W in
                      if fl then arrange (Some (c_mon cl)) W' else W'
                  | None => W
                  end
            | PropNormalHints =>
                upd_client c (updatesizehints (wp_normal_hints p)) W
            | PropWMHints =>
                upd_client c
                  (updatewmhints (wp_wm_hints p)
                     (bool_decide (Some c = selmon_sel W))) W
            | _ => W
            end in
          let W2 :=
            match atom with
            | PropWMName | PropNetWMName =>
                upd_client c (updatetitle (wp_name p)) W1
            | _ => W1
            end in
          match atom with
          | PropNetWMWindowType =>
              let W3 := if wp_state_fullscreen p
                        then setfullscreen c true W2 else W2 in
              if wp_type_dialog p
              then upd_client c (set_c_isfloating true) W3 else W3
          | _ => W2
          end)
    | None => W
    end.

Definition unmapnotify (w : Z) (send_event : bool) (W : World) : World :=
  match wintoclient W w with
  | Some c => if send_event then W else unmanage c false W
  | None => W
  end.

(** [handler[ev.type](&ev)] *)
Definition handle (cfg : Config) (ev : Event) (W : World) : World :=
  match ev with
  | EvButtonPress w ptr on_root on_client =>
      buttonpress cfg w ptr on_root on_client W
  | EvClientMessage w msg => clientmessage w msg W
  | EvConfigureRequest e => configurerequest e W
  | EvConfigureNotify w width height xin ptr newwin =>
      configurenotify cfg w width height xin ptr newwin W
  | EvDestroyNotify w => destroynotify w W
  | EvEnterNotify w normal inferior ptr => enternotify w normal inferior ptr W
  | EvExpose | EvFocusIn | EvMappingNotify => W
  | EvKeyPress bound => run_actions cfg bound W
  | EvMapRequest w wa p => maprequest cfg w wa p W
  | EvMotionNotify w x_root y_root => motionnotify w x_root y_root W
  | EvPropertyNotify w deleted atom p => propertynotify w deleted atom p W
  | EvUnmapNotify w send_event => unmapnotify w send_event W
  end.

(* ================================================================= *)
(** ** Start-up and the reachable states *)

(** The globals before [setup]. *)
Definition initial_world : World := {|
  store := ∅; mons := []; selmon := 0%nat; prevmon := None;
  prevclient := None; gappx := 0; sw := 0; sh := 0; bh := 0; root := 0;
  motion_mon := None; running := true; dorestart := false
|}.

(** What [setup] learns from the display. *)
Record Display : Type := MkDisplay {
  dpy_root : Z;
  dpy_width : Z;
  dpy_height : Z;
  dpy_font_height : Z;
  dpy_xinerama : option (list XineramaScreenInfo);
  dpy_pointer : option (Z * Z);
  dpy_newwin : nat -> Z
}.

Definition setup (cfg : Config) (d : Display) : World :=
  let W := set_gappx (cfg_uselessgap cfg) initial_world in
  let W := set_root (dpy_root d) W in
  let W := set_sh (dpy_height d) (set_sw (dpy_width d) W) in
  let W := set_bh (dpy_font_height d + 3) W in
  let W := fst (updategeom cfg (dpy_xinerama d) (dpy_pointer d) W) in
  focus None (updatebars (dpy_newwin d) W).

(** An active Xinerama reports at least one screen. *)
Definition xinerama_ok (xin : option (list XineramaScreenInfo)) : Prop :=
  match xin with
  | Some l => l <> []
  | None => True
  end.

Definition valid_event (ev : Event) : Prop :=
  match ev with
  | EvConfigureNotify _ _ _ xin _ _ => xinerama_ok xin
  | _ => True
  end.

(** The states between two handler executions of [run]: the state that
    [setup] leaves, and the state after any handler run while [running]
    holds.  The [manage] calls of [scan] act as [MapRequest] events do:
    the windows it finds are distinct, unmanaged and not
    override-redirect. *)
Inductive reachable (cfg : Config) : World -> Prop :=
  | reach_setup (d : Display) :
      xinerama_ok (dpy_xinerama d) -> reachable cfg (setup cfg d)
  | reach_handle (W : World) (ev : Event) :
      reachable cfg W -> running W = true -> valid_event ev ->
      reachable cfg (handle cfg ev W).

(* ================================================================= *)
(** ** The command line *)

(** How [main] ends before the display is opened, if it does. *)
Inductive Outcome : Type :=
  | Exit (status : Z) (stderr : string)
  | OpensDisplay.

Definition EXIT_FAILURE : Z := 1.
Definition EXIT_SUCCESS : Z := 0.

(** [die]: the message goes to [stderr], the status is [EXIT_FAILURE]. *)
Definition die (errstr : string) : Outcome := Exit EXIT_FAILURE errstr.

Definition newline : string := String (Ascii.ascii_of_nat 10) EmptyString.

(** The first statements of [main]; [VERSION] and [YEAR] are the macros
    that the build defines.  [argv] holds [argc] strings, the name of the
    program first. *)
Definition version_message (VERSION YEAR : string) : string :=
  ("dwm-" ++ VERSION ++ ",  2006-" ++ YEAR
   ++ " dwm engineers, see LICENSE for details" ++ newline)%string.

Definition usage_message : string := ("usage: dwm [-v]" ++ newline)%string.

Definition main (VERSION YEAR : string) (argv : list string) : Outcome :=
  let argc := Z.of_nat (length argv) in
  if (argc =? 2) && bool_decide (argv !! 1%nat = Some "-v"%string) then
    die (version_message VERSION YEAR)
  else if negb (argc =? 1) then
    die usage_message
  else OpensDisplay.

(* ================================================================= *)
(** ** The invariants of the data model *)

(** A tag mask is well formed when it is not empty and lies in [TAGMASK]. *)
Definition tags_ok (cfg : Config) (t : Z) : Prop :=
  t <> 0 /\ Z.land t (TAGMASK cfg) = t.

Definition client_ok (cfg : Config) (c : Client) : Prop :=
  tags_ok cfg (c_tags c).

Definition mon_ok (cfg : Config) (m : Monitor) : Prop :=
  tags_ok cfg (m_tagset0 m) /\ tags_ok cfg (m_tagset1 m)
  /\ (m_seltags m = 0 \/ m_seltags m = 1).

(** Every client and every monitor carries well-formed tag masks. *)
Definition tag_inv (cfg : Config) (W : World) : Prop :=
  (forall w c, store W !! w = Some c -> client_ok cfg c)
  /\ Forall (mon_ok cfg) (mons W).

(** The configuration starts new monitors on a well-formed tag mask. *)
Definition config_ok (cfg : Config) : Prop :=
  tags_ok cfg (cfg_startuptags cfg).

(* ================================================================= *)
(** ** What focusing and arranging leave alone *)

(** The fields of a struct that focusing and arranging leave alone: all
    but the geometry and the urgency flag. *)
Definition c_core (c : Client) : Client :=
  set_c_isurgent false
    (resizeclient_fields (0, 0, 0, 0) (resizeclient_fields (0, 0, 0, 0) c)).

(** The fields of a monitor that they leave alone: all but its lists
    and its selection. *)
Definition m_core (m : Monitor) : Monitor :=
  set_m_sel None (set_m_stack [] (set_m_clients [] m)).

(** [W'] differs from [W] at most in the geometry and urgency of the
    clients, the lists of the monitors, and the global pointers. *)
Definition layout_frame (W W' : World) : Prop :=
  (forall w, c_core <$> store W' !! w = c_core <$> store W !! w)
  /\ m_core <$> mons W' = m_core <$> mons W
  /\ gappx W' = gappx W /\ sw W' = sw W /\ sh W' = sh W /\ bh W' = bh W
  /\ root W' = root W.

(** The configuration with another rule table. *)
Definition with_rules (rs : list Rule) (cfg : Config) : Config :=
  MkConfig (cfg_ntags cfg) (cfg_startuptags cfg) rs (cfg_borderpx cfg)
    (cfg_snap cfg) (cfg_uselessgap cfg) (cfg_showbar cfg) (cfg_topbar cfg)
    (cfg_nmaster_dynamic_max cfg) (cfg_nmaster cfg) (cfg_mfact cfg)
    (cfg_sizehints_default cfg) (cfg_layouts cfg).

(* ================================================================= *)
(** ** Concrete displays, windows and sessions *)

(** A display with one screen of 1920x1080 and no Xinerama; the font is
    17 pixels high, so that the bar is 20. *)
Definition one_screen : Display :=
  MkDisplay 1 1920 1080 17 None None (fun i => 100 + Z.of_nat i).

(** A display with two Xinerama screens side by side; the pointer is on
    the left one. *)
Definition two_screens : Display :=
  MkDisplay 1 3840 1080 17
    (Some [ MkXineramaScreenInfo 0 0 1920 1080;
            MkXineramaScreenInfo 1920 0 1920 1080 ])
    (Some (10, 10)) (fun i => 100 + Z.of_nat i).

(** A terminal window without hints, and one that is transient for the
    window [t]. *)
Definition xterm_props : WinProps :=
  MkWinProps "xterm" None (Some "XTerm"%string) (Some "xterm"%string)
    false false None None.

Definition dialog_props (t : Z) : WinProps :=
  MkWinProps "dialog" (Some t) (Some "XTerm"%string) (Some "xterm"%string)
    false false None None.

Definition xterm_attrs : XWindowAttributes :=
  MkXWindowAttributes 0 0 484 316 1 false.

(** The handlers run one after the other. *)
Definition run_events (cfg : Config) (evs : list Event) (W : World) : World :=
  fold_left (fun W ev => handle cfg ev W) evs W.

(** One terminal on one screen. *)
Definition session_one_client : World :=
  run_events default_config
    [ EvMapRequest 10 (Some xterm_attrs) xterm_props ]
    (setup default_config one_screen).

(** A client that asks for widths in steps of 10 up to 105, and a monitor
    with the tile layout for it. *)
Definition incr_client : Client :=
  set_c_sizehints true
    (set_c_maxw 105 (set_c_incw 10 (set_c_h 200 (set_c_w 200 (new_client 10))))).

Definition wide_monitor : Monitor :=
  set_m_wh 1060
    (set_m_ww 1920 (set_m_wy 20 (set_m_lt layout_tile (createmon default_config)))).

(** The rectangle of a client of the store. *)
Definition geometry_of (W : World) (c : Z) : option Rect :=
  (fun cl => (c_x cl, c_y cl, c_w cl, c_h cl)) <$> store W !! c.

(** The struct after fullscreen has been set and unset again, before the
    monitor is arranged: as it was, with its own geometry, border width
    and floating flag in the fields that save them. *)
Definition fullscreen_saved (c : Client) : Client :=
  set_c_oldstate (c_isfloating c)
    (set_c_oldbw (c_bw c)
       (set_c_oldh (c_h c) (set_c_oldw (c_w c)
          (set_c_oldy (c_y c) (set_c_oldx (c_x c) c))))).

(** One terminal on one screen, which then asks for a border of 2. *)
Definition session_thin_border : World :=
  run_events default_config
    [ EvMapRequest 10 (Some xterm_attrs) xterm_props;
      EvConfigureRequest (MkXConfigureRequestEvent 10 CWBorderWidth 0 0 0 0 2) ]
    (setup default_config one_screen).

(** The client and the monitor of that session. *)
Definition thin_client : Client :=
  Eval vm_compute in default (new_client 10) (store session_thin_border !! 10).
Definition thin_monitor : Monitor :=
  Eval vm_compute in default (createmon default_config) (mons session_thin_border !! 0%nat).

(** Two screens.  A terminal is mapped on the first monitor and moved
    to tag 2, which hides it; the focus goes to the second monitor; then
    a dialog that is transient for the terminal is mapped. *)
Definition session_hidden_selection : World :=
  run_events default_config
    [ EvMapRequest 10 (Some xterm_attrs) xterm_props;
      EvKeyPress [ATag 2];
      EvKeyPress [AFocusmon 1];
      EvMapRequest 11 (Some xterm_attrs) (dialog_props 10) ]
    (setup default_config two_screens).

(* ================================================================= *)
(** ** The links between clients and monitors *)

(** The monitor that the struct of the window [w] points to. *)
Definition owner (W : World) (w : Z) : option nat := c_mon <$> store W !! w.

(** The lists of the monitor at position [i] hold, once each, the
    clients whose [mon] points to it, and its selection is one of them. *)
Definition mon_wf (W : World) (i : nat) (m : Monitor) : Prop :=
  NoDup (m_clients m) /\ NoDup (m_stack m)
  /\ (forall w, w ∈ m_clients m <-> owner W w = Some i)
  /\ (forall w, w ∈ m_stack m <-> owner W w = Some i)
  /\ (forall w, m_sel m = Some w -> owner W w = Some i).

(** Every managed window is in exactly one monitor's client list and
    focus stack; [mon] and [prevmon] point to monitors. *)
Definition links_ok (W : World) : Prop :=
  (forall w i, owner W w = Some i -> (i < length (mons W))%nat)
  /\ (forall i m, mons W !! i = Some m -> mon_wf W i m)
  /\ (forall p, prevmon W = Some p -> (p < length (mons W))%nat).

(** ... and [selmon] points to a monitor. *)
Definition wf (W : World) : Prop :=
  links_ok W /\ (selmon W < length (mons W))%nat.

(** A change of a monitor that keeps its lists and its selection. *)
Definition keeps_lists (f : Monitor -> Monitor) : Prop :=
  forall m, m_clients (f m) = m_clients m /\ m_stack (f m) = m_stack m
            /\ m_sel (f m) = m_sel m.

(** What [detachstack(c)] does to the monitor of [c]; the world [W1] is
    the one in which the visibility of the next selection is tested. *)
Definition detachstack_mon (W1 : World) (c : Z) (m : Monitor) : Monitor :=
  let m1 := set_m_stack (unlink c (m_stack m)) m in
  if decide (m_sel m1 = Some c)
  then set_m_sel (first_visible W1 (m_stack m1)) m1 else m1.

(** The lists and the selection of the monitor at position [i]. *)
Definition clients_of (W : World) (i : nat) : list Z :=
  default [] (m_clients <$> mons W !! i).
Definition stack_of (W : World) (i : nat) : list Z :=
  default [] (m_stack <$> mons W !! i).
Definition sel_of (W : World) (i : nat) : option Z :=
  mons W !! i ≫= m_sel.

(* ----- monitors that disappear ----- *)
(** The clients [l] pushed onto the head of both lists of a monitor. *)
Definition push_clients (l : list Z) (m : Monitor) : Monitor :=
  set_m_stack (l ++ m_stack m) (set_m_clients (l ++ m_clients m) m).

(** The clients of the monitors [ms], which [updategeom] removes from
    the end of the chain, in the order in which they end up at the head
    of the lists of the first monitor. *)
Definition moved_clients (ms : list Monitor) : list Z :=
  concat (map (fun m => reverse (m_clients m)) ms).

(** A struct after [updategeom] has removed the monitors from position
    [nn] on. *)
Definition rehome (nn : nat) (c : Client) : Client :=
  if decide (nn <= c_mon c)%nat then set_c_mon 0%nat c else c.

(** The structs [l] re-pointed to the first monitor. *)
Definition repoint (l : list Z) (s : gmap Z Client) : gmap Z Client :=
  foldl (fun s c => alter (set_c_mon 0%nat) c s) s l.

(** The state after the last monitor, at position [last], has been
    emptied into the first and freed. *)
Definition without_last (last : nat) (m m0 : Monitor) (W : World) : World :=
  set_mons (<[0%nat := push_clients (reverse (m_clients m)) m0]> (take last (mons W)))
    (set_selmon (if decide (last = selmon W) then 0%nat else selmon W)
       (set_store (rehome last <$> store W) W)).

(** The state after the monitors from position [nn] on have been emptied
    into the first and freed. *)
Definition shrunk (nn : nat) (m0 : Monitor) (W : World) : World :=
  set_mons
    (<[0%nat := push_clients (moved_clients (drop nn (mons W))) m0]>
       (take nn (mons W)))
    (set_selmon (if decide (nn <= selmon W)%nat then 0%nat else selmon W)
       (set_store (rehome nn <$> store W) W)).


(* ================================================================= *)
(** ** More sessions *)

(** Two screens: a terminal on the first monitor and, after the focus
    has gone to the second monitor, two more on that one. *)
Definition session_two_monitors : World :=
  run_events default_config
    [ EvMapRequest 10 (Some xterm_attrs) xterm_props;
      EvKeyPress [AFocusmon 1];
      EvMapRequest 11 (Some xterm_attrs) xterm_props;
      EvMapRequest 12 (Some xterm_attrs) xterm_props ]
    (setup default_config two_screens).

(** The answer of Xinerama once the second screen is gone. *)
Definition left_screen_only : list XineramaScreenInfo :=
  [ MkXineramaScreenInfo 0 0 1920 1080 ].

(** The first monitor of that session. *)
Definition first_monitor_of_two : Monitor :=
  Eval vm_compute in
    default (createmon default_config) (mons session_two_monitors !! 0%nat).

(* ================================================================= *)
(** ** What [dirtomon] and [recttomon] measure *)

(** The distance [d] of [dirtomon] from the monitor [sm] to the monitor
    [m] in the direction [dir]: along [y] for [dir] beyond [1] and [-1],
    along [x] otherwise, with the sign of [dir]. *)
Definition mon_distance (dir : Z) (sm m : Monitor) : Z :=
  (if (dir >? 1) || (dir <? -1) then m_my m - m_my sm else m_mx m - m_mx sm)
  * dir.

(** What the loop of [dirtomon] knows after the monitors [seen], the
    first of the chain [ms]: the least positive and the least negative
    distance among them, zero standing for none, and where they are. *)
Definition dirtomon_found (sm : Monitor) (dir : Z) (ms seen : list Monitor)
    (start : nat) (acc : nat * nat * Z * Z) : Prop :=
  let '(nearest, faraway, min_d_pos, min_d_neg) := acc in
  0 <= min_d_pos /\ min_d_neg <= 0
  /\ (forall m, m ∈ seen -> 0 < mon_distance dir sm m ->
        0 < min_d_pos <= mon_distance dir sm m)
  /\ (forall m, m ∈ seen -> mon_distance dir sm m < 0 ->
        min_d_neg < 0 /\ min_d_neg <= mon_distance dir sm m)
  /\ (if min_d_pos =? 0 then nearest = start
      else exists m, ms !! nearest = Some m /\ mon_distance dir sm m = min_d_pos)
  /\ (if min_d_neg =? 0 then faraway = start
      else exists m, ms !! faraway = Some m /\ mon_distance dir sm m = min_d_neg).

(** The second monitor of that session, and the struct of window 10. *)
Definition second_monitor_of_two : Monitor :=
  Eval vm_compute in
    default (createmon default_config) (mons session_two_monitors !! 1%nat).

Definition client_10_of_two : Client :=
  Eval vm_compute in
    default (new_client 10) (store session_two_monitors !! 10).

(* ================================================================= *)
(** ** Tiles *)

(** The rectangle of a tile: the window with its border and with the gap
    of [g] pixels around it. *)
Definition outer_rect (g : Z) (c : Client) : Rect :=
  (c_x c - g, c_y c - g,
   c_w c + 2 * c_bw c + 2 * g, c_h c + 2 * c_bw c + 2 * g).

Definition rect_inside (r R : Rect) : Prop :=
  let '(x, y, w, h) := r in
  let '(X, Y, Wd, Ht) := R in
  X <= x /\ x + w <= X + Wd /\ Y <= y /\ y + h <= Y + Ht.

Definition rects_disjoint (r1 r2 : Rect) : Prop :=
  let '(x1, y1, w1, h1) := r1 in
  let '(x2, y2, w2, h2) := r2 in
  x1 + w1 <= x2 \/ x2 + w2 <= x1 \/ y1 + h1 <= y2 \/ y2 + h2 <= y1.

(** The work area of a monitor. *)
Definition work_area (m : Monitor) : Rect := (m_wx m, m_wy m, m_ww m, m_wh m).

(** A client whose sizes the size-hint block of [applysizehints] leaves
    alone: it does not honour size hints, or it has none. *)
Definition unconstrained (c : Client) : Prop :=
  c_sizehints c = false
  \/ (c_basew c = 0 /\ c_baseh c = 0 /\ c_incw c = 0 /\ c_inch c = 0
      /\ c_minw c <= 1 /\ c_minh c <= 1 /\ c_maxw c = 0 /\ c_maxh c = 0
      /\ F32.ltb F32.zero (c_mina c) && F32.ltb F32.zero (c_maxa c) = false).

(** The least side of a tile that [applysizehints] takes as it is, for
    the client [c]: a window of one pixel, and not smaller than the bar is
    high, with its border and the gap. *)
Definition tile_min (W : World) (c : Client) : Z :=
  MAX 1 (bh W) + 2 * c_bw c + 2 * gappx W.

(** What [tile] needs of the monitor [m] at position [mi], with [n]
    clients to tile out of the chain [l], for its requests to be taken as
    they are: the tiled clients of [l] belong to [m], [applysizehints]
    does not constrain them, and the rows and the columns are not smaller
    than [tile_min]. *)
Definition tile_ready (mi : nat) (m : Monitor) (n g : Z) (W : World)
    (l : list Z) : Prop :=
  mons W !! mi = Some m /\ gappx W = g /\ 0 <= g /\ NoDup l
  /\ forall c, c ∈ l -> is_tiled W c = true ->
       exists cl, store W !! c = Some cl /\ c_mon cl = mi
         /\ unconstrained cl /\ 0 <= c_bw cl
         /\ tile_min W cl <= m_wh m / n
         /\ (0 < actual_nmaster m n -> tile_min W cl <= master_width m n)
         /\ (actual_nmaster m n < n ->
               tile_min W cl <= m_ww m - master_width m n).

(** The tile of a client lies in the master column, below the offset
    [my], or in the stack column, below the offset [ty]. *)
Definition tile_placed (m : Monitor) (n my ty g : Z) (c : Client) : Prop :=
  let '(ox, oy, ow, oh) := outer_rect g c in
  (ox = m_wx m /\ ow = master_width m n
   /\ m_wy m + my <= oy /\ oy + oh <= m_wy m + m_wh m)
  \/ (ox = m_wx m + master_width m n /\ ow = m_ww m - master_width m n
      /\ m_wy m + ty <= oy /\ oy + oh <= m_wy m + m_wh m).

(** A session on one screen: three terminals are mapped, one after the
    other. *)
Definition session_three_xterms : World :=
  run_events default_config
    [ EvMapRequest 10 (Some xterm_attrs) xterm_props;
      EvMapRequest 11 (Some xterm_attrs) xterm_props;
      EvMapRequest 12 (Some xterm_attrs) xterm_props ]
    (setup default_config one_screen).

(** The monitor of that session. *)
Definition monitor_of_three : Monitor :=
  Eval vm_compute in
    default (createmon default_config) (mons session_three_xterms !! 0%nat).

(** What [monocle] needs of the monitor [m] at position [mi] and of the
    chain [l] for its requests to be taken as they are: the tiled clients
    of [l] belong to [m], [applysizehints] does not constrain them, and
    the work area is not smaller than [tile_min]. *)
Definition monocle_ready (mi : nat) (m : Monitor) (W : World)
    (l : list Z) : Prop :=
  mons W !! mi = Some m /\ 0 <= gappx W /\ NoDup l
  /\ forall c, c ∈ l -> is_tiled W c = true ->
       exists cl, store W !! c = Some cl /\ c_mon cl = mi
         /\ unconstrained cl /\ 0 <= c_bw cl
         /\ tile_min W cl <= m_ww m /\ tile_min W cl <= m_wh m.

(** The hidden client of the session [session_hidden_selection], window
    10, and its monitor. *)
Definition hidden_client_10 : Client :=
  Eval vm_compute in
    default (new_client 10) (store session_hidden_selection !! 10).

Definition monitor_of_hidden_client : Monitor :=
  Eval vm_compute in
    default (createmon default_config) (mons session_hidden_selection !! 0%nat).

(** No two screens of the list have the same geometry. *)
Definition distinct_geoms (l : list XineramaScreenInfo) : Prop :=
  forall i j a b, l !! i = Some a -> l !! j = Some b ->
    same_geom a b = true -> i = j.

(** The answer of Xinerama with a second screen, which is reported
    twice, to the right of the first. *)
Definition screens_with_clone : list XineramaScreenInfo :=
  [ MkXineramaScreenInfo 0 0 1920 1080;
    MkXineramaScreenInfo 1920 0 1920 1080;
    MkXineramaScreenInfo 1920 0 1920 1080 ].

(** The exchange of [a] and [b] that [swap_clients] applies to every
    entry of a chain. *)
Definition swap_of (a b c : Z) : Z :=
  if c =? a then b else if c =? b then a else c.

(** The test of [movestack] for the client it moves to: visible and not
    floating. *)
Definition movable (W : World) (c : Z) : bool :=
  ISVISIBLE W c &&
  match store W !! c with
  | Some cl => negb (c_isfloating cl)
  | None => false
  end.

(* ================================================================= *)
(** ** Shutting down *)

(** [while(m->stack) unmanage(m->stack, False);] for the monitor at
    position [i], for at most [fuel] turns.  Every turn frees the head of
    the focus stack, and the length of that stack is fuel enough. *)
Fixpoint unmanage_stack (fuel : nat) (i : nat) (W : World) : World :=
  match fuel with
  | O => W
  | S k =>
      match mons W !! i with
      | Some m =>
          match m_stack m with
          | c :: _ => unmanage_stack k i (unmanage c false W)
          | [] => W
          end
      | None => W
      end
  end.

(** [while(mons) cleanupmon(mons);]: [cleanupmon] of the first monitor
    makes [mons] point to the next one and frees it. *)
Fixpoint free_mons (fuel : nat) (W : World) : World :=
  match fuel with
  | O => W
  | S k =>
      match mons W with
      | _ :: rest => free_mons k (set_mons rest W)
      | [] => W
      end
  end.

(** The layout [foo] of [cleanup], without an arrange function. *)
Definition cleanup_layout : Layout := MkLayout "" None.

(** [cleanup]: all tags are viewed, the layout of [selmon] is taken
    away, every client of every monitor is unmanaged and every monitor is
    freed; the requests to the server are left out. *)
Definition cleanup (cfg : Config) (W : World) : World :=
  let W1 := view cfg 4294967295 W in
  let W2 := upd_mon (selmon W1) (set_m_lt cleanup_layout) W1 in
  let W3 :=
    fold_left (fun W i => unmanage_stack (length (stack_of W i)) i W)
      (seq 0 (length (mons W2))) W2 in
  free_mons (length (mons W3)) W3.

(* ================================================================= *)
(** ** The work area and the bar *)

(** The work area of a monitor is its screen without the strip of the
    bar: what [updatebarpos] computes, once the screen has a size. *)
Definition area_ok (bh : Z) (m : Monitor) : Prop :=
  m_wx m = m_mx m /\ m_ww m = m_mw m
  /\ (m_mw m <> 0 \/ m_mh m <> 0 ->
      if m_showbar m then
        m_wh m = m_mh m - bh
        /\ (if m_topbar m
            then m_by m = m_my m /\ m_wy m = m_my m + bh
            else m_wy m = m_my m /\ m_by m = m_my m + m_wh m)
      else m_wh m = m_mh m /\ m_wy m = m_my m /\ m_by m = - bh).

Definition bars_ok (W : World) : Prop :=
  forall i m, mons W !! i = Some m -> area_ok (bh W) m.

(** A client that honours size hints and asks for a width of at least
    300, with no increments, no maximum size and no aspect ratio. *)
Definition min_client : Client :=
  set_c_sizehints true
    (set_c_minw 300 (set_c_h 200 (set_c_w 200 (new_client 10)))).

(** A client that asks for widths in steps of 10 and nothing else, and one
    that asks for a width of at most 10 and nothing else. *)
Definition step_client : Client :=
  set_c_sizehints true
    (set_c_incw 10 (set_c_h 200 (set_c_w 200 (new_client 10)))).

Definition narrow_client : Client :=
  set_c_sizehints true
    (set_c_maxw 10 (set_c_h 200 (set_c_w 200 (new_client 10)))).

(** [b] is the client that follows [a] among the clients of the chain [l]
    that pass the test [p], where the first of them follows the last:
    [b] passes the test, and either [b] comes after [a] with no such
    client in between, or [b] is the first and [a] the last such client
    of the chain, or [a] is the only such client and [b] is [a]. *)
Definition next_in (p : Z -> bool) (l : list Z) (a b : Z) : Prop :=
  p b = true
  /\ ((exists l1 l2 l3, l = l1 ++ a :: l2 ++ b :: l3
         /\ Forall (fun x => p x = false) l2)
      \/ (exists l1 l2 l3, l = l1 ++ b :: l2 ++ a :: l3
            /\ Forall (fun x => p x = false) l1
            /\ Forall (fun x => p x = false) l3)
      \/ (a = b /\ exists l1 l3, l = l1 ++ a :: l3
            /\ Forall (fun x => p x = false) l1
            /\ Forall (fun x => p x = false) l3)).

(* ================================================================= *)
(** ** Tiles and size hints *)





Definition wide_props : WinProps :=
  MkWinProps "wide" None (Some "XTerm"%string) (Some "xterm"%string)
    false false
    (Some (MkXSizeHints false true false false false
             0 0 1200 900 0 0 0 0 (0, 0) (0, 0)))
    None.



Definition session_two_wide : World :=
  run_events default_config
    [ EvMapRequest 10 (Some xterm_attrs) wide_props;
      EvMapRequest 11 (Some xterm_attrs) wide_props ]
    (setup default_config one_screen).

(* ================================================================= *)
(** * Theorems *)

(** ** Tag masks stay well formed *)

Section TagInvariant.
Variable cfg : Config.

Lemma truthy_nonzero z : truthy z = true -> z <> 0.
Proof. unfold truthy. intros H ->. discriminate. Qed.

Lemma land_mask_ok u : truthy (Z.land u (TAGMASK cfg)) = true -> tags_ok cfg (Z.land u (TAGMASK cfg)).
Proof.
  intros H. split; [by apply truthy_nonzero|].
  by rewrite <- Z.land_assoc, Z.land_diag.
Qed.

Lemma lxor_mask_ok a u :
  tags_ok cfg a -> truthy (Z.lxor a (Z.land u (TAGMASK cfg))) = true ->
  tags_ok cfg (Z.lxor a (Z.land u (TAGMASK cfg))).
Proof.
  intros [_ Ha] H. split; [by apply truthy_nonzero|].
  apply Z.bits_inj'. intros n Hn.
  rewrite Z.land_spec, !Z.lxor_spec, !Z.land_spec.
  apply (f_equal (fun z => Z.testbit z n)) in Ha. rewrite Z.land_spec in Ha.
  destruct (Z.testbit a n), (Z.testbit u n), (Z.testbit (TAGMASK cfg) n); simpl in *; congruence.
Qed.

Lemma cur_tagset_ok m : mon_ok cfg m -> tags_ok cfg (cur_tagset m).
Proof. intros (H0 & H1 & _). unfold cur_tagset, m_tagset. by destruct (_ =? _). Qed.

Lemma tag_inv_frame W W' :
  store W' = store W -> mons W' = mons W -> tag_inv cfg W -> tag_inv cfg W'.
Proof. unfold tag_inv. intros -> ->. done. Qed.

Lemma tag_inv_upd_client c f W :
  (forall cl, store W !! c = Some cl -> client_ok cfg cl -> client_ok cfg (f cl)) -> tag_inv cfg W -> tag_inv cfg (upd_client c f W).
Proof.
  intros Hf [Hs Hm]. split; [|done].
  intros w cl. unfold upd_client. simpl. intros H.
  destruct (decide (c = w)) as [->|Hne].
  - rewrite lookup_alter_eq in H. destruct (store W !! w) eqn:E; simplify_eq/=. eauto.
  - rewrite lookup_alter_ne in H by done. eauto.
Qed.

Lemma tag_inv_upd_mon i f W :
  (forall m, mons W !! i = Some m -> mon_ok cfg m -> mon_ok cfg (f m)) -> tag_inv cfg W -> tag_inv cfg (upd_mon i f W).
Proof.
  intros Hf [Hs Hm]. split; [done|]. unfold upd_mon; simpl.
  apply Forall_lookup. intros j m H.
  rewrite Forall_lookup in Hm.
  destruct (decide (i = j)) as [->|Hne].
  - rewrite list_lookup_alter_eq in H. destruct (mons W !! j) eqn:E; simplify_eq/=. eauto.
  - rewrite list_lookup_alter_ne in H by done. eauto.
Qed.

Lemma tag_inv_with_client c W k :
  tag_inv cfg W -> (forall cl, store W !! c = Some cl -> tag_inv cfg (k cl)) ->
  tag_inv cfg (with_client c W k).
Proof. intros HW Hk. unfold with_client. destruct (store W !! c) eqn:E; eauto. Qed.

Lemma tag_inv_with_mon i W k :
  tag_inv cfg W -> (forall m, mons W !! i = Some m -> tag_inv cfg (k m)) ->
  tag_inv cfg (with_mon i W k).
Proof. intros HW Hk. unfold with_mon. destruct (mons W !! i) eqn:E; eauto. Qed.

Lemma tag_inv_client W c cl : tag_inv cfg W -> store W !! c = Some cl -> client_ok cfg cl.
Proof. intros [H _]. eauto. Qed.

Lemma tag_inv_mon W i m : tag_inv cfg W -> mons W !! i = Some m -> mon_ok cfg m.
Proof. intros [_ H] E. rewrite Forall_lookup in H. eauto. Qed.

Lemma tag_inv_set_selmon v W : tag_inv cfg W -> tag_inv cfg (set_selmon v W).
Proof. by apply tag_inv_frame. Qed.
Lemma tag_inv_set_prevmon v W : tag_inv cfg W -> tag_inv cfg (set_prevmon v W).
Proof. by apply tag_inv_frame. Qed.
Lemma tag_inv_set_prevclient v W : tag_inv cfg W -> tag_inv cfg (set_prevclient v W).
Proof. by apply tag_inv_frame. Qed.
Lemma tag_inv_set_gappx v W : tag_inv cfg W -> tag_inv cfg (set_gappx v W).
Proof. by apply tag_inv_frame. Qed.
Lemma tag_inv_set_sw v W : tag_inv cfg W -> tag_inv cfg (set_sw v W).
Proof. by apply tag_inv_frame. Qed.
Lemma tag_inv_set_sh v W : tag_inv cfg W -> tag_inv cfg (set_sh v W).
Proof. by apply tag_inv_frame. Qed.
Lemma tag_inv_set_bh v W : tag_inv cfg W -> tag_inv cfg (set_bh v W).
Proof. by apply tag_inv_frame. Qed.
Lemma tag_inv_set_root v W : tag_inv cfg W -> tag_inv cfg (set_root v W).
Proof. by apply tag_inv_frame. Qed.
Lemma tag_inv_set_motion_mon v W : tag_inv cfg W -> tag_inv cfg (set_motion_mon v W).
Proof. by apply tag_inv_frame. Qed.
Lemma tag_inv_set_running v W : tag_inv cfg W -> tag_inv cfg (set_running v W).
Proof. by apply tag_inv_frame. Qed.
Lemma tag_inv_set_dorestart v W : tag_inv cfg W -> tag_inv cfg (set_dorestart v W).
Proof. by apply tag_inv_frame. Qed.
End TagInvariant.

Create HintDb tinv discriminated.
#[export] Hint Resolve tag_inv_set_selmon tag_inv_set_prevmon tag_inv_set_prevclient
  tag_inv_set_gappx tag_inv_set_sw tag_inv_set_sh tag_inv_set_bh tag_inv_set_root
  tag_inv_set_motion_mon tag_inv_set_running tag_inv_set_dorestart : tinv.

(** Functions on a struct that leave its tags alone. *)
Lemma c_tags_resizeclient_fields r c : c_tags (resizeclient_fields r c) = c_tags c.
Proof. by destruct r as [[[??]?]?]. Qed.
Lemma c_tags_fullscreen_fields m c : c_tags (fullscreen_fields m c) = c_tags c.
Proof. unfold fullscreen_fields. by rewrite c_tags_resizeclient_fields. Qed.
Lemma c_tags_configurerequest_fields ev m c : c_tags (configurerequest_fields ev m c) = c_tags c.
Proof. unfold configurerequest_fields. repeat (case_match; simpl); done. Qed.
Lemma c_tags_updatesizehints oh c : c_tags (updatesizehints oh c) = c_tags c.
Proof. unfold updatesizehints. repeat (case_match; simpl); done. Qed.
Lemma c_tags_updatewmhints oh b c : c_tags (updatewmhints oh b c) = c_tags c.
Proof. unfold updatewmhints. repeat (case_match; simpl); done. Qed.
Lemma c_tags_updatetitle n c : c_tags (updatetitle n c) = c_tags c.
Proof. done. Qed.
Lemma c_tags_updatewindowtype_new m p c : c_tags (updatewindowtype_new m p c) = c_tags c.
Proof. unfold updatewindowtype_new. repeat (case_match; simpl); by rewrite ?c_tags_fullscreen_fields. Qed.

Create Rewrite HintDb ctags.
#[export] Hint Rewrite c_tags_resizeclient_fields c_tags_fullscreen_fields
  c_tags_configurerequest_fields c_tags_updatesizehints c_tags_updatewmhints
  c_tags_updatetitle c_tags_updatewindowtype_new : ctags.


Lemma c_mon_resizeclient_fields r c : c_mon (resizeclient_fields r c) = c_mon c.
Proof. by destruct r as [[[??]?]?]. Qed.
Lemma c_mon_fullscreen_fields m c : c_mon (fullscreen_fields m c) = c_mon c.
Proof. unfold fullscreen_fields. by rewrite c_mon_resizeclient_fields. Qed.
Lemma c_mon_updatesizehints oh c : c_mon (updatesizehints oh c) = c_mon c.
Proof. unfold updatesizehints. repeat (case_match; simpl); done. Qed.
Lemma c_mon_updatewmhints oh b c : c_mon (updatewmhints oh b c) = c_mon c.
Proof. unfold updatewmhints. repeat (case_match; simpl); done. Qed.
Lemma c_mon_updatewindowtype_new m p c : c_mon (updatewindowtype_new m p c) = c_mon c.
Proof. unfold updatewindowtype_new. repeat (case_match; simpl); by rewrite ?c_mon_fullscreen_fields. Qed.

#[export] Hint Rewrite c_mon_resizeclient_fields c_mon_fullscreen_fields
  c_mon_updatesizehints c_mon_updatewmhints c_mon_updatewindowtype_new : ctags.

Ltac client_frame :=
  unfold client_ok in *; autorewrite with ctags; simpl; autorewrite with ctags; try assumption.

Lemma mon_ok_frame cfg m m' :
  m_tagset0 m' = m_tagset0 m -> m_tagset1 m' = m_tagset1 m ->
  m_seltags m' = m_seltags m -> mon_ok cfg m -> mon_ok cfg m'.
Proof. unfold mon_ok. by intros -> -> ->. Qed.

Lemma mon_ok_flip cfg m :
  mon_ok cfg m -> mon_ok cfg (set_m_seltags (Z.lxor (m_seltags m) 1) m).
Proof.
  intros (H0 & H1 & Hs). split; [done|]. split; [done|]. simpl.
  destruct Hs as [-> | ->]; auto.
Qed.

Lemma mon_ok_updatebarpos cfg b m : mon_ok cfg m -> mon_ok cfg (updatebarpos b m).
Proof. apply mon_ok_frame; unfold updatebarpos; repeat (case_match; simpl); done. Qed.

Lemma mon_ok_set_m_tagset cfg i v m :
  tags_ok cfg v -> mon_ok cfg m -> mon_ok cfg (set_m_tagset i v m).
Proof.
  intros Hv (H0 & H1 & Hs). unfold set_m_tagset.
  destruct (_ =? _); (split; [|split]); assumption.
Qed.

#[export] Hint Resolve mon_ok_flip mon_ok_updatebarpos mon_ok_set_m_tagset cur_tagset_ok land_mask_ok lxor_mask_ok : tinv.
#[export] Hint Extern 1 (mon_ok _ _) =>
  solve [ eapply mon_ok_frame; [reflexivity | reflexivity | reflexivity | eassumption] ] : tinv.
#[export] Hint Extern 1 (client_ok _ _) => solve [ client_frame ] : tinv.
#[export] Hint Extern 2 (tag_inv _ (with_client _ _ _)) =>
  apply tag_inv_with_client; [ | intros ? ?] : tinv.
#[export] Hint Extern 2 (tag_inv _ (with_mon _ _ _)) =>
  apply tag_inv_with_mon; [ | intros ? ?] : tinv.
#[export] Hint Extern 2 (tag_inv _ (upd_client _ _ _)) =>
  apply tag_inv_upd_client; [ intros ? ? ? | ] : tinv.
#[export] Hint Extern 2 (tag_inv _ (upd_mon _ _ _)) =>
  apply tag_inv_upd_mon; [ intros ? ? ? | ] : tinv.
#[export] Hint Extern 3 (tag_inv _ (if ?b then _ else _)) => destruct b eqn:? : tinv.
#[export] Hint Extern 3 (tag_inv _ (match ?x with _ => _ end)) => destruct x eqn:? : tinv.
#[export] Hint Extern 1 (tag_inv _ _) => progress cbv zeta : tinv.
#[export] Hint Extern 1 (mon_ok _ _) => progress cbv zeta : tinv.
#[export] Hint Extern 3 (mon_ok _ (if ?b then _ else _)) => destruct b eqn:? : tinv.
#[export] Hint Extern 3 (mon_ok _ (match ?x with _ => _ end)) => destruct x eqn:? : tinv.
#[export] Hint Extern 2 (tags_ok _ (cur_tagset _)) =>
  apply cur_tagset_ok; eapply tag_inv_mon; [ | eassumption ] : tinv.
#[export] Hint Extern 2 (tags_ok _ (c_tags _)) =>
  eapply tag_inv_client; [ | eassumption ] : tinv.
#[export] Hint Extern 2 (client_ok _ (set_c_tags _ _)) =>
  unfold client_ok; simpl : tinv.

Ltac tinv := eauto 40 with tinv.

Section TagInvariantOps.
Variable cfg : Config.
Local Abbreviation inv := (tag_inv cfg).

Lemma attach_tag_inv c W : inv W -> inv (attach c W).
Proof. unfold attach. tinv. Qed.
Lemma attachstack_tag_inv c W : inv W -> inv (attachstack c W).
Proof. unfold attachstack. tinv. Qed.
Lemma detach_tag_inv c W : inv W -> inv (detach c W).
Proof. unfold detach. tinv. Qed.
Lemma detachstack_tag_inv c W : inv W -> inv (detachstack c W).
Proof. unfold detachstack. tinv. Qed.
Lemma unfocus_tag_inv oc b W : inv W -> inv (unfocus oc b W).
Proof. unfold unfocus. tinv. Qed.
Lemma clearurgent_tag_inv c W : inv W -> inv (clearurgent c W).
Proof. unfold clearurgent. tinv. Qed.
Hint Resolve attach_tag_inv attachstack_tag_inv detach_tag_inv detachstack_tag_inv
  unfocus_tag_inv clearurgent_tag_inv : tinv.
Lemma focus_tag_inv oc W : inv W -> inv (focus oc W).
Proof. unfold focus. tinv. Qed.
Lemma resizeclient_tag_inv c r W : inv W -> inv (resizeclient c r W).
Proof. unfold resizeclient. tinv. Qed.
Hint Resolve focus_tag_inv resizeclient_tag_inv : tinv.
Lemma resize_tag_inv c r b W : inv W -> inv (resize c r b W).
Proof. unfold resize. tinv. Qed.
Hint Resolve resize_tag_inv : tinv.

Lemma tile_loop_tag_inv mi m n l : forall i my ty W,
  inv W -> inv (tile_loop mi m n l i my ty W).
Proof. induction l as [|c l IH]; intros; simpl; tinv. Qed.
Lemma monocle_loop_tag_inv m l : forall W, inv W -> inv (monocle_loop m l W).
Proof. induction l as [|c l IH]; intros; simpl; tinv. Qed.
Lemma showhide_tag_inv l : forall W, inv W -> inv (showhide l W).
Proof. induction l as [|c l IH]; intros; simpl; [done|]. destruct (ISVISIBLE W c); [apply IH|]; tinv. Qed.
Hint Resolve tile_loop_tag_inv monocle_loop_tag_inv showhide_tag_inv : tinv.

Lemma fold_left_tag_inv {A} (f : World -> A -> World) l :
  (forall W a, inv W -> inv (f W a)) -> forall W, inv W -> inv (fold_left f l W).
Proof. intros Hf. induction l; simpl; eauto. Qed.

Lemma tile_tag_inv mi W : inv W -> inv (tile mi W).
Proof. unfold tile. tinv. Qed.
Lemma monocle_tag_inv mi W : inv W -> inv (monocle mi W).
Proof. unfold monocle. tinv. Qed.
Hint Resolve tile_tag_inv monocle_tag_inv : tinv.
Lemma arrangemon_tag_inv mi W : inv W -> inv (arrangemon mi W).
Proof. unfold arrangemon. tinv. Qed.
Lemma showhide_mon_tag_inv mi W : inv W -> inv (showhide_mon mi W).
Proof. unfold showhide_mon. tinv. Qed.
Hint Resolve arrangemon_tag_inv showhide_mon_tag_inv : tinv.
Lemma arrange_tag_inv om W : inv W -> inv (arrange om W).
Proof.
  unfold arrange. destruct om; [tinv|]. intros H.
  apply fold_left_tag_inv; [tinv|]. apply fold_left_tag_inv; tinv.
Qed.
Hint Resolve arrange_tag_inv : tinv.

Lemma mon_ok_view_flip ui m : mon_ok cfg m -> mon_ok cfg (view_flip cfg ui m).
Proof. intros. unfold view_flip. tinv. Qed.
Hint Resolve mon_ok_view_flip : tinv.
Lemma view_tag_inv ui W : inv W -> inv (view cfg ui W).
Proof. unfold view. tinv. Qed.
Lemma toggleview_tag_inv ui W : inv W -> inv (toggleview cfg ui W).
Proof. unfold toggleview. tinv. Qed.
Lemma tag_tag_inv ui W : inv W -> inv (tag cfg ui W).
Proof. unfold tag. tinv. Qed.
Lemma toggletag_tag_inv ui W : inv W -> inv (toggletag cfg ui W).
Proof. unfold toggletag. tinv. Qed.
Hint Resolve view_tag_inv toggleview_tag_inv tag_tag_inv toggletag_tag_inv : tinv.
Lemma shiftview_tag_inv i W : inv W -> inv (shiftview cfg i W).
Proof. unfold shiftview. tinv. Qed.
Lemma tagrel_tag_inv i W : inv W -> inv (tagrel cfg i W).
Proof. unfold tagrel. tinv. Qed.
Lemma focusmon_tag_inv i W : inv W -> inv (focusmon i W).
Proof. unfold focusmon. tinv. Qed.
Hint Resolve focusmon_tag_inv : tinv.
Lemma focusmonwarp_tag_inv i W : inv W -> inv (focusmonwarp i W).
Proof. unfold focusmonwarp. tinv. Qed.
Lemma sendmon_tag_inv c m W : inv W -> inv (sendmon c m W).
Proof. unfold sendmon. tinv. Qed.
Hint Resolve sendmon_tag_inv : tinv.
Lemma tagmon_tag_inv i W : inv W -> inv (tagmon i W).
Proof. unfold tagmon. tinv. Qed.
Lemma focusstack_tag_inv i W : inv W -> inv (focusstack i W).
Proof. unfold focusstack. tinv. Qed.
Lemma movestack_tag_inv i W : inv W -> inv (movestack i W).
Proof. unfold movestack. tinv. Qed.
Lemma pop_tag_inv c W : inv W -> inv (pop c W).
Proof. unfold pop. tinv. Qed.
Lemma swapfocus_tag_inv W : inv W -> inv (swapfocus W).
Proof. unfold swapfocus. tinv. Qed.
Lemma setlayout_tag_inv a W : inv W -> inv (setlayout a W).
Proof. unfold setlayout. tinv. Qed.
Lemma setmfact_tag_inv a W : inv W -> inv (setmfact a W).
Proof. unfold setmfact. tinv. Qed.
Lemma incnmaster_tag_inv a W : inv W -> inv (incnmaster a W).
Proof. unfold incnmaster. tinv. Qed.
Lemma togglebar_tag_inv W : inv W -> inv (togglebar W).
Proof. unfold togglebar. tinv. Qed.
Lemma togglefloating_tag_inv W : inv W -> inv (togglefloating W).
Proof. unfold togglefloating. tinv. Qed.
Lemma setfullscreen_tag_inv c b W : inv W -> inv (setfullscreen c b W).
Proof. unfold setfullscreen. tinv. Qed.
Hint Resolve setfullscreen_tag_inv pop_tag_inv togglefloating_tag_inv : tinv.
Lemma togglefullscreen_tag_inv W : inv W -> inv (togglefullscreen W).
Proof. unfold togglefullscreen. tinv. Qed.
Lemma centerfloater_tag_inv W : inv W -> inv (centerfloater W).
Proof. unfold centerfloater, floater_guard. tinv. Qed.
Lemma maximizefloater_tag_inv W : inv W -> inv (maximizefloater W).
Proof. unfold maximizefloater, floater_guard. tinv. Qed.
Lemma modgap_tag_inv i W : inv W -> inv (modgap i W).
Proof. unfold modgap. intros. apply fold_left_tag_inv; tinv. Qed.
Lemma quit_tag_inv W : inv W -> inv (quit W).
Proof. unfold quit. tinv. Qed.
Lemma restart_tag_inv W : inv W -> inv (restart W).
Proof. unfold restart. tinv. Qed.

Lemma applyrules_tags_ok W p c m :
  mons W !! c_mon (applyrules cfg W p c) = Some m -> mon_ok cfg m ->
  tags_ok cfg (c_tags (applyrules cfg W p c)).
Proof.
  unfold applyrules. cbv zeta. simpl. intros Hm Hok.
  destruct (truthy _) eqn:E.
  - by apply land_mask_ok.
  - rewrite Hm. by apply cur_tagset_ok.
Qed.

Lemma c_tags_manage_client W w wa p t :
  c_tags (manage_client cfg W w wa p t) = c_tags (manage_origin cfg W w p t).
Proof.
  unfold manage_client. cbv zeta.
  repeat (case_match; simpl; autorewrite with ctags); done.
Qed.
Lemma c_mon_manage_client W w wa p t :
  c_mon (manage_client cfg W w wa p t) = c_mon (manage_origin cfg W w p t).
Proof.
  unfold manage_client. cbv zeta.
  repeat (case_match; simpl; autorewrite with ctags); done.
Qed.

Lemma manage_client_ok W w wa p m :
  inv W -> mons W !! c_mon (manage_client cfg W w wa p (transient_parent W p)) = Some m ->
  client_ok cfg (manage_client cfg W w wa p (transient_parent W p)).
Proof.
  intros HW. unfold client_ok. rewrite c_tags_manage_client, c_mon_manage_client.
  unfold manage_origin. destruct (transient_parent W p) as [tc|] eqn:Et.
  - intros _. simpl. unfold transient_parent in Et.
    repeat case_match; simplify_eq. eapply tag_inv_client; eauto.
  - intros Hm. eapply applyrules_tags_ok; eauto using tag_inv_mon.
Qed.

Lemma tag_inv_insert w c W :
  client_ok cfg c -> inv W -> inv (set_store (<[w:=c]> (store W)) W).
Proof.
  intros Hc [Hs Hm]. split; [|done]. simpl. intros w' c' H.
  destruct (decide (w = w')) as [->|]; simplify_map_eq; eauto.
Qed.
Lemma tag_inv_delete w W : inv W -> inv (set_store (delete w (store W)) W).
Proof.
  intros [Hs Hm]. split; [|done]. simpl. intros w' c' H.
  apply lookup_delete_Some in H as [_ H]. eauto.
Qed.
Hint Resolve tag_inv_delete : tinv.

Lemma manage_tag_inv w wa p W : inv W -> inv (manage cfg w wa p W).
Proof.
  intros HW. unfold manage. cbv zeta. apply tag_inv_with_mon; [done|]. intros m Hm.
  pose proof (manage_client_ok W w wa p m HW Hm) as Hc.
  pose proof (tag_inv_insert w _ W Hc HW).
  tinv.
Qed.
Lemma unmanage_tag_inv c b W : inv W -> inv (unmanage c b W).
Proof. unfold unmanage. tinv. Qed.
Hint Resolve manage_tag_inv unmanage_tag_inv : tinv.

Lemma configurerequest_tag_inv ev W : inv W -> inv (configurerequest ev W).
Proof. unfold configurerequest. tinv. Qed.
Lemma maprequest_tag_inv w wa p W : inv W -> inv (maprequest cfg w wa p W).
Proof. unfold maprequest. tinv. Qed.
Hint Resolve configurerequest_tag_inv maprequest_tag_inv : tinv.
Lemma mouse_loop_tag_inv motion evs W :
  (forall x y W, inv W -> inv (motion x y W)) -> inv W -> inv (mouse_loop cfg motion evs W).
Proof. intros Hm HW. unfold mouse_loop. apply fold_left_tag_inv; [|done]. intros ? []; tinv. Qed.
Lemma mouse_release_tag_inv c W : inv W -> inv (mouse_release c W).
Proof. unfold mouse_release. tinv. Qed.
Lemma movemouse_motion_tag_inv c ocx ocy x y ex ey W :
  inv W -> inv (movemouse_motion cfg c ocx ocy x y ex ey W).
Proof. unfold movemouse_motion. tinv. Qed.
Lemma resizemouse_motion_tag_inv c ocx ocy ex ey W :
  inv W -> inv (resizemouse_motion cfg c ocx ocy ex ey W).
Proof. unfold resizemouse_motion. tinv. Qed.
Hint Resolve mouse_release_tag_inv movemouse_motion_tag_inv resizemouse_motion_tag_inv
  mouse_loop_tag_inv : tinv.
Lemma movemouse_tag_inv g ptr evs W : inv W -> inv (movemouse cfg g ptr evs W).
Proof. unfold movemouse. tinv. Qed.
Lemma resizemouse_tag_inv g evs W : inv W -> inv (resizemouse cfg g evs W).
Proof. unfold resizemouse. tinv. Qed.

Hint Resolve togglebar_tag_inv focusstack_tag_inv incnmaster_tag_inv setmfact_tag_inv
  setlayout_tag_inv togglefullscreen_tag_inv focusmonwarp_tag_inv tagmon_tag_inv
  centerfloater_tag_inv maximizefloater_tag_inv modgap_tag_inv movestack_tag_inv
  shiftview_tag_inv tagrel_tag_inv swapfocus_tag_inv movemouse_tag_inv
  resizemouse_tag_inv quit_tag_inv restart_tag_inv : tinv.
Lemma run_action_tag_inv a W : inv W -> inv (run_action cfg a W).
Proof. destruct a; simpl; tinv. Qed.
Lemma run_actions_tag_inv l W : inv W -> inv (run_actions cfg l W).
Proof. apply fold_left_tag_inv. intros. by apply run_action_tag_inv. Qed.
Hint Resolve run_actions_tag_inv : tinv.

Lemma buttonpress_tag_inv w ptr r c W : inv W -> inv (buttonpress cfg w ptr r c W).
Proof. unfold buttonpress. tinv. Qed.
Lemma clientmessage_tag_inv w msg W : inv W -> inv (clientmessage w msg W).
Proof. unfold clientmessage. tinv. Qed.
Lemma destroynotify_tag_inv w W : inv W -> inv (destroynotify w W).
Proof. unfold destroynotify. tinv. Qed.
Lemma enternotify_tag_inv w n i ptr W : inv W -> inv (enternotify w n i ptr W).
Proof. unfold enternotify. tinv. Qed.
Lemma motionnotify_tag_inv w x y W : inv W -> inv (motionnotify w x y W).
Proof. unfold motionnotify. tinv. Qed.
Lemma propertynotify_tag_inv w d a p W : inv W -> inv (propertynotify w d a p W).
Proof. unfold propertynotify. tinv. Qed.
Lemma unmapnotify_tag_inv w s W : inv W -> inv (unmapnotify w s W).
Proof. unfold unmapnotify. tinv. Qed.

Lemma tag_inv_set_mons ms W :
  Forall (mon_ok cfg) ms -> inv W -> inv (set_mons ms W).
Proof. intros Hms [Hs _]. by split. Qed.

Lemma Forall_imap_mon_ok (f : nat -> Monitor -> Monitor) ms :
  (forall i m, mon_ok cfg m -> mon_ok cfg (f i m)) ->
  Forall (mon_ok cfg) ms -> Forall (mon_ok cfg) (imap f ms).
Proof.
  intros Hf. revert f Hf. induction ms as [|m ms IH]; intros f Hf Hall; simpl; [done|].
  inversion Hall; subst. constructor; [by apply Hf|]. apply IH; [|done]. intros. by apply Hf.
Qed.

Lemma updatebars_tag_inv nw W : inv W -> inv (updatebars nw W).
Proof.
  intros HW. unfold updatebars. apply tag_inv_set_mons; [|done].
  apply Forall_imap_mon_ok; [|apply HW]. intros. tinv.
Qed.

Lemma mon_ok_set_geom b i u m : mon_ok cfg m -> mon_ok cfg (set_geom b i u m).
Proof. intros. unfold set_geom. cbv zeta. apply mon_ok_updatebarpos. tinv. Qed.

Lemma mon_ok_createmon : config_ok cfg -> mon_ok cfg (createmon cfg).
Proof. intros H. split; [done|]. split; [done|]. by left. Qed.

Lemma updategeom_grow_tag_inv n u W :
  config_ok cfg -> inv W -> inv (fst (updategeom_grow cfg n u W)).
Proof.
  intros Hc HW. unfold updategeom_grow. cbv zeta. simpl.
  apply tag_inv_set_mons; [|done]. apply Forall_imap_mon_ok.
  - intros i m Hm. repeat case_match; auto using mon_ok_set_geom.
  - apply Forall_app. split; [apply HW|]. apply Forall_replicate. by apply mon_ok_createmon.
Qed.

Lemma drain_one_tag_inv c last W : inv W -> inv (drain_one c last W).
Proof. unfold drain_one. tinv. Qed.
Hint Resolve drain_one_tag_inv : tinv.
Lemma drain_tag_inv fuel last : forall W, inv W -> inv (drain fuel last W).
Proof. induction fuel; intros; simpl; tinv. Qed.
Hint Resolve drain_tag_inv : tinv.

Lemma remove_last_mon_tag_inv Wd : inv (fst Wd) -> inv (fst (remove_last_mon Wd)).
Proof.
  destruct Wd as [W d]. simpl. intros HW. unfold remove_last_mon. cbv zeta.
  destruct (mons W !! _) eqn:E; [|done]. simpl.
  match goal with |- inv (set_mons (take ?k (mons ?X)) ?X) => assert (inv X) as HX by tinv end.
  apply tag_inv_set_mons; [|done]. apply Forall_take, HX.
Qed.

Lemma iter_remove_last_mon_tag_inv k Wd :
  inv (fst Wd) -> inv (fst (Nat.iter k remove_last_mon Wd)).
Proof. induction k; simpl; [done|]. intros. by apply remove_last_mon_tag_inv, IHk. Qed.

Lemma updategeom_tag_inv xin ptr W :
  config_ok cfg -> inv W -> inv (fst (updategeom cfg xin ptr W)).
Proof.
  intros Hc HW. unfold updategeom. cbv zeta.
  assert (inv (set_prevmon None W)) as H0 by tinv. revert H0.
  generalize (set_prevmon None W). clear W HW. intros W HW.
  match goal with |- inv (fst (let '(W1, dirty) := ?X in _)) =>
    assert (inv (fst X)) as HX; [|destruct X as [W1 dirty]] end.
  - destruct xin as [info|].
    + case_match; [by apply updategeom_grow_tag_inv|by apply iter_remove_last_mon_tag_inv].
    + assert (inv (match mons W with [] => set_mons [createmon cfg] W | _ :: _ => W end)) as H1.
      { destruct (mons W); [|done]. apply tag_inv_set_mons; [|done].
        constructor; [by apply mon_ok_createmon|done]. }
      revert H1. generalize (match mons W with [] => set_mons [createmon cfg] W | _ :: _ => W end).
      intros W0 H0. repeat case_match; simpl; tinv.
  - simpl in HX. destruct dirty; simpl; tinv.
Qed.

Lemma configurenotify_tag_inv w wd h xin ptr nw W :
  config_ok cfg -> inv W -> inv (configurenotify cfg w wd h xin ptr nw W).
Proof.
  intros Hc HW. unfold configurenotify. case_match; [|done]. cbv zeta.
  pose proof (updategeom_tag_inv xin ptr (set_sh h (set_sw wd W)) Hc) as Hu.
  destruct (updategeom _ _ _ _) as [W1 ch]. simpl in Hu.
  assert (inv W1) by (apply Hu; tinv).
  pose proof (updatebars_tag_inv nw W1). case_match; tinv.
Qed.

Theorem handle_tag_inv ev W : config_ok cfg -> inv W -> inv (handle cfg ev W).
Proof.
  intros Hc HW. destruct ev; simpl;
    auto using buttonpress_tag_inv, clientmessage_tag_inv, configurerequest_tag_inv,
      configurenotify_tag_inv, destroynotify_tag_inv, enternotify_tag_inv,
      run_actions_tag_inv, maprequest_tag_inv, motionnotify_tag_inv,
      propertynotify_tag_inv, unmapnotify_tag_inv.
Qed.

Lemma initial_world_tag_inv : inv initial_world.
Proof. split; [|constructor]. intros w c H. simpl in H. by rewrite lookup_empty in H. Qed.

Lemma setup_tag_inv d : config_ok cfg -> inv (setup cfg d).
Proof.
  intros Hc. unfold setup. cbv zeta.
  apply focus_tag_inv, updatebars_tag_inv, updategeom_tag_inv; [done|].
  pose proof initial_world_tag_inv. tinv.
Qed.

Lemma reachable_tag_inv W : config_ok cfg -> reachable cfg W -> inv W.
Proof.
  intros Hc. induction 1; [by apply setup_tag_inv|by apply handle_tag_inv].
Qed.
End TagInvariantOps.

(** Sessions are reachable states. *)
Lemma reachable_run_events cfg evs : forall W,
  reachable cfg W ->
  Forall valid_event evs ->
  (forall k, (k < length evs)%nat ->
     running (run_events cfg (take k evs) W) = true) ->
  reachable cfg (run_events cfg evs W).
Proof.
  induction evs as [|ev evs IH]; intros W HW Hv Hr; [done|].
  inversion Hv; subst. unfold run_events. simpl. apply IH; [|done|].
  - apply reach_handle; [done| |done]. apply (Hr 0%nat). simpl. lia.
  - intros k Hk. apply (Hr (S k)). simpl. lia.
Qed.

Lemma config_ok_default : config_ok default_config.
Proof. split; [done|reflexivity]. Qed.

Lemma reachable_session_one_client : reachable default_config session_one_client.
Proof.
  apply reachable_run_events.
  - by apply reach_setup.
  - by repeat constructor.
  - intros [|[|k]] Hk; simpl in Hk; try lia; by vm_compute.
Qed.

(** C1. In every reachable state, every managed client has a tag mask
    that is not empty and lies within [TAGMASK]: [manage] with
    [applyrules], [tag], [toggletag], [sendmon] and every other handler
    keep it so. *)
Theorem client_tags_nonzero_in_tagmask (cfg : Config) (W : World) (w : Z)
    (c : Client) :
  config_ok cfg -> reachable cfg W -> store W !! w = Some c ->
  c_tags c <> 0 /\ Z.land (c_tags c) (TAGMASK cfg) = c_tags c.
Proof.
  intros Hc HW Hw. eapply tag_inv_client; [|exact Hw].
  by apply reachable_tag_inv.
Qed.

Lemma client_tags_nonzero_in_tagmask_witness :
  exists c, store session_one_client !! 10 = Some c
            /\ c_tags c <> 0
            /\ Z.land (c_tags c) (TAGMASK default_config) = c_tags c.
Proof.
  destruct (store session_one_client !! 10) as [c|] eqn:E; [|by vm_compute in E].
  exists c. split; [done|].
  exact (client_tags_nonzero_in_tagmask default_config session_one_client 10 c
           config_ok_default reachable_session_one_client E).
Defined.

(** C9. In every reachable state both tag-set slots of every monitor are
    not empty: [createmon] starts them on [startuptags], and [view],
    [toggleview] and the [_NET_ACTIVE_WINDOW] message only ever store a
    mask that is not empty. *)
Theorem tagset_slots_nonzero (cfg : Config) (W : World) (i : nat)
    (m : Monitor) :
  config_ok cfg -> reachable cfg W -> mons W !! i = Some m ->
  m_tagset0 m <> 0 /\ m_tagset1 m <> 0.
Proof.
  intros Hc HW Hm.
  destruct (tag_inv_mon cfg W i m (reachable_tag_inv cfg W Hc HW) Hm)
    as ([H0 _] & [H1 _] & _).
  by split.
Qed.

Lemma tagset_slots_nonzero_witness :
  exists m, mons session_one_client !! 0%nat = Some m
            /\ m_tagset0 m <> 0 /\ m_tagset1 m <> 0.
Proof.
  destruct (mons session_one_client !! 0%nat) as [m|] eqn:E; [|by vm_compute in E].
  exists m. split; [done|].
  exact (tagset_slots_nonzero default_config session_one_client 0 m
           config_ok_default reachable_session_one_client E).
Defined.

(* ================================================================= *)
(** ** Focusing and arranging change geometry and lists only *)

Lemma layout_frame_refl W : layout_frame W W.
Proof. by repeat split. Qed.

Lemma layout_frame_same W0 W W' :
  store W' = store W -> mons W' = mons W -> gappx W' = gappx W ->
  sw W' = sw W -> sh W' = sh W -> bh W' = bh W -> root W' = root W ->
  layout_frame W0 W -> layout_frame W0 W'.
Proof. unfold layout_frame. by intros -> -> -> -> -> -> ->. Qed.

Lemma layout_frame_upd_client W0 c f W :
  (forall cl, c_core (f cl) = c_core cl) ->
  layout_frame W0 W -> layout_frame W0 (upd_client c f W).
Proof.
  intros Hf (Hs & Hm & Hrest). split; [|by split].
  intros w. rewrite <- Hs. unfold upd_client. simpl.
  destruct (decide (c = w)) as [->|Hne].
  - rewrite lookup_alter_eq. destruct (store W !! w); simpl; [|done]. by rewrite Hf.
  - by rewrite lookup_alter_ne.
Qed.

Lemma layout_frame_upd_mon W0 i f W :
  (forall m, m_core (f m) = m_core m) ->
  layout_frame W0 W -> layout_frame W0 (upd_mon i f W).
Proof.
  intros Hf (Hs & Hm & Hrest). split; [done|]. split; [|done].
  rewrite <- Hm. unfold upd_mon. simpl.
  apply list_eq. intros j. rewrite !list_lookup_fmap.
  destruct (decide (i = j)) as [->|Hne].
  - rewrite list_lookup_alter_eq. destruct (mons W !! j); simpl; [|done]. by rewrite Hf.
  - by rewrite list_lookup_alter_ne.
Qed.

Lemma layout_frame_with_client W0 c W k :
  layout_frame W0 W -> (forall cl, store W !! c = Some cl -> layout_frame W0 (k cl)) ->
  layout_frame W0 (with_client c W k).
Proof. intros HW Hk. unfold with_client. destruct (store W !! c) eqn:E; eauto. Qed.

Lemma layout_frame_with_mon W0 i W k :
  layout_frame W0 W -> (forall m, mons W !! i = Some m -> layout_frame W0 (k m)) ->
  layout_frame W0 (with_mon i W k).
Proof. intros HW Hk. unfold with_mon. destruct (mons W !! i) eqn:E; eauto. Qed.

Lemma layout_frame_set_selmon W0 v W : layout_frame W0 W -> layout_frame W0 (set_selmon v W).
Proof. by apply layout_frame_same. Qed.
Lemma layout_frame_set_prevclient W0 v W : layout_frame W0 W -> layout_frame W0 (set_prevclient v W).
Proof. by apply layout_frame_same. Qed.

Lemma c_core_resizeclient_fields r c : c_core (resizeclient_fields r c) = c_core c.
Proof. by destruct r as [[[??]?]?]. Qed.

Create HintDb lfr discriminated.
#[export] Hint Resolve layout_frame_set_selmon layout_frame_set_prevclient : lfr.
#[export] Hint Extern 2 (layout_frame _ (with_client _ _ _)) =>
  apply layout_frame_with_client; [ | intros ? ?] : lfr.
#[export] Hint Extern 2 (layout_frame _ (with_mon _ _ _)) =>
  apply layout_frame_with_mon; [ | intros ? ?] : lfr.
#[export] Hint Extern 2 (layout_frame _ (upd_client _ _ _)) =>
  apply layout_frame_upd_client;
    [ intros ?; first [reflexivity | apply c_core_resizeclient_fields] | ] : lfr.
#[export] Hint Extern 2 (layout_frame _ (upd_mon _ _ _)) =>
  apply layout_frame_upd_mon; [ intros ?; reflexivity | ] : lfr.
#[export] Hint Extern 3 (layout_frame _ (if ?b then _ else _)) => destruct b eqn:? : lfr.
#[export] Hint Extern 3 (layout_frame _ (match ?x with _ => _ end)) => destruct x eqn:? : lfr.
#[export] Hint Extern 1 (layout_frame _ _) => progress cbv zeta : lfr.

Ltac lfr := eauto 40 with lfr.

Section LayoutFrame.
Variable W0 : World.
Local Abbreviation fr := (layout_frame W0).

Lemma attach_frame c W : fr W -> fr (attach c W).
Proof. unfold attach. lfr. Qed.
Lemma attachstack_frame c W : fr W -> fr (attachstack c W).
Proof. unfold attachstack. lfr. Qed.
Lemma detach_frame c W : fr W -> fr (detach c W).
Proof. unfold detach. lfr. Qed.
Lemma detachstack_frame c W : fr W -> fr (detachstack c W).
Proof. unfold detachstack. lfr. Qed.
Lemma unfocus_frame oc b W : fr W -> fr (unfocus oc b W).
Proof. unfold unfocus. lfr. Qed.
Lemma clearurgent_frame c W : fr W -> fr (clearurgent c W).
Proof. unfold clearurgent. lfr. Qed.
Hint Resolve attach_frame attachstack_frame detach_frame detachstack_frame
  unfocus_frame clearurgent_frame : lfr.
Lemma focus_frame oc W : fr W -> fr (focus oc W).
Proof. unfold focus. lfr. Qed.
Lemma resizeclient_frame c r W : fr W -> fr (resizeclient c r W).
Proof. unfold resizeclient. lfr. Qed.
Hint Resolve focus_frame resizeclient_frame : lfr.
Lemma resize_frame c r b W : fr W -> fr (resize c r b W).
Proof. unfold resize. lfr. Qed.
Hint Resolve resize_frame : lfr.
Lemma tile_loop_frame mi m n l : forall i my ty W,
  fr W -> fr (tile_loop mi m n l i my ty W).
Proof. induction l as [|c l IH]; intros; simpl; lfr. Qed.
Lemma monocle_loop_frame m l : forall W, fr W -> fr (monocle_loop m l W).
Proof. induction l as [|c l IH]; intros; simpl; lfr. Qed.
Lemma showhide_frame l : forall W, fr W -> fr (showhide l W).
Proof.
  induction l as [|c l IH]; intros; simpl; [done|].
  destruct (ISVISIBLE W c); [apply IH|]; lfr.
Qed.
Hint Resolve tile_loop_frame monocle_loop_frame showhide_frame : lfr.
Lemma fold_left_frame {A} (f : World -> A -> World) l :
  (forall W a, fr W -> fr (f W a)) -> forall W, fr W -> fr (fold_left f l W).
Proof. intros Hf. induction l; simpl; eauto. Qed.
Lemma tile_frame mi W : fr W -> fr (tile mi W).
Proof. unfold tile. lfr. Qed.
Lemma monocle_frame mi W : fr W -> fr (monocle mi W).
Proof. unfold monocle. lfr. Qed.
Hint Resolve tile_frame monocle_frame : lfr.
Lemma arrangemon_frame mi W : fr W -> fr (arrangemon mi W).
Proof. unfold arrangemon. lfr. Qed.
Lemma showhide_mon_frame mi W : fr W -> fr (showhide_mon mi W).
Proof. unfold showhide_mon. lfr. Qed.
Hint Resolve arrangemon_frame showhide_mon_frame : lfr.
Lemma arrange_frame om W : fr W -> fr (arrange om W).
Proof.
  unfold arrange. destruct om; [lfr|]. intros H.
  apply fold_left_frame; [lfr|]. apply fold_left_frame; lfr.
Qed.
End LayoutFrame.

#[export] Hint Resolve attach_frame attachstack_frame detach_frame
  detachstack_frame unfocus_frame clearurgent_frame focus_frame
  resizeclient_frame resize_frame arrange_frame layout_frame_refl : lfr.

(* ================================================================= *)
(** ** The two-slot view history *)

Section ViewHistory.
Variable cfg : Config.
Variable m : Monitor.
Variable ui : Z.
Hypothesis Hs : m_seltags m = 0 \/ m_seltags m = 1.

Lemma view_flip_store :
  truthy (Z.land ui (TAGMASK cfg)) = true ->
  cur_tagset (view_flip cfg ui m) = Z.land ui (TAGMASK cfg)
  /\ prev_tagset (view_flip cfg ui m) = cur_tagset m
  /\ m_seltags (view_flip cfg ui m) = Z.lxor (m_seltags m) 1.
Proof.
  intros Ht. unfold view_flip. cbv zeta. rewrite Ht.
  unfold cur_tagset, prev_tagset, m_tagset, set_m_tagset.
  destruct Hs as [E|E]; simpl; rewrite E; simpl; done.
Qed.

Lemma view_flip_swap :
  truthy (Z.land ui (TAGMASK cfg)) = false ->
  cur_tagset (view_flip cfg ui m) = prev_tagset m
  /\ prev_tagset (view_flip cfg ui m) = cur_tagset m
  /\ m_seltags (view_flip cfg ui m) = Z.lxor (m_seltags m) 1.
Proof.
  intros Ht. unfold view_flip. cbv zeta. rewrite Ht.
  unfold cur_tagset, prev_tagset, m_tagset.
  destruct Hs as [E|E]; simpl; rewrite E; simpl; done.
Qed.
End ViewHistory.

Lemma lxor_1_twice s : s = 0 \/ s = 1 -> Z.lxor (Z.lxor s 1) 1 = s.
Proof. by intros [-> | ->]. Qed.

(** The assignments of [view(x)] and then of [view(y)] to one monitor,
    where [y] is the tag-set that was active before: each is nothing when
    the mask is the current tag-set, [view_flip] otherwise.  They make [y]
    the active tag-set again; when [x & TAGMASK] is not empty and differs
    from [y], [seltags] is back at its old value and [x & TAGMASK] is kept
    in the other slot. *)
Lemma view_flip_back (cfg : Config) (m : Monitor) (x : Z) :
  mon_ok cfg m ->
  let y := cur_tagset m in
  let m1 := if Z.land x (TAGMASK cfg) =? cur_tagset m
            then m else view_flip cfg x m in
  let m' := if Z.land y (TAGMASK cfg) =? cur_tagset m1
            then m1 else view_flip cfg y m1 in
  cur_tagset m' = y
  /\ (Z.land x (TAGMASK cfg) <> 0 -> Z.land x (TAGMASK cfg) <> y ->
      m_seltags m' = m_seltags m /\ prev_tagset m' = Z.land x (TAGMASK cfg)).
Proof.
  intros Hm. pose proof Hm as (H0 & H1 & Hs). cbv zeta.
  destruct (cur_tagset_ok cfg m Hm) as [Hy0 Hy].
  assert (Hty : truthy (Z.land (cur_tagset m) (TAGMASK cfg)) = true).
  { rewrite Hy. unfold truthy. by apply negb_true_iff, Z.eqb_neq. }
  rewrite Hy.
  destruct (Z.land x (TAGMASK cfg) =? cur_tagset m) eqn:EX.
  - (* view(x) names the current view: nothing happens, twice *)
    apply Z.eqb_eq in EX. split; [|intros _ Hne; congruence].
    by rewrite Z.eqb_refl.
  - apply Z.eqb_neq in EX.
    assert (Hs' : m_seltags (view_flip cfg x m) = 0 \/ m_seltags (view_flip cfg x m) = 1).
    { apply (mon_ok_view_flip cfg x m Hm). }
    destruct (truthy (Z.land x (TAGMASK cfg))) eqn:ET.
    + destruct (view_flip_store cfg m x Hs ET) as (Ec & Ep & Es).
      rewrite Ec. destruct (cur_tagset m =? Z.land x (TAGMASK cfg)) eqn:E2.
      { apply Z.eqb_eq in E2. congruence. }
      cbv iota.
      destruct (view_flip_store cfg (view_flip cfg x m) (cur_tagset m) Hs' Hty)
        as (Ec2 & Ep2 & Es2).
      rewrite Hy in Ec2. split; [done|]. intros _ _.
      rewrite Es2, Es, Ep2, Ec. split; [by apply lxor_1_twice|done].
    + destruct (view_flip_swap cfg m x Hs ET) as (Ec & Ep & Es).
      split.
      * rewrite Ec. destruct (cur_tagset m =? prev_tagset m) eqn:E2.
        { apply Z.eqb_eq in E2. by rewrite Ec. }
        cbv iota.
        destruct (view_flip_store cfg (view_flip cfg x m) (cur_tagset m) Hs' Hty)
          as (Ec2 & _). by rewrite Hy in Ec2.
      * intros HX. unfold truthy in ET. apply negb_false_iff, Z.eqb_eq in ET. done.
Qed.

(* ================================================================= *)
(** ** The command line *)

Lemma main_version_counterexample :
  ~ exists msg, main "6.1+" "2012+" ["dwm"; "-v"]%string = Exit 0 msg.
Proof. intros [msg H]. vm_compute in H. discriminate. Qed.

(** C8, amended. Invoked with the single argument [-v], the program
    prints its version on [stderr] and ends with status [EXIT_FAILURE],
    which is 1, because it does so through [die]; with any other argument
    list that is not empty it prints the usage message and ends with
    status 1 as well. *)
Theorem main_exits_with_failure (VERSION YEAR : string) (argv : list string) :
  (forall prog, argv = [prog; "-v"%string] ->
     main VERSION YEAR argv = Exit EXIT_FAILURE (version_message VERSION YEAR))
  /\ (length argv <> 1%nat -> (forall prog, argv <> [prog; "-v"%string]) ->
      main VERSION YEAR argv = Exit EXIT_FAILURE usage_message)
  /\ EXIT_FAILURE = 1.
Proof.
  split; [|split; [|done]].
  - intros prog ->. done.
  - intros Hlen Hv. unfold main. cbv zeta.
    destruct (_ && _) eqn:E.
    + apply andb_true_iff in E as [E1 E2]. apply Z.eqb_eq in E1.
      apply bool_decide_eq_true in E2.
      destruct argv as [|a [|b [|c argv]]]; simpl in *; try lia.
      simplify_eq. by destruct (Hv a).
    + destruct (Z.of_nat (length argv) =? 1) eqn:E1; [|done].
      apply Z.eqb_eq in E1. lia.
Qed.

Lemma main_exits_with_failure_witness :
  main "6.1+" "2012+" ["dwm"; "-v"]%string
    = Exit EXIT_FAILURE (version_message "6.1+" "2012+")
  /\ main "6.1+" "2012+" ["dwm"; "-x"]%string = Exit EXIT_FAILURE usage_message.
Proof.
  split.
  - by apply (main_exits_with_failure "6.1+" "2012+" ["dwm"; "-v"]%string)
      with (prog := "dwm"%string).
  - apply (main_exits_with_failure "6.1+" "2012+" ["dwm"; "-x"]%string).
    + simpl. lia.
    + intros prog. discriminate.
Defined.

(* ================================================================= *)
(** ** Size hints *)

Ltac zbool :=
  repeat match goal with
  | H : (_ >? _) = _ |- _ => rewrite Z.gtb_ltb in H
  | H : (_ >=? _) = _ |- _ => rewrite Z.geb_leb in H
  | H : (_ <? _) = true |- _ => apply Z.ltb_lt in H
  | H : (_ <? _) = false |- _ => apply Z.ltb_ge in H
  | H : (_ <=? _) = true |- _ => apply Z.leb_le in H
  | H : (_ <=? _) = false |- _ => apply Z.leb_gt in H
  | H : (_ =? _) = true |- _ => apply Z.eqb_eq in H
  | H : (_ =? _) = false |- _ => apply Z.eqb_neq in H
  end.

Ltac zsplit := repeat (case_match; zbool; try lia).

Lemma applysizehints_twice_counterexample :
  let once :=
    fst (applysizehints 1920 1080 20 wide_monitor incr_client
           (0, 20, 200, 200) false) in
  let twice :=
    fst (applysizehints 1920 1080 20 wide_monitor incr_client once false) in
  once = (0, 20, 105, 200) /\ twice = (0, 20, 100, 200) /\ twice <> once.
Proof. by vm_compute. Qed.

(** Without increments, maximum size and aspect ratio the size-hint block
    only raises a size to the minimum size. *)
Lemma hint_size_min (c : Client) (w h : Z) :
  c_incw c = 0 -> c_inch c = 0 -> c_maxw c = 0 -> c_maxh c = 0 ->
  F32.ltb F32.zero (c_mina c) && F32.ltb F32.zero (c_maxa c) = false ->
  hint_size c w h = (MAX w (c_minw c), MAX h (c_minh c)).
Proof.
  intros Hiw Hih Hmw Hmh Ha. unfold hint_size, aspect_adjust.
  rewrite Hiw, Hih, Hmw, Hmh, Ha. unfold truthy. simpl.
  destruct ((c_basew c =? c_minw c) && (c_baseh c =? c_minh c)); simpl;
    f_equal; f_equal; lia.
Qed.

(** Increments alone, or a maximum size alone, already break idempotence:
    the block shrinks the window, and on the second application the
    smaller window no longer reaches into the work area. *)
Example applysizehints_twice_increment :
  let once :=
    fst (applysizehints 1920 1080 20 wide_monitor step_client
           (-25, 20, 28, 200) false) in
  once = (-25, 20, 20, 200)
  /\ fst (applysizehints 1920 1080 20 wide_monitor step_client once false)
     = (0, 20, 20, 200).
Proof. by vm_compute. Qed.

Example applysizehints_twice_maximum :
  let once :=
    fst (applysizehints 1920 1080 20 wide_monitor narrow_client
           (-25, 20, 28, 200) false) in
  once = (-25, 20, 10, 200)
  /\ fst (applysizehints 1920 1080 20 wide_monitor narrow_client once false)
     = (0, 20, 10, 200).
Proof. by vm_compute. Qed.

Ltac quad :=
  apply pair_equal_spec; split;
  [apply pair_equal_spec; split; [apply pair_equal_spec; split|]|].

(** C6, amended.  [applysizehints] is idempotent on the rectangle
    whenever the size-hint block cannot shrink the window: either the
    block does not apply (the client is tiled under a layout with an
    arrange function and does not honour size hints), or the client has
    no resize increments, no maximum size and no aspect ratio, so that
    the block only raises a size to the minimum size, whatever the flags.
    The area it clamps against must not be empty: the screen in
    interactive mode, the work area of the monitor otherwise.  With
    increments, a maximum size or an aspect ratio a second application
    can change the rectangle again. *)
Theorem applysizehints_idempotent_no_shrink
    (sw sh bh : Z) (m : Monitor) (c : Client) (r : Rect) (interact : bool) :
  (c_sizehints c = false /\ c_isfloating c = false /\ lt_floating m = false)
  \/ (c_incw c = 0 /\ c_inch c = 0 /\ c_maxw c = 0 /\ c_maxh c = 0
      /\ F32.ltb F32.zero (c_mina c) && F32.ltb F32.zero (c_maxa c) = false) ->
  (if interact then 0 < sw /\ 0 <= sh else 0 < m_ww m /\ 0 < m_wh m) ->
  let r1 := fst (applysizehints sw sh bh m c r interact) in
  fst (applysizehints sw sh bh m c r1 interact) = r1.
Proof.
  intros Hc Hpos. destruct r as [[[x y] w] h].
  unfold applysizehints.
  destruct Hc as [(Hs & Hf & Hl) | (Hiw & Hih & Hmw & Hmh & Ha)].
  - rewrite Hs, Hf, Hl. simpl orb. cbv iota.
    unfold WIDTH, HEIGHT, MAX.
    generalize (c_bw c) (c_w c) (c_h c) (c_x c) (c_y c) (m_wx m) (m_wy m).
    intros b cw ch cx cy wx wy.
    destruct interact.
    + destruct Hpos as [Hsw Hsh]. cbv zeta. simpl.
      f_equal; [f_equal; [f_equal|]|]; zsplit.
    + destruct Hpos as [Hww Hwh]. revert Hww Hwh.
      generalize (m_ww m) (m_wh m). intros ww wh Hww Hwh.
      cbv zeta. simpl.
      f_equal; [f_equal; [f_equal|]|]; zsplit.
  - assert (Hh : forall w h, hint_size c w h = (MAX w (c_minw c), MAX h (c_minh c)))
      by (intros; by apply hint_size_min).
    destruct (c_sizehints c || c_isfloating c || lt_floating m).
    + revert Hh. generalize (c_minw c) (c_minh c). intros mw mh Hh.
      rewrite Hh. unfold WIDTH, HEIGHT.
      generalize (c_bw c) (c_w c) (c_h c) (c_x c) (c_y c) (m_wx m) (m_wy m).
      intros b cw ch cx cy wx wy.
      destruct interact.
      * destruct Hpos as [Hsw Hsh]. cbv zeta. simpl. rewrite Hh. cbv beta iota zeta.
        unfold MAX.
        quad; unfold MAX; zsplit.
      * destruct Hpos as [Hww Hwh]. revert Hww Hwh.
        generalize (m_ww m) (m_wh m). intros ww wh Hww Hwh.
        cbv zeta. simpl. rewrite Hh. cbv beta iota zeta. unfold MAX.
        quad; unfold MAX; zsplit.
    + unfold WIDTH, HEIGHT, MAX.
      generalize (c_bw c) (c_w c) (c_h c) (c_x c) (c_y c) (m_wx m) (m_wy m).
      intros b cw ch cx cy wx wy.
      destruct interact.
      * destruct Hpos as [Hsw Hsh]. cbv zeta. simpl.
        f_equal; [f_equal; [f_equal|]|]; zsplit.
      * destruct Hpos as [Hww Hwh]. revert Hww Hwh.
        generalize (m_ww m) (m_wh m). intros ww wh Hww Hwh.
        cbv zeta. simpl.
        f_equal; [f_equal; [f_equal|]|]; zsplit.
Qed.

Lemma applysizehints_idempotent_no_shrink_witness :
  let r1 := fst (applysizehints 1920 1080 20 wide_monitor min_client
                   (0, 20, 200, 200) false) in
  r1 = (0, 20, 300, 200)
  /\ fst (applysizehints 1920 1080 20 wide_monitor min_client r1 false) = r1.
Proof.
  split; [by vm_compute|].
  apply (applysizehints_idempotent_no_shrink 1920 1080 20 wide_monitor
           min_client (0, 20, 200, 200) false).
  - right. by vm_compute.
  - simpl. lia.
Defined.

(* ================================================================= *)
(** ** Transient windows *)

Lemma c_core_tags c c' : c_core c' = c_core c -> c_tags c' = c_tags c.
Proof. intros H. by apply (f_equal c_tags) in H. Qed.
Lemma c_core_mon c c' : c_core c' = c_core c -> c_mon c' = c_mon c.
Proof. intros H. by apply (f_equal c_mon) in H. Qed.

Lemma layout_frame_lookup W W' w c :
  layout_frame W W' -> store W !! w = Some c ->
  exists c', store W' !! w = Some c' /\ c_core c' = c_core c.
Proof.
  intros (Hs & _) Hw. specialize (Hs w). rewrite Hw in Hs. simpl in Hs.
  destruct (store W' !! w) as [c'|]; simpl in Hs; [|done].
  exists c'. split; [done|]. congruence.
Qed.

(** The state in which [manage] has put the new struct into the store. *)
Lemma manage_frame cfg w wa p W m :
  let c := manage_client cfg W w wa p (transient_parent W p) in
  mons W !! c_mon c = Some m ->
  layout_frame (set_store (<[w := c]> (store W)) W) (manage cfg w wa p W).
Proof.
  intros c Hm. unfold manage. fold c. unfold with_mon. rewrite Hm. cbv zeta.
  pose proof (layout_frame_refl (set_store (<[w:=c]> (store W)) W)).
  apply focus_frame, arrange_frame. lfr.
Qed.

(** C10. When the transient-for hint of a new window names a managed
    client [t], [manage] puts the new client on the monitor of [t] with
    exactly the tags of [t], and the rule table is not consulted: the
    outcome is the same for every rule table. *)
Theorem manage_transient_inherits (cfg : Config) (w : Z)
    (wa : XWindowAttributes) (p : WinProps) (W : World) (t : Client) :
  transient_parent W p = Some t ->
  is_Some (mons W !! c_mon t) ->
  (exists c, store (manage cfg w wa p W) !! w = Some c
             /\ c_mon c = c_mon t /\ c_tags c = c_tags t)
  /\ forall rs, manage (with_rules rs cfg) w wa p W = manage cfg w wa p W.
Proof.
  intros Ht [m Hm]. split.
  - assert (Hc : c_mon (manage_client cfg W w wa p (transient_parent W p)) = c_mon t).
    { rewrite c_mon_manage_client, Ht. done. }
    assert (Hg : c_tags (manage_client cfg W w wa p (transient_parent W p)) = c_tags t).
    { rewrite c_tags_manage_client, Ht. done. }
    rewrite <- Hc in Hm.
    destruct (layout_frame_lookup _ _ w
                (manage_client cfg W w wa p (transient_parent W p))
                (manage_frame cfg w wa p W m Hm))
      as (c' & Hc' & Hcore).
    { simpl. apply lookup_insert_eq. }
    exists c'. split; [done|].
    rewrite (c_core_mon _ _ Hcore), (c_core_tags _ _ Hcore). done.
  - intros rs. unfold manage. rewrite Ht. reflexivity.
Qed.

Lemma manage_transient_inherits_witness :
  exists t, store session_one_client !! 10 = Some t /\
  (exists c, store (manage default_config 11 xterm_attrs (dialog_props 10)
                      session_one_client) !! 11 = Some c
             /\ c_mon c = c_mon t /\ c_tags c = c_tags t)
  /\ forall rs, manage (with_rules rs default_config) 11 xterm_attrs
                  (dialog_props 10) session_one_client
                = manage default_config 11 xterm_attrs (dialog_props 10)
                    session_one_client.
Proof.
  destruct (store session_one_client !! 10) as [t|] eqn:E; [|by vm_compute in E].
  exists t. split; [done|].
  apply (manage_transient_inherits default_config 11 xterm_attrs (dialog_props 10)
           session_one_client t).
  - unfold transient_parent. simpl wp_transient. cbv iota.
    replace (wintoclient session_one_client 10) with (Some 10) by (by vm_compute).
    exact E.
  - assert (c_mon t = 0%nat) as ->.
    { assert (c_mon <$> store session_one_client !! 10 = Some 0%nat) as H by (by vm_compute).
      rewrite E in H. by inversion H. }
    clear E. vm_compute. eexists. reflexivity.
Defined.

(* ================================================================= *)
(** ** Fullscreen *)

Lemma fullscreen_round_trip_counterexample :
  let W := session_thin_border in
  let W2 := setfullscreen 10 false (setfullscreen 10 true W) in
  geometry_of W 10 = Some (5, 25, 1900, 1040)
  /\ (c_isfullscreen <$> store W !! 10) = Some false
  /\ geometry_of W2 10 = Some (5, 25, 1906, 1046)
  /\ geometry_of W2 10 <> geometry_of W 10.
Proof. by vm_compute. Qed.

Lemma set_store_set_store s s' W : set_store s (set_store s' W) = set_store s W.
Proof. done. Qed.

Lemma alter_alter_eq (f g : Client -> Client) c (s : gmap Z Client) :
  alter f c (alter g c s) = alter (f ∘ g) c s.
Proof.
  apply map_eq. intros k. destruct (decide (c = k)) as [->|].
  - rewrite !lookup_alter_eq. by destruct (s !! k).
  - by rewrite !lookup_alter_ne.
Qed.

Lemma alter_ext_at (f g : Client -> Client) c cl (s : gmap Z Client) :
  s !! c = Some cl -> f cl = g cl -> alter f c s = alter g c s.
Proof.
  intros Hc Hfg. apply map_eq. intros k. destruct (decide (c = k)) as [->|].
  - rewrite !lookup_alter_eq, Hc. simpl. by rewrite Hfg.
  - by rewrite !lookup_alter_ne.
Qed.

Lemma store_upd_client_eq c f W :
  store (upd_client c f W) !! c = f <$> store W !! c.
Proof. apply lookup_alter_eq. Qed.

Lemma store_upd_client_ne c c' f W :
  c <> c' -> store (upd_client c f W) !! c' = store W !! c'.
Proof. intros. by apply lookup_alter_ne. Qed.

Lemma setfullscreen_on W c cl m :
  store W !! c = Some cl -> mons W !! c_mon cl = Some m ->
  setfullscreen c true W = upd_client c (fun _ => fullscreen_fields m cl) W.
Proof.
  intros Hc Hm. unfold setfullscreen, with_client. rewrite Hc.
  unfold with_mon. simpl mons. rewrite Hm.
  unfold resizeclient, upd_client. simpl store. rewrite set_store_set_store, alter_alter_eq.
  f_equal. eapply alter_ext_at; [exact Hc|]. reflexivity.
Qed.

Lemma setfullscreen_off_on W c cl m :
  store W !! c = Some cl -> mons W !! c_mon cl = Some m ->
  c_isfullscreen cl = false ->
  setfullscreen c false (setfullscreen c true W)
  = arrange (Some (c_mon cl)) (upd_client c fullscreen_saved W).
Proof.
  intros Hc Hm Hfs. rewrite (setfullscreen_on W c cl m Hc Hm).
  unfold setfullscreen at 1. unfold with_client at 1.
  assert (E1 : store (upd_client c (fun _ => fullscreen_fields m cl) W) !! c
               = Some (fullscreen_fields m cl)).
  { rewrite store_upd_client_eq, Hc. reflexivity. }
  rewrite E1. cbv zeta.
  rewrite c_mon_fullscreen_fields. f_equal.
  unfold with_client.
  match goal with |- context [store (upd_client c ?f ?X) !! c] =>
    assert (E2 : store (upd_client c f X) !! c = Some (f (fullscreen_fields m cl)))
  end.
  { rewrite store_upd_client_eq, E1. reflexivity. }
  rewrite E2.
  unfold resizeclient, upd_client. simpl store.
  rewrite !set_store_set_store, !alter_alter_eq. f_equal.
  eapply alter_ext_at; [exact Hc|].
  clear Hc Hm. destruct cl. simpl in Hfs. subst. reflexivity.
Qed.

Lemma cur_tagset_m_core m : cur_tagset (m_core m) = cur_tagset m.
Proof. done. Qed.

Lemma ISVISIBLE_frame W W' c :
  layout_frame W W' -> ISVISIBLE W' c = ISVISIBLE W c.
Proof.
  intros (Hs & Hm & _). unfold ISVISIBLE. specialize (Hs c).
  destruct (store W' !! c) as [cl'|], (store W !! c) as [cl|]; simpl in Hs; try done.
  apply (inj Some) in Hs.
  rewrite (c_core_mon _ _ Hs).
  assert (Hl : m_core <$> mons W' !! c_mon cl = m_core <$> mons W !! c_mon cl).
  { by rewrite <- !list_lookup_fmap, Hm. }
  destruct (mons W' !! c_mon cl) as [m'|], (mons W !! c_mon cl) as [m|];
    simpl in Hl; try done.
  apply (inj Some) in Hl. unfold visible_on.
  rewrite (c_core_tags _ _ Hs), <- (cur_tagset_m_core m'), Hl. done.
Qed.

Lemma resize_other c c' r b W :
  c <> c' -> store (resize c r b W) !! c' = store W !! c'.
Proof.
  intros Hne. unfold resize, with_client, with_mon, resizeclient.
  repeat case_match; try done. by apply store_upd_client_ne.
Qed.

Lemma is_tiled_visible W c : is_tiled W c = true -> ISVISIBLE W c = true.
Proof.
  unfold is_tiled. destruct (store W !! c); [|done].
  destruct (ISVISIBLE W c); [done|]. by rewrite orb_true_r.
Qed.

Section Invisible.
Variable c : Z.

Lemma showhide_invisible l : forall W,
  ISVISIBLE W c = false -> store (showhide l W) !! c = store W !! c.
Proof.
  induction l as [|c' l IH]; intros W Hc; simpl; [done|].
  destruct (ISVISIBLE W c') eqn:E; [|by apply IH].
  assert (c' <> c) by congruence.
  match goal with |- store (showhide l ?X) !! c = _ =>
    assert (HX : layout_frame W X) by (pose proof (layout_frame_refl W); lfr);
    assert (HY : store X !! c = store W !! c)
  end.
  { unfold with_client, with_mon. repeat case_match; try done. by apply resize_other. }
  rewrite IH; [done|]. by rewrite (ISVISIBLE_frame _ _ _ HX).
Qed.

Lemma tile_loop_invisible mi m n l : forall i my ty W,
  ISVISIBLE W c = false ->
  store (tile_loop mi m n l i my ty W) !! c = store W !! c.
Proof.
  induction l as [|c' l IH]; intros i my ty W Hc; simpl; [done|].
  destruct (is_tiled W c') eqn:E; [|by apply IH].
  apply is_tiled_visible in E. assert (c' <> c) by congruence.
  destruct (store W !! c') as [cl|] eqn:Ecl; [|by apply IH].
  assert (HX : layout_frame W (resize c' (tile_request (gappx W) m n i my ty cl) false W))
    by (pose proof (layout_frame_refl W); lfr).
  case_match; (rewrite IH; [by apply resize_other|by rewrite (ISVISIBLE_frame _ _ _ HX)]).
Qed.

Lemma monocle_loop_invisible m l : forall W,
  ISVISIBLE W c = false -> store (monocle_loop m l W) !! c = store W !! c.
Proof.
  induction l as [|c' l IH]; intros W Hc; simpl; [done|].
  destruct (is_tiled W c') eqn:E; [|by apply IH].
  apply is_tiled_visible in E. assert (c' <> c) by congruence.
  destruct (store W !! c') as [cl|] eqn:Ecl; [|by apply IH].
  match goal with |- store (monocle_loop m l ?X) !! c = _ =>
    assert (HX : layout_frame W X) by (pose proof (layout_frame_refl W); lfr) end.
  rewrite IH; [by apply resize_other|by rewrite (ISVISIBLE_frame _ _ _ HX)].
Qed.

Lemma arrange_invisible mi W :
  ISVISIBLE W c = false -> store (arrange (Some mi) W) !! c = store W !! c.
Proof.
  intros Hc. unfold arrange.
  assert (H1 : store (showhide_mon mi W) !! c = store W !! c).
  { unfold showhide_mon, with_mon. case_match; [|done]. by apply showhide_invisible. }
  assert (H2 : ISVISIBLE (showhide_mon mi W) c = false).
  { rewrite (ISVISIBLE_frame W); [done|].
    apply showhide_mon_frame, layout_frame_refl. }
  rewrite <- H1. revert H2. generalize (showhide_mon mi W). clear. intros W Hc.
  unfold arrangemon, with_mon. repeat case_match; try done.
  - unfold tile, with_mon. repeat case_match; try done. by apply tile_loop_invisible.
  - unfold monocle, with_mon. repeat case_match; try done. by apply monocle_loop_invisible.
Qed.
End Invisible.

Lemma ISVISIBLE_upd_client W c f c' :
  (forall cl, c_tags (f cl) = c_tags cl /\ c_mon (f cl) = c_mon cl) ->
  ISVISIBLE (upd_client c f W) c' = ISVISIBLE W c'.
Proof.
  intros Hf. unfold ISVISIBLE. destruct (decide (c = c')) as [->|Hne].
  - rewrite store_upd_client_eq. destruct (store W !! c') as [cl|]; simpl; [|done].
    destruct (Hf cl) as [Ht Hm]. unfold visible_on. by rewrite Hm, Ht.
  - by rewrite store_upd_client_ne.
Qed.

(** C5, amended. For a client that is not fullscreen, setting
    fullscreen makes it fullscreen and floating with border width 0 and
    the rectangle of its monitor.  Setting fullscreen off again puts the
    saved geometry, border width and floating flag back and then arranges
    the monitor: the state is the one [arrange] gives from the state
    before with the saved fields filled in.  Border width, floating flag
    and fullscreen flag are as before; the geometry is exactly as before
    when the client is hidden, and is what [arrange] assigns otherwise. *)
Theorem fullscreen_round_trip (W : World) (c : Z) (cl : Client) (m : Monitor) :
  store W !! c = Some cl -> mons W !! c_mon cl = Some m ->
  c_isfullscreen cl = false ->
  let W1 := setfullscreen c true W in
  let W2 := setfullscreen c false W1 in
  (exists cl1, store W1 !! c = Some cl1
     /\ c_isfullscreen cl1 = true /\ c_bw cl1 = 0 /\ c_isfloating cl1 = true
     /\ (c_x cl1, c_y cl1, c_w cl1, c_h cl1) = (m_mx m, m_my m, m_mw m, m_mh m))
  /\ W2 = arrange (Some (c_mon cl)) (upd_client c fullscreen_saved W)
  /\ (exists cl2, store W2 !! c = Some cl2
        /\ c_isfullscreen cl2 = false /\ c_bw cl2 = c_bw cl
        /\ c_isfloating cl2 = c_isfloating cl
        /\ (ISVISIBLE W c = false ->
            (c_x cl2, c_y cl2, c_w cl2, c_h cl2)
            = (c_x cl, c_y cl, c_w cl, c_h cl))).
Proof.
  intros Hc Hm Hfs. cbv zeta.
  rewrite (setfullscreen_off_on W c cl m Hc Hm Hfs).
  split; [|split; [done|]].
  - rewrite (setfullscreen_on W c cl m Hc Hm), store_upd_client_eq, Hc.
    exists (fullscreen_fields m cl). done.
  - set (W' := upd_client c fullscreen_saved W).
    assert (Hc' : store W' !! c = Some (fullscreen_saved cl)).
    { unfold W'. rewrite store_upd_client_eq, Hc. reflexivity. }
    destruct (layout_frame_lookup W' (arrange (Some (c_mon cl)) W') c _
                (arrange_frame W' _ W' (layout_frame_refl W')) Hc')
      as (cl2 & Hcl2 & Hcore).
    exists cl2. split; [done|].
    pose proof (f_equal c_isfullscreen Hcore) as Hcf.
    pose proof (f_equal c_bw Hcore) as Hcb.
    pose proof (f_equal c_isfloating Hcore) as Hcl.
    simpl in Hcf, Hcb, Hcl.
    split; [congruence|]. split; [done|]. split; [done|].
    intros Hv.
    assert (Hv' : ISVISIBLE W' c = false).
    { unfold W'. rewrite ISVISIBLE_upd_client; [done|]. by intros []. }
    rewrite (arrange_invisible c (c_mon cl) W' Hv'), Hc' in Hcl2.
    apply (inj Some) in Hcl2. by subst cl2.
Qed.

Lemma fullscreen_round_trip_witness :
  let W := session_thin_border in
  let W1 := setfullscreen 10 true W in
  let W2 := setfullscreen 10 false W1 in
  (exists cl1, store W1 !! 10 = Some cl1
     /\ c_isfullscreen cl1 = true /\ c_bw cl1 = 0 /\ c_isfloating cl1 = true
     /\ (c_x cl1, c_y cl1, c_w cl1, c_h cl1)
        = (m_mx thin_monitor, m_my thin_monitor, m_mw thin_monitor, m_mh thin_monitor))
  /\ W2 = arrange (Some (c_mon thin_client)) (upd_client 10 fullscreen_saved W)
  /\ (exists cl2, store W2 !! 10 = Some cl2
        /\ c_isfullscreen cl2 = false /\ c_bw cl2 = c_bw thin_client
        /\ c_isfloating cl2 = c_isfloating thin_client
        /\ (ISVISIBLE W 10 = false ->
            (c_x cl2, c_y cl2, c_w cl2, c_h cl2)
            = (c_x thin_client, c_y thin_client, c_w thin_client, c_h thin_client))).
Proof.
  apply (fullscreen_round_trip session_thin_border 10 thin_client thin_monitor).
  - vm_compute. reflexivity.
  - vm_compute. reflexivity.
  - reflexivity.
Defined.

(* ================================================================= *)
(** ** The selected client and its visibility *)

Lemma selmon_sel_upd_mon_sel W c :
  selmon_sel (upd_mon (selmon W) (set_m_sel c) W)
  = match mons W !! selmon W with Some _ => c | None => None end.
Proof.
  unfold selmon_sel, upd_mon. simpl. rewrite list_lookup_alter_eq.
  by destruct (mons W !! selmon W).
Qed.

Lemma find_ISVISIBLE W l c : first_visible W l = Some c -> ISVISIBLE W c = true.
Proof. unfold first_visible. intros H. by apply find_some in H as [_ H]. Qed.

(** [focus] leaves a visible client, or none, selected on [selmon]. *)
Lemma focus_selects_visible oc W c :
  selmon_sel (focus oc W) = Some c -> ISVISIBLE (focus oc W) c = true.
Proof.
  intros Hsel.
  rewrite (ISVISIBLE_frame W); [|apply focus_frame, layout_frame_refl].
  revert Hsel. unfold focus. cbv zeta. rewrite selmon_sel_upd_mon_sel.
  case_match; [|done]. intros Hc.
  destruct oc as [c0|].
  - destruct (ISVISIBLE W c0) eqn:E.
    + by simplify_eq.
    + destruct (mons W !! selmon W); [|done]. by eapply find_ISVISIBLE.
  - destruct (mons W !! selmon W); [|done]. by eapply find_ISVISIBLE.
Qed.

Lemma reachable_session_hidden_selection :
  reachable default_config session_hidden_selection.
Proof.
  apply reachable_run_events.
  - apply reach_setup. simpl. discriminate.
  - by repeat constructor.
  - intros [|[|[|[|k]]]] Hk; simpl in Hk; try lia; by vm_compute.
Qed.

(** C2, at a state the code reaches. After [manage] of a window that is
    transient for a hidden client of a monitor other than [selmon], that
    monitor's [sel] is the new client, which is not visible under its
    tag-set: [manage] assigns [c->mon->sel = c] and the [focus(NULL)] that
    follows repairs [selmon] only. *)
Theorem manage_selects_hidden_client :
  reachable default_config session_hidden_selection
  /\ (m_sel <$> mons session_hidden_selection !! 0%nat) = Some (Some 11)
  /\ ISVISIBLE session_hidden_selection 11 = false.
Proof.
  split; [apply reachable_session_hidden_selection|]. by vm_compute.
Qed.


(** *** The links, seen through the lists *)

Lemma links_ok_views W :
  links_ok W <->
  (forall w i, owner W w = Some i -> (i < length (mons W))%nat)
  /\ (forall i, NoDup (clients_of W i) /\ NoDup (stack_of W i)
        /\ (forall w, w ∈ clients_of W i <-> owner W w = Some i)
        /\ (forall w, w ∈ stack_of W i <-> owner W w = Some i)
        /\ (forall w, sel_of W i = Some w -> owner W w = Some i))
  /\ (forall p, prevmon W = Some p -> (p < length (mons W))%nat).
Proof.
  unfold links_ok, mon_wf, clients_of, stack_of, sel_of.
  split; intros (Hv & Hm & Hp); (split; [done|split; [|done]]).
  - intros i. destruct (mons W !! i) as [m|] eqn:E; simpl.
    + by apply Hm.
    + split; [constructor|]. split; [constructor|].
      assert (forall w, owner W w = Some i -> False) as Hno.
      { intros w Hw. apply Hv in Hw. apply lookup_ge_None in E. lia. }
      split; [|split]; try done.
      * intros w. split; [by intros ?%elem_of_nil|]. intros ?. exfalso. eauto.
      * intros w. split; [by intros ?%elem_of_nil|]. intros ?. exfalso. eauto.
  - intros i m E. specialize (Hm i). by rewrite E in Hm.
Qed.

Lemma owner_lt W w i : links_ok W -> owner W w = Some i -> (i < length (mons W))%nat.
Proof. intros (Hv & _). apply Hv. Qed.

Lemma owner_store W w cl : store W !! w = Some cl -> owner W w = Some (c_mon cl).
Proof. unfold owner. by intros ->. Qed.

Lemma owner_Some W w i :
  owner W w = Some i -> exists cl, store W !! w = Some cl /\ c_mon cl = i.
Proof.
  unfold owner. destruct (store W !! w) as [cl|]; [|done].
  intros [= <-]. by exists cl.
Qed.

Lemma clients_of_lookup W i m : mons W !! i = Some m -> clients_of W i = m_clients m.
Proof. unfold clients_of. by intros ->. Qed.
Lemma stack_of_lookup W i m : mons W !! i = Some m -> stack_of W i = m_stack m.
Proof. unfold stack_of. by intros ->. Qed.
Lemma sel_of_lookup W i m : mons W !! i = Some m -> sel_of W i = m_sel m.
Proof. unfold sel_of. by intros ->. Qed.

(** The clients of a list are managed, and conversely. *)
Lemma wintoclient_Some W w c : wintoclient W w = Some c -> c = w /\ exists i, w ∈ clients_of W i.
Proof.
  unfold wintoclient. case_match eqn:E; [|done]. intros [= <-]. split; [done|].
  apply existsb_exists in E as (m & Hm & Hw).
  apply bool_decide_eq_true in Hw.
  apply list_elem_of_In, list_elem_of_lookup in Hm as (i & Hi).
  exists i. by rewrite (clients_of_lookup _ _ _ Hi).
Qed.

Lemma wintoclient_None W w i : wintoclient W w = None -> w ∉ clients_of W i.
Proof.
  unfold wintoclient. case_match eqn:E; [done|]. intros _ Hw.
  unfold clients_of in Hw. destruct (mons W !! i) as [m|] eqn:Hi; simpl in Hw;
    [|by apply elem_of_nil in Hw].
  apply not_true_iff_false in E. apply E. apply existsb_exists. exists m. split.
  - apply list_elem_of_In. by eapply list_elem_of_lookup_2.
  - by apply bool_decide_eq_true.
Qed.

Lemma wintoclient_owner W w c :
  links_ok W -> wintoclient W w = Some c -> exists cl, store W !! c = Some cl.
Proof.
  intros Hok Hw. apply wintoclient_Some in Hw as [-> [i Hi]].
  apply links_ok_views in Hok as (_ & Hm & _).
  apply Hm in Hi. apply owner_Some in Hi as (cl & ? & _). eauto.
Qed.

Lemma wintoclient_unmanaged W w :
  links_ok W -> wintoclient W w = None -> store W !! w = None.
Proof.
  intros Hok Hw. destruct (store W !! w) as [cl|] eqn:E; [|done]. exfalso.
  apply links_ok_views in Hok as (_ & Hm & _).
  apply (wintoclient_None W w (c_mon cl) Hw). apply Hm. by apply owner_store.
Qed.

(** *** Changes that keep the links *)

Lemma links_ok_ext W W' :
  store W' = store W -> mons W' = mons W -> prevmon W' = prevmon W ->
  links_ok W -> links_ok W'.
Proof. unfold links_ok, mon_wf, owner. by intros -> -> ->. Qed.

Lemma owner_upd_client c f W w :
  (forall cl, c_mon (f cl) = c_mon cl) ->
  owner (upd_client c f W) w = owner W w.
Proof.
  intros Hf. unfold owner, upd_client. change (store (set_store ?s _)) with s.
  destruct (decide (c = w)) as [->|].
  - rewrite lookup_alter_eq. destruct (store W !! w); simpl; [|done]. by rewrite Hf.
  - by rewrite lookup_alter_ne.
Qed.

Lemma links_ok_owner W W' :
  (forall w, owner W' w = owner W w) -> mons W' = mons W ->
  prevmon W' = prevmon W -> links_ok W -> links_ok W'.
Proof.
  intros Ho Hm Hp (Hv & Hmw & Hpv). unfold links_ok, mon_wf.
  rewrite Hm, Hp. setoid_rewrite Ho. done.
Qed.

Lemma links_ok_upd_client c f W :
  (forall cl, c_mon (f cl) = c_mon cl) -> links_ok W -> links_ok (upd_client c f W).
Proof.
  intros Hf. apply links_ok_owner; [|done..].
  intros w. by apply owner_upd_client.
Qed.

(** The lists of a monitor may be reordered, and any of its clients
    selected. *)
Lemma links_ok_upd_mon i f W :
  (forall m, mons W !! i = Some m ->
     m_clients (f m) ≡ₚ m_clients m /\ m_stack (f m) ≡ₚ m_stack m
     /\ (forall w, m_sel (f m) = Some w -> w ∈ m_clients m)) ->
  links_ok W -> links_ok (upd_mon i f W).
Proof.
  intros Hf (Hv & Hmw & Hp). unfold links_ok, upd_mon.
  change (mons (set_mons ?a _)) with a.
  change (prevmon (set_mons _ ?X)) with (prevmon X).
  rewrite length_alter. split; [done|]. split; [|done].
  intros j m' Hj.
  destruct (decide (i = j)) as [->|Hne].
  - rewrite list_lookup_alter_eq in Hj.
    destruct (mons W !! j) as [m|] eqn:E; [|done]. injection Hj as <-.
    destruct (Hf m eq_refl) as (Hc & Hs & Hsel).
    destruct (Hmw _ _ E) as (Hnd & Hnds & Hcl & Hst & _).
    unfold mon_wf. change (owner (set_mons _ ?X)) with (owner X).
    rewrite Hc, Hs. split; [done|]. split; [done|].
    split; [|split].
    + intros w. by rewrite Hc.
    + intros w. by rewrite Hs.
    + intros w Hw. by apply Hcl, Hsel.
  - rewrite list_lookup_alter_ne in Hj by done. by apply Hmw.
Qed.

Lemma upd_mon_upd_mon i f g W :
  upd_mon i f (upd_mon i g W) = upd_mon i (f ∘ g) W.
Proof.
  unfold upd_mon. change (mons (set_mons ?a _)) with a.
  rewrite list_alter_alter_eq. by destruct W.
Qed.

Lemma upd_mon_None i f W : mons W !! i = None -> upd_mon i f W = W.
Proof.
  intros H. unfold upd_mon.
  assert (alter f i (mons W) = mons W) as ->.
  { apply list_eq. intros j. destruct (decide (i = j)) as [->|].
    - by rewrite list_lookup_alter_eq, H.
    - by rewrite list_lookup_alter_ne. }
  by destruct W.
Qed.

Lemma elem_of_unlink c l w :
  NoDup l -> w ∈ unlink c l <-> w ∈ l /\ w <> c.
Proof.
  induction l as [|a l IH]; simpl; intros Hnd.
  - split; [by intros ?%elem_of_nil|by intros [?%elem_of_nil _]].
  - apply NoDup_cons in Hnd as [Ha Hnd].
    destruct (Z.eqb_spec a c) as [->|Hne].
    + rewrite elem_of_cons. split; [|intuition congruence].
      intros Hw. split; [by right|]. by intros ->.
    + rewrite !elem_of_cons, IH by done. intuition congruence.
Qed.

Lemma unlink_sublist c l : sublist (unlink c l) l.
Proof.
  induction l as [|a l IH]; simpl; [done|].
  destruct (a =? c); [by apply sublist_cons|by apply sublist_skip].
Qed.

Lemma NoDup_unlink c l : NoDup l -> NoDup (unlink c l).
Proof. eauto using sublist_NoDup, unlink_sublist. Qed.

Lemma unlink_notin c l : c ∉ l -> unlink c l = l.
Proof.
  induction l as [|a l IH]; simpl; [done|]. intros H.
  apply not_elem_of_cons in H as [Hne H].
  destruct (Z.eqb_spec a c); [congruence|]. by rewrite IH.
Qed.

Lemma unlink_perm c l : c ∈ l -> c :: unlink c l ≡ₚ l.
Proof.
  induction l as [|a l IH]; simpl; [by intros ?%elem_of_nil|].
  destruct (Z.eqb_spec a c) as [->|Hne]; [done|].
  intros [?|H]%elem_of_cons; [congruence|].
  rewrite Permutation_swap. by rewrite IH.
Qed.

Lemma first_visible_elem W l c : first_visible W l = Some c -> c ∈ l /\ ISVISIBLE W c = true.
Proof.
  unfold first_visible. intros H. apply find_some in H as [H1 H2].
  split; [by apply list_elem_of_In|done].
Qed.

(** The effect of [attach], [attachstack], [detach] and [detachstack] for
    a struct of the store. *)
Lemma attach_eq c cl W :
  store W !! c = Some cl ->
  attach c W = upd_mon (c_mon cl) (fun m => set_m_clients (c :: m_clients m) m) W.
Proof. intros H. unfold attach, with_client. by rewrite H. Qed.

Lemma attachstack_eq c cl W :
  store W !! c = Some cl ->
  attachstack c W = upd_mon (c_mon cl) (fun m => set_m_stack (c :: m_stack m) m) W.
Proof. intros H. unfold attachstack, with_client. by rewrite H. Qed.

Lemma detach_eq c cl W :
  store W !! c = Some cl ->
  detach c W = upd_mon (c_mon cl) (fun m => set_m_clients (unlink c (m_clients m)) m) W.
Proof. intros H. unfold detach, with_client. by rewrite H. Qed.

Lemma detachstack_eq c cl W :
  store W !! c = Some cl ->
  exists W1, detachstack c W = upd_mon (c_mon cl) (detachstack_mon W1 c) W.
Proof.
  intros H. unfold detachstack, with_client. rewrite H. cbv zeta.
  set (W1 := upd_mon (c_mon cl) _ W). exists W1.
  unfold with_mon.
  destruct (mons W !! c_mon cl) as [m|] eqn:E.
  - assert (mons W1 !! c_mon cl = Some (set_m_stack (unlink c (m_stack m)) m)) as ->.
    { subst W1. unfold upd_mon. change (mons (set_mons ?a _)) with a.
      by rewrite list_lookup_alter_eq, E. }
    unfold detachstack_mon.
    change (m_sel (set_m_stack _ ?x)) with (m_sel x).
    destruct (decide (m_sel m = Some c)) as [Hs|Hs].
    + subst W1. rewrite upd_mon_upd_mon. unfold upd_mon. f_equal.
      apply list_eq. intros j. destruct (decide (c_mon cl = j)) as [<-|].
      * rewrite !list_lookup_alter_eq, E. simpl.
        change (m_sel (set_m_stack _ ?x)) with (m_sel x).
        by rewrite decide_True by done.
      * by rewrite !list_lookup_alter_ne.
    + subst W1. unfold upd_mon. f_equal.
      apply list_eq. intros j. destruct (decide (c_mon cl = j)) as [<-|].
      * rewrite !list_lookup_alter_eq, E. simpl.
        change (m_sel (set_m_stack _ ?x)) with (m_sel x).
        by rewrite decide_False by done.
      * by rewrite !list_lookup_alter_ne.
  - assert (mons W1 !! c_mon cl = None) as ->.
    { subst W1. unfold upd_mon. change (mons (set_mons ?a _)) with a.
      by rewrite list_lookup_alter_eq, E. }
    subst W1. by rewrite !upd_mon_None.
Qed.

Lemma links_ok_sel W i m w :
  links_ok W -> mons W !! i = Some m -> m_sel m = Some w -> w ∈ m_clients m.
Proof.
  intros (_ & Hm & _) Hi Hs. destruct (Hm _ _ Hi) as (_ & _ & Hcl & _ & Hsel).
  by apply Hcl, Hsel.
Qed.

Lemma links_ok_upd_mon_same i f W :
  keeps_lists f -> links_ok W -> links_ok (upd_mon i f W).
Proof.
  intros Hf Hok. apply links_ok_upd_mon; [|done]. intros m Hm.
  destruct (Hf m) as (-> & -> & ->). split; [done|]. split; [done|].
  intros w. by apply links_ok_sel with W i.
Qed.

Section WfBasics.
Implicit Types W : World.

Lemma wf_ext W W' :
  store W' = store W -> mons W' = mons W -> prevmon W' = prevmon W ->
  selmon W' = selmon W -> wf W -> wf W'.
Proof.
  intros Hs Hm Hp Hsel [Hok Hv]. split; [by apply (links_ok_ext W)|].
  by rewrite Hm, Hsel.
Qed.

Lemma wf_upd_client c f W :
  (forall cl, c_mon (f cl) = c_mon cl) -> wf W -> wf (upd_client c f W).
Proof. intros Hf [Hok Hv]. split; [by apply links_ok_upd_client|done]. Qed.

Lemma wf_upd_mon i f W : keeps_lists f -> wf W -> wf (upd_mon i f W).
Proof.
  intros Hf [Hok Hv]. split; [by apply links_ok_upd_mon_same|].
  unfold upd_mon. change (mons (set_mons ?a _)) with a.
  by rewrite length_alter.
Qed.

Lemma wf_upd_mon_perm i f W :
  (forall m, mons W !! i = Some m ->
     m_clients (f m) ≡ₚ m_clients m /\ m_stack (f m) ≡ₚ m_stack m
     /\ (forall w, m_sel (f m) = Some w -> w ∈ m_clients m)) ->
  wf W -> wf (upd_mon i f W).
Proof.
  intros Hf [Hok Hv]. split; [by apply links_ok_upd_mon|].
  unfold upd_mon. change (mons (set_mons ?a _)) with a.
  by rewrite length_alter.
Qed.

Lemma wf_with_client c W k :
  wf W -> (forall cl, store W !! c = Some cl -> wf (k cl)) -> wf (with_client c W k).
Proof. intros HW Hk. unfold with_client. destruct (store W !! c) eqn:E; eauto. Qed.

Lemma wf_with_mon i W k :
  wf W -> (forall m, mons W !! i = Some m -> wf (k m)) -> wf (with_mon i W k).
Proof. intros HW Hk. unfold with_mon. destruct (mons W !! i) eqn:E; eauto. Qed.

Lemma wf_set_selmon i W : (i < length (mons W))%nat -> wf W -> wf (set_selmon i W).
Proof. intros Hi [Hok _]. split; [by destruct W|done]. Qed.

Lemma wf_set_prevmon i W : (i < length (mons W))%nat -> wf W -> wf (set_prevmon (Some i) W).
Proof.
  intros Hi [(Hv & Hm & _) Hs]. split; [|done].
  split; [done|]. split; [done|]. by intros p [= <-].
Qed.

Lemma wf_set_prevclient v W : wf W -> wf (set_prevclient v W).
Proof. by apply wf_ext. Qed.
Lemma wf_set_gappx v W : wf W -> wf (set_gappx v W).
Proof. by apply wf_ext. Qed.
Lemma wf_set_sw v W : wf W -> wf (set_sw v W).
Proof. by apply wf_ext. Qed.
Lemma wf_set_sh v W : wf W -> wf (set_sh v W).
Proof. by apply wf_ext. Qed.
Lemma wf_set_bh v W : wf W -> wf (set_bh v W).
Proof. by apply wf_ext. Qed.
Lemma wf_set_root v W : wf W -> wf (set_root v W).
Proof. by apply wf_ext. Qed.
Lemma wf_set_motion_mon v W : wf W -> wf (set_motion_mon v W).
Proof. by apply wf_ext. Qed.
Lemma wf_set_running v W : wf W -> wf (set_running v W).
Proof. by apply wf_ext. Qed.
Lemma wf_set_dorestart v W : wf W -> wf (set_dorestart v W).
Proof. by apply wf_ext. Qed.

Lemma wf_owner_lt W w cl : wf W -> store W !! w = Some cl -> (c_mon cl < length (mons W))%nat.
Proof. intros [Hok _] H. eapply owner_lt; [done|]. by apply owner_store. Qed.

Lemma wf_client_mon W w cl :
  wf W -> store W !! w = Some cl ->
  exists m, mons W !! c_mon cl = Some m /\ w ∈ m_clients m /\ w ∈ m_stack m.
Proof.
  intros HW H. pose proof (wf_owner_lt _ _ _ HW H) as Hlt.
  destruct (lookup_lt_is_Some_2 _ _ Hlt) as [m Hm]. exists m. split; [done|].
  destruct HW as [(_ & Hmw & _) _]. destruct (Hmw _ _ Hm) as (_ & _ & Hcl & Hst & _).
  split; [apply Hcl|apply Hst]; by apply owner_store.
Qed.

Lemma wf_list_client W i m w :
  wf W -> mons W !! i = Some m -> w ∈ m_clients m \/ w ∈ m_stack m ->
  exists cl, store W !! w = Some cl /\ c_mon cl = i.
Proof.
  intros [(_ & Hmw & _) _] Hm Hw. destruct (Hmw _ _ Hm) as (_ & _ & Hcl & Hst & _).
  apply owner_Some. destruct Hw as [Hw|Hw]; [by apply Hcl|by apply Hst].
Qed.

Lemma ISVISIBLE_store W c :
  ISVISIBLE W c = true ->
  exists cl m, store W !! c = Some cl /\ mons W !! c_mon cl = Some m.
Proof.
  unfold ISVISIBLE. destruct (store W !! c) as [cl|]; [|done].
  destruct (mons W !! c_mon cl) as [m|] eqn:E; [|done]. intros _. by exists cl, m.
Qed.

(** [detachstack(c); attachstack(c)] moves [c] to the head of the stack
    of its monitor. *)
Lemma wf_restack c W : wf W -> wf (attachstack c (detachstack c W)).
Proof.
  intros HW. destruct (store W !! c) as [cl|] eqn:E.
  - destruct (detachstack_eq c cl W E) as [W1 ->].
    rewrite (attachstack_eq c cl) by done. rewrite upd_mon_upd_mon.
    apply wf_upd_mon_perm; [|done]. intros m Hm.
    destruct (wf_client_mon _ _ _ HW E) as (m' & Hm' & Hc & Hs).
    rewrite Hm in Hm'. injection Hm' as <-.
    unfold detachstack_mon. simpl.
    change (m_sel (set_m_stack _ ?x)) with (m_sel x).
    change (m_stack (set_m_stack ?l _)) with l.
    destruct (decide (m_sel m = Some c)); simpl.
    + split; [done|]. split; [by apply unlink_perm|].
      intros w Hw. apply first_visible_elem in Hw as [Hw _].
      destruct HW as [(_ & Hmw & _) _].
      destruct (Hmw _ _ Hm) as (_ & Hnd & Hcl & Hst & _).
      apply elem_of_unlink in Hw as [Hw _]; [|done]. by apply Hcl, Hst.
    + split; [done|]. split; [by apply unlink_perm|].
      intros w. destruct HW as [Hok _]. by apply links_ok_sel with W (c_mon cl).
  - unfold detachstack, attachstack, with_client. by rewrite E, E.
Qed.

(** [detach(c); attach(c)] moves [c] to the head of the client list. *)
Lemma wf_reattach c W : wf W -> wf (attach c (detach c W)).
Proof.
  intros HW. destruct (store W !! c) as [cl|] eqn:E.
  - rewrite (detach_eq c cl W E). rewrite (attach_eq c cl) by done.
    rewrite upd_mon_upd_mon.
    apply wf_upd_mon_perm; [|done]. intros m Hm.
    destruct (wf_client_mon _ _ _ HW E) as (m' & Hm' & Hc & Hs).
    rewrite Hm in Hm'. injection Hm' as <-. simpl.
    split; [by apply unlink_perm|]. split; [done|].
    intros w. destruct HW as [Hok _]. by apply links_ok_sel with W (c_mon cl).
  - unfold detach, attach, with_client. by rewrite E, E.
Qed.
End WfBasics.

Lemma c_mon_configurerequest_fields ev m c : c_mon (configurerequest_fields ev m c) = c_mon c.
Proof. unfold configurerequest_fields. repeat (case_match; simpl); done. Qed.
Lemma c_mon_updatetitle n c : c_mon (updatetitle n c) = c_mon c.
Proof. done. Qed.
#[export] Hint Rewrite c_mon_configurerequest_fields c_mon_updatetitle : ctags.

Lemma keeps_lists_updatebarpos b : keeps_lists (updatebarpos b).
Proof. intros m. unfold updatebarpos. repeat (case_match; simpl); done. Qed.
Lemma keeps_lists_view_flip cfg ui : keeps_lists (view_flip cfg ui).
Proof.
  intros m. unfold view_flip, set_m_tagset. repeat (case_match; simpl); done.
Qed.
Lemma keeps_lists_set_m_tagset i v : keeps_lists (set_m_tagset i v).
Proof. intros m. unfold set_m_tagset. repeat (case_match; simpl); done. Qed.
Lemma keeps_lists_compose f g : keeps_lists f -> keeps_lists g -> keeps_lists (f ∘ g).
Proof.
  intros Hf Hg m. unfold compose. destruct (Hf (g m)) as (-> & -> & ->). apply Hg.
Qed.

Create HintDb wfdb discriminated.
#[export] Hint Resolve wf_set_prevclient wf_set_gappx wf_set_sw wf_set_sh
  wf_set_bh wf_set_root wf_set_motion_mon wf_set_running wf_set_dorestart
  wf_restack wf_reattach
  keeps_lists_updatebarpos keeps_lists_view_flip keeps_lists_set_m_tagset : wfdb.
#[export] Hint Extern 2 (wf (with_client _ _ _)) =>
  apply wf_with_client; [ | intros ? ?] : wfdb.
#[export] Hint Extern 2 (wf (with_mon _ _ _)) =>
  apply wf_with_mon; [ | intros ? ?] : wfdb.
#[export] Hint Extern 2 (wf (upd_client _ _ _)) =>
  apply wf_upd_client;
  [ intros ?; simpl; autorewrite with ctags; simpl; try reflexivity | ] : wfdb.
#[export] Hint Extern 2 (wf (upd_mon _ _ _)) =>
  apply wf_upd_mon : wfdb.
#[export] Hint Extern 4 (keeps_lists _) =>
  solve [ intros ?; unfold set_m_tagset, updatebarpos; simpl;
          repeat (case_match; simpl); done ] : wfdb.
#[export] Hint Extern 3 (wf (if ?b then _ else _)) => destruct b eqn:? : wfdb.
#[export] Hint Extern 3 (wf (match ?x with _ => _ end)) => destruct x eqn:? : wfdb.
#[export] Hint Extern 1 (wf _) => progress cbv zeta : wfdb.

Ltac wfa := eauto 40 with wfdb.

(** *** The operations keep the links *)

Lemma store_attach c W : store (attach c W) = store W.
Proof. unfold attach, with_client. by case_match. Qed.
Lemma store_attachstack c W : store (attachstack c W) = store W.
Proof. unfold attachstack, with_client. by case_match. Qed.
Lemma store_detach c W : store (detach c W) = store W.
Proof. unfold detach, with_client. by case_match. Qed.
Lemma store_detachstack c W : store (detachstack c W) = store W.
Proof. unfold detachstack, with_client, with_mon. repeat case_match; done. Qed.
Lemma selmon_attach c W : selmon (attach c W) = selmon W.
Proof. unfold attach, with_client. by case_match. Qed.
Lemma selmon_attachstack c W : selmon (attachstack c W) = selmon W.
Proof. unfold attachstack, with_client. by case_match. Qed.
Lemma selmon_detach c W : selmon (detach c W) = selmon W.
Proof. unfold detach, with_client. by case_match. Qed.
Lemma selmon_detachstack c W : selmon (detachstack c W) = selmon W.
Proof. unfold detachstack, with_client, with_mon. repeat case_match; done. Qed.

Lemma wf_owner_client W w i m :
  wf W -> owner W w = Some i -> mons W !! i = Some m -> w ∈ m_clients m.
Proof.
  intros [(_ & Hmw & _) _] Ho Hm. destruct (Hmw _ _ Hm) as (_ & _ & Hcl & _).
  by apply Hcl.
Qed.

Section WfOps.
Variable cfg : Config.

Lemma unfocus_wf oc b W : wf W -> wf (unfocus oc b W).
Proof. unfold unfocus. wfa. Qed.
Lemma clearurgent_wf c W : wf W -> wf (clearurgent c W).
Proof. unfold clearurgent. wfa. Qed.
Hint Resolve unfocus_wf clearurgent_wf : wfdb.

(** The last steps of [focus], for the client [c] that it has picked. *)
Lemma focus_core_wf c W1 :
  wf W1 ->
  (forall c1, c = Some c1 -> ISVISIBLE W1 c1 = true) ->
  let W2 :=
    match c with
    | Some c1 =>
        with_client c1 W1 (fun cl =>
          let Wa := if decide (c_mon cl = selmon W1) then W1
                    else set_selmon (c_mon cl) W1 in
          let Wb := if c_isurgent cl then clearurgent c1 Wa else Wa in
          attachstack c1 (detachstack c1 Wb))
    | None => W1
    end in
  wf (upd_mon (selmon W2) (set_m_sel c) W2).
Proof.
  intros HW Hc. destruct c as [c1|]; cbv zeta.
  - destruct (ISVISIBLE_store W1 c1 (Hc c1 eq_refl)) as (cl & m & E & Em).
    unfold with_client. rewrite E.
    set (Wa := if decide (c_mon cl = selmon W1) then W1 else set_selmon (c_mon cl) W1).
    assert (HWa : wf Wa /\ selmon Wa = c_mon cl /\ owner Wa c1 = Some (c_mon cl)).
    { subst Wa. destruct (decide _) as [Heq|Hne].
      - split; [done|]. split; [done|]. by apply owner_store.
      - split; [|split; [done|by apply owner_store]].
        apply wf_set_selmon; [|done]. by eapply lookup_lt_Some. }
    destruct HWa as (HWa & Hsa & Hoa).
    set (Wb := if c_isurgent cl then clearurgent c1 Wa else Wa).
    assert (HWb : wf Wb /\ selmon Wb = c_mon cl /\ owner Wb c1 = Some (c_mon cl)).
    { subst Wb. destruct (c_isurgent cl); [|done].
      split; [by apply clearurgent_wf|]. split; [done|].
      unfold clearurgent. by rewrite owner_upd_client. }
    destruct HWb as (HWb & Hsb & Hob).
    set (X := attachstack c1 (detachstack c1 Wb)).
    assert (HX : wf X) by (by apply wf_restack).
    assert (HsX : selmon X = c_mon cl).
    { subst X. by rewrite selmon_attachstack, selmon_detachstack. }
    assert (HoX : owner X c1 = Some (c_mon cl)).
    { subst X. unfold owner. by rewrite store_attachstack, store_detachstack. }
    rewrite HsX. apply wf_upd_mon_perm; [|done]. intros m' Hm'. simpl.
    split; [done|]. split; [done|]. intros w [= <-].
    by apply (wf_owner_client X c1 (c_mon cl)).
  - apply wf_upd_mon_perm; [|done]. intros m Hm. simpl. done.
Qed.

Lemma focus_wf oc W : wf W -> wf (focus oc W).
Proof.
  intros HW. unfold focus. cbv zeta.
  match goal with |- context [set_m_sel ?c] => set (cc := c) end.
  match goal with |- context [with_client _ ?X] => set (W1 := X) end.
  assert (Hc : forall c1, cc = Some c1 -> ISVISIBLE W c1 = true).
  { subst cc. intros c1.
    assert (forall p, match mons W !! selmon W with
                      | Some m => first_visible W (m_stack m)
                      | None => None
                      end = Some p -> ISVISIBLE W p = true) as Hp.
    { intros p. destruct (mons W !! selmon W); [|done].
      intros H. by apply first_visible_elem in H as [_ ?]. }
    destruct oc as [c0|]; [|apply Hp].
    destruct (ISVISIBLE W c0) eqn:E; [by intros [= <-]|apply Hp]. }
  assert (H1 : wf W1 /\ store W1 = store W /\ mons W1 = mons W).
  { subst W1. destruct (selmon_sel W); [|done].
    destruct (decide _); [done|]. split; [by apply unfocus_wf|done]. }
  destruct H1 as (HW1 & Hs1 & Hm1).
  apply focus_core_wf; [done|].
  intros c1 Hc1. unfold ISVISIBLE. rewrite Hs1, Hm1. by apply Hc.
Qed.
Hint Resolve focus_wf : wfdb.

Lemma resizeclient_wf c r W : wf W -> wf (resizeclient c r W).
Proof. unfold resizeclient. wfa. Qed.
Hint Resolve resizeclient_wf : wfdb.
Lemma resize_wf c r b W : wf W -> wf (resize c r b W).
Proof. unfold resize. wfa. Qed.
Hint Resolve resize_wf : wfdb.

Lemma tile_loop_wf mi m n l : forall i my ty W,
  wf W -> wf (tile_loop mi m n l i my ty W).
Proof. induction l as [|c l IH]; intros; simpl; wfa. Qed.
Lemma monocle_loop_wf m l : forall W, wf W -> wf (monocle_loop m l W).
Proof. induction l as [|c l IH]; intros; simpl; wfa. Qed.
Lemma showhide_wf l : forall W, wf W -> wf (showhide l W).
Proof.
  induction l as [|c l IH]; intros; simpl; [done|].
  destruct (ISVISIBLE W c); [apply IH|]; wfa.
Qed.
Hint Resolve tile_loop_wf monocle_loop_wf showhide_wf : wfdb.

Lemma fold_left_wf {A} (f : World -> A -> World) l :
  (forall W a, wf W -> wf (f W a)) -> forall W, wf W -> wf (fold_left f l W).
Proof. intros Hf. induction l; simpl; eauto. Qed.

Lemma tile_wf mi W : wf W -> wf (tile mi W).
Proof. unfold tile. wfa. Qed.
Lemma monocle_wf mi W : wf W -> wf (monocle mi W).
Proof. unfold monocle. wfa. Qed.
Hint Resolve tile_wf monocle_wf : wfdb.
Lemma arrangemon_wf mi W : wf W -> wf (arrangemon mi W).
Proof. unfold arrangemon. wfa. Qed.
Lemma showhide_mon_wf mi W : wf W -> wf (showhide_mon mi W).
Proof. unfold showhide_mon. wfa. Qed.
Hint Resolve arrangemon_wf showhide_mon_wf : wfdb.
Lemma arrange_wf om W : wf W -> wf (arrange om W).
Proof.
  unfold arrange. destruct om; [wfa|]. intros H.
  apply fold_left_wf; [wfa|]. apply fold_left_wf; wfa.
Qed.
Hint Resolve arrange_wf : wfdb.

Lemma view_wf ui W : wf W -> wf (view cfg ui W).
Proof. unfold view. wfa. Qed.
Lemma toggleview_wf ui W : wf W -> wf (toggleview cfg ui W).
Proof. unfold toggleview. wfa. Qed.
Lemma tag_wf ui W : wf W -> wf (tag cfg ui W).
Proof. unfold tag. wfa. Qed.
Lemma toggletag_wf ui W : wf W -> wf (toggletag cfg ui W).
Proof. unfold toggletag. wfa. Qed.
Hint Resolve view_wf toggleview_wf tag_wf toggletag_wf : wfdb.
Lemma shiftview_wf i W : wf W -> wf (shiftview cfg i W).
Proof. unfold shiftview. wfa. Qed.
Lemma tagrel_wf i W : wf W -> wf (tagrel cfg i W).
Proof. unfold tagrel. wfa. Qed.
End WfOps.

(** *** Windows that enter and leave the lists *)

(** A new struct [cl] for the unmanaged window [c], pushed onto the
    lists of its monitor. *)
Lemma links_ok_add c cl W :
  links_ok W -> store W !! c = None -> (c_mon cl < length (mons W))%nat ->
  links_ok
    (set_store (<[c := cl]> (store W))
       (upd_mon (c_mon cl)
          (fun m => set_m_stack (c :: m_stack m) (set_m_clients (c :: m_clients m) m))
          W)).
Proof.
  intros (Hv & Hmw & Hp) Hc Hk.
  assert (Ho : forall w, owner (set_store (<[c := cl]> (store W))
                 (upd_mon (c_mon cl)
                   (fun m => set_m_stack (c :: m_stack m)
                               (set_m_clients (c :: m_clients m) m)) W)) w
               = if decide (w = c) then Some (c_mon cl) else owner W w).
  { intros w. unfold owner. change (store (set_store ?s _)) with s.
    destruct (decide (w = c)) as [->|Hne].
    - by rewrite lookup_insert_eq.
    - by rewrite lookup_insert_ne. }
  assert (Hoc : owner W c = None) by (unfold owner; by rewrite Hc).
  unfold links_ok.
  change (mons (set_store _ (upd_mon ?i ?f ?X))) with (alter f i (mons X)).
  change (prevmon (set_store _ (upd_mon _ _ ?X))) with (prevmon X).
  rewrite length_alter. split; [|split; [|done]].
  - intros w i. rewrite Ho. case_decide; [by intros [= <-]|apply Hv].
  - intros i m' Hi. unfold mon_wf. setoid_rewrite Ho.
    destruct (decide (c_mon cl = i)) as [<-|Hne].
    + rewrite list_lookup_alter_eq in Hi.
      destruct (mons W !! c_mon cl) as [m|] eqn:E; [|done]. injection Hi as <-.
      destruct (Hmw _ _ E) as (Hnd & Hnds & Hcl & Hst & Hsel). simpl.
      assert (c ∉ m_clients m) by (rewrite Hcl; congruence).
      assert (c ∉ m_stack m) by (rewrite Hst; congruence).
      split; [by apply NoDup_cons|]. split; [by apply NoDup_cons|].
      split; [|split].
      * intros w. rewrite elem_of_cons, Hcl. case_decide; intuition congruence.
      * intros w. rewrite elem_of_cons, Hst. case_decide; intuition congruence.
      * intros w Hw. case_decide; [done|by apply Hsel].
    + rewrite list_lookup_alter_ne in Hi by done.
      destruct (Hmw _ _ Hi) as (Hnd & Hnds & Hcl & Hst & Hsel).
      split; [done|]. split; [done|]. split; [|split].
      * intros w. rewrite Hcl. case_decide; [|done]. subst w.
        split; [congruence|]. by intros [= ?].
      * intros w. rewrite Hst. case_decide; [|done]. subst w.
        split; [congruence|]. by intros [= ?].
      * intros w Hw. apply Hsel in Hw. case_decide; [congruence|done].
Qed.

(** The struct of [c] freed, and [c] unlinked from the lists of its
    monitor, whose selection is not [c] afterwards. *)
Lemma links_ok_remove c cl g W :
  links_ok W -> store W !! c = Some cl ->
  (forall m, mons W !! c_mon cl = Some m ->
     m_clients (g m) = unlink c (m_clients m)
     /\ m_stack (g m) = unlink c (m_stack m)
     /\ (forall w, m_sel (g m) = Some w -> w ∈ m_clients m /\ w <> c)) ->
  links_ok (set_store (delete c (store W)) (upd_mon (c_mon cl) g W)).
Proof.
  intros (Hv & Hmw & Hp) Hc Hg.
  assert (Ho : forall w, owner (set_store (delete c (store W))
                 (upd_mon (c_mon cl) g W)) w
               = if decide (w = c) then None else owner W w).
  { intros w. unfold owner. change (store (set_store ?s _)) with s.
    destruct (decide (w = c)) as [->|Hne].
    - by rewrite lookup_delete_eq.
    - by rewrite lookup_delete_ne. }
  assert (Hoc : owner W c = Some (c_mon cl)) by (by apply owner_store).
  unfold links_ok.
  change (mons (set_store _ (upd_mon ?i ?f ?X))) with (alter f i (mons X)).
  change (prevmon (set_store _ (upd_mon _ _ ?X))) with (prevmon X).
  rewrite length_alter. split; [|split; [|done]].
  - intros w i. rewrite Ho. case_decide; [done|apply Hv].
  - intros i m' Hi. unfold mon_wf. setoid_rewrite Ho.
    destruct (decide (c_mon cl = i)) as [<-|Hne].
    + rewrite list_lookup_alter_eq in Hi.
      destruct (mons W !! c_mon cl) as [m|] eqn:E; [|done]. injection Hi as <-.
      destruct (Hmw _ _ E) as (Hnd & Hnds & Hcl & Hst & Hsel).
      destruct (Hg m eq_refl) as (-> & -> & Hs).
      split; [by apply NoDup_unlink|]. split; [by apply NoDup_unlink|].
      split; [|split].
      * intros w. rewrite elem_of_unlink, Hcl by done.
        case_decide; intuition congruence.
      * intros w. rewrite elem_of_unlink, Hst by done.
        case_decide; intuition congruence.
      * intros w Hw. apply Hs in Hw as [Hw Hne]. rewrite decide_False by done.
        by apply Hcl.
    + rewrite list_lookup_alter_ne in Hi by done.
      destruct (Hmw _ _ Hi) as (Hnd & Hnds & Hcl & Hst & Hsel).
      split; [done|]. split; [done|]. split; [|split].
      * intros w. rewrite Hcl. case_decide; [|done]. subst w.
        split; [congruence|done].
      * intros w. rewrite Hst. case_decide; [|done]. subst w.
        split; [congruence|done].
      * intros w Hw. apply Hsel in Hw. case_decide; [congruence|done].
Qed.

(** [detach(c); detachstack(c)] as a change of the monitor of [c]. *)
Lemma detach_detachstack_eq c cl W :
  store W !! c = Some cl ->
  exists W1,
    detachstack c (detach c W)
    = upd_mon (c_mon cl)
        (detachstack_mon W1 c ∘ (fun m => set_m_clients (unlink c (m_clients m)) m)) W.
Proof.
  intros E. rewrite (detach_eq c cl W E).
  destruct (detachstack_eq c cl (upd_mon (c_mon cl)
              (fun m => set_m_clients (unlink c (m_clients m)) m) W)) as [W1 ->]; [done|].
  exists W1. by rewrite upd_mon_upd_mon.
Qed.

Lemma detach_detachstack_lists c W1 m W i :
  links_ok W -> mons W !! i = Some m ->
  let g := detachstack_mon W1 c ∘ (fun m => set_m_clients (unlink c (m_clients m)) m) in
  m_clients (g m) = unlink c (m_clients m)
  /\ m_stack (g m) = unlink c (m_stack m)
  /\ (forall w, m_sel (g m) = Some w -> w ∈ m_clients m /\ w <> c).
Proof.
  intros Hok Hm. cbv zeta. unfold compose, detachstack_mon. simpl.
  change (m_sel (set_m_stack _ (set_m_clients _ ?x))) with (m_sel x).
  destruct Hok as (_ & Hmw & _).
  destruct (Hmw _ _ Hm) as (Hnd & Hnds & Hcl & Hst & Hsel).
  destruct (decide (m_sel m = Some c)) as [Hs|Hs]; simpl.
  - split; [done|]. split; [done|]. intros w Hw.
    apply first_visible_elem in Hw as [Hw _].
    apply elem_of_unlink in Hw as [Hw Hne]; [|done]. split; [|done].
    by apply Hcl, Hst.
  - split; [done|]. split; [done|]. intros w Hw. split.
    + by apply Hcl, Hsel.
    + intros ->. done.
Qed.

Lemma unmanage_core_wf c cl W :
  wf W -> store W !! c = Some cl ->
  let W1 := detachstack c (detach c W) in
  wf (set_store (delete c (store W1)) W1).
Proof.
  intros [Hok Hsel] E. cbv zeta.
  destruct (detach_detachstack_eq c cl W E) as [W1 ->].
  change (store (upd_mon _ _ ?X)) with (store X).
  split.
  - apply links_ok_remove; [done..|]. intros m Hm.
    by apply (detach_detachstack_lists c W1 m W (c_mon cl)).
  - change (selmon (set_store _ (upd_mon _ _ ?X))) with (selmon X).
    change (mons (set_store _ (upd_mon ?i ?f ?X))) with (alter f i (mons X)).
    by rewrite length_alter.
Qed.

Lemma manage_core_wf w c W :
  wf W -> store W !! w = None -> (c_mon c < length (mons W))%nat ->
  let W1 := attachstack w (attach w (set_store (<[w := c]> (store W)) W)) in
  wf W1 /\ owner W1 w = Some (c_mon c) /\ selmon W1 = selmon W.
Proof.
  intros [Hok Hsel] E Hk. cbv zeta.
  set (W0 := set_store (<[w := c]> (store W)) W).
  assert (E0 : store W0 !! w = Some c) by (subst W0; simpl; by rewrite lookup_insert_eq).
  rewrite (attach_eq w c W0 E0).
  rewrite (attachstack_eq w c) by done.
  rewrite upd_mon_upd_mon.
  split; [split|split].
  - eapply links_ok_ext; [| | |exact (links_ok_add w c W Hok E Hk)]; reflexivity.
  - unfold upd_mon. change (mons (set_mons ?a _)) with a.
    rewrite length_alter. done.
  - by apply owner_store.
  - done.
Qed.

Lemma sendmon_core_wf c cl m W :
  wf W -> store W !! c = Some cl -> c_mon cl <> m -> (m < length (mons W))%nat ->
  let W1 := detachstack c (detach c W) in
  let W2 := upd_client c (set_c_mon m) W1 in
  let W3 :=
    with_mon m W2 (fun tm => upd_client c (set_c_tags (cur_tagset tm)) W2) in
  wf (attachstack c (attach c W3)).
Proof.
  intros [Hok Hsel] E Hne Hm. cbv zeta.
  destruct (detach_detachstack_eq c cl W E) as [Wv ->].
  set (g := detachstack_mon Wv c ∘ _).
  set (W1 := upd_mon (c_mon cl) g W).
  set (W2 := upd_client c (set_c_mon m) W1).
  assert (Hlen : length (mons W2) = length (mons W)).
  { subst W2 W1. unfold upd_client, upd_mon. simpl. by rewrite length_alter. }
  unfold with_mon.
  destruct (mons W2 !! m) as [tm|] eqn:Etm;
    [|apply lookup_ge_None in Etm; lia].
  set (cl3 := set_c_tags (cur_tagset tm) (set_c_mon m cl)).
  set (W3 := upd_client c _ W2).
  assert (E3 : store W3 !! c = Some cl3).
  { subst W3 W2 W1 cl3. unfold upd_client, upd_mon. simpl.
    by rewrite !lookup_alter_eq, E. }
  rewrite (attach_eq c cl3 W3 E3).
  rewrite (attachstack_eq c cl3) by done.
  rewrite upd_mon_upd_mon.
  change (c_mon cl3) with m.
  pose proof (links_ok_remove c cl g W Hok E) as HR.
  set (R := set_store (delete c (store W)) (upd_mon (c_mon cl) g W)) in HR.
  assert (HokR : links_ok R).
  { apply HR. intros m' Hm'. by apply (detach_detachstack_lists c Wv m' W (c_mon cl)). }
  assert (HRc : store R !! c = None).
  { subst R. simpl. by rewrite lookup_delete_eq. }
  assert (HRm : (c_mon cl3 < length (mons R))%nat).
  { subst R. unfold upd_mon. simpl. by rewrite length_alter. }
  pose proof (links_ok_add c cl3 R HokR HRc HRm) as HA.
  split.
  - eapply links_ok_ext; [| | |exact HA]; try reflexivity.
    subst W3 W2 W1 R. unfold upd_client, upd_mon. simpl.
    apply map_eq. intros w. destruct (decide (w = c)) as [->|Hw].
    + by rewrite lookup_insert_eq, !lookup_alter_eq, E.
    + by rewrite lookup_insert_ne, lookup_delete_ne, !lookup_alter_ne by done.
  - subst W3 W2 W1. unfold upd_client, upd_mon. simpl.
    by rewrite !length_alter.
Qed.

Lemma layout_frame_length W W' :
  layout_frame W W' -> length (mons W') = length (mons W).
Proof.
  intros (_ & H & _). apply (f_equal length) in H. by rewrite !length_fmap in H.
Qed.

Lemma dirtomon_loop_lt sm dir l n : forall i acc,
  (i + length l <= n)%nat ->
  (acc.1.1.1 < n)%nat -> (acc.1.1.2 < n)%nat ->
  let r := dirtomon_loop sm dir l i acc in
  (r.1.1.1 < n)%nat /\ (r.1.1.2 < n)%nat.
Proof.
  induction l as [|m l IH]; intros i [[[a b] p] q] Hi Ha Hb; simpl in *; [done|].
  apply IH; [lia|..]; repeat (case_match; simpl); lia.
Qed.

Lemma dirtomon_dir_lt dir W :
  (selmon W < length (mons W))%nat -> (dirtomon_dir dir W < length (mons W))%nat.
Proof.
  intros Hs. unfold dirtomon_dir. destruct (mons W !! selmon W) as [sm|]; [|done].
  pose proof (dirtomon_loop_lt sm dir (mons W) (length (mons W)) 0%nat
                (selmon W, selmon W, 0, 0) ltac:(simpl; lia) Hs Hs) as H.
  cbv zeta in H.
  destruct (dirtomon_loop _ _ _ _ _) as [[[a b] p] q]. simpl in H.
  case_decide; lia.
Qed.

Lemma dirtomon_lt dir W : wf W -> (dirtomon dir W < length (mons W))%nat.
Proof.
  intros [(_ & _ & Hp) Hs]. unfold dirtomon.
  destruct (dir =? 0); [|by apply dirtomon_dir_lt].
  destruct (prevmon W) as [p|] eqn:E; [by apply Hp|by apply dirtomon_dir_lt].
Qed.

Lemma swap_clients_perm a b l :
  NoDup l -> a ∈ l -> b ∈ l -> swap_clients a b l ≡ₚ l.
Proof.
  intros Hnd Ha Hb. unfold swap_clients.
  set (t := fun c : Z => if c =? a then b else if c =? b then a else c).
  assert (Ht : forall x, t (t x) = x).
  { intros x. unfold t.
    destruct (Z.eqb_spec x a) as [->|Hxa].
    - destruct (Z.eqb_spec b a) as [->|Hba]; [done|]. by rewrite Z.eqb_refl.
    - destruct (Z.eqb_spec x b) as [->|Hxb].
      + by rewrite Z.eqb_refl.
      + destruct (Z.eqb_spec x a); [done|]. by destruct (Z.eqb_spec x b). }
  assert (Hin : forall x, x ∈ l -> t x ∈ l).
  { intros x Hx. unfold t. repeat case_match; done. }
  change (map t l) with (t <$> l).
  apply NoDup_Permutation; [|done|].
  - apply NoDup_fmap_2_strong; [|done].
    intros x y _ _ Hxy. by rewrite <- (Ht x), <- (Ht y), Hxy.
  - intros x. rewrite list_elem_of_fmap. split.
    + intros (y & -> & Hy). by apply Hin.
    + intros Hx. exists (t x). split; [by rewrite Ht|by apply Hin].
Qed.

Lemma chain_after_sublist s l : sublist (chain_after s l) l.
Proof.
  induction l as [|a l IH]; simpl; [done|].
  destruct (a =? s); by apply sublist_cons.
Qed.
Lemma chain_before_sublist s l : sublist (chain_before s l) l.
Proof.
  induction l as [|a l IH]; simpl; [done|].
  destruct (a =? s); [apply sublist_nil_l|by apply sublist_skip].
Qed.

Lemma elem_of_rev (x : Z) l : x ∈ rev l <-> x ∈ l.
Proof. rewrite !list_elem_of_In. symmetry. apply in_rev. Qed.

Lemma find_elem (p : Z -> bool) l c : List.find p l = Some c -> c ∈ l.
Proof. intros H. apply find_some in H as [H _]. by apply list_elem_of_In. Qed.

Lemma stack_neighbour_elem p i s l c :
  stack_neighbour p i s l = Some c -> c ∈ l \/ c = s.
Proof.
  unfold stack_neighbour, find_last. intros H.
  repeat case_match; simplify_eq;
    repeat match goal with
           | H : List.find _ _ = Some _ |- _ => apply find_elem in H
           end.
  - left. eapply elem_of_sublist; [done|apply chain_after_sublist].
  - by left.
  - left. apply (proj1 (elem_of_rev _ _)) in H1.
    eapply elem_of_sublist; [done|apply chain_before_sublist].
  - apply (proj1 (elem_of_rev _ _)), elem_of_cons in H as [->|H]; [by right|].
    left. eapply elem_of_sublist; [done|apply chain_after_sublist].
Qed.

Section WfOps2.
Variable cfg : Config.
Hint Resolve unfocus_wf clearurgent_wf focus_wf resizeclient_wf resize_wf
  arrange_wf view_wf toggleview_wf tag_wf toggletag_wf shiftview_wf tagrel_wf : wfdb.

Lemma focusmon_wf i W : wf W -> wf (focusmon i W).
Proof.
  intros HW. unfold focusmon. destruct (single_monitor W); [done|]. cbv zeta.
  destruct (decide _); [done|].
  apply focus_wf. pose proof (dirtomon_lt i W HW) as Hd.
  assert (HU : wf (unfocus (selmon_sel W) false W)) by wfa.
  assert (Hl : mons (unfocus (selmon_sel W) false W) = mons W).
  { unfold unfocus. by destruct (selmon_sel W). }
  assert (Hs : selmon (unfocus (selmon_sel W) false W) = selmon W).
  { unfold unfocus. by destruct (selmon_sel W). }
  apply wf_set_selmon; [simpl; by rewrite Hl|].
  apply wf_set_prevmon; [|done]. rewrite Hl, Hs. apply HW.
Qed.
Hint Resolve focusmon_wf : wfdb.
Lemma focusmonwarp_wf i W : wf W -> wf (focusmonwarp i W).
Proof. unfold focusmonwarp. intros. apply focusmon_wf. wfa. Qed.

Lemma sendmon_wf c m W : (m < length (mons W))%nat -> wf W -> wf (sendmon c m W).
Proof.
  intros Hm HW. unfold sendmon. apply wf_with_client; [done|]. intros cl E.
  destruct (decide _) as [|Hne]; [done|]. cbv zeta.
  apply arrange_wf, focus_wf.
  apply (sendmon_core_wf c cl m (unfocus (Some c) true W)); [wfa|done..].
Qed.

Lemma tagmon_wf i W : wf W -> wf (tagmon i W).
Proof.
  intros HW. unfold tagmon. destruct (selmon_sel W); [|done].
  destruct (single_monitor W); [done|]. apply sendmon_wf; [|done].
  by apply dirtomon_lt.
Qed.
Lemma focusstack_wf i W : wf W -> wf (focusstack i W).
Proof. unfold focusstack. wfa. Qed.

Lemma movestack_wf i W : wf W -> wf (movestack i W).
Proof.
  intros HW. unfold movestack.
  destruct (mons W !! selmon W) as [m|] eqn:Em; [|done].
  destruct (m_sel m) as [s|] eqn:Es; [|done].
  destruct (stack_neighbour _ i s (m_clients m)) as [c|] eqn:En; [|done].
  destruct (Z.eqb_spec c s) as [|Hne]; [done|].
  apply arrange_wf. apply wf_upd_mon_perm; [|done]. intros m' Hm'.
  rewrite Em in Hm'. injection Hm' as <-. simpl.
  assert (Hs : s ∈ m_clients m) by (destruct HW as [Hok _]; by eapply links_ok_sel).
  split; [|split; [done|]].
  - apply swap_clients_perm; [|done|].
    + destruct HW as [(_ & Hmw & _) _]. by destruct (Hmw _ _ Em).
    + apply stack_neighbour_elem in En as [?|?]; [done|congruence].
  - intros w Hw. destruct HW as [Hok _]. by eapply links_ok_sel.
Qed.

Lemma pop_wf c W : wf W -> wf (pop c W).
Proof. intros HW. unfold pop. cbv zeta. wfa. Qed.
Lemma swapfocus_wf W : wf W -> wf (swapfocus W).
Proof. unfold swapfocus. wfa. Qed.
Lemma setlayout_wf a W : wf W -> wf (setlayout a W).
Proof. unfold setlayout. wfa. Qed.
Lemma setmfact_wf a W : wf W -> wf (setmfact a W).
Proof. unfold setmfact. wfa. Qed.
Lemma incnmaster_wf a W : wf W -> wf (incnmaster a W).
Proof. unfold incnmaster. wfa. Qed.
Lemma togglebar_wf W : wf W -> wf (togglebar W).
Proof.
  unfold togglebar. intros. apply arrange_wf, wf_upd_mon; [|done].
  intros m. unfold updatebarpos. repeat (case_match; simpl); done.
Qed.
Lemma togglefloating_wf W : wf W -> wf (togglefloating W).
Proof. unfold togglefloating. wfa. Qed.
Lemma setfullscreen_wf c b W : wf W -> wf (setfullscreen c b W).
Proof. unfold setfullscreen. wfa. Qed.
Hint Resolve setfullscreen_wf pop_wf togglefloating_wf : wfdb.
Lemma togglefullscreen_wf W : wf W -> wf (togglefullscreen W).
Proof. unfold togglefullscreen. wfa. Qed.
Lemma centerfloater_wf W : wf W -> wf (centerfloater W).
Proof. unfold centerfloater, floater_guard. wfa. Qed.
Lemma maximizefloater_wf W : wf W -> wf (maximizefloater W).
Proof. unfold maximizefloater, floater_guard. wfa. Qed.
Lemma modgap_wf i W : wf W -> wf (modgap i W).
Proof. unfold modgap. intros. apply fold_left_wf; wfa. Qed.
Lemma quit_wf W : wf W -> wf (quit W).
Proof. unfold quit. wfa. Qed.
Lemma restart_wf W : wf W -> wf (restart W).
Proof. unfold restart. wfa. Qed.

Lemma manage_wf w wa p W :
  wf W -> store W !! w = None -> wf (manage cfg w wa p W).
Proof.
  intros HW E. unfold manage. cbv zeta. apply wf_with_mon; [done|]. intros m Hm.
  set (c := manage_client cfg W w wa p (transient_parent W p)) in *.
  destruct (manage_core_wf w c W HW E) as (H1 & Ho & Hs).
  { by eapply lookup_lt_Some. }
  set (W1 := attachstack w (attach w (set_store (<[w:=c]> (store W)) W))) in *.
  apply focus_wf, arrange_wf.
  set (W2 := if decide (c_mon c = selmon W1) then _ else W1).
  assert (H2 : wf W2 /\ owner W2 w = Some (c_mon c)).
  { subst W2. destruct (decide _); [|done]. split; [wfa|].
    unfold unfocus. by destruct (selmon_sel W1). }
  destruct H2 as [H2 Ho2].
  apply wf_upd_mon_perm; [|done]. intros m' Hm'. simpl.
  split; [done|]. split; [done|]. intros ? [= <-].
  by apply (wf_owner_client W2 w (c_mon c)).
Qed.

Lemma unmanage_wf c b W : wf W -> wf (unmanage c b W).
Proof.
  intros HW. unfold unmanage. apply wf_with_client; [done|]. intros cl E.
  cbv zeta. apply arrange_wf, focus_wf. by apply (unmanage_core_wf c cl).
Qed.
Hint Resolve unmanage_wf : wfdb.

Lemma configurerequest_wf ev W : wf W -> wf (configurerequest ev W).
Proof. unfold configurerequest. wfa. Qed.
Lemma maprequest_wf w wa p W : wf W -> wf (maprequest cfg w wa p W).
Proof.
  intros HW. unfold maprequest. destruct wa as [a|]; [|done].
  destruct (wa_override_redirect a); [done|].
  destruct (wintoclient W w) eqn:E; [done|].
  apply manage_wf; [done|]. apply wintoclient_unmanaged; [apply HW|done].
Qed.
Hint Resolve configurerequest_wf maprequest_wf : wfdb.
End WfOps2.

(** *** Monitors that disappear *)

Lemma mons_upd_mon i f W : mons (upd_mon i f W) = alter f i (mons W).
Proof. done. Qed.
Lemma store_upd_mon i f W : store (upd_mon i f W) = store W.
Proof. done. Qed.
Lemma mons_upd_client c f W : mons (upd_client c f W) = mons W.
Proof. done. Qed.
Lemma store_upd_client c f W : store (upd_client c f W) = alter f c (store W).
Proof. done. Qed.

Lemma list_alter_insert {A} (f : A -> A) i (l : list A) x :
  l !! i = Some x -> alter f i l = <[i := f x]> l.
Proof.
  intros H. apply list_eq. intros j. destruct (decide (i = j)) as [->|].
  - rewrite list_lookup_alter_eq, H. simpl.
    rewrite list_lookup_insert_eq; [done|]. by eapply lookup_lt_Some.
  - by rewrite list_lookup_alter_ne, list_lookup_insert_ne.
Qed.







Lemma mons_detachstack c cl m W :
  store W !! c = Some cl -> mons W !! c_mon cl = Some m ->
  exists m', mons (detachstack c W) = <[c_mon cl := m']> (mons W)
             /\ m_clients m' = m_clients m.
Proof.
  intros Hc Hm. unfold detachstack, with_client, with_mon. rewrite Hc. cbv zeta.
  assert (Hlt : (c_mon cl < length (mons W))%nat) by (by eapply lookup_lt_Some).
  rewrite mons_upd_mon, list_lookup_alter_eq, Hm. simpl.
  case_match.
  - eexists. split.
    + rewrite mons_upd_mon, mons_upd_mon.
      rewrite (list_alter_insert _ _ _ _ Hm).
      erewrite list_alter_insert by (by apply list_lookup_insert_eq).
      rewrite list_insert_insert_eq. reflexivity.
    + done.
  - eexists. split.
    + rewrite mons_upd_mon. rewrite (list_alter_insert _ _ _ _ Hm). reflexivity.
    + done.
Qed.

Section DrainOne.
Variables (last : nat) (c : Z) (W : World) (m m0 : Monitor) (cl : Client).
Hypothesis Hlast : last <> 0%nat.
Hypothesis Hm : mons W !! last = Some m.
Hypothesis Hm0 : mons W !! 0%nat = Some m0.
Hypothesis Hc : store W !! c = Some cl.
Hypothesis Hcm : c_mon cl = last.

Lemma drain_one_eq :
  exists m',
    drain_one c last W
    = set_mons (<[0%nat := push_clients [c] m0]> (<[last := m']> (mons W)))
        (set_store (alter (set_c_mon 0%nat) c (store W)) W)
    /\ m_clients m' = tail (m_clients m).
Proof.
  unfold drain_one. cbv zeta.
  set (W1 := upd_mon last _ W).
  assert (Hlt : (last < length (mons W))%nat) by (by eapply lookup_lt_Some).
  assert (Hc1 : store W1 !! c = Some cl) by done.
  assert (Hm1 : mons W1 !! c_mon cl = Some (set_m_clients (tail (m_clients m)) m)).
  { subst W1. by rewrite Hcm, mons_upd_mon, list_lookup_alter_eq, Hm. }
  destruct (mons_detachstack _ _ _ _ Hc1 Hm1) as (m' & Hm2 & Hcl).
  exists m'. split; [|done].
  assert (Hs2 : store (detachstack c W1) = store W) by (by rewrite store_detachstack).
  set (W3 := upd_client c _ _).
  assert (Hc3 : store W3 !! c = Some (set_c_mon 0%nat cl)).
  { subst W3. by rewrite store_upd_client, Hs2, lookup_alter_eq, Hc. }
  rewrite (attach_eq _ _ _ Hc3).
  rewrite (attachstack_eq c (set_c_mon 0%nat cl)) by done.
  change (c_mon (set_c_mon 0%nat cl)) with 0%nat.
  assert (Hm3 : mons W3 = <[last := m']> (mons W)).
  { subst W3. rewrite mons_upd_client, Hm2, Hcm. subst W1.
    rewrite mons_upd_mon, (list_alter_insert _ _ _ _ Hm).
    by rewrite list_insert_insert_eq. }
  assert (H0 : mons W3 !! 0%nat = Some m0).
  { by rewrite Hm3, list_lookup_insert_ne. }
  unfold upd_mon at 1. rewrite mons_upd_mon.
  rewrite (list_alter_insert _ _ _ _ H0).
  erewrite list_alter_insert
    by (apply list_lookup_insert_eq; by eapply lookup_lt_Some).
  rewrite list_insert_insert_eq, Hm3.
  unfold upd_mon, W3, upd_client. rewrite Hs2.
  assert (HW : forall a b, set_mons a (set_mons b (set_store (alter (set_c_mon 0%nat) c (store W)) (detachstack c W1))) = set_mons a (set_store (alter (set_c_mon 0%nat) c (store W)) W)).
  { intros a b. unfold detachstack, with_client, with_mon.
    rewrite Hc1. cbv zeta. repeat case_match; reflexivity. }
  apply HW.
Qed.
End DrainOne.

Lemma push_clients_nil m : push_clients [] m = m.
Proof. by destruct m. Qed.

Lemma push_clients_app l1 l2 m :
  push_clients l1 (push_clients l2 m) = push_clients (l1 ++ l2) m.
Proof. destruct m. unfold push_clients. simpl. by rewrite !app_assoc. Qed.

Lemma set_mons_set_store_id W : set_mons (mons W) (set_store (store W) W) = W.
Proof. by destruct W. Qed.

Lemma set_mons_set_store_twice a s b s0 W :
  set_mons a (set_store s (set_mons b (set_store s0 W)))
  = set_mons a (set_store s W).
Proof. by destruct W. Qed.

Lemma repoint_lookup_notin l : forall s w, w ∉ l -> repoint l s !! w = s !! w.
Proof.
  induction l as [|a l IH]; intros s w Hw; [done|]. simpl.
  apply not_elem_of_cons in Hw as [Hne Hw].
  rewrite IH by done. by rewrite lookup_alter_ne.
Qed.

Lemma repoint_lookup_in l : forall s w, NoDup l -> w ∈ l ->
  repoint l s !! w = set_c_mon 0%nat <$> s !! w.
Proof.
  induction l as [|a l IH]; intros s w Hnd Hw; [by apply elem_of_nil in Hw|].
  simpl. apply NoDup_cons in Hnd as [Ha Hnd].
  apply elem_of_cons in Hw as [->|Hw].
  - rewrite repoint_lookup_notin by done. by rewrite lookup_alter_eq.
  - rewrite IH by done. rewrite lookup_alter_ne; [done|]. by intros ->.
Qed.

Lemma drain_eq last : last <> 0%nat ->
  forall l W m m0,
    mons W !! last = Some m -> m_clients m = l ->
    mons W !! 0%nat = Some m0 ->
    (forall c, c ∈ l -> exists cl, store W !! c = Some cl /\ c_mon cl = last) ->
    NoDup l ->
    exists m',
      drain (length l) last W
      = set_mons (<[0%nat := push_clients (reverse l) m0]> (<[last := m']> (mons W)))
          (set_store (repoint l (store W)) W).
Proof.
  intros Hlast. induction l as [|c l IH]; intros W m m0 Hm Hl Hm0 Hin Hnd.
  - exists m. simpl. rewrite push_clients_nil.
    rewrite (list_insert_id _ last) by done. rewrite list_insert_id by done.
    unfold repoint. simpl. by rewrite set_mons_set_store_id.
  - simpl. rewrite Hm, Hl.
    destruct (Hin c) as (cl & Hc & Hcm); [by left|].
    destruct (drain_one_eq last c W m m0 cl Hlast Hm Hm0 Hc Hcm) as (m1 & -> & Hm1).
    rewrite Hl in Hm1. simpl in Hm1.
    apply NoDup_cons in Hnd as [Hc' Hnd].
    assert (Hlt : (last < length (mons W))%nat) by (by eapply lookup_lt_Some).
    assert (H0lt : (0 < length (mons W))%nat) by (by eapply lookup_lt_Some).
    edestruct (IH (set_mons (<[0%nat := push_clients [c] m0]> (<[last := m1]> (mons W)))
                    (set_store (alter (set_c_mon 0%nat) c (store W)) W))
                 m1 (push_clients [c] m0)) as (m2 & ->).
    + change (mons (set_mons ?a _)) with a.
      rewrite list_lookup_insert_ne by done. by apply list_lookup_insert_eq.
    + done.
    + change (mons (set_mons ?a _)) with a.
      apply list_lookup_insert_eq. by rewrite length_insert.
    + intros c' Hc''. destruct (Hin c') as (cl' & Hcl' & Hcm'); [by right|].
      exists cl'. split; [|done].
      change (store (set_mons _ (set_store ?s _))) with s.
      rewrite lookup_alter_ne; [done|]. by intros ->.
    + done.
    + exists m2.
      change (mons (set_mons ?a _)) with a.
      change (store (set_mons _ (set_store ?s _))) with s.
      rewrite set_mons_set_store_twice. f_equal.
      rewrite push_clients_app, reverse_cons.
      apply list_eq. intros j.
      destruct (decide (j = 0%nat)) as [->|Hj0].
      { rewrite !list_lookup_insert_eq; [done|by rewrite ?length_insert..]. }
      rewrite (list_lookup_insert_ne _ 0%nat) by done.
      rewrite (list_lookup_insert_ne _ 0%nat j) by done.
      destruct (decide (j = last)) as [->|Hjl].
      { rewrite !list_lookup_insert_eq; [done|by rewrite ?length_insert..]. }
      by rewrite !list_lookup_insert_ne by done.
Qed.

Lemma repoint_rehome l last W :
  links_ok W -> length (mons W) = S last ->
  (exists m, mons W !! last = Some m /\ m_clients m = l) ->
  repoint l (store W) = rehome last <$> store W.
Proof.
  intros (Hv & Hm & _) Hlen (m & Hml & <-).
  destruct (Hm _ _ Hml) as (Hnd & _ & Hcl & _).
  apply map_eq. intros w. rewrite lookup_fmap.
  destruct (decide (w ∈ m_clients m)) as [Hin|Hin].
  - rewrite repoint_lookup_in by done.
    apply Hcl in Hin. unfold owner in Hin.
    destruct (store W !! w) as [cl|]; [|done]. simpl in *.
    unfold rehome. injection Hin as Hin. rewrite Hin.
    by rewrite decide_True by lia.
  - rewrite repoint_lookup_notin by done.
    destruct (store W !! w) as [cl|] eqn:E; [|done]. simpl.
    unfold rehome.
    assert (c_mon cl <> last).
    { intros Heq. apply Hin, Hcl. unfold owner. by rewrite E, <- Heq. }
    assert (c_mon cl < length (mons W))%nat.
    { apply (Hv w). unfold owner. by rewrite E. }
    by rewrite decide_False by lia.
Qed.

Lemma remove_last_mon_eq W d last m m0 :
  links_ok W -> length (mons W) = S last -> last <> 0%nat ->
  mons W !! last = Some m -> mons W !! 0%nat = Some m0 ->
  fst (remove_last_mon (W, d)) = without_last last m m0 W.
Proof.
  intros Hok Hlen Hlast Hm Hm0.
  unfold remove_last_mon. rewrite Hlen.
  replace (S last - 1)%nat with last by lia. rewrite Hm. cbv zeta. simpl fst.
  destruct Hok as (Hv & Hmw & Hp).
  destruct (Hmw _ _ Hm) as (Hnd & _ & Hcl & _).
  destruct (drain_eq last Hlast (m_clients m) W m m0 Hm eq_refl Hm0) as (m' & ->).
  { intros c Hc. apply Hcl in Hc. unfold owner in Hc.
    destruct (store W !! c) as [cl|]; [|done]. exists cl. split; [done|].
    simpl in Hc. by injection Hc. }
  { done. }
  rewrite (repoint_rehome (m_clients m) last W) by (done || by exists m).
  unfold without_last.
  change (selmon (set_mons _ (set_store _ W))) with (selmon W).
  assert (Ht : forall W', take last (mons (set_mons
              (<[0%nat:=push_clients (reverse (m_clients m)) m0]> (<[last:=m']> (mons W))) W'))
            = <[0%nat:=push_clients (reverse (m_clients m)) m0]> (take last (mons W))).
  { intros W'. change (mons (set_mons ?a _)) with a.
    rewrite take_insert_lt by lia. by rewrite take_insert_ge by lia. }
  destruct (decide (last = selmon W)).
  - change (mons (set_selmon _ ?X)) with (mons X). rewrite Ht. by destruct W.
  - rewrite Ht. by destruct W.
Qed.

Lemma owner_rehome last W w :
  owner (set_store (rehome last <$> store W) W) w
  = (fun i => if decide (last <= i)%nat then 0%nat else i) <$> owner W w.
Proof.
  unfold owner. change (store (set_store ?s _)) with s.
  rewrite lookup_fmap. destruct (store W !! w) as [cl|]; [|done]. simpl.
  unfold rehome. by destruct (decide (last <= c_mon cl)%nat).
Qed.

Lemma owner_without_last last m m0 W w :
  owner (without_last last m m0 W) w
  = (fun i => if decide (last <= i)%nat then 0%nat else i) <$> owner W w.
Proof. apply owner_rehome. Qed.

Lemma rehome_index (last i j : nat) :
  (i < last)%nat -> (j <= last)%nat ->
  (if decide (last <= j)%nat then 0%nat else j) = i
  <-> j = i \/ (i = 0%nat /\ j = last).
Proof. intros. case_decide; lia. Qed.

Lemma links_ok_without_last W last m m0 :
  links_ok W -> prevmon W = None -> length (mons W) = S last -> last <> 0%nat ->
  mons W !! last = Some m -> mons W !! 0%nat = Some m0 ->
  links_ok (without_last last m m0 W).
Proof.
  intros (Hv & Hmw & Hp) Hpn Hlen Hlast Hm Hm0.
  assert (Hlen' : length (mons (without_last last m m0 W)) = last).
  { unfold without_last. change (mons (set_mons ?a _)) with a.
    rewrite length_insert, length_take. lia. }
  assert (Hown : forall i w, (i < last)%nat ->
            owner (without_last last m m0 W) w = Some i <->
            owner W w = Some i \/ (i = 0%nat /\ owner W w = Some last)).
  { intros i w Hil. rewrite owner_without_last.
    destruct (owner W w) as [j|] eqn:E; simpl.
    - apply Hv in E.
      pose proof (rehome_index last i j Hil ltac:(lia)) as R. split.
      + intros [= H1]. apply R in H1 as [->| [-> ->]]; auto.
      + intros [[= ->] | [-> [= ->]]]; f_equal; apply R; auto.
    - split; [done | intros [?|[_ ?]]; done]. }
  destruct (Hmw _ _ Hm) as (Hnd & Hnds & Hcl & Hst & Hsel).
  destruct (Hmw _ _ Hm0) as (Hnd0 & Hnds0 & Hcl0 & Hst0 & Hsel0).
  split; [|split].
  - intros w i. rewrite owner_without_last, Hlen'.
    destruct (owner W w) as [j|] eqn:E; [|done]. simpl.
    apply Hv in E. intros [= <-]. case_decide; lia.
  - intros i mi Hi.
    assert (Hil : (i < last)%nat).
    { apply lookup_lt_Some in Hi. by rewrite Hlen' in Hi. }
    unfold without_last in Hi. change (mons (set_mons ?a _)) with a in Hi.
    specialize (Hown i). pose proof (fun w => Hown w Hil) as Hown'. clear Hown.
    rename Hown' into Hown.
    destruct (decide (i = 0%nat)) as [->|Hi0].
    + rewrite list_lookup_insert_eq in Hi
        by (rewrite length_take; lia).
      injection Hi as <-.
      assert (Hdisj : forall w, w ∈ reverse (m_clients m) -> owner W w = Some last).
      { intros w Hw. apply Hcl. by apply elem_of_reverse. }
      unfold mon_wf, push_clients. simpl.
      change (m_clients (set_m_stack _ (set_m_clients ?l _))) with l.
      change (m_stack (set_m_stack ?l _)) with l.
      change (m_sel (set_m_stack _ (set_m_clients _ ?x))) with (m_sel x).
      split; [|split; [|split; [|split]]].
      * apply NoDup_app. split; [by rewrite reverse_Permutation|]. split; [|done].
        intros w Hw Hw0. apply Hdisj in Hw. apply Hcl0 in Hw0. congruence.
      * apply NoDup_app. split; [by rewrite reverse_Permutation|]. split; [|done].
        intros w Hw Hw0. apply Hdisj in Hw. apply Hst0 in Hw0. congruence.
      * intros w. rewrite Hown, elem_of_app, elem_of_reverse, Hcl, Hcl0.
        tauto.
      * intros w. rewrite Hown, elem_of_app, elem_of_reverse, Hcl, Hst0.
        tauto.
      * intros w Hw. apply Hown. left. by apply Hsel0.
    + rewrite list_lookup_insert_ne in Hi by done.
      rewrite lookup_take_lt in Hi by done.
      destruct (Hmw _ _ Hi) as (Hndi & Hndsi & Hcli & Hsti & Hseli).
      split; [done|]. split; [done|].
      split; [|split].
      * intros w. rewrite Hown, Hcli. tauto.
      * intros w. rewrite Hown, Hsti. tauto.
      * intros w Hw. apply Hown. left. by apply Hseli.
  - intros p. unfold without_last.
    change (prevmon (set_mons _ (set_selmon _ (set_store _ ?X)))) with (prevmon X).
    by rewrite Hpn.
Qed.

Lemma rehome_id W :
  links_ok W -> rehome (length (mons W)) <$> store W = store W.
Proof.
  intros (Hv & _). apply map_eq. intros w. rewrite lookup_fmap.
  destruct (store W !! w) as [cl|] eqn:E; [|done]. simpl. f_equal.
  unfold rehome. rewrite decide_False; [done|].
  specialize (Hv w (c_mon cl)). unfold owner in Hv. rewrite E in Hv.
  specialize (Hv eq_refl). lia.
Qed.

Lemma rehome_rehome last (s : gmap Z Client) :
  rehome last <$> (rehome (S last) <$> s) = rehome last <$> s.
Proof.
  rewrite <- map_fmap_compose. apply map_fmap_ext. intros w cl _. simpl.
  unfold rehome. repeat case_decide; simpl in *; try done; lia.
Qed.

Lemma shrunk_all W m0 :
  wf W -> mons W !! 0%nat = Some m0 -> shrunk (length (mons W)) m0 W = W.
Proof.
  intros (Hok & Hsel) Hm0. unfold shrunk.
  rewrite drop_all, firstn_all. unfold moved_clients. simpl.
  rewrite push_clients_nil, list_insert_id by done.
  rewrite rehome_id by done. rewrite decide_False by lia. by destruct W.
Qed.

Lemma without_last_shrunk W last m m0 :
  last <> 0%nat -> mons W !! last = Some m ->
  without_last last m
    (push_clients (moved_clients (drop (S last) (mons W))) m0)
    (shrunk (S last) m0 W)
  = shrunk last m0 W.
Proof.
  intros Hlast Hm.
  assert (Hlt : (last < length (mons W))%nat) by (by eapply lookup_lt_Some).
  unfold without_last, shrunk.
  change (mons (set_mons ?a _)) with a.
  change (selmon (set_mons _ (set_selmon ?a _))) with a.
  change (store (set_mons _ (set_selmon _ (set_store ?a _)))) with a.
  rewrite rehome_rehome, push_clients_app.
  rewrite take_insert_lt by lia. rewrite take_take.
  replace (last `min` S last)%nat with last by lia.
  rewrite list_insert_insert_eq.
  rewrite (drop_S _ m last) by done.
  assert (Hs : (if decide (last =
                   (if decide (S last <= selmon W)%nat then 0%nat else selmon W))
                then 0%nat
                else if decide (S last <= selmon W)%nat then 0%nat else selmon W)
               = (if decide (last <= selmon W)%nat then 0%nat else selmon W)).
  { repeat case_decide; lia. }
  rewrite Hs. by destruct W.
Qed.

Lemma iter_remove_last_mon W m0 d :
  wf W -> prevmon W = None -> mons W !! 0%nat = Some m0 ->
  forall k, (k < length (mons W))%nat ->
    fst (Nat.iter k remove_last_mon (W, d))
    = shrunk (length (mons W) - k) m0 W
    /\ links_ok (shrunk (length (mons W) - k) m0 W).
Proof.
  intros Hwf Hpn Hm0. induction k as [|k IH]; intros Hk.
  - simpl. rewrite Nat.sub_0_r, shrunk_all by done. split; [done|apply Hwf].
  - destruct IH as (IH & Hok); [lia|].
    rewrite Nat.iter_succ.
    destruct (Nat.iter k remove_last_mon (W, d)) as [Wk dk]. simpl in IH. subst Wk.
    set (last := (length (mons W) - S k)%nat).
    replace (length (mons W) - k)%nat with (S last) in * by lia.
    destruct (lookup_lt_is_Some_2 (mons W) last) as [m Hm]; [lia|].
    assert (Hlast : last <> 0%nat) by lia.
    assert (Hlen : length (mons (shrunk (S last) m0 W)) = S last).
    { unfold shrunk. change (mons (set_mons ?a _)) with a.
      rewrite length_insert, length_take. lia. }
    assert (Hm' : mons (shrunk (S last) m0 W) !! last = Some m).
    { unfold shrunk. change (mons (set_mons ?a _)) with a.
      rewrite list_lookup_insert_ne by done. by rewrite lookup_take_lt by lia. }
    assert (Hm0' : mons (shrunk (S last) m0 W) !! 0%nat
                   = Some (push_clients (moved_clients (drop (S last) (mons W))) m0)).
    { unfold shrunk. change (mons (set_mons ?a _)) with a.
      apply list_lookup_insert_eq. rewrite length_take. lia. }
    rewrite <- (without_last_shrunk W last m m0) by done.
    split.
    + by apply remove_last_mon_eq.
    + by apply links_ok_without_last.
Qed.

Lemma recttomon_loop_lt x y w h l : forall i r a n,
  (r < n)%nat -> (i + length l <= n)%nat ->
  (recttomon_loop x y w h l i r a < n)%nat.
Proof.
  induction l as [|m l IH]; intros i r a n Hr Hi; simpl in *; [done|].
  case_match; apply IH; lia.
Qed.

Lemma recttomon_lt x y w h W :
  (selmon W < length (mons W))%nat ->
  (recttomon x y w h W < length (mons W))%nat.
Proof. intros H. apply recttomon_loop_lt; [done|simpl; lia]. Qed.

Lemma mon_by_barwin_lt w l : forall i j,
  mon_by_barwin w l i = Some j -> (j < i + length l)%nat.
Proof.
  induction l as [|m l IH]; intros i j; simpl; [done|].
  case_match; [intros [= <-]; lia|]. intros H'. apply IH in H'. lia.
Qed.

Lemma wintomon_lt w ptr W :
  links_ok W -> (selmon W < length (mons W))%nat ->
  (wintomon w ptr W < length (mons W))%nat.
Proof.
  intros (Hv & _) Hsel. unfold wintomon.
  destruct (if w =? root W then ptr else None) as [[x y]|].
  { by apply recttomon_lt. }
  destruct (mon_by_barwin w (mons W) 0) as [j|] eqn:E.
  { by apply mon_by_barwin_lt in E. }
  destruct (wintoclient W w) as [c|]; [|done].
  destruct (store W !! c) as [cl|] eqn:Ec; [|done].
  apply (Hv c). unfold owner. by rewrite Ec.
Qed.

Lemma links_ok_set_selmon i W : links_ok W -> links_ok (set_selmon i W).
Proof. by destruct W. Qed.

Lemma links_ok_set_prevmon_None W : links_ok W -> links_ok (set_prevmon None W).
Proof.
  intros (Hv & Hm & _). split; [|split]; [exact Hv|exact Hm|].
  by intros p [=].
Qed.


(** *** Events keep the links *)

Lemma links_ok_imap (f : nat -> Monitor -> Monitor) W :
  (forall i, keeps_lists (f i)) -> links_ok W ->
  links_ok (set_mons (imap f (mons W)) W).
Proof.
  intros Hf (Hv & Hmw & Hp). unfold links_ok.
  change (mons (set_mons ?a _)) with a.
  change (prevmon (set_mons _ ?X)) with (prevmon X).
  rewrite length_imap. split; [done|]. split; [|done].
  intros i m' Hi. rewrite list_lookup_imap in Hi.
  destruct (mons W !! i) as [m|] eqn:E; [|done]. injection Hi as <-.
  destruct (Hf i m) as (Hc & Hs & Hsel).
  unfold mon_wf. rewrite Hc, Hs, Hsel. by apply Hmw.
Qed.

Lemma links_ok_grow cfg k W :
  links_ok W -> links_ok (set_mons (mons W ++ replicate k (createmon cfg)) W).
Proof.
  intros (Hv & Hmw & Hp). unfold links_ok.
  change (mons (set_mons ?a _)) with a.
  change (prevmon (set_mons _ ?X)) with (prevmon X).
  rewrite length_app. split; [|split].
  - intros w i Hw. apply Hv in Hw. lia.
  - intros i m Hi. apply lookup_app_Some in Hi as [Hi|[Hge Hi]]; [by apply Hmw|].
    apply lookup_replicate in Hi as [-> _].
    unfold mon_wf. change (owner (set_mons _ ?X)) with (owner X). simpl.
    assert (forall w, owner W w = Some i -> False) as Hno.
    { intros w Hw. apply Hv in Hw. lia. }
    split; [constructor|]. split; [constructor|]. split; [|split; [|done]].
    + intros w. split; [by intros ?%elem_of_nil|]. intros ?. exfalso. eauto.
    + intros w. split; [by intros ?%elem_of_nil|]. intros ?. exfalso. eauto.
  - intros p Hp'. apply Hp in Hp'. lia.
Qed.

Lemma unique_geoms_nonempty info : info <> [] -> unique_geoms info <> [].
Proof.
  unfold unique_geoms. destruct info as [|i0 info]; [done|]. intros _. simpl.
  assert (forall l u, u <> [] ->
            fold_left (fun unique i => if isuniquegeom unique i then unique ++ [i]
                                       else unique) l u <> []) as H.
  { induction l as [|a l IH]; intros u Hu; simpl; [done|].
    apply IH. destruct (isuniquegeom u a); [|done]. by destruct u. }
  apply H. done.
Qed.

Lemma keeps_lists_set_geom b i u : keeps_lists (set_geom b i u).
Proof.
  intros m. unfold set_geom. cbv zeta.
  match goal with
  | |- context [updatebarpos b ?X] =>
      destruct (keeps_lists_updatebarpos b X) as (-> & -> & ->)
  end.
  done.
Qed.

Lemma links_ok_updategeom_grow cfg n u W :
  links_ok W -> links_ok (fst (updategeom_grow cfg n u W)).
Proof.
  intros Hok. unfold updategeom_grow. cbv zeta. simpl fst.
  set (k := (length u - n)%nat).
  match goal with |- links_ok (set_mons (imap ?f _) W) => set (upd := f) end.
  apply (links_ok_ext (set_mons (imap upd (mons
           (set_mons (mons W ++ replicate k (createmon cfg)) W)))
           (set_mons (mons W ++ replicate k (createmon cfg)) W))); [done..|].
  apply links_ok_imap; [|by apply links_ok_grow].
  intros i m. subst upd. cbv beta.
  destruct (u !! i); [|done].
  destruct (geom_dirty n u i m); [apply keeps_lists_set_geom|done].
Qed.

Lemma length_updategeom_grow cfg n u W :
  n = length (mons W) -> (n <= length u)%nat ->
  length (mons (fst (updategeom_grow cfg n u W))) = length u.
Proof.
  intros -> Hn. unfold updategeom_grow. cbv zeta. simpl.
  rewrite length_imap, length_app, length_replicate. lia.
Qed.

Section WfEvents.
Variable cfg : Config.
Hint Resolve unfocus_wf clearurgent_wf focus_wf resizeclient_wf resize_wf
  arrange_wf view_wf toggleview_wf tag_wf toggletag_wf shiftview_wf tagrel_wf
  focusmon_wf setfullscreen_wf pop_wf togglefloating_wf unmanage_wf
  configurerequest_wf maprequest_wf : wfdb.

Lemma sendmon_length c m W : length (mons (sendmon c m W)) = length (mons W).
Proof.
  unfold sendmon, with_client. destruct (store W !! c) as [cl|]; [|done].
  destruct (decide _); [done|]. cbv zeta.
  match goal with |- context [attach c ?X] => set (W3 := X) end.
  rewrite (layout_frame_length W3).
  2:{ apply arrange_frame, focus_frame, attachstack_frame, attach_frame,
        layout_frame_refl. }
  subst W3. unfold with_mon.
  match goal with |- context [upd_client c (set_c_mon m) ?X] => set (W1 := X) end.
  assert (length (mons W1) = length (mons W)) as <-.
  { subst W1. rewrite (layout_frame_length (unfocus (Some c) true W)); [done|].
    apply detachstack_frame, detach_frame, layout_frame_refl. }
  by case_match.
Qed.

Lemma mouse_release_wf c W : wf W -> wf (mouse_release c W).
Proof.
  intros HW. unfold mouse_release. apply wf_with_client; [done|]. intros cl E.
  cbv zeta. destruct (decide _); [done|].
  assert (recttomon (c_x cl) (c_y cl) (c_w cl) (c_h cl) W < length (mons W))%nat
    by (apply recttomon_lt, HW).
  apply focus_wf, wf_set_selmon; [by rewrite sendmon_length|].
  by apply sendmon_wf.
Qed.

Lemma mouse_loop_wf motion evs W :
  (forall x y W, wf W -> wf (motion x y W)) -> wf W -> wf (mouse_loop cfg motion evs W).
Proof.
  intros Hm HW. unfold mouse_loop. apply fold_left_wf; [|done]. intros ? []; wfa.
Qed.
Lemma movemouse_motion_wf c ocx ocy x y ex ey W :
  wf W -> wf (movemouse_motion cfg c ocx ocy x y ex ey W).
Proof. unfold movemouse_motion. wfa. Qed.
Lemma resizemouse_motion_wf c ocx ocy ex ey W :
  wf W -> wf (resizemouse_motion cfg c ocx ocy ex ey W).
Proof. unfold resizemouse_motion. wfa. Qed.
Hint Resolve mouse_release_wf movemouse_motion_wf resizemouse_motion_wf
  mouse_loop_wf : wfdb.
Lemma movemouse_wf g ptr evs W : wf W -> wf (movemouse cfg g ptr evs W).
Proof. unfold movemouse. wfa. Qed.
Lemma resizemouse_wf g evs W : wf W -> wf (resizemouse cfg g evs W).
Proof. unfold resizemouse. wfa. Qed.

Hint Resolve togglebar_wf focusstack_wf incnmaster_wf setmfact_wf
  setlayout_wf togglefullscreen_wf focusmonwarp_wf tagmon_wf
  centerfloater_wf maximizefloater_wf modgap_wf movestack_wf
  swapfocus_wf movemouse_wf resizemouse_wf quit_wf restart_wf : wfdb.
Lemma run_action_wf a W : wf W -> wf (run_action cfg a W).
Proof. destruct a; simpl; wfa. Qed.
Lemma run_actions_wf l W : wf W -> wf (run_actions cfg l W).
Proof. apply fold_left_wf. intros. by apply run_action_wf. Qed.
Hint Resolve run_actions_wf : wfdb.

Lemma refocus_wf m oc b W :
  (m < length (mons W))%nat -> wf W ->
  wf (focus oc (set_selmon m (unfocus (selmon_sel W) b W))).
Proof.
  intros Hm HW. apply focus_wf, wf_set_selmon; [|wfa].
  unfold unfocus. by destruct (selmon_sel W).
Qed.

Lemma buttonpress_wf w ptr r c W : wf W -> wf (buttonpress cfg w ptr r c W).
Proof.
  intros HW. unfold buttonpress. cbv zeta.
  assert (wintomon w ptr W < length (mons W))%nat by (apply wintomon_lt; apply HW).
  match goal with |- context [wintoclient ?X w] => assert (wf X) end.
  { destruct (decide _); [done|]. by apply refocus_wf. }
  wfa.
Qed.
Lemma clientmessage_wf w msg W : wf W -> wf (clientmessage w msg W).
Proof. unfold clientmessage. wfa. Qed.
Lemma destroynotify_wf w W : wf W -> wf (destroynotify w W).
Proof. unfold destroynotify. wfa. Qed.
Lemma enternotify_wf w n i ptr W : wf W -> wf (enternotify w n i ptr W).
Proof.
  intros HW. unfold enternotify. destruct (_ && _); [done|]. cbv zeta.
  match goal with |- context [decide (?m = selmon W)] =>
    assert (m < length (mons W))%nat as Hm end.
  { destruct (wintoclient W w) as [c0|].
    - destruct (store W !! c0) as [cl|] eqn:E; [by eapply wf_owner_lt|apply HW].
    - apply wintomon_lt; apply HW. }
  destruct (decide _); [wfa|]. by apply refocus_wf.
Qed.
Lemma motionnotify_wf w x y W : wf W -> wf (motionnotify w x y W).
Proof.
  intros HW. unfold motionnotify. destruct (w =? root W); [|done]. cbv zeta.
  apply wf_set_motion_mon.
  destruct (motion_mon W); [|done]. destruct (decide _); [done|].
  apply refocus_wf; [|done]. apply recttomon_lt, HW.
Qed.
Lemma propertynotify_wf w d a p W : wf W -> wf (propertynotify w d a p W).
Proof. unfold propertynotify. wfa. Qed.
Lemma unmapnotify_wf w s W : wf W -> wf (unmapnotify w s W).
Proof. unfold unmapnotify. wfa. Qed.

Lemma updatebars_wf nw W : wf W -> wf (updatebars nw W).
Proof.
  intros [Hok Hs]. unfold updatebars. split.
  - apply links_ok_imap; [|done]. intros i m. by case_match.
  - simpl. by rewrite length_imap.
Qed.
End WfEvents.

Section WfReachable.
Variable cfg : Config.

(** [updategeom] leaves a state with monitors behind, also when there
    were none before, as in [setup]. *)
Lemma updategeom_wf xin ptr W :
  links_ok W ->
  ((selmon W < length (mons W))%nat \/ (mons W = [] /\ selmon W = 0%nat)) ->
  xinerama_ok xin -> wf (fst (updategeom cfg xin ptr W)).
Proof.
  intros Hok Hsel Hx. unfold updategeom.
  set (W0 := set_prevmon None W).
  assert (Hok0 : links_ok W0) by (by apply links_ok_set_prevmon_None).
  assert (Hfin : forall W1 (dirty : bool),
            links_ok W1 -> (0 < length (mons W1))%nat ->
            (selmon W1 < length (mons W1))%nat ->
            wf (fst (if dirty
                     then (set_selmon (wintomon (root (set_selmon 0%nat W1)) ptr
                                         (set_selmon 0%nat W1)) (set_selmon 0%nat W1), true)
                     else (W1, false)))).
  { intros W1 dirty H1 Hl Hd. destruct dirty; simpl.
    - split; [by do 2 apply links_ok_set_selmon|].
      change (mons (set_selmon ?i ?X)) with (mons X).
      apply wintomon_lt; [by apply links_ok_set_selmon|done].
    - split; [done|by apply Hd]. }
  cbv zeta.
  match goal with |- wf (fst (let '(W1, dirty) := ?X in _)) =>
    assert (links_ok (fst X) /\ (0 < length (mons (fst X)))%nat
            /\ (selmon (fst X) < length (mons (fst X)))%nat) as HX;
    [|destruct X as [W1 dirty]; simpl in HX; destruct HX as (? & ? & ?); by apply Hfin]
  end.
  clear Hfin. destruct xin as [info|].
  - simpl in Hx. apply unique_geoms_nonempty in Hx.
    assert (0 < length (unique_geoms info))%nat as Hnn.
    { destruct (unique_geoms info); [done|simpl; lia]. }
    change (mons W0) with (mons W).
    destruct (Nat.leb_spec (length (mons W)) (length (unique_geoms info))) as [Hle|Hlt].
    + split; [by apply links_ok_updategeom_grow|].
      rewrite length_updategeom_grow by done.
      split; [done|].
      change (selmon (fst (updategeom_grow _ _ _ W0))) with (selmon W).
      destruct Hsel as [?|[_ ->]]; lia.
    + assert (Hwf0 : wf W0).
      { split; [done|]. change (selmon W0) with (selmon W).
        change (mons W0) with (mons W). destruct Hsel as [?|[E _]]; [done|].
        rewrite E in Hlt. simpl in Hlt. lia. }
      destruct (lookup_lt_is_Some_2 (mons W0) 0%nat) as [m0 Hm0];
        [change (mons W0) with (mons W); lia|].
      destruct (iter_remove_last_mon W0 m0 false Hwf0 eq_refl Hm0
                  (length (mons W) - length (unique_geoms info))%nat) as [Heq Hok1].
      { change (mons W0) with (mons W). lia. }
      change (mons W0) with (mons W) in *.
      replace (length (mons W) - (length (mons W) - length (unique_geoms info)))%nat
        with (length (unique_geoms info)) in * by lia.
      rewrite Heq. split; [done|].
      unfold shrunk. change (mons (set_mons ?a _)) with a.
      change (selmon (set_mons _ (set_selmon ?a _))) with a.
      rewrite length_insert, length_take. change (mons W0) with (mons W).
      change (selmon W0) with (selmon W). destruct Hwf0 as [_ Hs0].
      change (selmon W0) with (selmon W) in Hs0.
      change (mons W0) with (mons W) in Hs0.
      case_decide; lia.
  - set (Wa := match mons W0 with [] => set_mons [createmon cfg] W0 | _ => W0 end).
    assert (Ha : links_ok Wa /\ (0 < length (mons Wa))%nat
                 /\ (selmon Wa < length (mons Wa))%nat).
    { subst Wa. change (mons W0) with (mons W).
      destruct (mons W) as [|m ms] eqn:E.
      - split; [|split].
        + pose proof (links_ok_grow cfg 1 W0 Hok0) as Hg.
          change (mons W0) with (mons W) in Hg. rewrite E in Hg. exact Hg.
        + simpl. lia.
        + simpl. destruct Hsel as [?|[_ ->]]; simpl in *; lia.
      - split; [done|]. change (mons W0) with (mons W). rewrite E.
        split; [simpl; lia|]. change (selmon W0) with (selmon W).
        destruct Hsel as [?|[? _]]; done. }
    destruct Ha as (Ha1 & Ha2 & Ha3).
    destruct (mons Wa !! 0%nat) as [m|] eqn:Em; [|done].
    destruct (_ || _); [|done]. simpl fst.
    split; [|split].
    + apply links_ok_upd_mon_same; [|done]. intros m'.
      match goal with
      | |- context [updatebarpos ?b ?X] =>
          destruct (keeps_lists_updatebarpos b X) as (-> & -> & ->)
      end.
      done.
    + unfold upd_mon. simpl. by rewrite length_alter.
    + unfold upd_mon. simpl. by rewrite length_alter.
Qed.

Lemma configurenotify_wf w wd h xin ptr nw W :
  xinerama_ok xin -> wf W -> wf (configurenotify cfg w wd h xin ptr nw W).
Proof.
  intros Hx HW. unfold configurenotify. case_match; [|done]. cbv zeta.
  pose proof (updategeom_wf xin ptr (set_sh h (set_sw wd W))) as Hu.
  destruct (updategeom _ _ _ _) as [W1 ch]. simpl in Hu.
  assert (wf W1).
  { apply Hu; [|left|done]; apply (wf_set_sh h), (wf_set_sw wd) in HW; apply HW. }
  case_match; [|done].
  apply arrange_wf, focus_wf. by apply updatebars_wf.
Qed.

Lemma handle_wf ev W : valid_event ev -> wf W -> wf (handle cfg ev W).
Proof.
  intros Hv HW. destruct ev; simpl;
    auto using buttonpress_wf, clientmessage_wf, configurerequest_wf,
      configurenotify_wf, destroynotify_wf, enternotify_wf,
      run_actions_wf, maprequest_wf, motionnotify_wf,
      propertynotify_wf, unmapnotify_wf.
Qed.

Lemma links_ok_initial : links_ok initial_world.
Proof.
  split; [|split]; [| |done].
  - intros w i. unfold owner. simpl. by rewrite lookup_empty.
  - intros i m. simpl. by rewrite lookup_nil.
Qed.

Lemma setup_wf d : xinerama_ok (dpy_xinerama d) -> wf (setup cfg d).
Proof.
  intros Hx. unfold setup. cbv zeta.
  apply focus_wf, updatebars_wf, updategeom_wf; [|by right|done].
  eapply links_ok_ext; [| | |apply links_ok_initial]; done.
Qed.

Lemma reachable_wf W : reachable cfg W -> wf W.
Proof. induction 1; [by apply setup_wf|by apply handle_wf]. Qed.
End WfReachable.

(* ================================================================= *)
(** ** Clients and monitors stay linked *)

Lemma reachable_session_two_monitors :
  reachable default_config session_two_monitors.
Proof.
  apply reachable_run_events.
  - apply reach_setup. simpl. discriminate.
  - by repeat constructor.
  - intros [|[|[|[|k]]]] Hk; simpl in Hk; try lia; by vm_compute.
Qed.

(** X1. In every state that the event loop reaches, every managed client
    points to an existing monitor, and the client list and the focus stack
    of a monitor hold exactly the clients that point to it, each once; the
    selected client of a monitor is one of its clients; [selmon] and
    [prevmon] point to monitors. *)
Theorem reachable_links (cfg : Config) (W : World) :
  reachable cfg W ->
  (forall w cl, store W !! w = Some cl -> (c_mon cl < length (mons W))%nat)
  /\ (forall i m, mons W !! i = Some m ->
        NoDup (m_clients m) /\ NoDup (m_stack m)
        /\ (forall w, w ∈ m_clients m <-> c_mon <$> (store W !! w) = Some i)
        /\ (forall w, w ∈ m_stack m <-> c_mon <$> (store W !! w) = Some i)
        /\ (forall w, m_sel m = Some w -> w ∈ m_clients m))
  /\ (selmon W < length (mons W))%nat
  /\ (forall p, prevmon W = Some p -> (p < length (mons W))%nat).
Proof.
  intros HW. apply reachable_wf in HW as [(Hv & Hm & Hp) Hs].
  split; [|split; [|split]]; [| |done..].
  - intros w cl E. apply (Hv w). by apply owner_store.
  - intros i m Hi. destruct (Hm _ _ Hi) as (H1 & H2 & H3 & H4 & H5).
    split; [done|]. split; [done|]. split; [done|]. split; [done|].
    intros w Hw. by apply H3, H5.
Qed.

Lemma reachable_links_witness :
  let W := session_two_monitors in
  (forall w cl, store W !! w = Some cl -> (c_mon cl < length (mons W))%nat)
  /\ (forall i m, mons W !! i = Some m ->
        NoDup (m_clients m) /\ NoDup (m_stack m)
        /\ (forall w, w ∈ m_clients m <-> c_mon <$> (store W !! w) = Some i)
        /\ (forall w, w ∈ m_stack m <-> c_mon <$> (store W !! w) = Some i)
        /\ (forall w, m_sel m = Some w -> w ∈ m_clients m))
  /\ (selmon W < length (mons W))%nat
  /\ (forall p, prevmon W = Some p -> (p < length (mons W))%nat).
Proof.
  exact (reachable_links default_config session_two_monitors
           reachable_session_two_monitors).
Defined.

(** What [updategeom] leaves behind when it removes monitors: the
    monitors, the structs and the links. *)
Lemma updategeom_shrinks (cfg : Config)
    (info : list XineramaScreenInfo) (ptr : option (Z * Z)) (W : World)
    (m0 : Monitor) (nn : nat) :
  wf W -> mons W !! 0%nat = Some m0 ->
  nn = length (unique_geoms info) -> (0 < nn < length (mons W))%nat ->
  let W' := fst (updategeom cfg (Some info) ptr W) in
  mons W'
  = <[0%nat := push_clients (moved_clients (drop nn (mons W))) m0]>
      (take nn (mons W))
  /\ store W' = rehome nn <$> store W
  /\ wf W'.
Proof.
  intros Hwf Hm0 -> Hnn. cbv zeta. unfold updategeom.
  set (W0 := set_prevmon None W).
  assert (Hwf0 : wf W0).
  { destruct Hwf as [Hok Hs]. split; [by apply links_ok_set_prevmon_None|done]. }
  change (mons W0) with (mons W).
  destruct (Nat.leb_spec (length (mons W)) (length (unique_geoms info))); [lia|].
  destruct (iter_remove_last_mon W0 m0 false Hwf0 eq_refl Hm0
              (length (mons W) - length (unique_geoms info))%nat) as [Heq Hok].
  { change (mons W0) with (mons W). lia. }
  change (mons W0) with (mons W) in *.
  replace (length (mons W) - (length (mons W) - length (unique_geoms info)))%nat
    with (length (unique_geoms info)) in * by lia.
  destruct (Nat.iter _ remove_last_mon (W0, false)) as [W1 dirty].
  simpl in Heq. subst W1.
  set (nn := length (unique_geoms info)) in *.
  assert (Hlen : length (mons (shrunk nn m0 W0)) = nn).
  { unfold shrunk. change (mons (set_mons ?a _)) with a.
    rewrite length_insert, length_take. change (mons W0) with (mons W). lia. }
  destruct dirty; simpl fst.
  - split; [done|]. split; [done|]. split.
    + by do 2 apply links_ok_set_selmon.
    + change (mons (set_selmon ?i ?X)) with (mons X).
      apply wintomon_lt; [by apply links_ok_set_selmon|].
      change (selmon (set_selmon ?i _)) with i.
      change (mons (set_selmon ?i ?X)) with (mons X). lia.
  - split; [done|]. split; [done|]. split; [done|].
    rewrite Hlen. unfold shrunk.
    change (selmon (set_mons _ (set_selmon ?a _))) with a.
    destruct Hwf as [_ Hs]. change (selmon W0) with (selmon W).
    case_decide; lia.
Qed.

(** X2. When Xinerama reports fewer screens than there are monitors (and
    at least one), [updategeom] keeps the first [nn] monitors; the clients
    of the monitors it removes are pushed one by one onto the head of the
    client list and of the focus stack of the first monitor, so that they
    end up in front of its own clients, each removed monitor's clients in
    the reverse of their list order; their [mon] is re-pointed to the first
    monitor; and the links between clients and monitors hold again. *)
Theorem updategeom_fewer_screens (cfg : Config)
    (info : list XineramaScreenInfo) (ptr : option (Z * Z)) (W : World)
    (m0 : Monitor) (nn : nat) :
  wf W -> mons W !! 0%nat = Some m0 ->
  nn = length (unique_geoms info) -> (0 < nn < length (mons W))%nat ->
  let W' := fst (updategeom cfg (Some info) ptr W) in
  mons W'
  = <[0%nat := push_clients (moved_clients (drop nn (mons W))) m0]>
      (take nn (mons W))
  /\ store W' = rehome nn <$> store W
  /\ wf W'.
Proof. apply updategeom_shrinks. Qed.

Lemma updategeom_fewer_screens_witness :
  let W' := fst (updategeom default_config (Some left_screen_only) None
                   session_two_monitors) in
  mons W'
  = <[0%nat := push_clients
                 (moved_clients (drop 1 (mons session_two_monitors)))
                 first_monitor_of_two]>
      (take 1 (mons session_two_monitors))
  /\ store W' = rehome 1 <$> store session_two_monitors
  /\ wf W'.
Proof.
  apply (updategeom_fewer_screens default_config left_screen_only None
           session_two_monitors first_monitor_of_two 1).
  - apply (reachable_wf default_config), reachable_session_two_monitors.
  - by vm_compute.
  - reflexivity.
  - vm_compute. lia.
Defined.

(* ================================================================= *)
(** ** Choosing a monitor *)

Lemma dirtomon_loop_found sm dir ms start : forall l seen acc,
  ms = seen ++ l ->
  dirtomon_found sm dir ms seen start acc ->
  dirtomon_found sm dir ms ms start (dirtomon_loop sm dir l (length seen) acc).
Proof.
  induction l as [|m l IH]; intros seen acc Hms Hacc.
  - simpl. rewrite app_nil_r in Hms. by subst seen.
  - simpl. destruct acc as [[[nearest faraway] min_d_pos] min_d_neg].
    fold (mon_distance dir sm m).
    replace (S (length seen)) with (length (seen ++ [m]))
      by (rewrite length_app; simpl; lia).
    apply IH; [by rewrite <- app_assoc|].
    assert (Hm : ms !! length seen = Some m).
    { subst ms. by rewrite list_lookup_middle. }
    destruct Hacc as (Hp & Hn & Hpos & Hneg & Hnear & Hfar).
    set (d := mon_distance dir sm m) in *.
    unfold dirtomon_found.
    destruct (Z.gtb_spec d 0) as [Hd|Hd].
    + destruct ((min_d_pos =? 0) || (d <? min_d_pos)) eqn:Eb.
      * split; [lia|]. split; [done|]. split; [|split; [|split; [|done]]].
        -- intros m' [Hm'|Hm']%elem_of_app Hd'.
           ++ specialize (Hpos m' Hm' Hd').
              apply orb_true_iff in Eb as [Eb|Eb]; lia.
           ++ apply list_elem_of_singleton in Hm' as ->. fold d. lia.
        -- intros m' [Hm'|Hm']%elem_of_app Hd'; [by apply Hneg|].
           apply list_elem_of_singleton in Hm' as ->. fold d in Hd'. lia.
        -- destruct (Z.eqb_spec d 0); [lia|]. by exists m.
      * apply orb_false_iff in Eb as [E1 E2].
        split; [done|]. split; [done|]. split; [|split; [|done]].
        -- intros m' [Hm'|Hm']%elem_of_app Hd'; [by apply Hpos|].
           apply list_elem_of_singleton in Hm' as ->. fold d. lia.
        -- intros m' [Hm'|Hm']%elem_of_app Hd'; [by apply Hneg|].
           apply list_elem_of_singleton in Hm' as ->. fold d in Hd'. lia.
    + destruct (Z.ltb_spec d 0) as [Hd'|Hd'].
      * destruct ((min_d_neg =? 0) || (d <? min_d_neg)) eqn:Eb.
        -- split; [done|]. split; [lia|]. split; [|split; [|split; [done|]]].
           ++ intros m' [Hm'|Hm']%elem_of_app Hd''; [by apply Hpos|].
              apply list_elem_of_singleton in Hm' as ->. fold d in Hd''. lia.
           ++ intros m' [Hm'|Hm']%elem_of_app Hd''.
              ** specialize (Hneg m' Hm' Hd'').
                 apply orb_true_iff in Eb as [Eb|Eb]; lia.
              ** apply list_elem_of_singleton in Hm' as ->. fold d. lia.
           ++ destruct (Z.eqb_spec d 0); [lia|]. by exists m.
        -- apply orb_false_iff in Eb as [E1 E2].
           split; [done|]. split; [done|]. split; [|split; [|done]].
           ++ intros m' [Hm'|Hm']%elem_of_app Hd''; [by apply Hpos|].
              apply list_elem_of_singleton in Hm' as ->. fold d in Hd''. lia.
           ++ intros m' [Hm'|Hm']%elem_of_app Hd''; [by apply Hneg|].
              apply list_elem_of_singleton in Hm' as ->. fold d. lia.
      * split; [done|]. split; [done|]. split; [|split; [|done]].
        -- intros m' [Hm'|Hm']%elem_of_app Hd''; [by apply Hpos|].
           apply list_elem_of_singleton in Hm' as ->. fold d in Hd''. lia.
        -- intros m' [Hm'|Hm']%elem_of_app Hd''; [by apply Hneg|].
           apply list_elem_of_singleton in Hm' as ->. fold d in Hd''. lia.
Qed.

(** X3. [dirtomon(dir)] for a direction other than zero gives the
    monitor that is nearest to [selmon] in that direction; when there is
    none it wraps around to the monitor that is farthest in the opposite
    direction; and it gives [selmon] itself when no monitor lies on
    either side. *)
Theorem dirtomon_nearest (dir : Z) (W : World) (sm : Monitor) :
  dir <> 0 -> mons W !! selmon W = Some sm ->
  exists mr, mons W !! dirtomon dir W = Some mr /\
    ((0 < mon_distance dir sm mr
      /\ forall m, m ∈ mons W -> 0 < mon_distance dir sm m ->
           mon_distance dir sm mr <= mon_distance dir sm m)
     \/ ((forall m, m ∈ mons W -> mon_distance dir sm m <= 0)
         /\ mon_distance dir sm mr < 0
         /\ forall m, m ∈ mons W -> mon_distance dir sm mr <= mon_distance dir sm m)
     \/ ((forall m, m ∈ mons W -> mon_distance dir sm m = 0)
         /\ dirtomon dir W = selmon W)).
Proof.
  intros Hdir Hsm. unfold dirtomon.
  destruct (Z.eqb_spec dir 0) as [|_]; [done|].
  unfold dirtomon_dir. rewrite Hsm.
  pose proof (dirtomon_loop_found sm dir (mons W) (selmon W) (mons W) []
                (selmon W, selmon W, 0, 0) eq_refl) as H.
  simpl length in H.
  destruct (dirtomon_loop sm dir (mons W) 0 (selmon W, selmon W, 0, 0))
    as [[[nearest faraway] min_d_pos] min_d_neg].
  destruct H as (Hp & Hn & Hpos & Hneg & Hnear & Hfar).
  { unfold dirtomon_found. simpl. split; [lia|]. split; [lia|].
    split; [by intros ? ?%elem_of_nil|]. split; [by intros ? ?%elem_of_nil|].
    done. }
  assert (Hd0 : mon_distance dir sm sm = 0) by (unfold mon_distance; destruct (_ || _); ring).
  destruct (Z.eqb_spec min_d_pos 0) as [Hz|Hz].
  - subst nearest. rewrite decide_True by done.
    destruct (Z.eqb_spec min_d_neg 0) as [Hz'|Hz'].
    + subst faraway. exists sm. split; [done|]. right. right. split; [|done].
      intros m Hm.
      destruct (Z.lt_trichotomy (mon_distance dir sm m) 0) as [Hlt|[Heq|Hgt]]; [|done|].
      * apply Hneg in Hlt; [lia|done].
      * apply Hpos in Hgt; [lia|done].
    + destruct Hfar as (mf & Hmf & Hdf). exists mf. split; [done|].
      right. left. split; [|split].
      * intros m Hm. destruct (Z.lt_ge_cases 0 (mon_distance dir sm m)) as [Hgt|]; [|lia].
        apply Hpos in Hgt; [lia|done].
      * lia.
      * intros m Hm.
        destruct (Z.lt_ge_cases (mon_distance dir sm m) 0) as [Hlt|Hge].
        -- apply Hneg in Hlt; [lia|done].
        -- lia.
  - destruct Hnear as (mn & Hmn & Hdn).
    assert (nearest <> selmon W).
    { intros ->. rewrite Hsm in Hmn. injection Hmn as <-. lia. }
    rewrite decide_False by done. exists mn. split; [done|]. left.
    split; [lia|]. intros m Hm Hgt. apply Hpos in Hgt; [lia|done].
Qed.

Lemma dirtomon_nearest_witness :
  exists sm mr,
    mons session_two_monitors !! selmon session_two_monitors = Some sm
    /\ mons session_two_monitors !! dirtomon (-1) session_two_monitors = Some mr
    /\ ((0 < mon_distance (-1) sm mr
         /\ forall m, m ∈ mons session_two_monitors ->
              0 < mon_distance (-1) sm m ->
              mon_distance (-1) sm mr <= mon_distance (-1) sm m)
        \/ ((forall m, m ∈ mons session_two_monitors -> mon_distance (-1) sm m <= 0)
            /\ mon_distance (-1) sm mr < 0
            /\ forall m, m ∈ mons session_two_monitors ->
                 mon_distance (-1) sm mr <= mon_distance (-1) sm m)
        \/ ((forall m, m ∈ mons session_two_monitors -> mon_distance (-1) sm m = 0)
            /\ dirtomon (-1) session_two_monitors = selmon session_two_monitors)).
Proof.
  destruct (mons session_two_monitors !! selmon session_two_monitors)
    as [sm|] eqn:E; [|by vm_compute in E].
  exists sm.
  destruct (dirtomon_nearest (-1) session_two_monitors sm ltac:(lia) E)
    as (mr & Hmr & H).
  exists mr. split; [done|]. split; [done|]. exact H.
Defined.

Lemma INTERSECT_nonneg x y w h m : 0 <= INTERSECT x y w h m.
Proof.
  unfold INTERSECT, MAX. apply Z.mul_nonneg_nonneg; case_match; lia.
Qed.

Lemma recttomon_loop_max x y w h ms start : forall l seen r area,
  ms = seen ++ l ->
  (0 <= area
   /\ (forall m, m ∈ seen -> INTERSECT x y w h m <= area)
   /\ (if area =? 0 then r = start
       else exists m, ms !! r = Some m /\ INTERSECT x y w h m = area)) ->
  let r' := recttomon_loop x y w h l (length seen) r area in
  (r' = start /\ forall m, m ∈ ms -> INTERSECT x y w h m = 0)
  \/ exists m, ms !! r' = Some m /\ 0 < INTERSECT x y w h m
               /\ forall m', m' ∈ ms -> INTERSECT x y w h m' <= INTERSECT x y w h m.
Proof.
  induction l as [|m l IH]; intros seen r area Hms (Ha & Hmax & Hr).
  - simpl. rewrite app_nil_r in Hms. subst seen.
    destruct (Z.eqb_spec area 0) as [->|Hne].
    + left. split; [done|]. intros m Hm.
      pose proof (INTERSECT_nonneg x y w h m). specialize (Hmax m Hm). lia.
    + right. destruct Hr as (m & Hm & Hi). exists m. split; [done|].
      split; [lia|]. intros m' Hm'. rewrite Hi. by apply Hmax.
  - simpl.
    replace (S (length seen)) with (length (seen ++ [m]))
      by (rewrite length_app; simpl; lia).
    assert (Hm : ms !! length seen = Some m).
    { subst ms. by rewrite list_lookup_middle. }
    destruct (Z.gtb_spec (INTERSECT x y w h m) area) as [Hgt|Hle].
    + apply IH; [by rewrite <- app_assoc|]. split; [lia|]. split.
      * intros m' [Hm'|Hm']%elem_of_app; [specialize (Hmax m' Hm'); lia|].
        apply list_elem_of_singleton in Hm' as ->. lia.
      * destruct (Z.eqb_spec (INTERSECT x y w h m) 0); [lia|]. by exists m.
    + apply IH; [by rewrite <- app_assoc|]. split; [done|]. split; [|done].
      intros m' [Hm'|Hm']%elem_of_app; [by apply Hmax|].
      by apply list_elem_of_singleton in Hm' as ->.
Qed.

(** X4. [recttomon] gives a monitor whose work area shares the largest
    area with the rectangle, and [selmon] when the rectangle meets no
    work area at all. *)
Theorem recttomon_largest (x y w h : Z) (W : World) :
  (recttomon x y w h W = selmon W
   /\ forall m, m ∈ mons W -> INTERSECT x y w h m = 0)
  \/ exists m, mons W !! recttomon x y w h W = Some m
       /\ 0 < INTERSECT x y w h m
       /\ forall m', m' ∈ mons W -> INTERSECT x y w h m' <= INTERSECT x y w h m.
Proof.
  unfold recttomon.
  apply (recttomon_loop_max x y w h (mons W) (selmon W) (mons W) [] (selmon W) 0).
  - done.
  - split; [lia|]. split; [by intros ? ?%elem_of_nil|done].
Qed.

(* ================================================================= *)
(** ** Arranging changes structs only *)

(** [resize] writes the store only, and leaves the urgency flags alone. *)
Section StoreOnly.
Variable W0 : World.
Local Abbreviation so :=
  (fun W => W = set_store (store W) W0
            /\ forall w, c_isurgent <$> store W !! w = c_isurgent <$> store W0 !! w).

Lemma so_with_client c W k :
  so W -> (forall cl, so (k cl)) -> so (with_client c W k).
Proof. intros HW Hk. unfold with_client. by case_match. Qed.
Lemma so_with_mon i W k :
  so W -> (forall m, so (k m)) -> so (with_mon i W k).
Proof. intros HW Hk. unfold with_mon. by case_match. Qed.

Lemma resize_so c r b W : so W -> so (resize c r b W).
Proof.
  intros HW. unfold resize. apply so_with_client; [done|]. intros cl.
  apply so_with_mon; [done|]. intros m. case_match. case_match; [|done].
  destruct HW as [HW Hu]. split.
  - unfold resizeclient, upd_client. rewrite HW. reflexivity.
  - intros w. rewrite <- Hu. unfold resizeclient, upd_client. simpl.
    destruct (decide (c = w)) as [->|].
    + rewrite lookup_alter_eq. destruct (store W !! w) as [x|]; [|done]. simpl.
      by destruct r0 as [[[??]?]?].
    + by rewrite lookup_alter_ne.
Qed.

Lemma tile_loop_so mi m n l : forall i my ty W, so W -> so (tile_loop mi m n l i my ty W).
Proof.
  induction l as [|c l IH]; intros i my ty W HW; simpl; [done|].
  repeat case_match; apply IH; try done; by apply resize_so.
Qed.
Lemma monocle_loop_so m l : forall W, so W -> so (monocle_loop m l W).
Proof.
  induction l as [|c l IH]; intros W HW; simpl; [done|].
  repeat case_match; apply IH; try done; by apply resize_so.
Qed.
Lemma showhide_so l : forall W, so W -> so (showhide l W).
Proof.
  induction l as [|c l IH]; intros W HW; simpl; [done|].
  case_match; apply IH; [|done].
  apply so_with_client; [done|]. intros cl. apply so_with_mon; [done|]. intros m.
  case_match; [by apply resize_so|done].
Qed.
Lemma arrangemon_so mi W : so W -> so (arrangemon mi W).
Proof.
  intros HW. unfold arrangemon. apply so_with_mon; [done|]. intros m.
  repeat case_match; try done.
  - unfold tile. apply so_with_mon; [done|]. intros m'. case_match; [done|].
    by apply tile_loop_so.
  - unfold monocle. apply so_with_mon; [done|]. intros m'. by apply monocle_loop_so.
Qed.
Lemma showhide_mon_so mi W : so W -> so (showhide_mon mi W).
Proof.
  intros HW. unfold showhide_mon. apply so_with_mon; [done|]. intros m.
  by apply showhide_so.
Qed.
Lemma fold_left_so {A} (f : World -> A -> World) l :
  (forall W a, so W -> so (f W a)) -> forall W, so W -> so (fold_left f l W).
Proof. intros Hf. induction l; simpl; eauto. Qed.
Lemma arrange_so om W : so W -> so (arrange om W).
Proof.
  intros HW. unfold arrange. destruct om.
  - by apply arrangemon_so, showhide_mon_so.
  - apply fold_left_so; [intros; by apply arrangemon_so|].
    apply fold_left_so; [intros; by apply showhide_mon_so|done].
Qed.
End StoreOnly.

Lemma arrange_store_only om W : arrange om W = set_store (store (arrange om W)) W.
Proof. apply arrange_so. split; [by destruct W|done]. Qed.

Lemma arrange_urgency om W w :
  c_isurgent <$> store (arrange om W) !! w = c_isurgent <$> store W !! w.
Proof. apply (arrange_so W). split; [by destruct W|done]. Qed.

Lemma mons_arrange om W : mons (arrange om W) = mons W.
Proof. by rewrite arrange_store_only. Qed.
Lemma selmon_arrange om W : selmon (arrange om W) = selmon W.
Proof. by rewrite arrange_store_only. Qed.

(** [focus(NULL)] picks a client of [selmon], which stays selected. *)
Lemma selmon_focus_None W : wf W -> selmon (focus None W) = selmon W.
Proof.
  intros HW. unfold focus. cbv zeta.
  change (selmon (upd_mon ?i ?f ?X)) with (selmon X).
  destruct (mons W !! selmon W) as [m|] eqn:Em.
  2:{ by destruct (selmon_sel W). }
  destruct (first_visible W (m_stack m)) as [c1|] eqn:Ef.
  2:{ by destruct (selmon_sel W). }
  apply first_visible_elem in Ef as [Hin Hvis].
  destruct (wf_list_client W _ _ c1 HW Em (or_intror Hin)) as (cl & E & Hcm).
  set (W1 := match selmon_sel W with
             | Some s => if decide (Some s = Some c1) then W else unfocus (Some s) false W
             | None => W end).
  assert (H1 : store W1 = store W /\ selmon W1 = selmon W).
  { subst W1. destruct (selmon_sel W); [|done]. by destruct (decide _). }
  destruct H1 as [Hs1 Hsel1].
  unfold with_client. rewrite Hs1, E. rewrite Hsel1, decide_True by done.
  destruct (c_isurgent cl);
    by rewrite selmon_attachstack, selmon_detachstack.
Qed.

(* ================================================================= *)
(** ** Toggling a view twice *)

Lemma m_core_set_m_tagset i v m :
  m_core (set_m_tagset i v m) = set_m_tagset i v (m_core m).
Proof. unfold set_m_tagset. by destruct (i =? 0). Qed.

Lemma set_m_tagset_twice i v v' m :
  set_m_tagset i v (set_m_tagset i v' m) = set_m_tagset i v m.
Proof. unfold set_m_tagset. by destruct (i =? 0). Qed.

Lemma set_m_tagset_id i m : set_m_tagset i (m_tagset m i) m = m.
Proof. unfold set_m_tagset, m_tagset. destruct (i =? 0); by destruct m. Qed.

Lemma cur_tagset_set_m_tagset v m :
  cur_tagset (set_m_tagset (m_seltags m) v m) = v.
Proof.
  unfold cur_tagset, set_m_tagset, m_tagset.
  destruct (m_seltags m =? 0) eqn:E; simpl; by rewrite E.
Qed.

Lemma m_seltags_m_core m m' : m_core m' = m_core m -> m_seltags m' = m_seltags m.
Proof. intros H. by apply (f_equal m_seltags) in H. Qed.

(** What [toggleview] does to the monitors, up to their lists. *)
Lemma toggleview_mons cfg ui W m :
  wf W -> mons W !! selmon W = Some m ->
  let n := Z.lxor (cur_tagset m) (Z.land ui (TAGMASK cfg)) in
  selmon (toggleview cfg ui W) = selmon W
  /\ m_core <$> mons (toggleview cfg ui W)
     = if truthy n
       then <[selmon W := m_core (set_m_tagset (m_seltags m) n m)]> (m_core <$> mons W)
       else m_core <$> mons W.
Proof.
  intros HW Hm. cbv zeta. unfold toggleview, with_mon. rewrite Hm. cbv zeta.
  destruct (truthy _); [|done].
  set (n := Z.lxor _ _).
  set (U := upd_mon (selmon W) (fun m0 => set_m_tagset (m_seltags m0) n m0) W).
  assert (HU : wf U) by (apply wf_upd_mon; [|done]; intros m0; unfold set_m_tagset;
                         by destruct (_ =? 0)).
  rewrite selmon_arrange, mons_arrange, selmon_focus_None by done.
  split; [done|].
  assert (Hf : layout_frame U (focus None U)) by apply focus_frame, layout_frame_refl.
  destruct Hf as (_ & -> & _).
  subst U. unfold upd_mon. simpl.
  apply list_eq. intros j. rewrite !list_lookup_fmap.
  destruct (decide (j = selmon W)) as [->|Hne].
  - rewrite list_lookup_alter_eq, Hm. simpl.
    rewrite list_lookup_insert_eq; [done|].
    rewrite length_fmap. by eapply lookup_lt_Some.
  - rewrite list_lookup_alter_ne by done.
    by rewrite list_lookup_insert_ne, list_lookup_fmap by done.
Qed.

(** X5. In every state that the event loop reaches, two [toggleview] calls
    with the same mask leave every monitor with the tag-sets, the layout,
    the geometry and the parameters it had: the second call undoes the
    first (and both do nothing when the first would empty the view). *)
Theorem toggleview_twice (cfg : Config) (ui : Z) (W : World) :
  config_ok cfg -> reachable cfg W ->
  m_core <$> mons (toggleview cfg ui (toggleview cfg ui W)) = m_core <$> mons W.
Proof.
  intros Hc HR.
  pose proof (reachable_wf cfg W HR) as HW.
  pose proof (reachable_tag_inv cfg W Hc HR) as HT.
  destruct (lookup_lt_is_Some_2 (mons W) (selmon W)) as [m Hm]; [apply HW|].
  destruct (toggleview_mons cfg ui W m HW Hm) as [Hsel Hmons].
  cbv zeta in Hmons.
  set (x := Z.land ui (TAGMASK cfg)) in *.
  set (t := cur_tagset m) in *.
  destruct (truthy (Z.lxor t x)) eqn:En.
  2:{ assert (toggleview cfg ui W = W) as ->; [|done].
      unfold toggleview, with_mon. rewrite Hm. cbv zeta. fold x t. by rewrite En. }
  set (W' := toggleview cfg ui W) in *.
  assert (HW' : wf W') by (by apply toggleview_wf).
  destruct (lookup_lt_is_Some_2 (mons W') (selmon W')) as [m' Hm']; [apply HW'|].
  assert (Hcore : m_core m' = m_core (set_m_tagset (m_seltags m) (Z.lxor t x) m)).
  { apply (f_equal (fun l => l !! selmon W)) in Hmons.
    rewrite list_lookup_fmap, <- Hsel, Hm' in Hmons. simpl in Hmons.
    rewrite Hsel, list_lookup_insert_eq in Hmons.
    - by apply (inj Some) in Hmons.
    - rewrite length_fmap. by eapply lookup_lt_Some. }
  assert (Hs : m_seltags m' = m_seltags m).
  { apply m_seltags_m_core in Hcore. rewrite Hcore.
    unfold set_m_tagset. by destruct (_ =? 0). }
  assert (Hcur : cur_tagset m' = Z.lxor t x).
  { by rewrite <- cur_tagset_m_core, Hcore, cur_tagset_m_core,
       cur_tagset_set_m_tagset. }
  destruct (toggleview_mons cfg ui W' m' HW' Hm') as [_ Hmons'].
  cbv zeta in Hmons'. fold x in Hmons'. rewrite Hcur in Hmons'.
  assert (Hback : Z.lxor (Z.lxor t x) x = t).
  { by rewrite Z.lxor_assoc, Z.lxor_nilpotent, Z.lxor_0_r. }
  rewrite Hback in Hmons'.
  assert (Ht : truthy t = true).
  { unfold truthy. apply negb_true_iff, Z.eqb_neq.
    pose proof (tag_inv_mon cfg W (selmon W) m HT Hm) as Hok.
    apply cur_tagset_ok in Hok. apply Hok. }
  rewrite Ht in Hmons'. rewrite Hmons', Hmons, Hsel, Hs.
  rewrite list_insert_insert_eq.
  rewrite m_core_set_m_tagset, Hcore, m_core_set_m_tagset, set_m_tagset_twice.
  rewrite <- m_core_set_m_tagset.
  assert (set_m_tagset (m_seltags m) t m = m) as -> by apply set_m_tagset_id.
  apply list_insert_id. by rewrite list_lookup_fmap, Hm.
Qed.

Lemma toggleview_twice_witness :
  m_core <$> mons (toggleview default_config 2
                     (toggleview default_config 2 session_two_monitors))
  = m_core <$> mons session_two_monitors.
Proof.
  exact (toggleview_twice default_config 2 session_two_monitors
           config_ok_default reachable_session_two_monitors).
Defined.

(* ================================================================= *)
(** ** What focusing, sending and unmanaging do to the lists *)

Lemma owner_frame W W' w : layout_frame W W' -> owner W' w = owner W w.
Proof.
  intros (Hs & _). specialize (Hs w). unfold owner.
  destruct (store W' !! w) as [c'|], (store W !! w) as [c|]; simpl in *; try done.
  apply (inj Some) in Hs. by rewrite (c_core_mon _ _ Hs).
Qed.

Lemma clients_upd_mon i f W :
  (forall m, m_clients (f m) = m_clients m) ->
  m_clients <$> mons (upd_mon i f W) = m_clients <$> mons W.
Proof.
  intros Hf. unfold upd_mon. simpl. apply list_eq. intros j.
  rewrite !list_lookup_fmap. destruct (decide (i = j)) as [->|].
  - rewrite list_lookup_alter_eq. destruct (mons W !! j); simpl; [|done].
    by rewrite Hf.
  - by rewrite list_lookup_alter_ne.
Qed.

Lemma clients_attachstack c W :
  m_clients <$> mons (attachstack c W) = m_clients <$> mons W.
Proof.
  unfold attachstack, with_client. case_match; [|done]. by apply clients_upd_mon.
Qed.

Lemma clients_detachstack c W :
  m_clients <$> mons (detachstack c W) = m_clients <$> mons W.
Proof.
  destruct (store W !! c) as [cl|] eqn:E.
  - destruct (detachstack_eq c cl W E) as [W1 ->]. apply clients_upd_mon.
    intros m. unfold detachstack_mon. cbv zeta. by case_match.
  - unfold detachstack, with_client. by rewrite E.
Qed.

(** [focus] leaves the client lists alone. *)
Lemma clients_focus oc W : m_clients <$> mons (focus oc W) = m_clients <$> mons W.
Proof.
  unfold focus. cbv zeta. rewrite clients_upd_mon by done.
  match goal with |- context [with_client _ ?X] => set (W1 := X) end.
  assert (H1 : mons W1 = mons W).
  { subst W1. destruct (selmon_sel W); [|done]. by destruct (decide _). }
  match goal with |- context [match ?c with Some _ => _ | None => W1 end] =>
    destruct c as [c1|] end; [|by rewrite H1].
  unfold with_client. destruct (store W1 !! c1) as [cl|]; [|by rewrite H1].
  rewrite clients_attachstack, clients_detachstack.
  destruct (c_isurgent cl), (decide _); by rewrite <- H1.
Qed.

Lemma clients_of_fmap W W' i :
  m_clients <$> mons W' = m_clients <$> mons W -> clients_of W' i = clients_of W i.
Proof.
  intros H. unfold clients_of.
  apply (f_equal (fun l => l !! i)) in H. rewrite !list_lookup_fmap in H.
  by rewrite H.
Qed.

Lemma wintoclient_None_iff W w :
  wintoclient W w = None <-> forall i, w ∉ clients_of W i.
Proof.
  split; [intros H i; by apply wintoclient_None|].
  intros H. destruct (wintoclient W w) as [c|] eqn:E; [|done].
  apply wintoclient_Some in E as [_ [i Hi]]. by destruct (H i).
Qed.

Lemma wintoclient_managed W w cl :
  wf W -> store W !! w = Some cl -> wintoclient W w = Some w.
Proof.
  intros HW E. destruct (wf_client_mon W w cl HW E) as (m & Hm & Hc & _).
  unfold wintoclient. case_match eqn:Ex; [done|].
  apply not_true_iff_false in Ex. destruct Ex. apply existsb_exists.
  exists m. split; [apply list_elem_of_In; by eapply list_elem_of_lookup_2|].
  by apply bool_decide_eq_true.
Qed.

(** [unmanage(c)] frees the struct of [c] and leaves every other client
    with its monitor. *)
Lemma unmanage_owner c destroyed W cl :
  store W !! c = Some cl ->
  forall w, owner (unmanage c destroyed W) w
            = if decide (w = c) then None else owner W w.
Proof.
  intros E w. unfold unmanage, with_client. rewrite E. cbv zeta.
  set (W1 := detachstack c (detach c W)).
  set (W2 := set_store (delete c (store W1)) W1).
  assert (Hfr : layout_frame W2 (arrange (Some (c_mon cl)) (focus None W2))).
  { apply arrange_frame, focus_frame, layout_frame_refl. }
  rewrite (owner_frame _ _ w Hfr). unfold owner.
  subst W2 W1. simpl. rewrite store_detachstack, store_detach.
  destruct (decide (w = c)) as [->|].
  - by rewrite lookup_delete_eq.
  - by rewrite lookup_delete_ne.
Qed.

(** X6. [unmanage(c)] forgets the client: its struct is freed, no list
    of any monitor holds it, no monitor has it selected, and the other
    clients stay with their monitors. *)
Theorem unmanage_forgets (c : Z) (destroyed : bool) (W : World) (cl : Client) :
  wf W -> store W !! c = Some cl ->
  let W' := unmanage c destroyed W in
  store W' !! c = None
  /\ wintoclient W' c = None
  /\ (forall i m, mons W' !! i = Some m ->
        (c ∉ m_clients m) /\ (c ∉ m_stack m) /\ m_sel m <> Some c)
  /\ (forall w, w <> c -> c_mon <$> (store W' !! w) = c_mon <$> (store W !! w)).
Proof.
  intros HW E. cbv zeta.
  pose proof (unmanage_wf c destroyed W HW) as HW'.
  pose proof (unmanage_owner c destroyed W cl E) as Ho.
  set (W' := unmanage c destroyed W) in *.
  assert (Hc : store W' !! c = None).
  { specialize (Ho c). rewrite decide_True in Ho by done. unfold owner in Ho.
    by destruct (store W' !! c). }
  assert (Hm : forall i m, mons W' !! i = Some m ->
             (c ∉ m_clients m) /\ (c ∉ m_stack m) /\ m_sel m <> Some c).
  { intros i m Hi. destruct HW' as [(_ & Hmw & _) _].
    destruct (Hmw _ _ Hi) as (_ & _ & Hcl & Hst & Hsel).
    assert (owner W' c = None) as Hoc by (unfold owner; by rewrite Hc).
    split; [rewrite Hcl; congruence|]. split; [rewrite Hst; congruence|].
    intros Hs. apply Hsel in Hs. congruence. }
  split; [done|]. split; [|split; [done|]].
  - apply wintoclient_None_iff. intros i. unfold clients_of.
    destruct (mons W' !! i) as [m|] eqn:Hi; simpl; [by apply (Hm i)|].
    by intros ?%elem_of_nil.
  - intros w Hw. specialize (Ho w). by rewrite decide_False in Ho.
Qed.

Lemma unmanage_forgets_witness :
  let W' := unmanage 11 true session_two_monitors in
  store W' !! 11 = None
  /\ wintoclient W' 11 = None
  /\ (forall i m, mons W' !! i = Some m ->
        (11 ∉ m_clients m) /\ (11 ∉ m_stack m) /\ m_sel m <> Some 11)
  /\ (forall w, w <> 11 ->
        c_mon <$> (store W' !! w) = c_mon <$> (store session_two_monitors !! w)).
Proof.
  destruct (store session_two_monitors !! 11) as [cl|] eqn:E;
    [|by vm_compute in E].
  exact (unmanage_forgets 11 true session_two_monitors cl
           (reachable_wf default_config _ reachable_session_two_monitors) E).
Defined.

(** X7. [sendmon(c, m)] for a client of another monitor: afterwards the
    client belongs to [m], carries the tags that [m] shows, is visible, is
    the first of the client list of [m] and has left the client list of
    its old monitor; the links between clients and monitors hold again. *)
Theorem sendmon_moves (cfg : Config) (c : Z) (m : nat) (W : World)
    (cl : Client) (tm om : Monitor) :
  wf W -> tag_inv cfg W ->
  store W !! c = Some cl -> c_mon cl <> m ->
  mons W !! m = Some tm -> mons W !! c_mon cl = Some om ->
  let W' := sendmon c m W in
  (exists cl', store W' !! c = Some cl' /\ c_mon cl' = m
               /\ c_tags cl' = cur_tagset tm)
  /\ ISVISIBLE W' c = true
  /\ m_clients <$> (mons W' !! m) = Some (c :: m_clients tm)
  /\ m_clients <$> (mons W' !! c_mon cl) = Some (unlink c (m_clients om))
  /\ wf W'.
Proof.
  intros HW HT E Hne Hm Hom. cbv zeta.
  assert (Hlt : (m < length (mons W))%nat) by (by eapply lookup_lt_Some).
  pose proof (sendmon_wf c m W Hlt HW) as HW'.
  unfold sendmon, with_client in *. rewrite E in *.
  rewrite decide_False in * by done. cbv zeta in *.
  set (U := unfocus (Some c) true W) in *.
  assert (EU : store U !! c = Some cl) by done.
  destruct (detach_detachstack_eq c cl U EU) as [Wv HW1].
  rewrite HW1 in *. clear HW1.
  set (g := detachstack_mon Wv c ∘ _) in *.
  set (W1 := upd_mon (c_mon cl) g U) in *.
  set (W2 := upd_client c (set_c_mon m) W1) in *.
  assert (Hm2 : mons W2 !! m = Some tm).
  { subst W2 W1 U. unfold upd_client, upd_mon. simpl.
    by rewrite list_lookup_alter_ne. }
  unfold with_mon in *. rewrite Hm2 in *.
  set (cl3 := set_c_tags (cur_tagset tm) (set_c_mon m cl)).
  set (W3 := upd_client c _ W2) in *.
  assert (E3 : store W3 !! c = Some cl3).
  { subst W3 W2 W1 cl3 U. unfold upd_client, upd_mon. simpl.
    by rewrite !lookup_alter_eq, E. }
  rewrite (attach_eq c cl3 W3 E3) in *.
  rewrite (attachstack_eq c cl3) in * by done.
  rewrite upd_mon_upd_mon in *. change (c_mon cl3) with m in *.
  set (F := upd_mon m _ W3) in *.
  set (W' := arrange None (focus None F)) in *.
  assert (Hfr : layout_frame F W').
  { apply arrange_frame, focus_frame, layout_frame_refl. }
  assert (HmF : mons F !! m
                = Some (set_m_stack (c :: m_stack tm)
                          (set_m_clients (c :: m_clients tm) tm))).
  { subst F. unfold upd_mon at 1. change (mons (set_mons ?a _)) with a.
    change (mons W3) with (mons W2). by rewrite list_lookup_alter_eq, Hm2. }
  assert (HkF : mons F !! c_mon cl = Some (g om)).
  { subst F. unfold upd_mon at 1. change (mons (set_mons ?a _)) with a.
    rewrite list_lookup_alter_ne by done.
    change (mons W3) with (alter g (c_mon cl) (mons W)).
    by rewrite list_lookup_alter_eq, Hom. }
  assert (Hcl : m_clients <$> mons W' = m_clients <$> mons F).
  { subst W'. by rewrite mons_arrange, clients_focus. }
  destruct (layout_frame_lookup F W' c cl3 Hfr) as (cl' & E' & Hcore); [done|].
  split; [|split; [|split; [|split; [|done]]]].
  - exists cl'. split; [done|].
    by rewrite (c_core_mon _ _ Hcore), (c_core_tags _ _ Hcore).
  - rewrite (ISVISIBLE_frame F W' c Hfr). unfold ISVISIBLE.
    change (store F) with (store W3). rewrite E3.
    change (c_mon cl3) with m. rewrite HmF. unfold visible_on. simpl.
    change (cur_tagset (set_m_stack _ (set_m_clients _ ?x))) with (cur_tagset x).
    rewrite Z.land_diag. unfold truthy. apply negb_true_iff, Z.eqb_neq.
    pose proof (tag_inv_mon cfg W m tm HT Hm) as Hok.
    apply cur_tagset_ok in Hok. apply Hok.
  - apply (f_equal (fun l => l !! m)) in Hcl.
    rewrite !list_lookup_fmap in Hcl. by rewrite Hcl, HmF.
  - apply (f_equal (fun l => l !! c_mon cl)) in Hcl.
    rewrite !list_lookup_fmap in Hcl. rewrite Hcl, HkF. simpl. f_equal.
    subst g. unfold compose, detachstack_mon. cbv zeta. by case_match.
Qed.

Lemma sendmon_moves_witness :
  let W' := sendmon 10 1 session_two_monitors in
  (exists cl', store W' !! 10 = Some cl' /\ c_mon cl' = 1%nat
               /\ c_tags cl' = cur_tagset second_monitor_of_two)
  /\ ISVISIBLE W' 10 = true
  /\ m_clients <$> (mons W' !! 1%nat)
     = Some (10 :: m_clients second_monitor_of_two)
  /\ m_clients <$> (mons W' !! c_mon client_10_of_two)
     = Some (unlink 10 (m_clients first_monitor_of_two))
  /\ wf W'.
Proof.
  apply (sendmon_moves default_config 10 1 session_two_monitors
           client_10_of_two second_monitor_of_two first_monitor_of_two).
  - apply (reachable_wf default_config), reachable_session_two_monitors.
  - apply reachable_tag_inv; [apply config_ok_default|].
    apply reachable_session_two_monitors.
  - by vm_compute.
  - by vm_compute.
  - by vm_compute.
  - by vm_compute.
Defined.

Lemma mon_by_num_lt n l : forall i j,
  mon_by_num n l i = Some j -> (j < i + length l)%nat.
Proof.
  induction l as [|m l IH]; intros i j; simpl; [done|].
  case_match; [intros [= <-]; lia|]. intros H'. apply IH in H'. lia.
Qed.

Lemma applyrules_loop_mon_lt W class instance rs : forall c,
  (c_mon c < length (mons W))%nat ->
  (c_mon (applyrules_loop W class instance rs c) < length (mons W))%nat.
Proof.
  induction rs as [|r rs IH]; intros c Hc; simpl; [done|].
  apply IH. case_match; [|done].
  destruct (mon_by_num _ _ _) as [j|] eqn:E; simpl; [|done].
  by apply mon_by_num_lt in E.
Qed.

Lemma manage_client_mon_lt cfg W w wa p :
  wf W ->
  (c_mon (manage_client cfg W w wa p (transient_parent W p)) < length (mons W))%nat.
Proof.
  intros HW. rewrite c_mon_manage_client. unfold manage_origin.
  destruct (transient_parent W p) as [tc|] eqn:Et.
  - simpl. unfold transient_parent in Et.
    destruct (wp_transient p) as [tr|]; [|done].
    destruct (wintoclient W tr) as [t|]; [|done].
    by eapply wf_owner_lt.
  - unfold applyrules. cbv zeta. simpl.
    apply applyrules_loop_mon_lt. simpl. apply HW.
Qed.

(** X8. A [MapRequest] for a window that is not managed yet (and not
    override-redirect) makes it a client: its struct is in the store, it
    is the first of the client list of its monitor, [wintoclient] finds
    it, the other clients stay with their monitors, and the links between
    clients and monitors hold again. *)
Theorem maprequest_manages (cfg : Config) (w : Z) (wa : XWindowAttributes)
    (p : WinProps) (W : World) :
  wf W -> wa_override_redirect wa = false -> wintoclient W w = None ->
  let W' := maprequest cfg w (Some wa) p W in
  (exists cl m, store W' !! w = Some cl /\ mons W !! c_mon cl = Some m
                /\ m_clients <$> (mons W' !! c_mon cl) = Some (w :: m_clients m))
  /\ wintoclient W' w = Some w
  /\ (forall w', w' <> w -> c_mon <$> (store W' !! w') = c_mon <$> (store W !! w'))
  /\ wf W'.
Proof.
  intros HW Hov Hun. cbv zeta.
  pose proof (maprequest_wf cfg w (Some wa) p W HW) as HW'.
  unfold maprequest in *. rewrite Hov, Hun in *.
  set (c := manage_client cfg W w wa p (transient_parent W p)).
  pose proof (manage_client_mon_lt cfg W w wa p HW) as Hlt. fold c in Hlt.
  destruct (lookup_lt_is_Some_2 _ _ Hlt) as [m Hm].
  pose proof (manage_frame cfg w wa p W m Hm) as Hfr. cbv zeta in Hfr. fold c in Hfr.
  set (I := set_store (<[w:=c]> (store W)) W) in *.
  assert (EI : store I !! w = Some c) by (subst I; simpl; by rewrite lookup_insert_eq).
  destruct (layout_frame_lookup I _ w c Hfr EI) as (cl' & E' & Hcore).
  assert (Hk : c_mon cl' = c_mon c) by (by apply c_core_mon).
  split; [|split; [|split; [|done]]].
  - exists cl', m. split; [done|]. rewrite Hk. split; [done|].
    unfold manage, with_mon. fold c. rewrite Hm. cbv zeta. fold I.
    rewrite (attach_eq w c I EI).
    set (W1 := attachstack w _).
    set (W2 := if decide (c_mon c = selmon W1) then _ else W1).
    assert (H2 : m_clients <$> mons W2 = m_clients <$> mons W1).
    { subst W2. destruct (decide _); [|done]. unfold unfocus.
      by destruct (selmon_sel W1). }
    rewrite <- list_lookup_fmap.
    rewrite clients_focus, mons_arrange, clients_upd_mon, H2 by done.
    subst W1. rewrite clients_attachstack.
    unfold upd_mon. simpl. rewrite list_lookup_fmap, list_lookup_alter_eq.
    by rewrite Hm.
  - by apply (wintoclient_managed _ w cl').
  - intros w' Hne.
    pose proof (owner_frame I _ w' Hfr) as Ho. unfold owner in Ho.
    rewrite Ho. subst I. simpl. by rewrite lookup_insert_ne.
Qed.

Lemma maprequest_manages_witness :
  let W' := maprequest default_config 13 (Some xterm_attrs) xterm_props
              session_two_monitors in
  (exists cl m, store W' !! 13 = Some cl
                /\ mons session_two_monitors !! c_mon cl = Some m
                /\ m_clients <$> (mons W' !! c_mon cl) = Some (13 :: m_clients m))
  /\ wintoclient W' 13 = Some 13
  /\ (forall w', w' <> 13 ->
        c_mon <$> (store W' !! w') = c_mon <$> (store session_two_monitors !! w'))
  /\ wf W'.
Proof.
  apply (maprequest_manages default_config 13 xterm_attrs xterm_props
           session_two_monitors).
  - apply (reachable_wf default_config), reachable_session_two_monitors.
  - reflexivity.
  - by vm_compute.
Defined.

(* ================================================================= *)
(** ** What [arrange] and [focus] change *)

Lemma showhide_mon_invisible c mi W :
  ISVISIBLE W c = false -> store (showhide_mon mi W) !! c = store W !! c.
Proof.
  intros Hc. unfold showhide_mon, with_mon. case_match; [|done].
  by apply showhide_invisible.
Qed.

Lemma arrangemon_invisible c mi W :
  ISVISIBLE W c = false -> store (arrangemon mi W) !! c = store W !! c.
Proof.
  intros Hc. unfold arrangemon, with_mon. repeat case_match; try done.
  - unfold tile, with_mon. repeat case_match; try done. by apply tile_loop_invisible.
  - unfold monocle, with_mon. repeat case_match; try done.
    by apply monocle_loop_invisible.
Qed.

Lemma fold_left_invisible c (f : World -> nat -> World) l :
  (forall W a, layout_frame W (f W a)) ->
  (forall W a, ISVISIBLE W c = false -> store (f W a) !! c = store W !! c) ->
  forall W, ISVISIBLE W c = false ->
    store (fold_left f l W) !! c = store W !! c
    /\ ISVISIBLE (fold_left f l W) c = false.
Proof.
  intros Hfr Hf. induction l as [|a l IH]; intros W Hc; simpl; [done|].
  assert (Hc' : ISVISIBLE (f W a) c = false).
  { by rewrite (ISVISIBLE_frame W (f W a) c (Hfr W a)). }
  destruct (IH (f W a) Hc') as [-> ->]. split; [by apply Hf|done].
Qed.

Lemma arrange_hidden c om W :
  ISVISIBLE W c = false -> store (arrange om W) !! c = store W !! c.
Proof.
  intros Hc. destruct om as [mi|]; [by apply arrange_invisible|].
  unfold arrange.
  set (all := seq 0 (length (mons W))).
  destruct (fold_left_invisible c (fun W mi => showhide_mon mi W) all) with (W := W)
    as [H1 H2]; [| |done|].
  { intros. apply showhide_mon_frame, layout_frame_refl. }
  { intros. by apply showhide_mon_invisible. }
  destruct (fold_left_invisible c (fun W mi => arrangemon mi W) all)
    with (W := fold_left (fun W mi => showhide_mon mi W) all W) as [H3 _]; [| |done|].
  { intros. apply arrangemon_frame, layout_frame_refl. }
  { intros. by apply arrangemon_invisible. }
  by rewrite H3.
Qed.

(** X9. [arrange] moves visible clients and nothing else that clients
    and monitors are linked by: [selmon] stays; every monitor keeps its
    client list, its focus stack, its selected client and its active
    tag-set; every struct keeps all its fields but the rectangle and the
    saved rectangle (and urgency is not touched either way); and the
    structs of hidden clients are not written at all.  (The layout symbol
    that [arrangemon] and [monocle] write for the bar is not among these
    fields.) *)
Theorem arrange_moves_only (om : option nat) (W : World) :
  selmon (arrange om W) = selmon W
  /\ m_clients <$> mons (arrange om W) = m_clients <$> mons W
  /\ m_stack <$> mons (arrange om W) = m_stack <$> mons W
  /\ m_sel <$> mons (arrange om W) = m_sel <$> mons W
  /\ cur_tagset <$> mons (arrange om W) = cur_tagset <$> mons W
  /\ (forall w, c_core <$> store (arrange om W) !! w = c_core <$> store W !! w)
  /\ (forall w, c_isurgent <$> store (arrange om W) !! w
                = c_isurgent <$> store W !! w)
  /\ (forall w, ISVISIBLE W w = false ->
        store (arrange om W) !! w = store W !! w).
Proof.
  rewrite selmon_arrange, mons_arrange. repeat (split; [done|]).
  split; [|split].
  - apply (arrange_frame W om W (layout_frame_refl W)).
  - intros w. apply arrange_urgency.
  - intros w. apply arrange_hidden.
Qed.

Lemma m_stack_detachstack_mon W1 c m :
  m_stack (detachstack_mon W1 c m) = unlink c (m_stack m).
Proof. unfold detachstack_mon. cbv zeta. by case_match. Qed.
Lemma m_clients_detachstack_mon W1 c m :
  m_clients (detachstack_mon W1 c m) = m_clients m.
Proof. unfold detachstack_mon. cbv zeta. by case_match. Qed.

(** What [focus(c)] leaves behind for a visible client [c]: the monitor
    of [c] is the selected one, with [c] selected and at the head of its
    focus stack; the other monitors are as they were. *)
Lemma focus_visible_mon c W cl m :
  ISVISIBLE W c = true -> store W !! c = Some cl ->
  mons W !! c_mon cl = Some m ->
  let W' := focus (Some c) W in
  selmon W' = c_mon cl
  /\ (exists m', mons W' !! c_mon cl = Some m' /\ m_sel m' = Some c
        /\ m_stack m' = c :: unlink c (m_stack m)
        /\ m_clients m' = m_clients m)
  /\ (forall i, i <> c_mon cl -> mons W' !! i = mons W !! i)
  /\ c_isurgent <$> (store W' !! c) = Some false
  /\ prevclient W'
     = match selmon_sel W with
       | Some s => if decide (s = c) then prevclient W else Some s
       | None => prevclient W
       end.
Proof.
  intros Hv E Hm. cbv zeta. unfold focus. cbv zeta. rewrite Hv.
  set (W1 := match selmon_sel W with
             | Some s => if decide (Some s = Some c) then W else unfocus (Some s) false W
             | None => W end).
  assert (H1 : store W1 = store W /\ mons W1 = mons W /\ selmon W1 = selmon W
               /\ prevclient W1 = match selmon_sel W with
                                  | Some s => if decide (s = c) then prevclient W else Some s
                                  | None => prevclient W
                                  end).
  { subst W1. destruct (selmon_sel W) as [s|]; [|done].
    destruct (decide (Some s = Some c)) as [Heq|Hne].
    - injection Heq as ->. by rewrite decide_True.
    - rewrite decide_False by congruence. done. }
  destruct H1 as (Hs1 & Hm1 & Hsel1 & Hp1).
  unfold with_client. rewrite Hs1, E.
  set (Wa := if decide (c_mon cl = selmon W1) then W1 else set_selmon (c_mon cl) W1).
  assert (Ha : store Wa = store W /\ mons Wa = mons W /\ selmon Wa = c_mon cl
               /\ prevclient Wa = prevclient W1).
  { subst Wa. by destruct (decide _). }
  destruct Ha as (Hsa & Hma & Hsela & Hpa).
  set (Wb := if c_isurgent cl then clearurgent c Wa else Wa).
  assert (Hb : exists clb, store Wb !! c = Some clb /\ c_mon clb = c_mon cl
               /\ c_isurgent clb = false
               /\ mons Wb = mons W /\ selmon Wb = c_mon cl
               /\ prevclient Wb = prevclient W1).
  { subst Wb. destruct (c_isurgent cl) eqn:Eu.
    - exists (set_c_isurgent false cl). unfold clearurgent, upd_client. simpl.
      by rewrite lookup_alter_eq, Hsa, E.
    - exists cl. by rewrite Hsa. }
  destruct Hb as (clb & Eb & Hcb & Hub & Hmb & Hselb & Hpb).
  destruct (detachstack_eq c clb Wb Eb) as [Wv ->].
  rewrite (attachstack_eq c clb) by done.
  rewrite upd_mon_upd_mon, Hcb.
  set (h := _ ∘ _).
  change (selmon (upd_mon _ _ ?X)) with (selmon X).
  rewrite Hselb, upd_mon_upd_mon.
  assert (Hlk : mons (upd_mon (c_mon cl) (set_m_sel (Some c) ∘ h) Wb) !! c_mon cl
                = Some (set_m_sel (Some c) (h m))).
  { unfold upd_mon. simpl. by rewrite list_lookup_alter_eq, Hmb, Hm. }
  split; [done|]. split; [|split; [|split]].
  - exists (set_m_sel (Some c) (h m)). split; [done|]. split; [done|].
    subst h. unfold compose. simpl.
    by rewrite m_stack_detachstack_mon, m_clients_detachstack_mon.
  - intros i Hi. unfold upd_mon. simpl.
    by rewrite list_lookup_alter_ne, Hmb.
  - change (store (upd_mon _ _ ?X)) with (store X). by rewrite Eb, <- Hub.
  - change (prevclient (upd_mon _ _ ?X)) with (prevclient X). by rewrite Hpb.
Qed.

(** X10. [focus(c)] for a visible client makes the monitor of [c] the
    selected one and [c] its selection, moves [c] to the head of the
    focus stack of that monitor, the others keeping their order, clears
    the urgency flag of [c], and records in [prevclient] the client that
    was selected before, unless that was [c] itself. *)
Theorem focus_selects (c : Z) (W : World) (cl : Client) (m : Monitor) :
  ISVISIBLE W c = true -> store W !! c = Some cl ->
  mons W !! c_mon cl = Some m ->
  let W' := focus (Some c) W in
  selmon W' = c_mon cl
  /\ selmon_sel W' = Some c
  /\ m_stack <$> (mons W' !! c_mon cl) = Some (c :: unlink c (m_stack m))
  /\ m_clients <$> (mons W' !! c_mon cl) = Some (m_clients m)
  /\ c_isurgent <$> (store W' !! c) = Some false
  /\ prevclient W'
     = match selmon_sel W with
       | Some s => if decide (s = c) then prevclient W else Some s
       | None => prevclient W
       end.
Proof.
  intros Hv E Hm. cbv zeta.
  destruct (focus_visible_mon c W cl m Hv E Hm)
    as (Hsel & (m' & Hm' & Hs' & Hst' & Hcl') & _ & Hu & Hp).
  split; [done|]. split; [|split; [|split; [|split]]]; try done.
  - unfold selmon_sel. by rewrite Hsel, Hm'.
  - rewrite Hm'. simpl. by rewrite Hst'.
  - rewrite Hm'. simpl. by rewrite Hcl'.
Qed.

Lemma focus_selects_witness :
  let W' := focus (Some 10) session_two_monitors in
  selmon W' = c_mon client_10_of_two
  /\ selmon_sel W' = Some 10
  /\ m_stack <$> (mons W' !! c_mon client_10_of_two)
     = Some (10 :: unlink 10 (m_stack first_monitor_of_two))
  /\ m_clients <$> (mons W' !! c_mon client_10_of_two)
     = Some (m_clients first_monitor_of_two)
  /\ c_isurgent <$> (store W' !! 10) = Some false
  /\ prevclient W'
     = match selmon_sel session_two_monitors with
       | Some s => if decide (s = 10) then prevclient session_two_monitors
                   else Some s
       | None => prevclient session_two_monitors
       end.
Proof.
  apply (focus_selects 10 session_two_monitors client_10_of_two
           first_monitor_of_two); by vm_compute.
Defined.

(* ================================================================= *)
(** ** The tile layout *)

Lemma u32_id z : 0 <= z < 2 ^ 32 -> u32 z = z.
Proof. intros H. unfold u32. by apply Z.mod_small. Qed.

Lemma s32_id z : - 2 ^ 31 <= z < 2 ^ 31 -> s32 z = z.
Proof.
  unfold s32, u32. cbv zeta.
  change (2 ^ 32) with 4294967296. change (2 ^ 31) with 2147483648.
  intros H.
  destruct (Z.le_gt_cases 0 z) as [Hz|Hz].
  - rewrite Z.mod_small by lia.
    destruct (Z.ltb_spec z 2147483648); lia.
  - assert (z mod 4294967296 = z + 4294967296) as ->.
    { symmetry. apply (Z.mod_unique _ _ (-1)); lia. }
    destruct (Z.ltb_spec (z + 4294967296) 2147483648); lia.
Qed.

Lemma hint_size_unconstrained c w h :
  c_basew c = 0 -> c_baseh c = 0 -> c_incw c = 0 -> c_inch c = 0 ->
  c_minw c <= 1 -> c_minh c <= 1 -> c_maxw c = 0 -> c_maxh c = 0 ->
  F32.ltb F32.zero (c_mina c) && F32.ltb F32.zero (c_maxa c) = false ->
  1 <= w -> 1 <= h -> hint_size c w h = (w, h).
Proof.
  intros Hbw Hbh Hiw Hih Hmw Hmh Hxw Hxh Ha Hw Hh.
  unfold hint_size, aspect_adjust.
  generalize ((c_basew c =? c_minw c) && (c_baseh c =? c_minh c)). intros b.
  rewrite Hbw, Hbh, Hiw, Hih, Hxw, Hxh, Ha.
  assert (MAX (w + 0) (c_minw c) = w) as Hw'
    by (unfold MAX; case_match; zbool; lia).
  assert (MAX (h + 0) (c_minh c) = h) as Hh'
    by (unfold MAX; case_match; zbool; lia).
  destruct b; cbv beta iota zeta; unfold truthy; cbn [negb Z.eqb]; cbv iota;
    rewrite ?Z.sub_0_r; by rewrite Hw', Hh'.
Qed.

(** A request that [applysizehints] takes as it is. *)
Lemma applysizehints_keeps sw sh bh m c x y w h :
  c_isfloating c = false -> lt_floating m = false -> unconstrained c ->
  1 <= w -> bh <= w -> 1 <= h -> bh <= h ->
  x < m_wx m + m_ww m -> y < m_wy m + m_wh m ->
  m_wx m < x + w + 2 * c_bw c -> m_wy m < y + h + 2 * c_bw c ->
  fst (applysizehints sw sh bh m c (x, y, w, h) false) = (x, y, w, h).
Proof.
  intros Hf Hl Hu Hw Hbw Hh Hbh Hx Hy Hx' Hy'.
  unfold applysizehints. rewrite Hf, Hl, orb_false_r.
  assert (Hmw : MAX 1 w = w) by (unfold MAX; case_match; zbool; lia).
  assert (Hmh : MAX 1 h = h) by (unfold MAX; case_match; zbool; lia).
  rewrite Hmw, Hmh. cbv zeta.
  destruct (Z.geb_spec x (m_wx m + m_ww m)); [lia|].
  destruct (Z.geb_spec y (m_wy m + m_wh m)); [lia|].
  destruct (Z.leb_spec (x + w + 2 * c_bw c) (m_wx m)); [lia|].
  destruct (Z.leb_spec (y + h + 2 * c_bw c) (m_wy m)); [lia|].
  destruct (Z.ltb_spec h bh); [lia|]. destruct (Z.ltb_spec w bh); [lia|].
  destruct Hu as [Hs|(U1 & U2 & U3 & U4 & U5 & U6 & U7 & U8 & U9)].
  - by rewrite Hs.
  - destruct (c_sizehints c); [|done]. cbv iota.
    by rewrite hint_size_unconstrained.
Qed.

(** The flag that [applysizehints] returns tells whether its rectangle
    differs from the one of the struct. *)
Lemma applysizehints_flag sw sh bh m c r i :
  snd (applysizehints sw sh bh m c r i)
  = let '(x, y, w, h) := fst (applysizehints sw sh bh m c r i) in
    negb ((x =? c_x c) && (y =? c_y c) && (w =? c_w c) && (h =? c_h c)).
Proof.
  unfold applysizehints. destruct r as [[[x y] w] h]. cbv zeta.
  repeat (match goal with
          | |- context [let '(_, _) := ?X in _] => destruct X
          end; cbn [fst snd]).
  reflexivity.
Qed.

(** What such a [resize] leaves in the store. *)
Lemma resize_keeps W c cl m x y w h :
  store W !! c = Some cl -> mons W !! c_mon cl = Some m ->
  fst (applysizehints (sw W) (sh W) (bh W) m cl (x, y, w, h) false) = (x, y, w, h) ->
  exists cl', store (resize c (x, y, w, h) false W) !! c = Some cl'
    /\ c_x cl' = x /\ c_y cl' = y /\ c_w cl' = w /\ c_h cl' = h
    /\ c_core cl' = c_core cl.
Proof.
  intros E Hm Ha. unfold resize, with_client, with_mon. rewrite E, Hm.
  pose proof (applysizehints_flag (sw W) (sh W) (bh W) m cl (x, y, w, h) false) as Hfl.
  destruct (applysizehints _ _ _ _ _ _ _) as [r' changed] eqn:Er.
  simpl in Ha, Hfl. subst r'. destruct changed.
  - exists (resizeclient_fields (x, y, w, h) cl). split.
    + unfold resizeclient, upd_client. simpl. by rewrite lookup_alter_eq, E.
    + repeat split; try done.
  - exists cl. split; [done|].
    symmetry in Hfl. apply negb_false_iff in Hfl.
    apply andb_true_iff in Hfl as [Hc Hh']. apply andb_true_iff in Hc as [Hc Hw'].
    apply andb_true_iff in Hc as [Hx' Hy'].
    repeat split; symmetry; by apply Z.eqb_eq.
Qed.

Lemma is_tiled_frame W W' c : layout_frame W W' -> is_tiled W' c = is_tiled W c.
Proof.
  intros Hfr. unfold is_tiled. rewrite (ISVISIBLE_frame W W' c Hfr).
  destruct Hfr as (Hs & _). specialize (Hs c).
  destruct (store W' !! c) as [cl'|], (store W !! c) as [cl|]; simpl in Hs; try done.
  apply (inj Some) in Hs. apply (f_equal c_isfloating) in Hs. simpl in Hs.
  by rewrite Hs.
Qed.

Lemma count_tiled_frame W W' l :
  layout_frame W W' -> count_tiled W' l = count_tiled W l.
Proof.
  intros Hfr. induction l as [|c l IH]; simpl; [done|].
  by rewrite IH, (is_tiled_frame W W' c Hfr).
Qed.

Lemma count_tiled_nonneg W l : 0 <= count_tiled W l.
Proof. induction l as [|c l IH]; simpl; [done|]. case_match; lia. Qed.

Lemma actual_nmaster_nonneg m n : 0 <= actual_nmaster m n.
Proof.
  unfold actual_nmaster, u32, MAX.
  repeat case_match; zbool; try lia; apply Z.mod_pos_bound; lia.
Qed.

Lemma is_tiled_not_floating W c cl :
  is_tiled W c = true -> store W !! c = Some cl -> c_isfloating cl = false.
Proof.
  unfold is_tiled. intros H E. rewrite E in H.
  apply negb_true_iff, orb_false_iff in H as [H _]. done.
Qed.

Lemma tile_min_pos W cl : 0 <= gappx W -> 0 <= c_bw cl ->
  1 + 2 * c_bw cl + 2 * gappx W <= tile_min W cl
  /\ bh W + 2 * c_bw cl + 2 * gappx W <= tile_min W cl.
Proof. intros. unfold tile_min, MAX. case_match; zbool; lia. Qed.

(** The height of a row when [j] rows share what is left, [r]:
    not less than the rows share on average, and the rest is enough for
    the other rows. *)
Lemma row_height q r j :
  0 < j -> 0 <= q -> j * q <= r ->
  q <= r / j /\ r / j <= r /\ (j - 1) * q <= r - r / j.
Proof.
  intros Hj Hq Hr.
  assert (H1 : q <= r / j) by (apply Z.div_le_lower_bound; lia).
  assert (H2 : j * (r / j) <= r) by (apply Z.mul_div_le; lia).
  split; [done|]. split; nia.
Qed.

Lemma mons_resize c r b W : mons (resize c r b W) = mons W.
Proof.
  unfold resize, with_client, with_mon, resizeclient, upd_client.
  by repeat case_match.
Qed.

Lemma count_tiled_pos W l :
  0 < count_tiled W l -> exists c, c ∈ l /\ is_tiled W c = true.
Proof.
  induction l as [|c l IH]; simpl; [lia|]. intros H.
  destruct (is_tiled W c) eqn:E.
  - exists c. split; [by left|done].
  - destruct IH as (c' & ? & ?); [lia|]. exists c'. split; [by right|done].
Qed.

Lemma count_tiled_elem W l c :
  c ∈ l -> is_tiled W c = true -> 0 < count_tiled W l.
Proof.
  induction l as [|c' l IH]; [by intros ?%elem_of_nil|].
  intros [->|Hc]%elem_of_cons Ht; simpl.
  - rewrite Ht. pose proof (count_tiled_nonneg W l). lia.
  - specialize (IH Hc Ht). case_match; lia.
Qed.

Section TileLoop.
Variables (mi : nat) (m : Monitor) (n : Z).
Hypothesis Hlt : lt_floating m = false.
Hypothesis Hn : 0 < n.
Hypothesis Hwx : 0 <= m_wx m.
Hypothesis Hwy : 0 <= m_wy m.
Hypothesis Hxr : m_wx m + m_ww m < 2 ^ 31.
Hypothesis Hyr : m_wy m + m_wh m < 2 ^ 31.
Hypothesis Hmw : 0 <= master_width m n <= m_ww m.

(** One turn of the loop of [tile], for the [i]-th client to tile. *)
Lemma tile_step W c cl i my ty :
  mons W !! mi = Some m -> 0 <= gappx W ->
  store W !! c = Some cl -> c_mon cl = mi -> c_isfloating cl = false ->
  unconstrained cl -> 0 <= c_bw cl ->
  tile_min W cl <= m_wh m / n ->
  (0 < actual_nmaster m n -> tile_min W cl <= master_width m n) ->
  (actual_nmaster m n < n -> tile_min W cl <= m_ww m - master_width m n) ->
  0 <= i < n ->
  0 <= my -> MAX 0 (MIN n (actual_nmaster m n) - i) * (m_wh m / n) <= m_wh m - my ->
  0 <= ty -> MAX 0 (n - MAX i (actual_nmaster m n)) * (m_wh m / n) <= m_wh m - ty ->
  let W1 := resize c (tile_request (gappx W) m n i my ty cl) false W in
  exists cl1 h,
    store W1 !! c = Some cl1 /\ m_wh m / n <= h
    /\ u32 ((if i <? actual_nmaster m n then my else ty)
            + HEIGHT cl1 + 2 * gappx W)
       = (if i <? actual_nmaster m n then my else ty) + h
    /\ (if i <? actual_nmaster m n then
          outer_rect (gappx W) cl1 = (m_wx m, m_wy m + my, master_width m n, h)
          /\ my + h <= m_wh m
          /\ MAX 0 (MIN n (actual_nmaster m n) - (i + 1)) * (m_wh m / n)
             <= m_wh m - (my + h)
          /\ MAX 0 (n - MAX (i + 1) (actual_nmaster m n)) * (m_wh m / n)
             <= m_wh m - ty
        else
          outer_rect (gappx W) cl1
          = (m_wx m + master_width m n, m_wy m + ty,
             m_ww m - master_width m n, h)
          /\ ty + h <= m_wh m
          /\ MAX 0 (MIN n (actual_nmaster m n) - (i + 1)) * (m_wh m / n)
             <= m_wh m - my
          /\ MAX 0 (n - MAX (i + 1) (actual_nmaster m n)) * (m_wh m / n)
             <= m_wh m - (ty + h)).
Proof.
  intros Hm Hg E Hcm Hfl Hun Hbw Hq Hmaster Hstack Hi Hmy Bm Hty Bs. cbv zeta.
  pose proof (actual_nmaster_nonneg m n) as Han.
  destruct (tile_min_pos W cl Hg Hbw) as [Ht1 Ht2].
  set (an := actual_nmaster m n) in *. set (mw := master_width m n) in *.
  set (g := gappx W) in *. set (q := m_wh m / n) in *.
  set (b := c_bw cl) in *. set (t := tile_min W cl) in *.
  change (2 ^ 31) with 2147483648 in *.
  assert (Hq1 : 1 <= q) by lia.
  assert (Hwh : n <= m_wh m).
  { subst q. destruct (Z.le_gt_cases n (m_wh m)) as [|Hlt']; [done|].
    destruct (Z.le_gt_cases 0 (m_wh m)).
    - rewrite Z.div_small in Hq1 by lia. lia.
    - assert (m_wh m / n < 0) by (apply Z.div_lt_upper_bound; lia). lia. }
  unfold tile_request. fold an mw b.
  destruct (Z.ltb_spec i an) as [Him|Him].
  - (* the master column *)
    assert (Hj : MIN n an - i >= 1) by (unfold MIN; case_match; zbool; lia).
    assert (Bm' : (MIN n an - i) * q <= m_wh m - my).
    { revert Bm. unfold MAX at 1. case_match; zbool; [lia|done]. }
    destruct (row_height q (m_wh m - my) (MIN n an - i)) as (Hh1 & Hh2 & Hh3);
      [lia..|].
    set (h := (m_wh m - my) / (MIN n an - i)) in *.
    assert (Hmy' : my <= m_wh m) by nia.
    rewrite (u32_id (m_wh m - my)) by (change (2 ^ 32) with 4294967296; lia).
    rewrite (u32_id (MIN n an - i))
      by (change (2 ^ 32) with 4294967296; unfold MIN in *; case_match; zbool; lia).
    fold h.
    assert (Htm : t <= mw) by (apply Hmaster; lia).
    rewrite (s32_id (m_wy m + my + g)) by (change (2 ^ 31) with 2147483648; lia).
    rewrite (s32_id (mw - 2 * b - 2 * g)) by (change (2 ^ 31) with 2147483648; lia).
    rewrite (s32_id (h - 2 * b - 2 * g)) by (change (2 ^ 31) with 2147483648; lia).
    destruct (resize_keeps W c cl m (m_wx m + g) (m_wy m + my + g)
                (mw - 2 * b - 2 * g) (h - 2 * b - 2 * g) E)
      as (cl1 & E1 & Hx & Hy & Hw & Hh & Hcore).
    { by rewrite Hcm. }
    { apply applysizehints_keeps; try done; fold b; lia. }
    assert (Hb1 : c_bw cl1 = b) by (apply (f_equal c_bw) in Hcore; done).
    exists cl1, h. split; [done|]. split; [done|]. split; [|split; [|split; [|split]]].
    + unfold HEIGHT. rewrite Hh, Hb1.
      replace (my + (h - 2 * b - 2 * g + 2 * b) + 2 * g) with (my + h) by lia.
      apply u32_id. change (2 ^ 32) with 4294967296. lia.
    + unfold outer_rect. rewrite Hx, Hy, Hw, Hh, Hb1. repeat f_equal; lia.
    + lia.
    + unfold MAX at 1. case_match; zbool; [|lia].
      replace (MIN n an - (i + 1)) with (MIN n an - i - 1) by lia. lia.
    + assert (MAX (i + 1) an = MAX i an) as ->; [|done].
      unfold MAX. repeat case_match; zbool; lia.
  - (* the stack column *)
    assert (Hns : an < n) by lia.
    assert (Bs' : (n - i) * q <= m_wh m - ty).
    { assert (MAX i an = i) as Hi' by (unfold MAX; case_match; zbool; lia).
      assert (MAX 0 (n - i) = n - i) as Hi'' by (unfold MAX; case_match; zbool; lia).
      by rewrite Hi', Hi'' in Bs. }
    destruct (row_height q (m_wh m - ty) (n - i)) as (Hh1 & Hh2 & Hh3); [lia..|].
    set (h := (m_wh m - ty) / (n - i)) in *.
    assert (Hty' : ty <= m_wh m) by nia.
    rewrite (u32_id (m_wh m - ty)) by (change (2 ^ 32) with 4294967296; lia).
    rewrite (u32_id (n - i)) by (change (2 ^ 32) with 4294967296; lia).
    fold h.
    assert (Hts : t <= m_ww m - mw) by (apply Hstack; lia).
    rewrite (s32_id (m_wx m + mw + g)) by (change (2 ^ 31) with 2147483648; lia).
    rewrite (s32_id (m_wy m + ty + g)) by (change (2 ^ 31) with 2147483648; lia).
    rewrite (s32_id (m_ww m - mw - 2 * b - 2 * g))
      by (change (2 ^ 31) with 2147483648; lia).
    rewrite (s32_id (h - 2 * b - 2 * g)) by (change (2 ^ 31) with 2147483648; lia).
    destruct (resize_keeps W c cl m (m_wx m + mw + g) (m_wy m + ty + g)
                (m_ww m - mw - 2 * b - 2 * g) (h - 2 * b - 2 * g) E)
      as (cl1 & E1 & Hx & Hy & Hw & Hh & Hcore).
    { by rewrite Hcm. }
    { apply applysizehints_keeps; try done; fold b; lia. }
    assert (Hb1 : c_bw cl1 = b) by (apply (f_equal c_bw) in Hcore; done).
    exists cl1, h. split; [done|]. split; [done|]. split; [|split; [|split; [|split]]].
    + unfold HEIGHT. rewrite Hh, Hb1.
      replace (ty + (h - 2 * b - 2 * g + 2 * b) + 2 * g) with (ty + h) by lia.
      apply u32_id. change (2 ^ 32) with 4294967296. lia.
    + unfold outer_rect. rewrite Hx, Hy, Hw, Hh, Hb1. repeat f_equal; lia.
    + lia.
    + assert (MAX 0 (MIN n an - (i + 1)) = MAX 0 (MIN n an - i)) as ->; [|done].
      unfold MAX, MIN. repeat case_match; zbool; lia.
    + assert (MAX (i + 1) an = i + 1) as -> by (unfold MAX; case_match; zbool; lia).
      assert (MAX 0 (n - (i + 1)) = n - i - 1) as ->; [|lia].
      unfold MAX. case_match; zbool; lia.
Qed.

Lemma tile_ready_skip g W c l :
  tile_ready mi m n g W (c :: l) -> tile_ready mi m n g W l.
Proof.
  intros (H1 & H2 & H3 & H4 & H5). apply NoDup_cons in H4 as [_ H4].
  repeat split; try done. intros c' Hc'. apply H5. by right.
Qed.

Lemma tile_ready_step g W c r l :
  tile_ready mi m n g W (c :: l) ->
  tile_ready mi m n g (resize c r false W) l.
Proof.
  intros (H1 & H2 & H3 & H4 & H5). apply NoDup_cons in H4 as [Hc H4].
  assert (Hfr : layout_frame W (resize c r false W))
    by (pose proof (layout_frame_refl W); lfr).
  pose proof Hfr as (_ & _ & Hg & _ & _ & Hbh & _).
  split; [by rewrite mons_resize|]. split; [by rewrite Hg|].
  split; [done|]. split; [done|].
  intros c' Hc' Ht. rewrite (is_tiled_frame _ _ _ Hfr) in Ht.
  destruct (H5 c') as (cl & E & Hrest); [by right|done|].
  exists cl. split.
  - rewrite resize_other; [done|]. intros ->. done.
  - unfold tile_min in *. by rewrite Hg, Hbh.
Qed.

Lemma tile_placed_mono g my ty my' ty' cl :
  my <= my' -> ty <= ty' ->
  tile_placed m n my' ty' g cl -> tile_placed m n my ty g cl.
Proof.
  unfold tile_placed, outer_rect. intros ? ? [H|H]; [left|right]; lia.
Qed.

(** The loop of [tile] over the chain [l], entered with [i] clients
    tiled and with the offsets [my] and [ty]. *)
Lemma tile_loop_spec g l : forall i my ty W,
  tile_ready mi m n g W l ->
  i + count_tiled W l = n -> 0 <= i ->
  0 <= my ->
  MAX 0 (MIN n (actual_nmaster m n) - i) * (m_wh m / n) <= m_wh m - my ->
  0 <= ty ->
  MAX 0 (n - MAX i (actual_nmaster m n)) * (m_wh m / n) <= m_wh m - ty ->
  let W' := tile_loop mi m n l i my ty W in
  (forall c, c ∉ l \/ is_tiled W c = false -> store W' !! c = store W !! c)
  /\ (forall c, c ∈ l -> is_tiled W c = true ->
        exists cl, store W' !! c = Some cl /\ tile_placed m n my ty g cl)
  /\ (forall c1 c2 cl1 cl2, c1 ∈ l -> c2 ∈ l -> c1 <> c2 ->
        is_tiled W c1 = true -> is_tiled W c2 = true ->
        store W' !! c1 = Some cl1 -> store W' !! c2 = Some cl2 ->
        rects_disjoint (outer_rect g cl1) (outer_rect g cl2)).
Proof.
  induction l as [|c l IH]; intros i my ty W Hr Hcnt Hi Hmy Bm Hty Bs; cbv zeta.
  { simpl. split; [done|]. split; [by intros ? ?%elem_of_nil|].
    by intros ? ? ? ? ?%elem_of_nil. }
  simpl in Hcnt. simpl tile_loop.
  destruct (is_tiled W c) eqn:Et; cycle 1.
  { destruct (IH i my ty W) as (A & B & C);
      [by eapply tile_ready_skip|lia|done..|].
    split; [|split].
    - intros c' [Hc'|Hc']; apply A; [|by right].
      left. intros ?. apply Hc'. by right.
    - intros c' [->|Hc']%elem_of_cons Ht; [congruence|]. by apply B.
    - intros c1 c2 cl1 cl2 [->|H1]%elem_of_cons [->|H2]%elem_of_cons;
        try congruence. by apply C. }
  pose proof Hr as (Hm & Hg & Hg0 & Hnd & Hall).
  apply NoDup_cons in Hnd as [Hcl Hnd].
  destruct (Hall c) as (cl & E & Hcm & Hun & Hbw & Hq & Hma & Hst);
    [by left|done|].
  rewrite E.
  pose proof (count_tiled_nonneg W l) as Hcn.
  pose proof (is_tiled_not_floating _ _ _ Et E) as Hfl.
  assert (Hg0' : 0 <= gappx W) by (by rewrite Hg).
  destruct (tile_step W c cl i my ty Hm Hg0' E Hcm Hfl Hun Hbw Hq Hma Hst)
    as (cl1 & h & E1 & Hh & Hu & Hrest); [lia|done..|].
  destruct (tile_min_pos W cl Hg0' Hbw) as [Ht1 _].
  assert (Hh0 : 1 <= h) by lia.
  set (W1 := resize c (tile_request (gappx W) m n i my ty cl) false W) in *.
  assert (Hfr : layout_frame W W1)
    by (pose proof (layout_frame_refl W); subst W1; lfr).
  assert (Hr1 : tile_ready mi m n g W1 l) by (by apply tile_ready_step).
  assert (Hcnt1 : i + 1 + count_tiled W1 l = n)
    by (rewrite (count_tiled_frame _ _ _ Hfr); lia).
  rewrite E1. rewrite Hg in Hrest.
  assert (Hother : forall c', c' <> c -> store W1 !! c' = store W !! c')
    by (intros c' ?; by apply resize_other).
  assert (Hstep : exists my' ty',
    (if i <? actual_nmaster m n
     then tile_loop mi m n l (i + 1) (u32 (my + HEIGHT cl1 + 2 * gappx W)) ty W1
     else tile_loop mi m n l (i + 1) my (u32 (ty + HEIGHT cl1 + 2 * gappx W)) W1)
    = tile_loop mi m n l (i + 1) my' ty' W1
    /\ my <= my' /\ ty <= ty'
    /\ tile_placed m n my ty g cl1
    /\ (forall cl2, tile_placed m n my' ty' g cl2 ->
          rects_disjoint (outer_rect g cl1) (outer_rect g cl2))
    /\ 0 <= my'
    /\ MAX 0 (MIN n (actual_nmaster m n) - (i + 1)) * (m_wh m / n)
       <= m_wh m - my'
    /\ 0 <= ty'
    /\ MAX 0 (n - MAX (i + 1) (actual_nmaster m n)) * (m_wh m / n)
       <= m_wh m - ty').
  { destruct (i <? actual_nmaster m n).
    - destruct Hrest as (Ho & H1 & H2 & H3).
      exists (my + h), ty. split; [by rewrite Hu|]. split; [lia|]. split; [lia|].
      split; [|split; [|repeat split; try done; lia]].
      + unfold tile_placed. rewrite Ho. left. lia.
      + intros cl2. unfold tile_placed, rects_disjoint. rewrite Ho.
        destruct (outer_rect g cl2) as [[[x2 y2] w2] h2]. lia.
    - destruct Hrest as (Ho & H1 & H2 & H3).
      exists my, (ty + h). split; [by rewrite Hu|]. split; [lia|]. split; [lia|].
      split; [|split; [|repeat split; try done; lia]].
      + unfold tile_placed. rewrite Ho. right. lia.
      + intros cl2. unfold tile_placed, rects_disjoint. rewrite Ho.
        destruct (outer_rect g cl2) as [[[x2 y2] w2] h2]. lia. }
  destruct Hstep as (my' & ty' & -> & Hmy' & Hty' & Hp & Hd & P1 & P2 & P3 & P4).
  destruct (IH (i + 1) my' ty' W1) as (A & B & C); [done|done|lia|done..|].
  assert (Hc1 : store (tile_loop mi m n l (i + 1) my' ty' W1) !! c = Some cl1).
  { rewrite A; [done|]. by left. }
  assert (Hl : forall c', c' ∈ l -> c' <> c) by (intros c' ? ->; done).
  split; [|split].
  - intros c' Hc'. assert (c' <> c).
    { intros ->. destruct Hc' as [Hc'|Hc']; [|congruence]. apply Hc'. by left. }
    rewrite A, Hother; [done..|].
    rewrite (is_tiled_frame _ _ _ Hfr).
    destruct Hc' as [Hc'|Hc']; [left|by right].
    intros ?. apply Hc'. by right.
  - intros c' [->|Hc']%elem_of_cons Ht.
    + by exists cl1.
    + destruct (B c') as (cl' & E' & Hp'); [done|by rewrite (is_tiled_frame _ _ _ Hfr)|].
      exists cl'. split; [done|]. by eapply tile_placed_mono.
  - intros c1 c2 cl1' cl2' [->|H1]%elem_of_cons [->|H2]%elem_of_cons Hne T1 T2 E1' E2';
      [done| | |].
    + assert (cl1' = cl1) as -> by congruence.
      destruct (B c2) as (cl' & E' & Hp'); [done|by rewrite (is_tiled_frame _ _ _ Hfr)|].
      assert (cl' = cl2') as -> by congruence. by apply Hd.
    + assert (cl2' = cl1) as -> by congruence.
      destruct (B c1) as (cl' & E' & Hp'); [done|by rewrite (is_tiled_frame _ _ _ Hfr)|].
      assert (cl' = cl1') as -> by congruence.
      specialize (Hd _ Hp'). revert Hd. unfold rects_disjoint.
      destruct (outer_rect g cl1) as [[[? ?] ?] ?],
               (outer_rect g cl1') as [[[? ?] ?] ?]. lia.
    + eapply (C c1 c2); try done; by rewrite (is_tiled_frame _ _ _ Hfr).
Qed.

End TileLoop.

(** X11. When the rows and the two columns of [tile] are large enough for
    every client that it tiles, and size hints do not constrain these
    clients, then after [tile] the tile of each of them (the window with
    its border and the gap around it) lies inside the work area of the
    monitor, the tiles of two different clients do not overlap, and the
    clients that are not tiled keep their structs. *)
Theorem tile_partitions (mi : nat) (m : Monitor) (W : World) :
  let n := count_tiled W (m_clients m) in
  tile_ready mi m n (gappx W) W (m_clients m) ->
  lt_floating m = false ->
  0 <= m_wx m -> 0 <= m_wy m ->
  m_wx m + m_ww m < 2 ^ 31 -> m_wy m + m_wh m < 2 ^ 31 ->
  0 <= master_width m n <= m_ww m ->
  let W' := tile mi W in
  (forall c, c ∈ m_clients m -> is_tiled W c = true ->
     exists cl, store W' !! c = Some cl
       /\ rect_inside (outer_rect (gappx W) cl) (work_area m))
  /\ (forall c1 c2 cl1 cl2,
        c1 ∈ m_clients m -> c2 ∈ m_clients m -> c1 <> c2 ->
        is_tiled W c1 = true -> is_tiled W c2 = true ->
        store W' !! c1 = Some cl1 -> store W' !! c2 = Some cl2 ->
        rects_disjoint (outer_rect (gappx W) cl1) (outer_rect (gappx W) cl2))
  /\ (forall c, is_tiled W c = false -> store W' !! c = store W !! c).
Proof.
  intros n Hr Hlt Hwx Hwy Hxr Hyr Hmw. cbv zeta.
  pose proof Hr as (Hm & _ & Hg0 & _ & Hall).
  unfold tile, with_mon. rewrite Hm. fold n.
  pose proof (count_tiled_nonneg W (m_clients m)) as Hn0. fold n in Hn0.
  destruct (Z.eqb_spec n 0) as [Hz|Hz].
  { split; [|split; [|done]].
    - intros c Hc Ht. pose proof (count_tiled_elem _ _ _ Hc Ht). lia.
    - intros c1 c2 ? ? Hc Hc2 ? Ht.
      pose proof (count_tiled_elem _ _ _ Hc Ht). lia. }
  assert (Hn : 0 < n) by lia.
  destruct (count_tiled_pos W (m_clients m)) as (c0 & Hc0 & Ht0); [done|].
  destruct (Hall c0 Hc0 Ht0) as (cl0 & _ & _ & _ & Hbw0 & Hq0 & _).
  destruct (tile_min_pos W cl0 Hg0 Hbw0) as [Hq1 _].
  pose proof (actual_nmaster_nonneg m n) as Han.
  assert (Hnq : n * (m_wh m / n) <= m_wh m) by (apply Z.mul_div_le; lia).
  destruct (tile_loop_spec mi m n Hlt Hn Hwx Hwy Hxr Hyr Hmw (gappx W)
              (m_clients m) 0 0 0 W) as (A & B & C); [done|lia|lia|lia| |lia| |].
  { rewrite Z.sub_0_r. unfold MAX, MIN. repeat case_match; zbool; nia. }
  { unfold MAX. repeat case_match; zbool; nia. }
  split; [|split].
  - intros c Hc Ht. destruct (B c Hc Ht) as (cl & E & Hp). exists cl.
    split; [done|]. revert Hp. unfold tile_placed, rect_inside, work_area.
    destruct (outer_rect (gappx W) cl) as [[[x y] w] h]. lia.
  - done.
  - intros c Hc. apply A. by right.
Qed.

Lemma tile_ready_three_xterms :
  tile_ready 0 monitor_of_three 3 (gappx session_three_xterms)
    session_three_xterms (m_clients monitor_of_three).
Proof.
  split; [by vm_compute|]. split; [done|]. split; [by vm_compute|].
  split.
  { apply NoDup_ListNoDup. vm_compute. repeat constructor; simpl; intuition lia. }
  intros c Hc _.
  change (m_clients monitor_of_three) with [12; 11; 10] in Hc.
  repeat (apply elem_of_cons in Hc as [->|Hc]); [| | |by apply elem_of_nil in Hc].
  all: eexists; split; [by vm_compute|];
    split; [done|]; split; [right; by vm_compute|]; by vm_compute.
Qed.

Lemma tile_partitions_witness :
  let W := session_three_xterms in
  let m := monitor_of_three in
  (forall c, c ∈ m_clients m -> is_tiled W c = true ->
     exists cl, store (tile 0 W) !! c = Some cl
       /\ rect_inside (outer_rect (gappx W) cl) (work_area m))
  /\ (forall c1 c2 cl1 cl2,
        c1 ∈ m_clients m -> c2 ∈ m_clients m -> c1 <> c2 ->
        is_tiled W c1 = true -> is_tiled W c2 = true ->
        store (tile 0 W) !! c1 = Some cl1 -> store (tile 0 W) !! c2 = Some cl2 ->
        rects_disjoint (outer_rect (gappx W) cl1) (outer_rect (gappx W) cl2))
  /\ (forall c, is_tiled W c = false -> store (tile 0 W) !! c = store W !! c).
Proof.
  apply (tile_partitions 0 monitor_of_three session_three_xterms).
  - exact tile_ready_three_xterms.
  - reflexivity.
  - vm_compute. discriminate.
  - vm_compute. discriminate.
  - vm_compute. reflexivity.
  - vm_compute. reflexivity.
  - vm_compute. split; discriminate.
Defined.

(* ================================================================= *)
(** ** The monocle layout *)

Lemma monocle_ready_skip mi m W c l :
  monocle_ready mi m W (c :: l) -> monocle_ready mi m W l.
Proof.
  intros (H1 & H2 & H3 & H4). apply NoDup_cons in H3 as [_ H3].
  repeat split; try done. intros c' Hc'. apply H4. by right.
Qed.

Lemma monocle_ready_step mi m W c r l :
  monocle_ready mi m W (c :: l) ->
  monocle_ready mi m (resize c r false W) l.
Proof.
  intros (H1 & H2 & H3 & H4). apply NoDup_cons in H3 as [Hc H3].
  assert (Hfr : layout_frame W (resize c r false W))
    by (pose proof (layout_frame_refl W); lfr).
  pose proof Hfr as (_ & _ & Hg & _ & _ & Hbh & _).
  split; [by rewrite mons_resize|]. split; [by rewrite Hg|]. split; [done|].
  intros c' Hc' Ht. rewrite (is_tiled_frame _ _ _ Hfr) in Ht.
  destruct (H4 c') as (cl & E & Hrest); [by right|done|].
  exists cl. split.
  - rewrite resize_other; [done|]. intros ->. done.
  - unfold tile_min in *. by rewrite Hg, Hbh.
Qed.

Lemma monocle_loop_spec mi m l : forall W,
  lt_floating m = false -> monocle_ready mi m W l ->
  let W' := monocle_loop m l W in
  (forall c, c ∉ l \/ is_tiled W c = false -> store W' !! c = store W !! c)
  /\ (forall c, c ∈ l -> is_tiled W c = true ->
        exists cl, store W' !! c = Some cl
          /\ outer_rect (gappx W) cl = work_area m).
Proof.
  induction l as [|c l IH]; intros W Hlt Hr; cbv zeta.
  { simpl. split; [done|]. by intros ? ?%elem_of_nil. }
  simpl monocle_loop.
  destruct (is_tiled W c) eqn:Et; cycle 1.
  { destruct (IH W Hlt) as (A & B); [by eapply monocle_ready_skip|].
    split.
    - intros c' [Hc'|Hc']; apply A; [|by right].
      left. intros ?. apply Hc'. by right.
    - intros c' [->|Hc']%elem_of_cons Ht; [congruence|]. by apply B. }
  pose proof Hr as (Hm & Hg0 & Hnd & Hall).
  apply NoDup_cons in Hnd as [Hcl Hnd].
  destruct (Hall c) as (cl & E & Hcm & Hun & Hbw & Hw & Hh); [by left|done|].
  rewrite E.
  pose proof (is_tiled_not_floating _ _ _ Et E) as Hfl.
  destruct (tile_min_pos W cl Hg0 Hbw) as [Ht1 Ht2].
  set (g := gappx W) in *. set (b := c_bw cl) in *.
  destruct (resize_keeps W c cl m (m_wx m + g) (m_wy m + g)
              (m_ww m - 2 * b - 2 * g) (m_wh m - 2 * b - 2 * g) E)
    as (cl1 & E1 & Hx & Hy & Hw1 & Hh1 & Hcore).
  { by rewrite Hcm. }
  { apply applysizehints_keeps; try done; fold b; lia. }
  set (W1 := resize c _ false W) in *.
  assert (Hfr : layout_frame W W1)
    by (pose proof (layout_frame_refl W); subst W1; lfr).
  pose proof Hfr as (_ & _ & Hg & _).
  destruct (IH W1 Hlt) as (A & B); [by apply monocle_ready_step|].
  assert (Hb1 : c_bw cl1 = b) by (apply (f_equal c_bw) in Hcore; done).
  split.
  - intros c' Hc'. assert (c' <> c).
    { intros ->. destruct Hc' as [Hc'|Hc']; [|congruence]. apply Hc'. by left. }
    rewrite A; [by apply resize_other|].
    rewrite (is_tiled_frame _ _ _ Hfr).
    destruct Hc' as [Hc'|Hc']; [left|by right].
    intros ?. apply Hc'. by right.
  - intros c' [->|Hc']%elem_of_cons Ht.
    + exists cl1. split; [rewrite A; [done|by left]|].
      unfold outer_rect, work_area. rewrite Hx, Hy, Hw1, Hh1, Hb1.
      repeat f_equal; lia.
    + destruct (B c') as (cl' & E' & Ho);
        [done|by rewrite (is_tiled_frame _ _ _ Hfr)|].
      exists cl'. split; [done|]. by rewrite Hg in Ho.
Qed.

(** X12. When size hints do not constrain the tiled clients of a monitor
    and its work area is not smaller than the smallest window with its
    border and the gap, then after [monocle] the tile of every tiled
    client (the window with its border and the gap around it) is the whole
    work area, and the clients that are not tiled keep their structs. *)
Theorem monocle_fills (mi : nat) (m : Monitor) (W : World) :
  monocle_ready mi m W (m_clients m) -> lt_floating m = false ->
  let W' := monocle mi W in
  (forall c, c ∈ m_clients m -> is_tiled W c = true ->
     exists cl, store W' !! c = Some cl
       /\ outer_rect (gappx W) cl = work_area m)
  /\ (forall c, is_tiled W c = false -> store W' !! c = store W !! c).
Proof.
  intros Hr Hlt. cbv zeta. pose proof Hr as (Hm & _).
  unfold monocle, with_mon. rewrite Hm.
  destruct (monocle_loop_spec mi m (m_clients m) W Hlt Hr) as (A & B).
  split; [done|]. intros c Hc. apply A. by right.
Qed.

Lemma monocle_ready_three_xterms :
  monocle_ready 0 monitor_of_three session_three_xterms
    (m_clients monitor_of_three).
Proof.
  split; [by vm_compute|]. split; [by vm_compute|].
  split.
  { apply NoDup_ListNoDup. vm_compute. repeat constructor; simpl; intuition lia. }
  intros c Hc _.
  change (m_clients monitor_of_three) with [12; 11; 10] in Hc.
  repeat (apply elem_of_cons in Hc as [->|Hc]); [| | |by apply elem_of_nil in Hc].
  all: eexists; split; [by vm_compute|];
    split; [done|]; split; [right; by vm_compute|]; by vm_compute.
Qed.

Lemma monocle_fills_witness :
  let W := session_three_xterms in
  let m := monitor_of_three in
  (forall c, c ∈ m_clients m -> is_tiled W c = true ->
     exists cl, store (monocle 0 W) !! c = Some cl
       /\ outer_rect (gappx W) cl = work_area m)
  /\ (forall c, is_tiled W c = false -> store (monocle 0 W) !! c = store W !! c).
Proof.
  apply (monocle_fills 0 monitor_of_three session_three_xterms).
  - exact monocle_ready_three_xterms.
  - reflexivity.
Defined.

(* ================================================================= *)
(** ** Moving the focus along the client list *)

Lemma chain_before_app s l1 l2 :
  s ∉ l1 -> chain_before s (l1 ++ s :: l2) = l1.
Proof.
  induction l1 as [|a l1 IH]; simpl; intros Hs.
  - by rewrite Z.eqb_refl.
  - apply not_elem_of_cons in Hs as [Hne Hs].
    destruct (Z.eqb_spec a s); [congruence|]. by rewrite IH.
Qed.

Lemma chain_after_app s l1 l2 :
  s ∉ l1 -> chain_after s (l1 ++ s :: l2) = l2.
Proof.
  induction l1 as [|a l1 IH]; simpl; intros Hs.
  - by rewrite Z.eqb_refl.
  - apply not_elem_of_cons in Hs as [Hne Hs].
    destruct (Z.eqb_spec a s); [congruence|]. by rewrite IH.
Qed.

Lemma find_app_l (p : Z -> bool) l1 l2 c :
  List.find p l1 = Some c -> List.find p (l1 ++ l2) = Some c.
Proof.
  induction l1 as [|a l1 IH]; simpl; [done|]. by destruct (p a).
Qed.

Lemma find_app_r (p : Z -> bool) l1 l2 :
  List.find p l1 = None -> List.find p (l1 ++ l2) = List.find p l2.
Proof.
  induction l1 as [|a l1 IH]; simpl; [done|]. by destruct (p a).
Qed.

Lemma find_None_intro (p : Z -> bool) l :
  (forall x, In x l -> p x = false) -> List.find p l = None.
Proof.
  induction l as [|a l IH]; simpl; [done|]. intros H.
  rewrite (H a) by (by left). apply IH. intros x Hx. apply H. by right.
Qed.

Lemma find_None_rev (p : Z -> bool) l :
  List.find p l = None -> List.find p (rev l) = None.
Proof.
  intros H. apply find_None_intro. intros x Hx. apply in_rev in Hx.
  by apply (find_none _ _ H).
Qed.

Lemma find_rev_None (p : Z -> bool) l :
  List.find p (rev l) = None -> List.find p l = None.
Proof. intros H. rewrite <- (rev_involutive l). by apply find_None_rev. Qed.

(** The first client of a chain that passes a test splits the chain. *)
Lemma find_split (p : Z -> bool) l c :
  List.find p l = Some c ->
  exists l1 l2, l = l1 ++ c :: l2 /\ List.find p l1 = None /\ p c = true.
Proof.
  induction l as [|a l IH]; simpl; [done|].
  destruct (p a) eqn:E.
  - intros [= ->]. by exists [], l.
  - intros H. destruct (IH H) as (l1 & l2 & -> & H1 & H2).
    exists (a :: l1), l2. simpl. by rewrite E.
Qed.

(** ... and so does the last one. *)
Lemma find_last_split (p : Z -> bool) l c :
  find_last p l = Some c ->
  exists l1 l2, l = l1 ++ c :: l2 /\ List.find p l2 = None /\ p c = true.
Proof.
  unfold find_last. intros H.
  destruct (find_split _ _ _ H) as (r1 & r2 & Hr & H1 & H2).
  exists (rev r2), (rev r1). split; [|split; [by apply find_None_rev|done]].
  rewrite <- (rev_involutive l), Hr, rev_app_distr. simpl.
  by rewrite <- app_assoc.
Qed.

Lemma find_last_app_r (p : Z -> bool) l1 l2 c :
  find_last p l2 = Some c -> find_last p (l1 ++ l2) = Some c.
Proof. unfold find_last. rewrite rev_app_distr. apply find_app_l. Qed.

Lemma find_last_app_l (p : Z -> bool) l1 l2 :
  List.find p l2 = None -> find_last p (l1 ++ l2) = find_last p l1.
Proof.
  unfold find_last. rewrite rev_app_distr. intros H.
  by apply find_app_r, find_None_rev.
Qed.

Lemma find_last_None (p : Z -> bool) l :
  find_last p l = None -> List.find p l = None.
Proof. apply find_rev_None. Qed.

Lemma find_last_snoc (p : Z -> bool) l c :
  p c = true -> find_last p (l ++ [c]) = Some c.
Proof. unfold find_last. rewrite rev_app_distr. simpl. by intros ->. Qed.

Lemma stack_neighbour_ext (p q : Z -> bool) i s l :
  (forall c, p c = q c) -> stack_neighbour p i s l = stack_neighbour q i s l.
Proof.
  intros H. unfold stack_neighbour, find_last.
  assert (Hf : forall l', List.find p l' = List.find q l').
  { intros l'. induction l' as [|a l' IH]; simpl; [done|]. by rewrite H, IH. }
  by rewrite !Hf.
Qed.

(** From a client that passes the test, [stack_neighbour] finds a client:
    one of the chain that passes the test. *)
Lemma stack_neighbour_Some (p : Z -> bool) i s l :
  s ∈ l -> p s = true ->
  exists c, stack_neighbour p i s l = Some c /\ c ∈ l /\ p c = true.
Proof.
  intros Hs Hp.
  assert (Hres : exists c, stack_neighbour p i s l = Some c).
  { unfold stack_neighbour. destruct (i >? 0).
    - destruct (List.find p (chain_after s l)) as [c|]; [by exists c|].
      destruct (List.find p l) as [c|] eqn:E; [by exists c|].
      apply list_elem_of_In in Hs. pose proof (find_none _ _ E _ Hs). congruence.
    - destruct (find_last p (chain_before s l)) as [c|]; [by exists c|].
      destruct (find_last p (s :: chain_after s l)) as [c|] eqn:E; [by exists c|].
      apply find_last_None in E. simpl in E. by rewrite Hp in E. }
  destruct Hres as [c Hc]. exists c. split; [done|].
  split.
  - destruct (stack_neighbour_elem _ _ _ _ _ Hc) as [?| ->]; done.
  - revert Hc. unfold stack_neighbour, find_last.
    repeat case_match; intros; simplify_eq;
      match goal with
      | H : List.find _ _ = Some _ |- _ => by apply find_some in H as [_ ?]
      end.
Qed.

(** Forth and back: the previous client of the next one is the client
    that one started from. *)
Lemma stack_neighbour_forth_back (p : Z -> bool) i j s l c :
  NoDup l -> s ∈ l -> p s = true -> 0 < i -> j <= 0 ->
  stack_neighbour p i s l = Some c -> stack_neighbour p j c l = Some s.
Proof.
  intros Hnd Hs Hp Hi Hj.
  apply list_elem_of_split in Hs as (l1 & l2 & ->).
  apply NoDup_app in Hnd as (Hn1 & Hn12 & Hn2).
  apply NoDup_cons in Hn2 as [Hs2 Hn2].
  assert (Hs1 : s ∉ l1) by (intros Hx; apply (Hn12 _ Hx); by left).
  unfold stack_neighbour.
  destruct (Z.gtb_spec i 0); [|lia]. destruct (Z.gtb_spec j 0); [lia|].
  rewrite (chain_after_app s l1 l2 Hs1).
  destruct (List.find p l2) as [c'|] eqn:E2.
  - intros [= ->]. destruct (find_split _ _ _ E2) as (a & b & -> & Ha & Hc).
    assert (Hc' : c ∉ l1 ++ s :: a).
    { intros [Hx|Hx]%elem_of_app.
      - apply (Hn12 _ Hx). right. apply elem_of_app. right. by left.
      - apply elem_of_cons in Hx as [->|Hx].
        + apply Hs2. apply elem_of_app. right. by left.
        + apply NoDup_app in Hn2 as (_ & Hab & _). apply (Hab _ Hx). by left. }
    replace (l1 ++ s :: a ++ c :: b) with ((l1 ++ s :: a) ++ c :: b)
      by (by rewrite <- app_assoc).
    rewrite (chain_before_app c _ _ Hc').
    replace (l1 ++ s :: a) with ((l1 ++ [s]) ++ a) by (by rewrite <- app_assoc).
    by rewrite (find_last_app_l _ _ _ Ha), find_last_snoc.
  - destruct (List.find p l1) as [c'|] eqn:E1.
    + rewrite (find_app_l _ _ _ _ E1). intros [= ->].
      destruct (find_split _ _ _ E1) as (a & b & -> & Ha & Hc).
      apply NoDup_app in Hn1 as (_ & Hab & _).
      assert (Hc' : c ∉ a) by (intros Hx; apply (Hab _ Hx); by left).
      rewrite <- app_assoc. simpl.
      rewrite (chain_before_app c _ _ Hc'), (chain_after_app c _ _ Hc').
      destruct (find_last p a) as [x|] eqn:Ex.
      { destruct (find_last_split _ _ _ Ex) as (a1 & a2 & -> & _ & Hx).
        pose proof (find_none _ _ Ha x) as Hn. rewrite Hx in Hn.
        discriminate Hn. apply in_or_app. right. by left. }
      replace (c :: b ++ s :: l2) with ((c :: b ++ [s]) ++ l2)
        by (simpl; by rewrite <- app_assoc).
      rewrite (find_last_app_l _ _ _ E2).
      change (c :: b ++ [s]) with ((c :: b) ++ [s]). by rewrite find_last_snoc.
    + rewrite (find_app_r _ _ _ E1). simpl. rewrite Hp. intros [= <-].
      rewrite (chain_before_app s l1 l2 Hs1), (chain_after_app s l1 l2 Hs1).
      destruct (find_last p l1) as [x|] eqn:Ex.
      { apply find_last_split in Ex as (a1 & a2 & -> & _ & Hx).
        pose proof (find_none _ _ E1 x) as Hn. rewrite Hx in Hn.
        discriminate Hn. apply in_or_app. right. by left. }
      change (s :: l2) with ([s] ++ l2).
      rewrite (find_last_app_l _ _ _ E2). unfold find_last. simpl. by rewrite Hp.
Qed.

(** Back and forth. *)
Lemma stack_neighbour_back_forth (p : Z -> bool) i j s l c :
  NoDup l -> s ∈ l -> p s = true -> 0 < i -> j <= 0 ->
  stack_neighbour p j s l = Some c -> stack_neighbour p i c l = Some s.
Proof.
  intros Hnd Hs Hp Hi Hj.
  apply list_elem_of_split in Hs as (l1 & l2 & ->).
  pose proof Hnd as Hnd0.
  apply NoDup_app in Hnd as (Hn1 & Hn12 & Hn2).
  apply NoDup_cons in Hn2 as [Hs2 Hn2].
  assert (Hs1 : s ∉ l1) by (intros Hx; apply (Hn12 _ Hx); by left).
  unfold stack_neighbour.
  destruct (Z.gtb_spec i 0); [|lia]. destruct (Z.gtb_spec j 0); [lia|].
  rewrite (chain_before_app s l1 l2 Hs1), (chain_after_app s l1 l2 Hs1).
  destruct (find_last p l1) as [c'|] eqn:E1.
  - intros [= ->]. destruct (find_last_split _ _ _ E1) as (a & b & -> & Hb & Hc).
    apply NoDup_app in Hn1 as (_ & Hab & _).
    assert (Hc' : c ∉ a) by (intros Hx; apply (Hab _ Hx); by left).
    rewrite <- app_assoc. simpl. rewrite (chain_after_app c _ _ Hc').
    rewrite (find_app_r _ _ _ Hb). simpl. by rewrite Hp.
  - apply find_last_None in E1. intros Hl.
    destruct (find_last_split _ _ _ Hl) as (a & b & Hab & Hb & Hc).
    destruct a as [|x a]; simpl in Hab; injection Hab as <- Hl2.
    + subst b. rewrite (chain_after_app s l1 l2 Hs1), Hb, (find_app_r _ _ _ E1).
      simpl. by rewrite Hp.
    + subst l2.
      assert (Hc' : c ∉ l1 ++ s :: a).
      { intros [Hx|Hx]%elem_of_app.
        - apply (Hn12 _ Hx). right. apply elem_of_app. right. by left.
        - apply elem_of_cons in Hx as [->|Hx].
          + apply Hs2. apply elem_of_app. right. by left.
          + apply NoDup_app in Hn2 as (_ & Hn & _). apply (Hn _ Hx). by left. }
      replace (l1 ++ s :: a ++ c :: b) with ((l1 ++ s :: a) ++ c :: b)
        by (by rewrite <- app_assoc).
      rewrite (chain_after_app c _ _ Hc'), Hb.
      rewrite <- app_assoc. rewrite (find_app_r _ _ _ E1). simpl. by rewrite Hp.
Qed.

(** X13. When the client selected on [selmon] is visible, [focusstack]
    selects a visible client of the client list of [selmon], and a second
    [focusstack] in the opposite direction selects the first client
    again: forth and back, or back and forth, returns the focus to where
    it was; [selmon] stays the same. *)
Theorem focusstack_there_and_back (i j : Z) (W : World) (m : Monitor) (s : Z) :
  wf W -> mons W !! selmon W = Some m -> m_sel m = Some s ->
  ISVISIBLE W s = true ->
  (0 < i /\ j <= 0) \/ (i <= 0 /\ 0 < j) ->
  let W1 := focusstack i W in
  let W2 := focusstack j W1 in
  (exists c, selmon_sel W1 = Some c /\ c ∈ m_clients m /\ ISVISIBLE W c = true)
  /\ selmon W1 = selmon W
  /\ selmon_sel W2 = Some s
  /\ selmon W2 = selmon W.
Proof.
  intros Hwf Hm Hsel Hv Hij. cbv zeta.
  pose proof Hwf as [(Hown & Hmons & _) Hlt].
  destruct (Hmons _ _ Hm) as (Hnd & _ & Hcl & _ & Hs).
  assert (Hsl : s ∈ m_clients m) by (by apply Hcl, Hs).
  destruct (stack_neighbour_Some (ISVISIBLE W) i s (m_clients m) Hsl Hv)
    as (c & Hc & Hcin & Hcv).
  assert (Hback : stack_neighbour (ISVISIBLE W) j c (m_clients m) = Some s).
  { destruct Hij as [[? ?]|[? ?]].
    - by eapply stack_neighbour_forth_back.
    - by eapply stack_neighbour_back_forth. }
  assert (focusstack i W = focus (Some c) W) as ->
    by (unfold focusstack; by rewrite Hm, Hsel, Hc).
  apply Hcl in Hcin as Hco. apply owner_Some in Hco as (cl & E & Hcm).
  assert (Hm' : mons W !! c_mon cl = Some m) by (by rewrite Hcm).
  destruct (focus_visible_mon c W cl m Hcv E Hm')
    as (Hsel1 & (m1 & Hm1 & Hs1 & _ & Hcl1) & _).
  set (W1 := focus (Some c) W) in *.
  assert (Hfr : layout_frame W W1)
    by (pose proof (layout_frame_refl W); subst W1; lfr).
  rewrite Hcm in *.
  split; [|split; [done|]].
  { exists c. split; [|done]. unfold selmon_sel. by rewrite Hsel1, Hm1. }
  unfold focusstack. rewrite Hsel1, Hm1, Hs1, Hcl1.
  rewrite (stack_neighbour_ext _ (ISVISIBLE W)), Hback
    by (intros ?; by apply ISVISIBLE_frame).
  apply Hcl in Hsl as Hso. apply owner_Some in Hso as (cls & Es & Hsm).
  destruct (layout_frame_lookup _ _ _ _ Hfr Es) as (cls1 & Es1 & Hcore).
  assert (Hsm1 : c_mon cls1 = selmon W)
    by (rewrite <- Hsm; symmetry; by apply c_core_mon).
  assert (Hv1 : ISVISIBLE W1 s = true) by (by rewrite (ISVISIBLE_frame _ _ _ Hfr)).
  assert (Hm1' : mons W1 !! c_mon cls1 = Some m1) by (by rewrite Hsm1).
  destruct (focus_visible_mon s W1 cls1 m1 Hv1 Es1 Hm1')
    as (Hsel2 & (m2 & Hm2 & Hs2 & _) & _).
  rewrite Hsm1 in *. split; [|done].
  unfold selmon_sel. by rewrite Hsel2, Hm2.
Qed.

Lemma focusstack_there_and_back_witness :
  let W := session_two_monitors in
  let W1 := focusstack 1 W in
  let W2 := focusstack (-1) W1 in
  (exists c, selmon_sel W1 = Some c /\ c ∈ m_clients second_monitor_of_two
             /\ ISVISIBLE W c = true)
  /\ selmon W1 = selmon W
  /\ selmon_sel W2 = Some 12
  /\ selmon W2 = selmon W.
Proof.
  apply (focusstack_there_and_back 1 (-1) session_two_monitors
           second_monitor_of_two 12).
  - apply (reachable_wf default_config), reachable_session_two_monitors.
  - by vm_compute.
  - by vm_compute.
  - by vm_compute.
  - left. lia.
Defined.

(** X14. [swapfocus] with a visible client selected on [selmon] and a
    visible previous client in the client list of [selmon]: the previous
    client gets the focus and the client that had it becomes the previous
    one, so that a second [swapfocus] gives the focus back and restores
    [prevclient]. *)
Theorem swapfocus_twice (W : World) (m : Monitor) (s p : Z) :
  wf W -> mons W !! selmon W = Some m -> m_sel m = Some s ->
  prevclient W = Some p -> p ∈ m_clients m -> p <> s ->
  ISVISIBLE W s = true -> ISVISIBLE W p = true ->
  let W1 := swapfocus W in
  let W2 := swapfocus W1 in
  selmon_sel W1 = Some p /\ prevclient W1 = Some s /\ selmon W1 = selmon W
  /\ selmon_sel W2 = Some s /\ prevclient W2 = Some p /\ selmon W2 = selmon W.
Proof.
  intros Hwf Hm Hsel Hp Hpin Hne Hvs Hvp. cbv zeta.
  pose proof Hwf as [(Hown & Hmons & _) Hlt].
  destruct (Hmons _ _ Hm) as (Hnd & _ & Hcl & _ & Hs).
  assert (Hsl : s ∈ m_clients m) by (by apply Hcl, Hs).
  assert (swapfocus W = focus (Some p) W) as ->.
  { unfold swapfocus, with_mon. rewrite Hm, Hp. by rewrite bool_decide_eq_true_2. }
  apply Hcl in Hpin as Hpo. apply owner_Some in Hpo as (clp & Ep & Hpm).
  assert (Hm' : mons W !! c_mon clp = Some m) by (by rewrite Hpm).
  destruct (focus_visible_mon p W clp m Hvp Ep Hm')
    as (Hsel1 & (m1 & Hm1 & Hs1 & _ & Hcl1) & _ & _ & Hp1).
  set (W1 := focus (Some p) W) in *.
  assert (Hfr : layout_frame W W1)
    by (pose proof (layout_frame_refl W); subst W1; lfr).
  rewrite Hpm in *.
  assert (Hss : selmon_sel W = Some s) by (unfold selmon_sel; by rewrite Hm).
  rewrite Hss, decide_False in Hp1 by done.
  assert (Hss1 : selmon_sel W1 = Some p)
    by (unfold selmon_sel; by rewrite Hsel1, Hm1).
  split; [done|]. split; [done|]. split; [done|].
  assert (swapfocus W1 = focus (Some s) W1) as ->.
  { unfold swapfocus, with_mon. rewrite Hsel1, Hm1, Hp1, Hcl1.
    by rewrite bool_decide_eq_true_2. }
  apply Hcl in Hsl as Hso. apply owner_Some in Hso as (cls & Es & Hsm).
  destruct (layout_frame_lookup _ _ _ _ Hfr Es) as (cls1 & Es1 & Hcore).
  assert (Hsm1 : c_mon cls1 = selmon W)
    by (rewrite <- Hsm; symmetry; by apply c_core_mon).
  assert (Hv1 : ISVISIBLE W1 s = true) by (by rewrite (ISVISIBLE_frame _ _ _ Hfr)).
  assert (Hm1' : mons W1 !! c_mon cls1 = Some m1) by (by rewrite Hsm1).
  destruct (focus_visible_mon s W1 cls1 m1 Hv1 Es1 Hm1')
    as (Hsel2 & (m2 & Hm2 & Hs2 & _) & _ & _ & Hp2).
  rewrite Hsm1 in *. rewrite Hss1, decide_False in Hp2 by done.
  split; [|done]. unfold selmon_sel. by rewrite Hsel2, Hm2.
Qed.

Lemma swapfocus_twice_witness :
  let W := session_two_monitors in
  let W1 := swapfocus W in
  let W2 := swapfocus W1 in
  selmon_sel W1 = Some 11 /\ prevclient W1 = Some 12 /\ selmon W1 = selmon W
  /\ selmon_sel W2 = Some 12 /\ prevclient W2 = Some 11 /\ selmon W2 = selmon W.
Proof.
  apply (swapfocus_twice session_two_monitors second_monitor_of_two 12 11).
  - apply (reachable_wf default_config), reachable_session_two_monitors.
  - by vm_compute.
  - by vm_compute.
  - by vm_compute.
  - apply (list_elem_of_lookup_2 _ 1%nat). by vm_compute.
  - done.
  - by vm_compute.
  - by vm_compute.
Defined.

(* ================================================================= *)
(** ** Activating a window *)

(** [pop(c)] for a visible client: [c] becomes the first of the client
    list of its monitor, which becomes the selected monitor with [c]
    selected; the views are as they were. *)
Lemma pop_visible c W cl m :
  store W !! c = Some cl -> mons W !! c_mon cl = Some m ->
  ISVISIBLE W c = true ->
  let W' := pop c W in
  ISVISIBLE W' c = true /\ selmon W' = c_mon cl
  /\ (exists m', mons W' !! c_mon cl = Some m' /\ m_sel m' = Some c
        /\ m_clients m' = c :: unlink c (m_clients m)
        /\ cur_tagset m' = cur_tagset m).
Proof.
  intros E Hm Hv. cbv zeta. unfold pop. cbv zeta.
  rewrite (detach_eq c cl W E).
  rewrite (attach_eq c cl) by done. rewrite upd_mon_upd_mon.
  set (f := _ ∘ _). set (W2 := upd_mon (c_mon cl) f W).
  assert (Hfr2 : layout_frame W W2).
  { subst W2. apply layout_frame_upd_mon; [done|apply layout_frame_refl]. }
  assert (E2 : store W2 !! c = Some cl) by done.
  assert (Hm2 : mons W2 !! c_mon cl = Some (f m)).
  { subst W2. rewrite mons_upd_mon, list_lookup_alter_eq. by rewrite Hm. }
  assert (Hv2 : ISVISIBLE W2 c = true) by (by rewrite (ISVISIBLE_frame _ _ _ Hfr2)).
  destruct (focus_visible_mon c W2 cl (f m) Hv2 E2 Hm2)
    as (Hsel3 & (m3 & Hm3 & Hs3 & _ & Hcl3) & _).
  set (W3 := focus (Some c) W2) in *.
  assert (Hfr3 : layout_frame W2 W3)
    by (pose proof (layout_frame_refl W2); subst W3; lfr).
  destruct (layout_frame_lookup _ _ _ _ Hfr3 E2) as (cl3 & E3 & Hcore3).
  unfold with_client. rewrite E3.
  assert (Hfr4 : layout_frame W3 (arrange (Some (c_mon cl3)) W3))
    by (pose proof (layout_frame_refl W3); lfr).
  rewrite (ISVISIBLE_frame _ _ _ Hfr4), (ISVISIBLE_frame _ _ _ Hfr3).
  rewrite selmon_arrange, mons_arrange.
  split; [done|]. split; [done|].
  exists m3. split; [done|]. split; [done|]. split; [by rewrite Hcl3|].
  destruct Hfr3 as (_ & Hmc & _).
  apply (f_equal (fun l => l !! c_mon cl)) in Hmc.
  rewrite !list_lookup_fmap, Hm3, Hm2 in Hmc. simpl in Hmc.
  apply (inj Some) in Hmc.
  rewrite <- (cur_tagset_m_core m3), Hmc. done.
Qed.

(** X15. A [_NET_ACTIVE_WINDOW] message for a managed window brings its
    client to the front: afterwards the client is visible and selected,
    its monitor is the selected one, and it is the first of the client
    list of that monitor, the others keeping their order; when the client
    was hidden, its monitor now shows exactly the tags of the client. *)
Theorem activate_shows (cfg : Config) (c : Z) (W : World) (cl : Client)
    (m : Monitor) :
  wf W -> tag_inv cfg W ->
  store W !! c = Some cl -> mons W !! c_mon cl = Some m ->
  let W' := clientmessage c NetActiveWindowMsg W in
  ISVISIBLE W' c = true /\ selmon W' = c_mon cl /\ selmon_sel W' = Some c
  /\ m_clients <$> (mons W' !! c_mon cl) = Some (c :: unlink c (m_clients m))
  /\ cur_tagset <$> (mons W' !! c_mon cl)
     = Some (if ISVISIBLE W c then cur_tagset m else c_tags cl).
Proof.
  intros Hwf Hinv E Hm. cbv zeta. unfold clientmessage.
  rewrite (wintoclient_managed W c cl Hwf E). unfold with_client. rewrite E.
  destruct (tag_inv_client cfg W c cl Hinv E) as [Hnz _].
  set (g := fun m0 : Monitor =>
              let m1 := set_m_seltags (Z.lxor (m_seltags m0) 1) m0 in
              set_m_tagset (m_seltags m1) (c_tags cl) m1).
  set (W1 := if ISVISIBLE W c then W else upd_mon (c_mon cl) g W).
  assert (H1 : exists m1, store W1 = store W /\ mons W1 !! c_mon cl = Some m1
                 /\ m_clients m1 = m_clients m
                 /\ cur_tagset m1 = (if ISVISIBLE W c then cur_tagset m else c_tags cl)
                 /\ ISVISIBLE W1 c = true).
  { subst W1. destruct (ISVISIBLE W c) eqn:Ev.
    - by exists m.
    - exists (g m). split; [done|].
      assert (Hlk : mons (upd_mon (c_mon cl) g W) !! c_mon cl = Some (g m))
        by (rewrite mons_upd_mon, list_lookup_alter_eq; by rewrite Hm).
      assert (Hcur : cur_tagset (g m) = c_tags cl).
      { subst g. cbv zeta. apply cur_tagset_set_m_tagset. }
      split; [done|]. split.
      { subst g. cbv zeta. unfold set_m_tagset. by case_match. }
      split; [done|].
      unfold ISVISIBLE. rewrite store_upd_mon, E, Hlk.
      unfold visible_on. rewrite Hcur, Z.land_diag. unfold truthy.
      by destruct (Z.eqb_spec (c_tags cl) 0). }
  destruct H1 as (m1 & Hs1 & Hm1 & Hcl1 & Hcur1 & Hv1).
  assert (E1 : store W1 !! c = Some cl) by (by rewrite Hs1).
  destruct (pop_visible c W1 cl m1 E1 Hm1 Hv1)
    as (Hv' & Hsel' & (m' & Hm' & Hs' & Hcl' & Hcur')).
  split; [done|]. split; [done|]. split; [|split].
  - unfold selmon_sel. by rewrite Hsel', Hm'.
  - rewrite Hm'. simpl. by rewrite Hcl', Hcl1.
  - rewrite Hm'. simpl. by rewrite Hcur', Hcur1.
Qed.

Lemma activate_shows_witness :
  let W := session_hidden_selection in
  let W' := clientmessage 10 NetActiveWindowMsg W in
  ISVISIBLE W' 10 = true /\ selmon W' = c_mon hidden_client_10
  /\ selmon_sel W' = Some 10
  /\ m_clients <$> (mons W' !! c_mon hidden_client_10)
     = Some (10 :: unlink 10 (m_clients monitor_of_hidden_client))
  /\ cur_tagset <$> (mons W' !! c_mon hidden_client_10)
     = Some (if ISVISIBLE W 10 then cur_tagset monitor_of_hidden_client
             else c_tags hidden_client_10).
Proof.
  apply (activate_shows default_config 10 session_hidden_selection
           hidden_client_10 monitor_of_hidden_client).
  - apply (reachable_wf default_config), reachable_session_hidden_selection.
  - apply reachable_tag_inv; [apply config_ok_default|].
    apply reachable_session_hidden_selection.
  - by vm_compute.
  - by vm_compute.
Defined.

(* ================================================================= *)
(** ** The screens of Xinerama *)

Lemma same_geom_refl a : same_geom a a = true.
Proof. unfold same_geom. by rewrite !Z.eqb_refl. Qed.

Lemma same_geom_sym a b : same_geom a b = same_geom b a.
Proof.
  unfold same_geom.
  by rewrite (Z.eqb_sym (x_org a)), (Z.eqb_sym (y_org a)),
    (Z.eqb_sym (xi_width a)), (Z.eqb_sym (xi_height a)).
Qed.

Lemma isuniquegeom_true unique x u :
  isuniquegeom unique x = true -> u ∈ unique -> same_geom u x = false.
Proof.
  unfold isuniquegeom. intros H Hu. apply negb_true_iff in H.
  destruct (same_geom u x) eqn:E; [|done].
  assert (existsb (fun u => same_geom u x) unique = true); [|congruence].
  apply existsb_exists. exists u. split; [by apply list_elem_of_In|done].
Qed.

Lemma isuniquegeom_false unique x :
  isuniquegeom unique x = false ->
  exists u, u ∈ unique /\ same_geom u x = true.
Proof.
  unfold isuniquegeom. intros H. apply negb_false_iff in H.
  apply existsb_exists in H as (u & Hu & Hs).
  exists u. split; [by apply list_elem_of_In|done].
Qed.

Lemma distinct_geoms_snoc l x :
  distinct_geoms l -> (forall u, u ∈ l -> same_geom u x = false) ->
  distinct_geoms (l ++ [x]).
Proof.
  intros Hd Hx i j a b Hi Hj Hs.
  apply lookup_app_Some in Hi as [Hi|[Hil Hi]];
    apply lookup_app_Some in Hj as [Hj|[Hjl Hj]].
  - by apply (Hd i j a b).
  - apply list_lookup_singleton_Some in Hj as [_ <-].
    rewrite (Hx a) in Hs; [done|]. by eapply list_elem_of_lookup_2.
  - apply list_lookup_singleton_Some in Hi as [_ <-].
    rewrite same_geom_sym, (Hx b) in Hs; [done|]. by eapply list_elem_of_lookup_2.
  - apply list_lookup_singleton_Some in Hi as [Hi _].
    apply list_lookup_singleton_Some in Hj as [Hj _]. lia.
Qed.

(** The loop that copies the screens with a geometry of their own. *)
Lemma unique_loop_spec info : forall acc,
  distinct_geoms acc ->
  let r := fold_left (fun unique i => if isuniquegeom unique i
                                      then unique ++ [i] else unique) info acc in
  (exists r', r = acc ++ r' /\ sublist r' info)
  /\ distinct_geoms r
  /\ (forall x, x ∈ info -> exists a, a ∈ r /\ same_geom a x = true).
Proof.
  induction info as [|x info IH]; intros acc Hd; cbv zeta; simpl.
  { split; [exists []; by rewrite app_nil_r|]. split; [done|].
    by intros ? ?%elem_of_nil. }
  destruct (isuniquegeom acc x) eqn:E.
  - destruct (IH (acc ++ [x])) as ((r' & Hr & Hsub) & Hd' & Hrep).
    { apply distinct_geoms_snoc; [done|]. intros u. by apply isuniquegeom_true. }
    split; [|split; [done|]].
    + exists (x :: r'). split; [by rewrite Hr, <- app_assoc|by apply sublist_skip].
    + intros y [->|Hy]%elem_of_cons; [|by apply Hrep].
      exists x. split; [|apply same_geom_refl].
      rewrite Hr. apply elem_of_app. left. apply elem_of_app. right. by left.
  - destruct (IH acc Hd) as ((r' & Hr & Hsub) & Hd' & Hrep).
    split; [|split; [done|]].
    + exists r'. split; [done|by apply sublist_cons].
    + intros y [->|Hy]%elem_of_cons; [|by apply Hrep].
      destruct (isuniquegeom_false _ _ E) as (u & Hu & Hs).
      exists u. split; [|done]. rewrite Hr. apply elem_of_app. by left.
Qed.

(** X16. The screens that [updategeom] takes as separate ones: they are
    screens of the answer of Xinerama, in the order of the answer; no two
    of them have the same geometry; and every screen of the answer has
    the geometry of one of them. *)
Theorem unique_geoms_distinct (info : list XineramaScreenInfo) :
  sublist (unique_geoms info) info
  /\ distinct_geoms (unique_geoms info)
  /\ (forall x, x ∈ info ->
        exists a, a ∈ unique_geoms info /\ same_geom a x = true).
Proof.
  destruct (unique_loop_spec info []) as ((r' & Hr & Hsub) & Hd & Hrep).
  { intros i j a b Hi. by rewrite lookup_nil in Hi. }
  split; [|split; [exact Hd|exact Hrep]].
  unfold unique_geoms. rewrite Hr. exact Hsub.
Qed.

Lemma set_geom_screen b i s m :
  let m' := set_geom b i s m in
  m_mx m' = x_org s /\ m_my m' = y_org s
  /\ m_mw m' = xi_width s /\ m_mh m' = xi_height s.
Proof.
  cbv zeta. unfold set_geom, updatebarpos. cbv zeta.
  repeat (case_match; simpl); done.
Qed.

Lemma geom_differs_false s m :
  geom_differs s m = false ->
  m_mx m = x_org s /\ m_my m = y_org s
  /\ m_mw m = xi_width s /\ m_mh m = xi_height s.
Proof.
  unfold geom_differs. intros H. apply negb_false_iff in H.
  apply andb_true_iff in H as [H H4]. apply andb_true_iff in H as [H H3].
  apply andb_true_iff in H as [H1 H2].
  apply Z.eqb_eq in H1, H2, H3, H4. done.
Qed.

Lemma existsb_id_false (l : list bool) i :
  existsb (fun b : bool => b) l = false -> l !! i = Some true -> False.
Proof.
  intros H Hi.
  assert (existsb (fun b : bool => b) l = true); [|congruence].
  apply existsb_exists. exists true. split; [|done].
  apply list_elem_of_In. by eapply list_elem_of_lookup_2.
Qed.

(** X17. When Xinerama reports at least as many separate screens as
    there are monitors, [updategeom] ends with one monitor for each of
    them, in their order, with the geometry of its screen; the monitors
    that existed keep their clients, their focus stack and their
    selection, the new ones have none; no client is touched; and when it
    returns [False] the monitors are as they were. *)
Theorem updategeom_more_screens (cfg : Config)
    (info : list XineramaScreenInfo) (ptr : option (Z * Z)) (W : World) :
  (length (mons W) <= length (unique_geoms info))%nat ->
  let W' := fst (updategeom cfg (Some info) ptr W) in
  length (mons W') = length (unique_geoms info)
  /\ store W' = store W
  /\ (forall i s, unique_geoms info !! i = Some s ->
        exists m', mons W' !! i = Some m'
          /\ m_mx m' = x_org s /\ m_my m' = y_org s
          /\ m_mw m' = xi_width s /\ m_mh m' = xi_height s
          /\ m_clients m' = clients_of W i /\ m_stack m' = stack_of W i
          /\ m_sel m' = sel_of W i)
  /\ (snd (updategeom cfg (Some info) ptr W) = false -> mons W' = mons W).
Proof.
  intros Hn. cbv zeta. unfold updategeom.
  set (W0 := set_prevmon None W). change (mons W0) with (mons W).
  destruct (Nat.leb_spec (length (mons W)) (length (unique_geoms info))); [|lia].
  set (u := unique_geoms info) in *. set (n := length (mons W)) in *.
  unfold updategeom_grow. cbv zeta.
  change (mons W0) with (mons W). change (bh W0) with (bh W).
  set (ms := mons W ++ replicate (length u - n) (createmon cfg)).
  set (upd := fun (i : nat) (m : Monitor) =>
                match u !! i with
                | Some s => if geom_dirty n u i m then set_geom (bh W) i s m else m
                | None => m
                end).
  set (dirty := existsb (fun b : bool => b) (imap (geom_dirty n u) ms)).
  assert (Hms : length ms = length u)
    by (subst ms; rewrite length_app, length_replicate; lia).
  assert (Hres : forall W2 : World * bool,
            W2 = (if dirty
                  then (set_selmon (wintomon (root (set_selmon 0%nat
                                      (set_mons (imap upd ms) W0))) ptr
                                      (set_selmon 0%nat (set_mons (imap upd ms) W0)))
                          (set_selmon 0%nat (set_mons (imap upd ms) W0)), true)
                  else (set_mons (imap upd ms) W0, false)) ->
            mons (fst W2) = imap upd ms /\ store (fst W2) = store W
            /\ snd W2 = dirty).
  { intros W2 ->. by destruct dirty. }
  destruct (Hres _ eq_refl) as (-> & -> & ->). clear Hres.
  split; [by rewrite length_imap|]. split; [done|]. split.
  - intros i s Hi. rewrite list_lookup_imap.
    destruct (ms !! i) as [m|] eqn:Em; cycle 1.
    { apply lookup_ge_None in Em. apply lookup_lt_Some in Hi. lia. }
    simpl. exists (upd i m). split; [done|].
    assert (Hl : m_clients m = clients_of W i /\ m_stack m = stack_of W i
                 /\ m_sel m = sel_of W i).
    { subst ms. unfold clients_of, stack_of, sel_of.
      apply lookup_app_Some in Em as [Em|[Hge Em]].
      - by rewrite Em.
      - apply lookup_replicate in Em as [-> _].
        rewrite (proj2 (lookup_ge_None _ _)) by done. done. }
    destruct Hl as (<- & <- & <-).
    subst upd. cbv beta. rewrite Hi.
    destruct (geom_dirty n u i m) eqn:Ed.
    + destruct (set_geom_screen (bh W) i s m) as (-> & -> & -> & ->).
      destruct (keeps_lists_set_geom (bh W) i s m) as (-> & -> & ->). done.
    + unfold geom_dirty in Ed. rewrite Hi in Ed.
      apply orb_false_iff in Ed as [_ Ed].
      destruct (geom_differs_false _ _ Ed) as (-> & -> & -> & ->). done.
  - intros Hd.
    assert (Hnd : forall i m, ms !! i = Some m -> geom_dirty n u i m = false).
    { intros i m Hi. destruct (geom_dirty n u i m) eqn:Ed; [|done].
      exfalso. apply (existsb_id_false _ i Hd).
      by rewrite list_lookup_imap, Hi; simpl; rewrite Ed. }
    assert (Hlen : length u = n).
    { destruct (decide (length u = n)) as [|Hne]; [done|]. exfalso.
      destruct (ms !! n) as [m|] eqn:Em; cycle 1.
      { apply lookup_ge_None in Em. lia. }
      pose proof (Hnd _ _ Em) as Hf. unfold geom_dirty in Hf.
      destruct (u !! n) as [s|] eqn:Es; cycle 1.
      { apply lookup_ge_None in Es. lia. }
      by rewrite Nat.leb_refl in Hf. }
    assert (Hmw : ms = mons W).
    { subst ms. rewrite Hlen, Nat.sub_diag. simpl. by rewrite app_nil_r. }
    apply list_eq. intros i. rewrite list_lookup_imap, <- Hmw.
    destruct (ms !! i) as [m|] eqn:Em; [|done]. simpl. f_equal.
    subst upd. cbv beta. destruct (u !! i); [|done]. by rewrite (Hnd _ _ Em).
Qed.

Lemma updategeom_more_screens_witness :
  let W := session_three_xterms in
  let info := screens_with_clone in
  let W' := fst (updategeom default_config (Some info) None W) in
  length (mons W') = length (unique_geoms info)
  /\ store W' = store W
  /\ (forall i s, unique_geoms info !! i = Some s ->
        exists m', mons W' !! i = Some m'
          /\ m_mx m' = x_org s /\ m_my m' = y_org s
          /\ m_mw m' = xi_width s /\ m_mh m' = xi_height s
          /\ m_clients m' = clients_of W i /\ m_stack m' = stack_of W i
          /\ m_sel m' = sel_of W i)
  /\ (snd (updategeom default_config (Some info) None W) = false ->
        mons W' = mons W).
Proof.
  apply (updategeom_more_screens default_config screens_with_clone None
           session_three_xterms).
  vm_compute. lia.
Defined.

(* ================================================================= *)
(** ** Moving a client along the client list *)

Lemma swap_of_involutive a b x : swap_of a b (swap_of a b x) = x.
Proof.
  unfold swap_of.
  destruct (Z.eqb_spec x a) as [->|Hxa].
  - destruct (Z.eqb_spec b a) as [->|Hba]; [done|]. by rewrite Z.eqb_refl.
  - destruct (Z.eqb_spec x b) as [->|Hxb].
    + by rewrite Z.eqb_refl.
    + destruct (Z.eqb_spec x a); [done|]. by destruct (Z.eqb_spec x b).
Qed.

Lemma swap_of_eqb a b x y :
  (swap_of a b x =? swap_of a b y) = (x =? y).
Proof.
  destruct (Z.eqb_spec x y) as [->|Hne]; [apply Z.eqb_refl|].
  apply Z.eqb_neq. intros H. apply Hne.
  by rewrite <- (swap_of_involutive a b x), H, swap_of_involutive.
Qed.

Lemma swap_clients_map a b l : swap_clients a b l = map (swap_of a b) l.
Proof. done. Qed.

Lemma swap_clients_twice a b l : swap_clients a b (swap_clients a b l) = l.
Proof.
  rewrite !swap_clients_map, map_map. rewrite <- (map_id l) at 2.
  apply map_ext. intros x. apply swap_of_involutive.
Qed.

Lemma chain_before_swap a b s l :
  chain_before (swap_of a b s) (map (swap_of a b) l)
  = map (swap_of a b) (chain_before s l).
Proof.
  induction l as [|x l IH]; simpl; [done|].
  rewrite swap_of_eqb. destruct (x =? s); simpl; [done|]. by rewrite IH.
Qed.

Lemma chain_after_swap a b s l :
  chain_after (swap_of a b s) (map (swap_of a b) l)
  = map (swap_of a b) (chain_after s l).
Proof.
  induction l as [|x l IH]; simpl; [done|].
  rewrite swap_of_eqb. by destruct (x =? s).
Qed.

Lemma find_map (p : Z -> bool) (f : Z -> Z) l :
  (forall x, p (f x) = p x) ->
  List.find p (map f l) = option_map f (List.find p l).
Proof.
  intros H. induction l as [|x l IH]; simpl; [done|].
  rewrite H. by destruct (p x).
Qed.

(** The neighbour in the chain in which [a] and [b] have changed places
    is the neighbour in the chain as it was, with [a] and [b] exchanged. *)
Lemma stack_neighbour_swap (p : Z -> bool) a b i s l :
  p a = p b ->
  stack_neighbour p i (swap_of a b s) (swap_clients a b l)
  = option_map (swap_of a b) (stack_neighbour p i s l).
Proof.
  intros Hp.
  assert (H : forall x, p (swap_of a b x) = p x).
  { intros x. unfold swap_of. repeat case_match; zbool; by subst. }
  unfold stack_neighbour, find_last. rewrite swap_clients_map.
  rewrite chain_after_swap, chain_before_swap.
  change (swap_of a b s :: map (swap_of a b) (chain_after s l))
    with (map (swap_of a b) (s :: chain_after s l)).
  rewrite <- !map_rev, !find_map by done.
  destruct (i >? 0).
  - by destruct (List.find p (chain_after s l)).
  - by destruct (List.find p (rev (chain_before s l))).
Qed.

Lemma movable_frame W W' c : layout_frame W W' -> movable W' c = movable W c.
Proof.
  intros Hfr. unfold movable. rewrite (ISVISIBLE_frame _ _ _ Hfr).
  destruct Hfr as (Hs & _). specialize (Hs c).
  destruct (store W' !! c) as [cl'|], (store W !! c) as [cl|]; simpl in Hs; try done.
  apply (inj Some) in Hs. apply (f_equal c_isfloating) in Hs. simpl in Hs.
  by rewrite Hs.
Qed.

Lemma movable_tiled W c : movable W c = is_tiled W c.
Proof.
  unfold movable, is_tiled. destruct (store W !! c) as [cl|].
  - by destruct (ISVISIBLE W c), (c_isfloating cl).
  - by rewrite andb_false_r.
Qed.

(** What [movestack] does when a client is selected on [selmon]. *)
Lemma movestack_eq i W m s :
  mons W !! selmon W = Some m -> m_sel m = Some s ->
  movestack i W
  = match stack_neighbour (movable W) i s (m_clients m) with
    | Some c =>
        if c =? s then W
        else arrange (Some (selmon W))
               (upd_mon (selmon W)
                  (fun m => set_m_clients (swap_clients s c (m_clients m)) m) W)
    | None => W
    end.
Proof. intros Hm Hs. unfold movestack. by rewrite Hm, Hs. Qed.

Lemma reachable_session_three_xterms :
  reachable default_config session_three_xterms.
Proof.
  apply reachable_run_events.
  - by apply reach_setup.
  - by repeat constructor.
  - intros [|[|[|k]]] Hk; simpl in Hk; try lia; by vm_compute.
Qed.

Lemma find_None_Forall (p : Z -> bool) l :
  List.find p l = None -> Forall (fun x => p x = false) l.
Proof.
  intros H. apply Forall_forall. intros x Hx.
  apply (find_none _ _ H). by apply list_elem_of_In.
Qed.

(** The client [stack_neighbour] moves forward to is the one that follows
    in the chain, and the one it moves backward to is the one that is
    followed by the client it starts from. *)
Lemma stack_neighbour_forth_next (p : Z -> bool) i s l c :
  NoDup l -> s ∈ l -> p s = true -> 0 < i ->
  stack_neighbour p i s l = Some c -> next_in p l s c.
Proof.
  intros Hnd Hs Hp Hi.
  apply list_elem_of_split in Hs as (l1 & l2 & ->).
  apply NoDup_app in Hnd as (Hn1 & Hn12 & Hn2).
  assert (Hs1 : s ∉ l1) by (intros Hx; apply (Hn12 _ Hx); by left).
  unfold stack_neighbour.
  destruct (Z.gtb_spec i 0) as [_|?]; [|lia].
  rewrite chain_after_app by done.
  destruct (List.find p l2) as [c'|] eqn:E2.
  - intros [= ->]. destruct (find_split _ _ _ E2) as (a & b & -> & Ha & Hc).
    split; [done|]. left. exists l1, a, b. split; [done|].
    by apply find_None_Forall.
  - destruct (List.find p l1) as [c'|] eqn:E1.
    + rewrite (find_app_l _ _ _ _ E1). intros [= ->].
      destruct (find_split _ _ _ E1) as (a & b & -> & Ha & Hc).
      split; [done|]. right. left. exists a, b, l2.
      split; [by rewrite <- app_assoc|]. split; by apply find_None_Forall.
    + rewrite (find_app_r _ _ _ E1). simpl. rewrite Hp. intros [= <-].
      split; [done|]. right. right. split; [done|]. exists l1, l2.
      split; [done|]. split; by apply find_None_Forall.
Qed.

Lemma stack_neighbour_back_next (p : Z -> bool) j s l c :
  NoDup l -> s ∈ l -> p s = true -> j <= 0 ->
  stack_neighbour p j s l = Some c -> next_in p l c s.
Proof.
  intros Hnd Hs Hp Hj Hc.
  destruct (stack_neighbour_Some p j s l Hs Hp) as (c' & Hc' & Hin & Hpc).
  rewrite Hc in Hc'. injection Hc' as <-.
  apply (stack_neighbour_forth_next p 1 c l s); try done.
  by apply (stack_neighbour_back_forth p 1 j s l c).
Qed.

(** A client follows itself only when no other client passes the test. *)
Lemma next_in_self (p : Z -> bool) l s :
  NoDup l -> next_in p l s s ->
  forall x, x ∈ l -> p x = true -> x = s.
Proof.
  intros Hnd [_ [H|[H|H]]].
  - destruct H as (l1 & l2 & l3 & -> & _). exfalso.
    apply NoDup_app in Hnd as (_ & _ & Hnd).
    apply NoDup_cons in Hnd as [Hs _]. apply Hs.
    apply elem_of_app. right. by left.
  - destruct H as (l1 & l2 & l3 & -> & _). exfalso.
    apply NoDup_app in Hnd as (_ & _ & Hnd).
    apply NoDup_cons in Hnd as [Hs _]. apply Hs.
    apply elem_of_app. right. by left.
  - destruct H as (_ & l1 & l3 & -> & H1 & H3).
    intros x Hx Hpx. rewrite Forall_forall in H1, H3.
    apply elem_of_app in Hx as [Hx|Hx].
    { rewrite (H1 x Hx) in Hpx. done. }
    apply elem_of_cons in Hx as [->|Hx]; [done|].
    rewrite (H3 x Hx) in Hpx. done.
Qed.

(** X18. With a tiled client [s] selected on [selmon], [movestack]
    exchanges [s] in the client list with the tiled client next to it:
    for a positive argument the tiled client that follows [s] in the
    list, for another argument the tiled client that [s] follows, where
    the first tiled client of the list follows the last; that client is
    [s] itself only when no other client of the list is tiled.  A second
    [movestack] in the opposite direction exchanges the two again: forth
    and back, or back and forth, the monitors with their client lists are
    as they were, and [selmon] is the same. *)
Theorem movestack_there_and_back (i j : Z) (W : World) (m : Monitor) (s : Z) :
  wf W -> mons W !! selmon W = Some m -> m_sel m = Some s ->
  is_tiled W s = true ->
  (0 < i /\ j <= 0) \/ (i <= 0 /\ 0 < j) ->
  (exists c,
     (0 < i -> next_in (is_tiled W) (m_clients m) s c)
     /\ (i <= 0 -> next_in (is_tiled W) (m_clients m) c s)
     /\ (c = s -> forall x, x ∈ m_clients m -> is_tiled W x = true -> x = s)
     /\ clients_of (movestack i W) (selmon W) = swap_clients s c (m_clients m))
  /\ mons (movestack j (movestack i W)) = mons W
  /\ selmon (movestack j (movestack i W)) = selmon W.
Proof.
  intros Hwf Hm Hsel Ht Hij.
  pose proof Hwf as [(Hown & Hmons & _) Hlt].
  destruct (Hmons _ _ Hm) as (Hnd & _ & Hcl & _ & Hs).
  assert (Hsl : s ∈ m_clients m) by (by apply Hcl, Hs).
  assert (Hps : movable W s = true) by (by rewrite movable_tiled).
  destruct (stack_neighbour_Some (movable W) i s (m_clients m) Hsl Hps)
    as (c & Hc & Hcin & Hpc).
  assert (Hback : stack_neighbour (movable W) j c (m_clients m) = Some s).
  { destruct Hij as [[? ?]|[? ?]].
    - by eapply stack_neighbour_forth_back.
    - by eapply stack_neighbour_back_forth. }
  assert (Hct : stack_neighbour (is_tiled W) i s (m_clients m) = Some c).
  { rewrite <- Hc. apply stack_neighbour_ext. intros x. by rewrite movable_tiled. }
  assert (Hforth : 0 < i -> next_in (is_tiled W) (m_clients m) s c).
  { intros Hi. by apply (stack_neighbour_forth_next _ i). }
  assert (Hprev : i <= 0 -> next_in (is_tiled W) (m_clients m) c s).
  { intros Hi. by apply (stack_neighbour_back_next _ i). }
  assert (Hself : c = s ->
            forall x, x ∈ m_clients m -> is_tiled W x = true -> x = s).
  { intros ->. apply next_in_self; [done|].
    destruct (Z.lt_ge_cases 0 i); [by apply Hforth|by apply Hprev]. }
  rewrite (movestack_eq i W m s Hm Hsel), Hc.
  destruct (Z.eqb_spec c s) as [->|Hne].
  { rewrite (movestack_eq j W m s Hm Hsel), Hback, Z.eqb_refl.
    split; [|done]. exists s. repeat (split; [done|]).
    rewrite (clients_of_lookup _ _ _ Hm). rewrite swap_clients_map.
    rewrite <- (map_id (m_clients m)) at 1. apply map_ext.
    intros x. unfold swap_of. repeat case_match; zbool; by subst. }
  set (W0 := upd_mon (selmon W) _ W). set (W1 := arrange (Some (selmon W)) W0).
  assert (Hm0 : mons W0 !! selmon W
                = Some (set_m_clients (swap_clients s c (m_clients m)) m)).
  { subst W0. rewrite mons_upd_mon, list_lookup_alter_eq. by rewrite Hm. }
  assert (Hmons1 : mons W1 = mons W0) by apply mons_arrange.
  assert (Hsel1 : selmon W1 = selmon W) by (subst W1; by rewrite selmon_arrange).
  assert (Hfr : layout_frame W W1).
  { subst W1 W0. pose proof (layout_frame_refl W). lfr. }
  split.
  { exists c. repeat (split; [done|]).
    unfold clients_of. by rewrite Hmons1, Hm0. }
  assert (Hn1 : stack_neighbour (movable W1) j s (swap_clients s c (m_clients m))
                = Some c).
  { rewrite (stack_neighbour_ext _ (movable W)) by (intros ?; by apply movable_frame).
    replace s with (swap_of s c c) at 1
      by (unfold swap_of; rewrite Z.eqb_refl; by destruct (Z.eqb_spec c s)).
    rewrite stack_neighbour_swap, Hback by congruence. simpl.
    unfold swap_of. by rewrite Z.eqb_refl. }
  assert (movestack j W1
          = arrange (Some (selmon W))
              (upd_mon (selmon W)
                 (fun m => set_m_clients (swap_clients s c (m_clients m)) m) W1))
    as ->.
  { rewrite (movestack_eq j W1 (set_m_clients (swap_clients s c (m_clients m)) m) s)
      by (by rewrite ?Hsel1, ?Hmons1).
    change (m_clients (set_m_clients ?l _)) with l. rewrite Hn1, Hsel1.
    by destruct (Z.eqb_spec c s). }
  rewrite mons_arrange, selmon_arrange. split; [|done].
  rewrite mons_upd_mon, Hmons1. subst W0. rewrite mons_upd_mon.
  rewrite list_alter_alter_eq. apply list_eq. intros k.
  destruct (decide (k = selmon W)) as [->|Hk].
  - rewrite list_lookup_alter_eq, Hm. simpl. f_equal.
    unfold compose. simpl. rewrite swap_clients_twice. by destruct m.
  - by rewrite list_lookup_alter_ne.
Qed.

Lemma movestack_there_and_back_witness :
  let W := session_three_xterms in
  let m := monitor_of_three in
  (exists c,
     (0 < 1 -> next_in (is_tiled W) (m_clients m) 12 c)
     /\ (1 <= 0 -> next_in (is_tiled W) (m_clients m) c 12)
     /\ (c = 12 -> forall x, x ∈ m_clients m -> is_tiled W x = true -> x = 12)
     /\ clients_of (movestack 1 W) (selmon W) = swap_clients 12 c (m_clients m))
  /\ mons (movestack (-1) (movestack 1 W)) = mons W
  /\ selmon (movestack (-1) (movestack 1 W)) = selmon W.
Proof.
  apply (movestack_there_and_back 1 (-1) session_three_xterms
           monitor_of_three 12).
  - apply (reachable_wf default_config), reachable_session_three_xterms.
  - by vm_compute.
  - by vm_compute.
  - by vm_compute.
  - left. lia.
Defined.

(* ================================================================= *)
(** ** Shutting down *)

Lemma length_mons_unmanage c d W : length (mons (unmanage c d W)) = length (mons W).
Proof.
  unfold unmanage, with_client. case_match; [|done]. cbv zeta.
  rewrite mons_arrange.
  match goal with |- length (mons (focus None ?X)) = _ =>
    assert (Hfr : layout_frame X (focus None X))
      by (apply focus_frame, layout_frame_refl);
    rewrite (layout_frame_length _ _ Hfr)
  end.
  change (mons (set_store _ ?X)) with (mons X).
  unfold detachstack, detach, with_client, with_mon, upd_mon.
  repeat case_match; simpl; rewrite ?length_alter; done.
Qed.

(** The loop that empties the focus stack of a monitor. *)
Lemma unmanage_stack_spec fuel i : forall W,
  wf W -> (length (stack_of W i) <= fuel)%nat ->
  let W' := unmanage_stack fuel i W in
  wf W' /\ stack_of W' i = []
  /\ length (mons W') = length (mons W)
  /\ (forall w j, owner W' w = Some j -> owner W w = Some j).
Proof.
  induction fuel as [|k IH]; intros W Hwf Hlen; cbv zeta; simpl.
  { split; [done|]. split; [|done]. destruct (stack_of W i); [done|simpl in Hlen; lia]. }
  destruct (mons W !! i) as [m|] eqn:Em; cycle 1.
  { split; [done|]. split; [|done]. unfold stack_of. by rewrite Em. }
  destruct (m_stack m) as [|c rest] eqn:Es.
  { split; [done|]. split; [|done]. by rewrite (stack_of_lookup _ _ _ Em). }
  pose proof Hwf as [(Hown & Hmons & _) _].
  destruct (Hmons _ _ Em) as (_ & Hnd & _ & Hst & _).
  assert (Hoc : owner W c = Some i) by (apply Hst; rewrite Es; by left).
  apply owner_Some in Hoc as (cl & E & Hcm).
  pose proof (unmanage_wf c false W Hwf) as Hwf1.
  pose proof (unmanage_owner c false W cl E) as Ho1.
  pose proof (length_mons_unmanage c false W) as Hl1.
  set (W1 := unmanage c false W) in *.
  destruct (IH W1 Hwf1) as (Hwf' & Hs' & Hl' & Ho').
  { rewrite (stack_of_lookup _ _ _ Em), Es in Hlen. simpl in Hlen.
    assert (length (stack_of W1 i) <= length rest)%nat; [|lia].
    apply submseteq_length, NoDup_submseteq.
    - unfold stack_of. destruct (mons W1 !! i) as [m1|] eqn:Em1; simpl.
      + destruct Hwf1 as [(_ & Hm1 & _) _]. by destruct (Hm1 _ _ Em1) as (_ & ? & _).
      + apply NoDup_nil_2.
    - intros w Hw. unfold stack_of in Hw.
      destruct (mons W1 !! i) as [m1|] eqn:Em1; simpl in Hw;
        [|by apply elem_of_nil in Hw].
      destruct Hwf1 as [(_ & Hm1 & _) _].
      destruct (Hm1 _ _ Em1) as (_ & _ & _ & Hst1 & _).
      apply Hst1 in Hw. rewrite Ho1 in Hw.
      destruct (decide (w = c)) as [|Hne]; [done|].
      apply Hst in Hw. rewrite Es in Hw.
      apply elem_of_cons in Hw as [?|?]; done. }
  split; [done|]. split; [done|]. split; [by rewrite Hl'|].
  intros w j Hw. apply Ho' in Hw. rewrite Ho1 in Hw. by destruct (decide (w = c)).
Qed.

(** ... and the loop over the monitors. *)
Lemma unmanage_all_spec l : forall W,
  wf W ->
  let W' := fold_left (fun W i => unmanage_stack (length (stack_of W i)) i W) l W in
  wf W' /\ length (mons W') = length (mons W)
  /\ (forall w j, owner W' w = Some j -> owner W w = Some j)
  /\ (forall w j, j ∈ l -> owner W' w <> Some j).
Proof.
  induction l as [|i l IH]; intros W Hwf; cbv zeta; simpl.
  { split; [done|]. split; [done|]. split; [done|]. by intros ? ? ?%elem_of_nil. }
  destruct (unmanage_stack_spec (length (stack_of W i)) i W Hwf)
    as (Hwf1 & Hs1 & Hl1 & Ho1); [done|].
  set (W1 := unmanage_stack _ i W) in *.
  destruct (IH W1 Hwf1) as (Hwf' & Hl' & Ho' & Hn').
  split; [done|]. split; [by rewrite Hl'|]. split; [by auto|].
  intros w j [->|Hj]%elem_of_cons; [|by apply Hn'].
  intros Hw. apply Ho' in Hw.
  destruct Hwf1 as [(Hv1 & Hm1 & _) _].
  pose proof (Hv1 _ _ Hw) as Hlt. apply lookup_lt_is_Some in Hlt as [m1 Em1].
  destruct (Hm1 _ _ Em1) as (_ & _ & _ & Hst1 & _).
  apply Hst1 in Hw. rewrite (stack_of_lookup _ _ _ Em1) in Hs1.
  rewrite Hs1 in Hw. by apply elem_of_nil in Hw.
Qed.

Lemma free_mons_spec fuel : forall W,
  (length (mons W) <= fuel)%nat ->
  mons (free_mons fuel W) = [] /\ store (free_mons fuel W) = store W.
Proof.
  induction fuel as [|k IH]; intros W Hlen; simpl.
  { split; [|done]. destruct (mons W); [done|simpl in Hlen; lia]. }
  destruct (mons W) as [|m rest] eqn:E; [done|].
  destruct (IH (set_mons rest W)) as [H1 H2]; [simpl in *; lia|]. done.
Qed.

(** X19. [cleanup] leaves nothing behind: from a state in which the
    clients and the monitors are linked as they should be, it ends with
    every client unmanaged and every monitor freed, and its loops come to
    an end by themselves. *)
Theorem cleanup_frees_all (cfg : Config) (W : World) :
  wf W -> store (cleanup cfg W) = ∅ /\ mons (cleanup cfg W) = [].
Proof.
  intros Hwf. unfold cleanup. cbv zeta.
  set (W1 := view cfg 4294967295 W).
  assert (Hwf1 : wf W1) by (by apply view_wf).
  set (W2 := upd_mon (selmon W1) (set_m_lt cleanup_layout) W1).
  assert (Hwf2 : wf W2) by (apply wf_upd_mon; [done|done]).
  destruct (unmanage_all_spec (seq 0 (length (mons W2))) W2 Hwf2)
    as (Hwf3 & Hl3 & _ & Hn3).
  set (W3 := fold_left _ _ W2) in *.
  destruct (free_mons_spec (length (mons W3)) W3) as [Hm Hs]; [done|].
  split; [|done]. rewrite Hs. apply map_empty. intros w.
  destruct (store W3 !! w) as [cl|] eqn:E; [|done]. exfalso.
  apply (Hn3 w (c_mon cl)).
  - apply elem_of_seq. split; [lia|]. rewrite Nat.add_0_l, <- Hl3.
    destruct Hwf3 as [(Hv3 & _) _]. apply (Hv3 w). by apply owner_store.
  - by apply owner_store.
Qed.

Lemma cleanup_frees_all_witness :
  store (cleanup default_config session_two_monitors) = ∅
  /\ mons (cleanup default_config session_two_monitors) = [].
Proof.
  apply (cleanup_frees_all default_config session_two_monitors).
  apply (reachable_wf default_config), reachable_session_two_monitors.
Defined.

(* ================================================================= *)
(** ** The work area and the bar *)

Lemma area_ok_m_core b m m' : m_core m' = m_core m -> area_ok b m -> area_ok b m'.
Proof.
  intros H. unfold area_ok.
  assert (m_wx m' = m_wx m) as -> by exact (f_equal m_wx H).
  assert (m_mx m' = m_mx m) as -> by exact (f_equal m_mx H).
  assert (m_ww m' = m_ww m) as -> by exact (f_equal m_ww H).
  assert (m_mw m' = m_mw m) as -> by exact (f_equal m_mw H).
  assert (m_mh m' = m_mh m) as -> by exact (f_equal m_mh H).
  assert (m_wh m' = m_wh m) as -> by exact (f_equal m_wh H).
  assert (m_my m' = m_my m) as -> by exact (f_equal m_my H).
  assert (m_wy m' = m_wy m) as -> by exact (f_equal m_wy H).
  assert (m_by m' = m_by m) as -> by exact (f_equal m_by H).
  assert (m_showbar m' = m_showbar m) as -> by exact (f_equal m_showbar H).
  assert (m_topbar m' = m_topbar m) as -> by exact (f_equal m_topbar H).
  done.
Qed.

Lemma area_ok_updatebarpos b m :
  m_wx m = m_mx m -> m_ww m = m_mw m -> area_ok b (updatebarpos b m).
Proof.
  intros Hx Hw. unfold area_ok, updatebarpos. cbv zeta.
  destruct (m_showbar m) eqn:Es, (m_topbar m) eqn:Et;
    destruct m; simpl in *; subst; simpl;
    (split; [done|split; [done|intros _; repeat split; lia]]).
Qed.

Lemma bars_ok_same W W' :
  mons W' = mons W -> bh W' = bh W -> bars_ok W -> bars_ok W'.
Proof. unfold bars_ok. by intros -> ->. Qed.

Lemma bars_ok_layout W W' : layout_frame W W' -> bars_ok W -> bars_ok W'.
Proof.
  intros (_ & Hm & _ & _ & _ & Hb & _) H i m' Hi. rewrite Hb.
  apply (f_equal (fun l => l !! i)) in Hm. rewrite !list_lookup_fmap, Hi in Hm.
  destruct (mons W !! i) as [m|] eqn:E; [|done]. simpl in Hm.
  apply (inj Some) in Hm. apply (area_ok_m_core _ m); [done|]. by apply (H i).
Qed.

Lemma bars_ok_upd_mon i f W :
  (forall m, area_ok (bh W) m -> area_ok (bh W) (f m)) ->
  bars_ok W -> bars_ok (upd_mon i f W).
Proof.
  intros Hf H j m' Hj. change (bh (upd_mon i f W)) with (bh W).
  rewrite mons_upd_mon in Hj. destruct (decide (i = j)) as [->|Hne].
  - rewrite list_lookup_alter_eq in Hj.
    destruct (mons W !! j) as [m|] eqn:E; [|done]. injection Hj as <-.
    apply Hf. by apply (H j).
  - rewrite list_lookup_alter_ne in Hj by done. by apply (H j).
Qed.

Lemma bars_ok_upd_client c f W : bars_ok W -> bars_ok (upd_client c f W).
Proof. by apply bars_ok_same. Qed.
Lemma bars_ok_with_client c W k :
  bars_ok W -> (forall cl, store W !! c = Some cl -> bars_ok (k cl)) ->
  bars_ok (with_client c W k).
Proof. intros HW Hk. unfold with_client. destruct (store W !! c); eauto. Qed.
Lemma bars_ok_with_mon i W k :
  bars_ok W -> (forall m, mons W !! i = Some m -> bars_ok (k m)) ->
  bars_ok (with_mon i W k).
Proof. intros HW Hk. unfold with_mon. destruct (mons W !! i); eauto. Qed.
Lemma bars_ok_set_selmon v W : bars_ok W -> bars_ok (set_selmon v W).
Proof. by apply bars_ok_same. Qed.
Lemma bars_ok_set_prevmon v W : bars_ok W -> bars_ok (set_prevmon v W).
Proof. by apply bars_ok_same. Qed.
Lemma bars_ok_set_prevclient v W : bars_ok W -> bars_ok (set_prevclient v W).
Proof. by apply bars_ok_same. Qed.
Lemma bars_ok_set_gappx v W : bars_ok W -> bars_ok (set_gappx v W).
Proof. by apply bars_ok_same. Qed.
Lemma bars_ok_set_sw v W : bars_ok W -> bars_ok (set_sw v W).
Proof. by apply bars_ok_same. Qed.
Lemma bars_ok_set_sh v W : bars_ok W -> bars_ok (set_sh v W).
Proof. by apply bars_ok_same. Qed.
Lemma bars_ok_set_root v W : bars_ok W -> bars_ok (set_root v W).
Proof. by apply bars_ok_same. Qed.
Lemma bars_ok_set_motion_mon v W : bars_ok W -> bars_ok (set_motion_mon v W).
Proof. by apply bars_ok_same. Qed.
Lemma bars_ok_set_running v W : bars_ok W -> bars_ok (set_running v W).
Proof. by apply bars_ok_same. Qed.
Lemma bars_ok_set_dorestart v W : bars_ok W -> bars_ok (set_dorestart v W).
Proof. by apply bars_ok_same. Qed.
Lemma bars_ok_set_store v W : bars_ok W -> bars_ok (set_store v W).
Proof. by apply bars_ok_same. Qed.

Lemma bars_ok_focus oc W : bars_ok W -> bars_ok (focus oc W).
Proof. apply bars_ok_layout, focus_frame, layout_frame_refl. Qed.
Lemma bars_ok_arrange om W : bars_ok W -> bars_ok (arrange om W).
Proof. apply bars_ok_layout, arrange_frame, layout_frame_refl. Qed.
Lemma bars_ok_resize c r b W : bars_ok W -> bars_ok (resize c r b W).
Proof. apply bars_ok_layout, resize_frame, layout_frame_refl. Qed.
Lemma bars_ok_resizeclient c r W : bars_ok W -> bars_ok (resizeclient c r W).
Proof. apply bars_ok_layout, resizeclient_frame, layout_frame_refl. Qed.
Lemma bars_ok_attach c W : bars_ok W -> bars_ok (attach c W).
Proof. apply bars_ok_layout, attach_frame, layout_frame_refl. Qed.
Lemma bars_ok_attachstack c W : bars_ok W -> bars_ok (attachstack c W).
Proof. apply bars_ok_layout, attachstack_frame, layout_frame_refl. Qed.
Lemma bars_ok_detach c W : bars_ok W -> bars_ok (detach c W).
Proof. apply bars_ok_layout, detach_frame, layout_frame_refl. Qed.
Lemma bars_ok_detachstack c W : bars_ok W -> bars_ok (detachstack c W).
Proof. apply bars_ok_layout, detachstack_frame, layout_frame_refl. Qed.
Lemma bars_ok_unfocus oc b W : bars_ok W -> bars_ok (unfocus oc b W).
Proof. apply bars_ok_layout, unfocus_frame, layout_frame_refl. Qed.
Lemma bars_ok_clearurgent c W : bars_ok W -> bars_ok (clearurgent c W).
Proof. apply bars_ok_layout, clearurgent_frame, layout_frame_refl. Qed.

Lemma bars_ok_fold_left {A} (f : World -> A -> World) l :
  (forall W a, bars_ok W -> bars_ok (f W a)) ->
  forall W, bars_ok W -> bars_ok (fold_left f l W).
Proof. intros Hf. induction l; simpl; eauto. Qed.

Create HintDb bkdb discriminated.
#[export] Hint Resolve bars_ok_upd_client bars_ok_set_selmon bars_ok_set_prevmon
  bars_ok_set_prevclient bars_ok_set_gappx bars_ok_set_sw bars_ok_set_sh
  bars_ok_set_root bars_ok_set_motion_mon bars_ok_set_running
  bars_ok_set_dorestart bars_ok_set_store bars_ok_focus bars_ok_arrange
  bars_ok_resize bars_ok_resizeclient bars_ok_attach bars_ok_attachstack
  bars_ok_detach bars_ok_detachstack bars_ok_unfocus bars_ok_clearurgent : bkdb.
#[export] Hint Extern 2 (bars_ok (with_client _ _ _)) =>
  apply bars_ok_with_client; [ | intros ? ?] : bkdb.
#[export] Hint Extern 2 (bars_ok (with_mon _ _ _)) =>
  apply bars_ok_with_mon; [ | intros ? ?] : bkdb.
#[export] Hint Extern 2 (bars_ok (upd_mon _ _ _)) =>
  apply bars_ok_upd_mon;
    [ let H := fresh in
      intros ? H; unfold view_flip; cbv zeta; repeat case_match;
      unfold set_m_tagset; repeat case_match; exact H | ] : bkdb.
#[export] Hint Extern 3 (bars_ok (if ?b then _ else _)) => destruct b eqn:? : bkdb.
#[export] Hint Extern 3 (bars_ok (match ?x with _ => _ end)) => destruct x eqn:? : bkdb.
#[export] Hint Extern 1 (bars_ok _) => progress cbv zeta : bkdb.

Ltac bka := eauto 40 with bkdb.

Section BarsOps.
Variable cfg : Config.

Lemma view_bars_ok ui W : bars_ok W -> bars_ok (view cfg ui W).
Proof. unfold view. bka. Qed.
Lemma toggleview_bars_ok ui W : bars_ok W -> bars_ok (toggleview cfg ui W).
Proof. unfold toggleview. bka. Qed.
Lemma tag_bars_ok ui W : bars_ok W -> bars_ok (tag cfg ui W).
Proof. unfold tag. bka. Qed.
Lemma toggletag_bars_ok ui W : bars_ok W -> bars_ok (toggletag cfg ui W).
Proof. unfold toggletag. bka. Qed.
Hint Resolve view_bars_ok toggleview_bars_ok tag_bars_ok toggletag_bars_ok : bkdb.
Lemma shiftview_bars_ok i W : bars_ok W -> bars_ok (shiftview cfg i W).
Proof. unfold shiftview. bka. Qed.
Lemma tagrel_bars_ok i W : bars_ok W -> bars_ok (tagrel cfg i W).
Proof. unfold tagrel. bka. Qed.
Lemma focusmon_bars_ok i W : bars_ok W -> bars_ok (focusmon i W).
Proof. unfold focusmon. bka. Qed.
Hint Resolve focusmon_bars_ok : bkdb.
Lemma focusmonwarp_bars_ok i W : bars_ok W -> bars_ok (focusmonwarp i W).
Proof. unfold focusmonwarp. bka. Qed.
Lemma sendmon_bars_ok c m W : bars_ok W -> bars_ok (sendmon c m W).
Proof. unfold sendmon. bka. Qed.
Hint Resolve sendmon_bars_ok : bkdb.
Lemma tagmon_bars_ok i W : bars_ok W -> bars_ok (tagmon i W).
Proof. unfold tagmon. bka. Qed.
Lemma focusstack_bars_ok i W : bars_ok W -> bars_ok (focusstack i W).
Proof. unfold focusstack. bka. Qed.
Lemma movestack_bars_ok i W : bars_ok W -> bars_ok (movestack i W).
Proof. unfold movestack. bka. Qed.
Lemma pop_bars_ok c W : bars_ok W -> bars_ok (pop c W).
Proof. unfold pop. bka. Qed.
Lemma swapfocus_bars_ok W : bars_ok W -> bars_ok (swapfocus W).
Proof. unfold swapfocus. bka. Qed.
Lemma setlayout_bars_ok a W : bars_ok W -> bars_ok (setlayout a W).
Proof. unfold setlayout. bka. Qed.
Lemma setmfact_bars_ok a W : bars_ok W -> bars_ok (setmfact a W).
Proof. unfold setmfact. bka. Qed.
Lemma incnmaster_bars_ok a W : bars_ok W -> bars_ok (incnmaster a W).
Proof. unfold incnmaster. bka. Qed.
Lemma togglebar_bars_ok W : bars_ok W -> bars_ok (togglebar W).
Proof.
  unfold togglebar. intros. apply bars_ok_arrange, bars_ok_upd_mon; [|done].
  intros m (Hx & Hw & _). by apply area_ok_updatebarpos.
Qed.
Lemma togglefloating_bars_ok W : bars_ok W -> bars_ok (togglefloating W).
Proof. unfold togglefloating. bka. Qed.
Lemma setfullscreen_bars_ok c b W : bars_ok W -> bars_ok (setfullscreen c b W).
Proof. unfold setfullscreen. bka. Qed.
Hint Resolve setfullscreen_bars_ok pop_bars_ok togglefloating_bars_ok : bkdb.
Lemma togglefullscreen_bars_ok W : bars_ok W -> bars_ok (togglefullscreen W).
Proof. unfold togglefullscreen. bka. Qed.
Lemma centerfloater_bars_ok W : bars_ok W -> bars_ok (centerfloater W).
Proof. unfold centerfloater, floater_guard. bka. Qed.
Lemma maximizefloater_bars_ok W : bars_ok W -> bars_ok (maximizefloater W).
Proof. unfold maximizefloater, floater_guard. bka. Qed.
Lemma modgap_bars_ok i W : bars_ok W -> bars_ok (modgap i W).
Proof. unfold modgap. intros. apply bars_ok_fold_left; bka. Qed.
Lemma quit_bars_ok W : bars_ok W -> bars_ok (quit W).
Proof. unfold quit. bka. Qed.
Lemma restart_bars_ok W : bars_ok W -> bars_ok (restart W).
Proof. unfold restart. bka. Qed.
Lemma manage_bars_ok w wa p W : bars_ok W -> bars_ok (manage cfg w wa p W).
Proof. unfold manage. bka. Qed.
Lemma unmanage_bars_ok c b W : bars_ok W -> bars_ok (unmanage c b W).
Proof. unfold unmanage. bka. Qed.
Hint Resolve manage_bars_ok unmanage_bars_ok : bkdb.
Lemma configurerequest_bars_ok ev W : bars_ok W -> bars_ok (configurerequest ev W).
Proof. unfold configurerequest. bka. Qed.
Lemma maprequest_bars_ok w wa p W : bars_ok W -> bars_ok (maprequest cfg w wa p W).
Proof. unfold maprequest. bka. Qed.
Hint Resolve configurerequest_bars_ok maprequest_bars_ok : bkdb.

Lemma mouse_release_bars_ok c W : bars_ok W -> bars_ok (mouse_release c W).
Proof. unfold mouse_release. bka. Qed.
Lemma mouse_loop_bars_ok motion evs W :
  (forall x y W, bars_ok W -> bars_ok (motion x y W)) ->
  bars_ok W -> bars_ok (mouse_loop cfg motion evs W).
Proof.
  intros Hm HW. unfold mouse_loop. apply bars_ok_fold_left; [|done].
  intros ? []; bka.
Qed.
Lemma movemouse_motion_bars_ok c ocx ocy x y ex ey W :
  bars_ok W -> bars_ok (movemouse_motion cfg c ocx ocy x y ex ey W).
Proof. unfold movemouse_motion. bka. Qed.
Lemma resizemouse_motion_bars_ok c ocx ocy ex ey W :
  bars_ok W -> bars_ok (resizemouse_motion cfg c ocx ocy ex ey W).
Proof. unfold resizemouse_motion. bka. Qed.
Hint Resolve mouse_release_bars_ok movemouse_motion_bars_ok
  resizemouse_motion_bars_ok mouse_loop_bars_ok : bkdb.
Lemma movemouse_bars_ok g ptr evs W : bars_ok W -> bars_ok (movemouse cfg g ptr evs W).
Proof. unfold movemouse. bka. Qed.
Lemma resizemouse_bars_ok g evs W : bars_ok W -> bars_ok (resizemouse cfg g evs W).
Proof. unfold resizemouse. bka. Qed.

Hint Resolve togglebar_bars_ok focusstack_bars_ok incnmaster_bars_ok
  setmfact_bars_ok setlayout_bars_ok togglefullscreen_bars_ok
  focusmonwarp_bars_ok tagmon_bars_ok centerfloater_bars_ok
  maximizefloater_bars_ok modgap_bars_ok movestack_bars_ok
  swapfocus_bars_ok movemouse_bars_ok resizemouse_bars_ok quit_bars_ok
  restart_bars_ok shiftview_bars_ok tagrel_bars_ok : bkdb.
Lemma run_action_bars_ok a W : bars_ok W -> bars_ok (run_action cfg a W).
Proof. destruct a; simpl; bka. Qed.
Lemma run_actions_bars_ok l W : bars_ok W -> bars_ok (run_actions cfg l W).
Proof. apply bars_ok_fold_left. intros. by apply run_action_bars_ok. Qed.
Hint Resolve run_actions_bars_ok : bkdb.

Lemma buttonpress_bars_ok w ptr r c W :
  bars_ok W -> bars_ok (buttonpress cfg w ptr r c W).
Proof. unfold buttonpress. bka. Qed.
Lemma clientmessage_bars_ok w msg W : bars_ok W -> bars_ok (clientmessage w msg W).
Proof. unfold clientmessage. bka. Qed.
Lemma destroynotify_bars_ok w W : bars_ok W -> bars_ok (destroynotify w W).
Proof. unfold destroynotify. bka. Qed.
Lemma enternotify_bars_ok w n i ptr W :
  bars_ok W -> bars_ok (enternotify w n i ptr W).
Proof. unfold enternotify. bka. Qed.
Lemma motionnotify_bars_ok w x y W : bars_ok W -> bars_ok (motionnotify w x y W).
Proof. unfold motionnotify. bka. Qed.
Lemma propertynotify_bars_ok w d a p W :
  bars_ok W -> bars_ok (propertynotify w d a p W).
Proof. unfold propertynotify. bka. Qed.
Lemma unmapnotify_bars_ok w s W : bars_ok W -> bars_ok (unmapnotify w s W).
Proof. unfold unmapnotify. bka. Qed.
End BarsOps.

Section BarsReachable.
Variable cfg : Config.

Lemma updatebars_bars_ok nw W : bars_ok W -> bars_ok (updatebars nw W).
Proof.
  intros H i m' Hi. unfold updatebars in Hi. simpl in Hi.
  rewrite list_lookup_imap in Hi.
  destruct (mons W !! i) as [m|] eqn:E; [|done]. injection Hi as <-.
  change (bh (updatebars nw W)) with (bh W). specialize (H i m E).
  by case_match.
Qed.

Lemma area_ok_createmon b : area_ok b (createmon cfg).
Proof. split; [done|]. split; [done|]. simpl. intros [?|?]; done. Qed.

Lemma area_ok_set_geom b i u m : area_ok b (set_geom b i u m).
Proof. unfold set_geom. cbv zeta. by apply area_ok_updatebarpos. Qed.

Lemma updategeom_grow_bars_ok n u W :
  bars_ok W -> bars_ok (fst (updategeom_grow cfg n u W)).
Proof.
  intros H i m' Hi. unfold updategeom_grow in *. cbv zeta in *. simpl in *.
  rewrite list_lookup_imap in Hi.
  destruct ((mons W ++ replicate (length u - n) (createmon cfg)) !! i)
    as [m|] eqn:E; [|done].
  injection Hi as <-.
  assert (Hm : area_ok (bh W) m).
  { apply lookup_app_Some in E as [E|[_ E]]; [by apply (H i)|].
    apply lookup_replicate in E as [-> _]. apply area_ok_createmon. }
  destruct (u !! i); [|done]. destruct (geom_dirty n u i m); [|done].
  apply area_ok_set_geom.
Qed.

Lemma drain_one_bars_ok c last W : bars_ok W -> bars_ok (drain_one c last W).
Proof. unfold drain_one. bka. Qed.

Lemma drain_bars_ok fuel last : forall W, bars_ok W -> bars_ok (drain fuel last W).
Proof.
  induction fuel as [|k IH]; intros W H; simpl; [done|].
  repeat case_match; try done. by apply IH, drain_one_bars_ok.
Qed.

Lemma remove_last_mon_bars_ok Wd :
  bars_ok (fst Wd) -> bars_ok (fst (remove_last_mon Wd)).
Proof.
  destruct Wd as [W d]. simpl. intros H. unfold remove_last_mon.
  destruct (mons W !! _) as [m|]; [|done]. cbv zeta. simpl.
  match goal with |- bars_ok (set_mons (take ?k (mons ?X)) ?X) =>
    assert (HX : bars_ok X) by (destruct (decide _); [apply bars_ok_set_selmon|];
                                by apply drain_bars_ok);
    intros i m' Hi; simpl in Hi; apply lookup_take_Some in Hi as [Hi _];
    by apply (HX i)
  end.
Qed.

Lemma iter_remove_last_mon_bars_ok k Wd :
  bars_ok (fst Wd) -> bars_ok (fst (Nat.iter k remove_last_mon Wd)).
Proof.
  intros H. induction k as [|k IH]; simpl; [done|].
  by apply remove_last_mon_bars_ok.
Qed.

Lemma updategeom_bars_ok xin ptr W :
  bars_ok W -> bars_ok (fst (updategeom cfg xin ptr W)).
Proof.
  intros H. unfold updategeom.
  set (W0 := set_prevmon None W).
  assert (H0 : bars_ok W0) by (by apply bars_ok_set_prevmon).
  cbv zeta.
  match goal with |- bars_ok (fst (let '(W1, dirty) := ?X in _)) =>
    assert (bars_ok (fst X)) as HX;
    [|destruct X as [W1 dirty]; simpl in HX; destruct dirty; simpl;
      [by do 2 apply bars_ok_set_selmon|done]]
  end.
  destruct xin as [info|].
  - destruct (_ <=? _)%nat.
    + by apply updategeom_grow_bars_ok.
    + by apply iter_remove_last_mon_bars_ok.
  - set (Wa := match mons W0 with [] => set_mons [createmon cfg] W0 | _ => W0 end).
    assert (Ha : bars_ok Wa).
    { subst Wa. destruct (mons W0) eqn:E; [|done].
      intros i m Hi. simpl in Hi. destruct i; [|done]. injection Hi as <-.
      apply area_ok_createmon. }
    destruct (mons Wa !! 0%nat) as [m|] eqn:Em; [|done].
    destruct (_ || _); [|done]. simpl fst.
    apply bars_ok_upd_mon; [|done]. intros m' (Hx & _).
    by apply area_ok_updatebarpos.
Qed.

Lemma configurenotify_bars_ok w wd h xin ptr nw W :
  bars_ok W -> bars_ok (configurenotify cfg w wd h xin ptr nw W).
Proof.
  intros HW. unfold configurenotify. case_match; [|done]. cbv zeta.
  pose proof (updategeom_bars_ok xin ptr (set_sh h (set_sw wd W))) as Hu.
  destruct (updategeom _ _ _ _) as [W1 ch]. simpl in Hu.
  assert (bars_ok W1) by (by apply Hu, bars_ok_set_sh, bars_ok_set_sw).
  case_match; [|done].
  by apply bars_ok_arrange, bars_ok_focus, updatebars_bars_ok.
Qed.

Lemma handle_bars_ok ev W : bars_ok W -> bars_ok (handle cfg ev W).
Proof.
  intros HW. destruct ev; simpl;
    auto using buttonpress_bars_ok, clientmessage_bars_ok,
      configurerequest_bars_ok, configurenotify_bars_ok,
      destroynotify_bars_ok, enternotify_bars_ok, run_actions_bars_ok,
      maprequest_bars_ok, motionnotify_bars_ok, propertynotify_bars_ok,
      unmapnotify_bars_ok.
Qed.

Lemma setup_bars_ok d : bars_ok (setup cfg d).
Proof.
  unfold setup. cbv zeta.
  apply bars_ok_focus, updatebars_bars_ok, updategeom_bars_ok.
  intros i m Hi. simpl in Hi. by rewrite lookup_nil in Hi.
Qed.

Lemma reachable_bars_ok W : reachable cfg W -> bars_ok W.
Proof. induction 1; [apply setup_bars_ok|by apply handle_bars_ok]. Qed.
End BarsReachable.

(** X20. In every state that the event loop reaches, the work area of a
    monitor has the horizontal extent of its screen, and, once the screen
    has a size, it is the screen without the strip of the bar: with the
    bar shown the work area is [bh] lower than the screen and starts
    below a top bar or ends above a bottom bar, and with the bar hidden
    the work area is the whole screen and the bar lies outside of it. *)
Theorem work_area_beside_bar (cfg : Config) (W : World) (i : nat)
    (m : Monitor) :
  reachable cfg W -> mons W !! i = Some m ->
  m_wx m = m_mx m /\ m_ww m = m_mw m
  /\ (m_mw m <> 0 \/ m_mh m <> 0 ->
      if m_showbar m then
        m_wh m = m_mh m - bh W
        /\ (if m_topbar m
            then m_by m = m_my m /\ m_wy m = m_my m + bh W
            else m_wy m = m_my m /\ m_by m = m_my m + m_wh m)
      else m_wh m = m_mh m /\ m_wy m = m_my m /\ m_by m = - bh W).
Proof.
  intros HW Hi. pose proof (reachable_bars_ok cfg W HW i m Hi) as H.
  exact H.
Qed.

Lemma work_area_beside_bar_witness :
  let W := session_two_monitors in
  let m := first_monitor_of_two in
  m_wx m = m_mx m /\ m_ww m = m_mw m
  /\ (m_mw m <> 0 \/ m_mh m <> 0 ->
      if m_showbar m then
        m_wh m = m_mh m - bh W
        /\ (if m_topbar m
            then m_by m = m_my m /\ m_wy m = m_my m + bh W
            else m_wy m = m_my m /\ m_by m = m_my m + m_wh m)
      else m_wh m = m_mh m /\ m_wy m = m_my m /\ m_by m = - bh W).
Proof.
  apply (work_area_beside_bar default_config session_two_monitors 0
           first_monitor_of_two).
  - apply reachable_session_two_monitors.
  - by vm_compute.
Defined.

(* ================================================================= *)
(** ** The focus follows the pointer *)

(** X21. When the pointer enters the window of a visible client (an
    [EnterNotify] event in normal mode that does not come from an
    inferior window), that client becomes the selection, and its monitor
    the selected monitor, whichever monitor was selected before. *)
Theorem enternotify_focuses (w : Z) (ptr : option (Z * Z)) (W : World)
    (cl : Client) (m : Monitor) :
  wf W -> store W !! w = Some cl -> mons W !! c_mon cl = Some m ->
  ISVISIBLE W w = true ->
  let W' := enternotify w true false ptr W in
  selmon W' = c_mon cl /\ selmon_sel W' = Some w.
Proof.
  intros Hwf E Hm Hv. cbv zeta. unfold enternotify.
  change ((negb true || false) && negb (w =? root W)) with false.
  cbv iota. cbv zeta. rewrite (wintoclient_managed W w cl Hwf E), E.
  destruct (decide (c_mon cl = selmon W)) as [Heq|Hne].
  - destruct (decide (Some w = selmon_sel W)) as [Hs|Hs]; [done|].
    destruct (focus_visible_mon w W cl m Hv E Hm)
      as (Hsel & (m' & Hm' & Hs' & _) & _).
    split; [done|]. unfold selmon_sel. by rewrite Hsel, Hm'.
  - set (Wx := set_selmon (c_mon cl) (unfocus (selmon_sel W) true W)).
    assert (Hx : store Wx = store W /\ mons Wx = mons W).
    { subst Wx. unfold unfocus. by destruct (selmon_sel W). }
    destruct Hx as [Hxs Hxm].
    assert (Ex : store Wx !! w = Some cl) by (by rewrite Hxs).
    assert (Hmx : mons Wx !! c_mon cl = Some m) by (by rewrite Hxm).
    assert (Hvx : ISVISIBLE Wx w = true).
    { unfold ISVISIBLE in *. by rewrite Hxs, Hxm. }
    destruct (focus_visible_mon w Wx cl m Hvx Ex Hmx)
      as (Hsel & (m' & Hm' & Hs' & _) & _).
    split; [done|]. unfold selmon_sel. by rewrite Hsel, Hm'.
Qed.

Lemma enternotify_focuses_witness :
  let W' := enternotify 10 true false None session_two_monitors in
  selmon W' = c_mon client_10_of_two /\ selmon_sel W' = Some 10.
Proof.
  apply (enternotify_focuses 10 None session_two_monitors client_10_of_two
           first_monitor_of_two).
  - apply (reachable_wf default_config), reachable_session_two_monitors.
  - by vm_compute.
  - by vm_compute.
  - by vm_compute.
Defined.

(* ================================================================= *)
(** ** The limits of the size hints *)

Lemma clamp_limits (v lo hi : Z) :
  let r := if truthy hi then MIN (MAX v lo) hi else MAX v lo in
  (hi <> 0 -> r <= hi) /\ (hi = 0 \/ lo <= hi -> lo <= r).
Proof.
  cbv zeta. unfold truthy, MIN, MAX.
  destruct (Z.eqb_spec hi 0); simpl; repeat case_match; zbool; lia.
Qed.

Lemma hint_size_limits c w h :
  let '(w', h') := hint_size c w h in
  (c_maxw c <> 0 -> w' <= c_maxw c) /\ (c_maxh c <> 0 -> h' <= c_maxh c)
  /\ (c_maxw c = 0 \/ c_minw c <= c_maxw c -> c_minw c <= w')
  /\ (c_maxh c = 0 \/ c_minh c <= c_maxh c -> c_minh c <= h').
Proof.
  unfold hint_size. cbv zeta.
  destruct (if negb _ then _ else _) as [w1 h1].
  destruct (aspect_adjust c w1 h1) as [w2 h2].
  destruct (if (c_basew c =? c_minw c) && _ then _ else _) as [w3 h3].
  match goal with
  | |- context [MAX (?a + c_basew c) (c_minw c)] =>
      pose proof (clamp_limits (a + c_basew c) (c_minw c) (c_maxw c)) as [H1 H2]
  end.
  match goal with
  | |- context [MAX (?a + c_baseh c) (c_minh c)] =>
      pose proof (clamp_limits (a + c_baseh c) (c_minh c) (c_maxh c)) as [H3 H4]
  end.
  done.
Qed.

(** X22. Whenever the size hints apply (the client honours them or
    floats, or the layout is the floating one), the size that
    [applysizehints] returns is not larger than the maximum size of the
    client, where it has one, and not smaller than its minimum size,
    unless that is larger than the maximum. *)
Theorem applysizehints_within_limits (sw sh bh : Z) (m : Monitor)
    (c : Client) (r : Rect) (interact : bool) :
  c_sizehints c || c_isfloating c || lt_floating m = true ->
  let '(_, _, w, h) := fst (applysizehints sw sh bh m c r interact) in
  (c_maxw c <> 0 -> w <= c_maxw c) /\ (c_maxh c <> 0 -> h <= c_maxh c)
  /\ (c_maxw c = 0 \/ c_minw c <= c_maxw c -> c_minw c <= w)
  /\ (c_maxh c = 0 \/ c_minh c <= c_maxh c -> c_minh c <= h).
Proof.
  intros Hh. unfold applysizehints. destruct r as [[[x y] w] h]. cbv zeta.
  rewrite Hh. destruct (if interact then _ else _) as [x1 y1].
  match goal with
  | |- context [hint_size c ?a ?b] =>
      pose proof (hint_size_limits c a b) as Hl;
      destruct (hint_size c a b) as [w1 h1]
  end.
  exact Hl.
Qed.

Lemma applysizehints_within_limits_witness :
  let c := incr_client in
  let '(_, _, w, h) :=
    fst (applysizehints 1920 1080 20 wide_monitor c (0, 20, 200, 200) false) in
  (c_maxw c <> 0 -> w <= c_maxw c) /\ (c_maxh c <> 0 -> h <= c_maxh c)
  /\ (c_maxw c = 0 \/ c_minw c <= c_maxw c -> c_minw c <= w)
  /\ (c_maxh c = 0 \/ c_minh c <= c_maxh c -> c_minh c <= h).
Proof.
  apply (applysizehints_within_limits 1920 1080 20 wide_monitor incr_client
           (0, 20, 200, 200) false).
  reflexivity.
Defined.

(* ================================================================= *)
(** ** Rotating the view *)

Section ShiftMask.
Variable cfg : Config.
Variable d : Z.
Hypothesis Hd : 0 < d < cfg_ntags cfg.
Hypothesis Hn : cfg_ntags cfg <= 32.

Lemma TAGMASK_ones : TAGMASK cfg = Z.ones (cfg_ntags cfg).
Proof. unfold TAGMASK, Z.ones. lia. Qed.

Lemma tagmask_high m i :
  Z.land m (TAGMASK cfg) = m -> cfg_ntags cfg <= i -> Z.testbit m i = false.
Proof.
  intros Hm Hi. rewrite <- Hm, Z.land_spec, TAGMASK_ones.
  rewrite Z.ones_spec_high by lia. apply andb_false_r.
Qed.

Lemma u32_testbit z i : 0 <= i < 32 -> Z.testbit (u32 z) i = Z.testbit z i.
Proof. intros Hi. unfold u32. apply Z.mod_pow2_bits_low. lia. Qed.

(** The bits of a mask rotated to the left by [d] places ... *)
Lemma shiftmask_left_bits m i :
  Z.land m (TAGMASK cfg) = m -> 0 <= i ->
  Z.testbit (Z.land (shiftmask cfg m d) (TAGMASK cfg)) i
  = if i <? cfg_ntags cfg
    then Z.testbit m (if i <? d then i + cfg_ntags cfg - d else i - d)
    else false.
Proof.
  intros Hm Hi. rewrite Z.land_spec, TAGMASK_ones.
  destruct (Z.ltb_spec i (cfg_ntags cfg)) as [Hlt|Hge].
  - rewrite Z.ones_spec_low, andb_true_r by lia.
    unfold shiftmask. destruct (Z.gtb_spec d 0); [|lia].
    rewrite u32_testbit, Z.lor_spec, u32_testbit by lia.
    rewrite Z.shiftl_spec, Z.shiftr_spec by lia.
    destruct (Z.ltb_spec i d).
    + rewrite (Z.testbit_neg_r m (i - d)) by lia. simpl. f_equal. lia.
    + rewrite (tagmask_high m (i + (cfg_ntags cfg - d))) by (done || lia).
      by rewrite orb_false_r.
  - rewrite Z.ones_spec_high by lia. apply andb_false_r.
Qed.

(** ... and to the right. *)
Lemma shiftmask_right_bits m i :
  Z.land m (TAGMASK cfg) = m -> 0 <= i ->
  Z.testbit (Z.land (shiftmask cfg m (- d)) (TAGMASK cfg)) i
  = if i <? cfg_ntags cfg
    then Z.testbit m (if i <? cfg_ntags cfg - d then i + d
                      else i + d - cfg_ntags cfg)
    else false.
Proof.
  intros Hm Hi. rewrite Z.land_spec, TAGMASK_ones.
  destruct (Z.ltb_spec i (cfg_ntags cfg)) as [Hlt|Hge].
  - rewrite Z.ones_spec_low, andb_true_r by lia.
    unfold shiftmask. destruct (Z.gtb_spec (- d) 0); [lia|].
    rewrite u32_testbit, Z.lor_spec, u32_testbit by lia.
    rewrite Z.shiftl_spec, Z.shiftr_spec by lia.
    destruct (Z.ltb_spec i (cfg_ntags cfg - d)).
    + rewrite (Z.testbit_neg_r m (i - (cfg_ntags cfg + - d))) by lia.
      rewrite orb_false_r. f_equal. lia.
    + rewrite (tagmask_high m (i + - - d)) by (done || lia).
      simpl. f_equal. lia.
  - rewrite Z.ones_spec_high by lia. apply andb_false_r.
Qed.

Lemma land_tagmask_idem z :
  Z.land (Z.land z (TAGMASK cfg)) (TAGMASK cfg) = Z.land z (TAGMASK cfg).
Proof. by rewrite <- Z.land_assoc, Z.land_diag. Qed.

(** Rotating a mask to the left and then to the right gives it back. *)
Lemma shiftmask_left_right m :
  Z.land m (TAGMASK cfg) = m ->
  Z.land (shiftmask cfg (Z.land (shiftmask cfg m d) (TAGMASK cfg)) (- d))
    (TAGMASK cfg) = m.
Proof.
  intros Hm. apply Z.bits_inj'. intros i Hi.
  rewrite shiftmask_right_bits by (done || apply land_tagmask_idem).
  destruct (Z.ltb_spec i (cfg_ntags cfg)) as [Hlt|Hge];
    [|by rewrite tagmask_high].
  destruct (Z.ltb_spec i (cfg_ntags cfg - d)).
  - rewrite shiftmask_left_bits by (done || lia).
    destruct (Z.ltb_spec (i + d) (cfg_ntags cfg)); [|lia].
    destruct (Z.ltb_spec (i + d) d); [lia|]. f_equal. lia.
  - rewrite shiftmask_left_bits by (done || lia).
    destruct (Z.ltb_spec (i + d - cfg_ntags cfg) (cfg_ntags cfg)); [|lia].
    destruct (Z.ltb_spec (i + d - cfg_ntags cfg) d); [|lia]. f_equal. lia.
Qed.

Lemma shiftmask_right_left m :
  Z.land m (TAGMASK cfg) = m ->
  Z.land (shiftmask cfg (Z.land (shiftmask cfg m (- d)) (TAGMASK cfg)) d)
    (TAGMASK cfg) = m.
Proof.
  intros Hm. apply Z.bits_inj'. intros i Hi.
  rewrite shiftmask_left_bits by (done || apply land_tagmask_idem).
  destruct (Z.ltb_spec i (cfg_ntags cfg)) as [Hlt|Hge];
    [|by rewrite tagmask_high].
  destruct (Z.ltb_spec i d).
  - rewrite shiftmask_right_bits by (done || lia).
    destruct (Z.ltb_spec (i + cfg_ntags cfg - d) (cfg_ntags cfg)); [|lia].
    destruct (Z.ltb_spec (i + cfg_ntags cfg - d) (cfg_ntags cfg - d)); [lia|].
    f_equal. lia.
  - rewrite shiftmask_right_bits by (done || lia).
    destruct (Z.ltb_spec (i - d) (cfg_ntags cfg)); [|lia].
    destruct (Z.ltb_spec (i - d) (cfg_ntags cfg - d)); [|lia]. f_equal. lia.
Qed.
End ShiftMask.

Lemma shiftmask_zero cfg i : shiftmask cfg 0 i = 0.
Proof.
  unfold shiftmask. rewrite !Z.shiftl_0_l, !Z.shiftr_0_l. by case_match.
Qed.

(** The view of [selmon] after [view] with a mask that is not empty. *)
Lemma view_cur_tagset cfg ui W m :
  wf W -> mons W !! selmon W = Some m ->
  m_seltags m = 0 \/ m_seltags m = 1 ->
  Z.land ui (TAGMASK cfg) <> 0 ->
  selmon (view cfg ui W) = selmon W
  /\ cur_tagset <$> (mons (view cfg ui W) !! selmon W)
     = Some (Z.land ui (TAGMASK cfg)).
Proof.
  intros Hwf Hm Hs Hnz. unfold view, with_mon. rewrite Hm.
  destruct (Z.eqb_spec (Z.land ui (TAGMASK cfg)) (cur_tagset m)) as [Heq|Hne].
  { split; [done|]. rewrite Hm. simpl. by rewrite Heq. }
  cbv zeta.
  set (W0 := upd_mon (selmon W) (view_flip cfg ui) W).
  assert (Hwf0 : wf W0) by (apply wf_upd_mon; [apply keeps_lists_view_flip|done]).
  assert (Hsel : selmon (focus None W0) = selmon W)
    by (by rewrite selmon_focus_None).
  rewrite selmon_arrange, mons_arrange, Hsel. split; [done|].
  assert (Hfr : layout_frame W0 (focus None W0))
    by (apply focus_frame, layout_frame_refl).
  destruct Hfr as (_ & Hmc & _).
  apply (f_equal (fun l => l !! selmon W)) in Hmc.
  rewrite !list_lookup_fmap in Hmc.
  assert (Hm0 : mons W0 !! selmon W = Some (view_flip cfg ui m)).
  { subst W0. rewrite mons_upd_mon, list_lookup_alter_eq. by rewrite Hm. }
  rewrite Hm0 in Hmc.
  destruct (mons (focus None W0) !! selmon W) as [m'|]; [|done].
  simpl in *. apply (inj Some) in Hmc.
  rewrite <- (cur_tagset_m_core m'), Hmc, cur_tagset_m_core. f_equal.
  apply view_flip_store; [done|].
  unfold truthy. by destruct (Z.eqb_spec (Z.land ui (TAGMASK cfg)) 0).
Qed.

(** [shiftview] by [i] places and then by [j] places, when rotating a
    mask by [i] and then by [j] places gives it back. *)
Lemma shiftview_undo cfg i j W m :
  (forall x, Z.land x (TAGMASK cfg) = x ->
     Z.land (shiftmask cfg (Z.land (shiftmask cfg x i) (TAGMASK cfg)) j)
       (TAGMASK cfg) = x) ->
  wf W -> tag_inv cfg W -> mons W !! selmon W = Some m ->
  selmon (shiftview cfg j (shiftview cfg i W)) = selmon W
  /\ cur_tagset <$> (mons (shiftview cfg j (shiftview cfg i W)) !! selmon W)
     = Some (cur_tagset m).
Proof.
  intros Hrot Hwf Hinv Hm.
  pose proof (tag_inv_mon cfg W _ _ Hinv Hm) as Hok.
  destruct (cur_tagset_ok cfg m Hok) as [Hnz Hmask].
  assert (Hx1 : Z.land (shiftmask cfg (cur_tagset m) i) (TAGMASK cfg) <> 0).
  { intros H0. specialize (Hrot _ Hmask). rewrite H0, shiftmask_zero in Hrot.
    by rewrite Z.land_0_l in Hrot. }
  assert (E1 : shiftview cfg i W = view cfg (shiftmask cfg (cur_tagset m) i) W)
    by (unfold shiftview, with_mon; by rewrite Hm).
  destruct (view_cur_tagset cfg (shiftmask cfg (cur_tagset m) i) W m Hwf Hm)
    as [Hs1 Hc1]; [apply Hok|done|].
  rewrite <- E1 in Hs1, Hc1.
  pose proof (shiftview_wf cfg i W Hwf) as Hwf1.
  pose proof (shiftview_tag_inv cfg i W Hinv) as Hinv1.
  set (W1 := shiftview cfg i W) in *.
  destruct (mons W1 !! selmon W) as [m1|] eqn:Em1; [|done].
  simpl in Hc1. injection Hc1 as Hc1. rewrite <- Hs1 in Em1.
  pose proof (tag_inv_mon cfg W1 _ _ Hinv1 Em1) as Hok1.
  assert (E2 : shiftview cfg j W1 = view cfg (shiftmask cfg (cur_tagset m1) j) W1)
    by (unfold shiftview, with_mon; by rewrite Em1).
  destruct (view_cur_tagset cfg (shiftmask cfg (cur_tagset m1) j) W1 m1 Hwf1 Em1)
    as [Hs2 Hc2]; [apply Hok1|by rewrite Hc1, Hrot|].
  rewrite <- E2 in Hs2, Hc2. rewrite Hs2, Hs1. split; [done|].
  rewrite Hs1 in Hc2. by rewrite Hc2, Hc1, Hrot.
Qed.

(** X23. [shiftview] by [d] places to one side and then by [d] places to
    the other shows the tags again that were shown before, on the same
    selected monitor; [d] is less than the number of tags, of which there
    are at most 32. *)
Theorem shiftview_there_and_back (cfg : Config) (d : Z) (W : World)
    (m : Monitor) :
  0 < d < cfg_ntags cfg -> cfg_ntags cfg <= 32 ->
  wf W -> tag_inv cfg W -> mons W !! selmon W = Some m ->
  (selmon (shiftview cfg (- d) (shiftview cfg d W)) = selmon W
   /\ cur_tagset <$> (mons (shiftview cfg (- d) (shiftview cfg d W)) !! selmon W)
      = Some (cur_tagset m))
  /\ (selmon (shiftview cfg d (shiftview cfg (- d) W)) = selmon W
      /\ cur_tagset <$> (mons (shiftview cfg d (shiftview cfg (- d) W)) !! selmon W)
         = Some (cur_tagset m)).
Proof.
  intros Hd Hn Hwf Hinv Hm. split.
  - apply shiftview_undo; try done. intros x Hx. by apply shiftmask_left_right.
  - apply shiftview_undo; try done. intros x Hx. by apply shiftmask_right_left.
Qed.

Lemma shiftview_there_and_back_witness :
  let W := session_two_monitors in
  let m := second_monitor_of_two in
  (selmon (shiftview default_config (- 2) (shiftview default_config 2 W))
   = selmon W
   /\ cur_tagset <$> (mons (shiftview default_config (- 2)
                              (shiftview default_config 2 W)) !! selmon W)
      = Some (cur_tagset m))
  /\ (selmon (shiftview default_config 2 (shiftview default_config (- 2) W))
      = selmon W
      /\ cur_tagset <$> (mons (shiftview default_config 2
                                 (shiftview default_config (- 2) W)) !! selmon W)
         = Some (cur_tagset m)).
Proof.
  apply (shiftview_there_and_back default_config 2 session_two_monitors
           second_monitor_of_two).
  - vm_compute. split; reflexivity.
  - vm_compute. discriminate.
  - apply (reachable_wf default_config), reachable_session_two_monitors.
  - apply reachable_tag_inv; [apply config_ok_default|].
    apply reachable_session_two_monitors.
  - by vm_compute.
Defined.

(* ================================================================= *)
(** ** Going back to the previous monitor *)

Lemma prevmon_upd_mon i f W : prevmon (upd_mon i f W) = prevmon W.
Proof. done. Qed.

Lemma prevmon_focus oc W : prevmon (focus oc W) = prevmon W.
Proof.
  unfold focus. cbv zeta. rewrite prevmon_upd_mon.
  match goal with |- context [with_client _ ?X] => set (W1 := X) end.
  assert (H1 : prevmon W1 = prevmon W).
  { subst W1. destruct (selmon_sel W); [|done]. by destruct (decide _). }
  match goal with |- context [match ?c with Some _ => _ | None => W1 end] =>
    destruct c as [c1|] end; [|done].
  unfold with_client. destruct (store W1 !! c1) as [cl|] eqn:E; [|done].
  set (Wb := if c_isurgent cl then _ else _).
  assert (Hb : prevmon Wb = prevmon W).
  { subst Wb. destruct (c_isurgent cl), (decide _); done. }
  rewrite <- Hb. unfold attachstack, detachstack, with_client, with_mon.
  repeat case_match; done.
Qed.

Lemma single_monitor_length W W' :
  length (mons W') = length (mons W) -> single_monitor W' = single_monitor W.
Proof.
  unfold single_monitor. destruct (mons W) as [|a [|b l]], (mons W') as [|a' [|b' l']];
    simpl; intros; done || lia.
Qed.

(** What [focusmon] does when it moves to another monitor. *)
Lemma focusmon_moves i W :
  wf W -> single_monitor W = false -> dirtomon i W <> selmon W ->
  selmon (focusmon i W) = dirtomon i W
  /\ prevmon (focusmon i W) = Some (selmon W)
  /\ length (mons (focusmon i W)) = length (mons W)
  /\ wf (focusmon i W).
Proof.
  intros Hwf Hs Hd. pose proof (focusmon_wf i W Hwf) as Hwf'.
  unfold focusmon in *. rewrite Hs in *. cbv zeta in *.
  destruct (decide (dirtomon i W = selmon W)) as [|_]; [done|].
  set (Wu := unfocus (selmon_sel W) false W) in *.
  assert (Hu : mons Wu = mons W /\ selmon Wu = selmon W /\ store Wu = store W).
  { subst Wu. unfold unfocus. by destruct (selmon_sel W). }
  destruct Hu as (Hum & Hus & Hust).
  set (Wx := set_selmon (dirtomon i W) (set_prevmon (Some (selmon Wu)) Wu)) in *.
  assert (Hwfx : wf Wx).
  { subst Wx. apply wf_set_selmon; [simpl; rewrite Hum; by apply dirtomon_lt|].
    apply wf_set_prevmon; [rewrite Hum, Hus; apply Hwf|].
    subst Wu. unfold unfocus. destruct (selmon_sel W); [|done].
    by apply wf_set_prevclient. }
  split; [by rewrite selmon_focus_None|]. split; [by rewrite prevmon_focus, <- Hus|].
  split; [|done].
  assert (Hfr : layout_frame Wx (focus None Wx))
    by (apply focus_frame, layout_frame_refl).
  rewrite (layout_frame_length _ _ Hfr). subst Wx. simpl. by rewrite Hum.
Qed.

(** X24. When [focusmon] has moved to another monitor, [focusmon] with
    the argument 0 moves back to the monitor that was selected before,
    and remembers the one it leaves as the previous monitor. *)
Theorem focusmon_previous (i : Z) (W : World) :
  wf W -> single_monitor W = false -> dirtomon i W <> selmon W ->
  let W1 := focusmon i W in
  let W2 := focusmon 0 W1 in
  selmon W1 = dirtomon i W /\ prevmon W1 = Some (selmon W)
  /\ selmon W2 = selmon W /\ prevmon W2 = Some (dirtomon i W).
Proof.
  intros Hwf Hs Hd. cbv zeta.
  destruct (focusmon_moves i W Hwf Hs Hd) as (Hs1 & Hp1 & Hl1 & Hwf1).
  set (W1 := focusmon i W) in *.
  assert (Hd1 : dirtomon 0 W1 = selmon W).
  { unfold dirtomon. simpl. by rewrite Hp1. }
  destruct (focusmon_moves 0 W1 Hwf1) as (Hs2 & Hp2 & _).
  { by rewrite (single_monitor_length W W1). }
  { rewrite Hd1, Hs1. congruence. }
  rewrite Hs2, Hp2, Hd1, Hs1. done.
Qed.

Lemma focusmon_previous_witness :
  let W := session_two_monitors in
  let W1 := focusmon 1 W in
  let W2 := focusmon 0 W1 in
  selmon W1 = dirtomon 1 W /\ prevmon W1 = Some (selmon W)
  /\ selmon W2 = selmon W /\ prevmon W2 = Some (dirtomon 1 W).
Proof.
  apply (focusmon_previous 1 session_two_monitors).
  - apply (reachable_wf default_config), reachable_session_two_monitors.
  - by vm_compute.
  - by vm_compute.
Defined.

(* ================================================================= *)
(** ** Hiding and showing the bar *)

Lemma updatebarpos_toggle_twice b m :
  area_ok b m -> m_mw m <> 0 \/ m_mh m <> 0 ->
  let t m := updatebarpos b (set_m_showbar (negb (m_showbar m)) m) in
  t (t m) = m.
Proof.
  intros (Hx & Hw & Hbar) Hp. specialize (Hbar Hp). cbv zeta.
  unfold updatebarpos. cbv zeta.
  destruct (m_showbar m) eqn:Es, (m_topbar m) eqn:Et;
    destruct m; simpl in *; subst; simpl;
    repeat match goal with H : _ /\ _ |- _ => destruct H end; subst;
    f_equal; lia.
Qed.

(** X25. In every state that the event loop reaches, [togglebar] twice
    leaves the monitors as they were: the second call puts the bar and
    the work area of the selected monitor back where they had been; the
    screen of that monitor has a size. *)
Theorem togglebar_twice (cfg : Config) (W : World) (m : Monitor) :
  reachable cfg W -> mons W !! selmon W = Some m ->
  m_mw m <> 0 \/ m_mh m <> 0 ->
  mons (togglebar (togglebar W)) = mons W
  /\ selmon (togglebar (togglebar W)) = selmon W.
Proof.
  intros HW Hm Hp. pose proof (reachable_bars_ok cfg W HW _ _ Hm) as Hok.
  assert (Ht : forall X, selmon (togglebar X) = selmon X /\ bh (togglebar X) = bh X
             /\ mons (togglebar X)
                = alter (fun m => updatebarpos (bh X)
                                    (set_m_showbar (negb (m_showbar m)) m))
                    (selmon X) (mons X)).
  { intros X. unfold togglebar. rewrite selmon_arrange, mons_arrange.
    split; [done|]. split; [by rewrite arrange_store_only|done]. }
  destruct (Ht (togglebar W)) as (Hs2 & _ & Hm2).
  destruct (Ht W) as (Hs1 & Hb1 & Hm1).
  rewrite Hs2, Hm2, Hs1, Hb1, Hm1. split; [|done].
  rewrite list_alter_alter_eq. apply list_eq. intros k.
  destruct (decide (k = selmon W)) as [->|Hk].
  - rewrite list_lookup_alter_eq, Hm. simpl. f_equal.
    by apply (updatebarpos_toggle_twice (bh W) m).
  - by rewrite list_lookup_alter_ne.
Qed.

Lemma togglebar_twice_witness :
  mons (togglebar (togglebar session_two_monitors)) = mons session_two_monitors
  /\ selmon (togglebar (togglebar session_two_monitors))
     = selmon session_two_monitors.
Proof.
  apply (togglebar_twice default_config session_two_monitors
           second_monitor_of_two).
  - apply reachable_session_two_monitors.
  - by vm_compute.
  - left. by vm_compute.
Defined.

(* ================================================================= *)
(** ** The two-slot view history, on the selected monitor *)

Lemma m_core_view_flip cfg ui m :
  m_core (view_flip cfg ui m) = view_flip cfg ui (m_core m).
Proof.
  unfold view_flip, set_m_tagset. cbv zeta.
  repeat (case_match; simpl); done.
Qed.

Lemma prev_tagset_m_core m : prev_tagset (m_core m) = prev_tagset m.
Proof. done. Qed.

(** What [view] does to the monitor [selmon] points to: [selmon] stays,
    and the monitor keeps all fields but its lists and selection when the
    mask is the current tag-set, and gets those of [view_flip] otherwise. *)
Lemma view_selmon_core cfg ui W m :
  wf W -> mons W !! selmon W = Some m ->
  selmon (view cfg ui W) = selmon W
  /\ m_core <$> (mons (view cfg ui W) !! selmon W)
     = Some (m_core (if Z.land ui (TAGMASK cfg) =? cur_tagset m
                     then m else view_flip cfg ui m)).
Proof.
  intros Hwf Hm. unfold view, with_mon. rewrite Hm.
  destruct (Z.land ui (TAGMASK cfg) =? cur_tagset m).
  { split; [done|]. by rewrite Hm. }
  cbv zeta.
  set (W0 := upd_mon (selmon W) (view_flip cfg ui) W).
  assert (Hwf0 : wf W0) by (apply wf_upd_mon; [apply keeps_lists_view_flip|done]).
  assert (Hsel : selmon (focus None W0) = selmon W)
    by (by rewrite selmon_focus_None).
  rewrite selmon_arrange, mons_arrange, Hsel. split; [done|].
  assert (Hfr : layout_frame W0 (focus None W0))
    by (apply focus_frame, layout_frame_refl).
  destruct Hfr as (_ & Hmc & _).
  apply (f_equal (fun l => l !! selmon W)) in Hmc.
  rewrite !list_lookup_fmap in Hmc.
  assert (Hm0 : mons W0 !! selmon W = Some (view_flip cfg ui m)).
  { subst W0. rewrite mons_upd_mon, list_lookup_alter_eq. by rewrite Hm. }
  by rewrite Hm0 in Hmc.
Qed.

Lemma view_back_counterexample :
  let W := session_one_client in
  let x := 2 in
  let y := 1 in
  let W' := view default_config y (view default_config x W) in
  cur_tagset <$> (mons W !! selmon W) = Some y
  /\ Z.land x (TAGMASK default_config) = x
  /\ cur_tagset <$> (mons W' !! selmon W') = Some y
  /\ cur_tagset <$> (mons W' !! selmon W') <> Some x.
Proof. by vm_compute. Qed.

(** C3, amended.  In a well-formed state with well-formed tag masks,
    [view(x)] followed by [view(y)], where [y] is the tag-set of the
    selected monitor that was active before, leaves the same monitor
    selected and makes [y] its active tag-set again (not [x]); when
    [x & TAGMASK] is not empty and differs from [y], [seltags] is back at
    its old value and [x & TAGMASK] is kept in the other slot as the
    previous view. *)
Theorem view_back_restores_previous (cfg : Config) (x : Z) (W : World)
    (m : Monitor) :
  wf W -> tag_inv cfg W -> mons W !! selmon W = Some m ->
  let y := cur_tagset m in
  let W' := view cfg y (view cfg x W) in
  selmon W' = selmon W
  /\ exists m', mons W' !! selmon W' = Some m'
     /\ cur_tagset m' = y
     /\ (Z.land x (TAGMASK cfg) <> 0 -> Z.land x (TAGMASK cfg) <> y ->
         m_seltags m' = m_seltags m
         /\ prev_tagset m' = Z.land x (TAGMASK cfg)).
Proof.
  intros Hwf Hinv Hm. cbv zeta.
  pose proof (tag_inv_mon cfg W _ _ Hinv Hm) as Hok.
  destruct (view_selmon_core cfg x W m Hwf Hm) as [Hs1 Hc1].
  pose proof (view_wf cfg x W Hwf) as Hwf1.
  set (W1 := view cfg x W) in *.
  destruct (mons W1 !! selmon W) as [m1|] eqn:Em1; [|done].
  simpl in Hc1. apply (inj Some) in Hc1. rewrite <- Hs1 in Em1.
  destruct (view_selmon_core cfg (cur_tagset m) W1 m1 Hwf1 Em1) as [Hs2 Hc2].
  set (W2 := view cfg (cur_tagset m) W1) in *.
  rewrite Hs2, Hs1. split; [done|].
  rewrite Hs1 in Hc2.
  destruct (mons W2 !! selmon W) as [m2|] eqn:Em2; [|done].
  exists m2. split; [done|].
  simpl in Hc2. apply (inj Some) in Hc2.
  set (mx := if Z.land x (TAGMASK cfg) =? cur_tagset m
             then m else view_flip cfg x m) in *.
  assert (Hcore : m_core m2
    = m_core (if Z.land (cur_tagset m) (TAGMASK cfg) =? cur_tagset mx
              then mx else view_flip cfg (cur_tagset m) mx)).
  { rewrite Hc2.
    rewrite <- (cur_tagset_m_core m1), Hc1, cur_tagset_m_core.
    destruct (Z.land (cur_tagset m) (TAGMASK cfg) =? cur_tagset mx); [done|].
    by rewrite !m_core_view_flip, Hc1. }
  destruct (view_flip_back cfg m x Hok) as [Hcur Hrest].
  cbv zeta in Hcur, Hrest. fold mx in Hcur, Hrest.
  split.
  - by rewrite <- (cur_tagset_m_core m2), Hcore, cur_tagset_m_core.
  - intros Hx Hy. destruct (Hrest Hx Hy) as [Hsel Hprev]. split.
    + rewrite <- Hsel. by apply m_seltags_m_core.
    + by rewrite <- (prev_tagset_m_core m2), Hcore, prev_tagset_m_core.
Qed.

Lemma view_back_restores_previous_witness :
  let W := session_two_monitors in
  let m := second_monitor_of_two in
  let y := cur_tagset m in
  let W' := view default_config y (view default_config 2 W) in
  selmon W' = selmon W
  /\ exists m', mons W' !! selmon W' = Some m'
     /\ cur_tagset m' = y
     /\ (Z.land 2 (TAGMASK default_config) <> 0 ->
         Z.land 2 (TAGMASK default_config) <> y ->
         m_seltags m' = m_seltags m
         /\ prev_tagset m' = Z.land 2 (TAGMASK default_config)).
Proof.
  apply (view_back_restores_previous default_config 2 session_two_monitors
           second_monitor_of_two).
  - apply (reachable_wf default_config), reachable_session_two_monitors.
  - apply reachable_tag_inv; [apply config_ok_default|].
    apply reachable_session_two_monitors.
  - by vm_compute.
Defined.

(* ================================================================= *)
(** ** Monitors that disappear: where their clients go *)

Lemma updategeom_order_counterexample :
  let W := session_two_monitors in
  let W' := fst (updategeom default_config (Some left_screen_only) None W) in
  clients_of W 0 = [10] /\ clients_of W 1 = [12; 11]
  /\ stack_of W 0 = [10] /\ stack_of W 1 = [12; 11]
  /\ length (mons W') = 1%nat
  /\ clients_of W' 0 = [11; 12; 10]
  /\ stack_of W' 0 = [11; 12; 10]
  /\ clients_of W' 0 <> clients_of W 0 ++ clients_of W 1
  /\ stack_of W' 0 <> stack_of W 0 ++ stack_of W 1.
Proof. by vm_compute. Qed.

(** C7, amended.  When Xinerama reports fewer screens than there are
    monitors (and at least one), [updategeom] frees the monitors from
    position [nn] on and keeps the others with their selection and, but
    for the first, their lists.  The clients of the removed monitors are
    pushed one by one onto the head of the client list and of the focus
    stack of the first monitor: in both lists they end up in front of its
    own clients, each removed monitor's clients in the reverse of the
    order of its client list.  Their [mon] is re-pointed to the first
    monitor and no other field of a struct is written.  Afterwards every
    client is again in the client list and in the focus stack of exactly
    the monitor it points to, [selmon] points to a monitor, the tag masks
    of clients and monitors are well-formed if they were, the clients
    of the monitors that stay are visible exactly when they were, and a
    selected client that was visible is visible still. *)
Theorem updategeom_drains_in_front (cfg : Config)
    (info : list XineramaScreenInfo) (ptr : option (Z * Z)) (W : World)
    (m0 : Monitor) (nn : nat) :
  wf W -> mons W !! 0%nat = Some m0 ->
  nn = length (unique_geoms info) -> (0 < nn < length (mons W))%nat ->
  let W' := fst (updategeom cfg (Some info) ptr W) in
  let moved := moved_clients (drop nn (mons W)) in
  length (mons W') = nn
  /\ clients_of W' 0 = moved ++ m_clients m0
  /\ stack_of W' 0 = moved ++ m_stack m0
  /\ (forall i, (i < nn)%nat -> sel_of W' i = sel_of W i)
  /\ (forall i, (0 < i < nn)%nat -> mons W' !! i = mons W !! i)
  /\ (forall w, store W' !! w = rehome nn <$> store W !! w)
  /\ wf W'
  /\ (config_ok cfg -> tag_inv cfg W -> tag_inv cfg W')
  /\ (forall w cl, store W !! w = Some cl -> (c_mon cl < nn)%nat ->
        ISVISIBLE W' w = ISVISIBLE W w)
  /\ (forall i s, sel_of W' i = Some s -> ISVISIBLE W s = true ->
        ISVISIBLE W' s = true).
Proof.
  intros Hwf Hm0 Hnn Hlt. cbv zeta.
  destruct (updategeom_shrinks cfg info ptr W m0 nn Hwf Hm0 Hnn Hlt)
    as (Hmons & Hstore & Hwf').
  cbv zeta in Hmons, Hstore, Hwf'.
  set (W' := fst (updategeom cfg (Some info) ptr W)) in *.
  set (moved := moved_clients (drop nn (mons W))) in *.
  assert (Hl0 : mons W' !! 0%nat = Some (push_clients moved m0)).
  { rewrite Hmons. apply list_lookup_insert_eq. rewrite length_take. lia. }
  assert (Hli : forall i, (0 < i < nn)%nat -> mons W' !! i = mons W !! i).
  { intros i Hi. rewrite Hmons, list_lookup_insert_ne by lia.
    apply lookup_take_lt. lia. }
  split. { rewrite Hmons, length_insert, length_take. lia. }
  split. { unfold clients_of. by rewrite Hl0. }
  split. { unfold stack_of. by rewrite Hl0. }
  split.
  { intros i Hi. unfold sel_of. destruct i as [|i].
    - by rewrite Hl0, Hm0.
    - by rewrite Hli by lia. }
  split; [done|].
  split. { intros w. by rewrite Hstore, lookup_fmap. }
  split; [done|].
  split. { intros Hc Hinv. by apply updategeom_tag_inv. }
  assert (Hvis : forall w cl, store W !! w = Some cl -> (c_mon cl < nn)%nat ->
            ISVISIBLE W' w = ISVISIBLE W w).
  { intros w cl Hw Hcl. unfold ISVISIBLE.
    rewrite Hstore, lookup_fmap, Hw. simpl.
    unfold rehome. destruct (decide (nn <= c_mon cl)%nat); [lia|].
    destruct (c_mon cl) as [|i] eqn:Ei.
    - by rewrite Hl0, Hm0.
    - by rewrite Hli by lia. }
  split; [done|].
  intros i s Hs Hv.
  assert (Hi : (i < nn)%nat).
  { unfold sel_of in Hs. destruct (mons W' !! i) as [m'|] eqn:Em'; [|done].
    apply lookup_lt_Some in Em'. rewrite Hmons, length_insert, length_take in Em'.
    lia. }
  assert (Hs0 : sel_of W i = Some s).
  { unfold sel_of in *. destruct i as [|i].
    - rewrite Hl0 in Hs. by rewrite Hm0.
    - by rewrite <- Hli by lia. }
  unfold sel_of in Hs0. destruct (mons W !! i) as [m|] eqn:Em; [|done].
  simpl in Hs0. destruct Hwf as [(_ & Hmw & _) _].
  destruct (Hmw _ _ Em) as (_ & _ & _ & _ & Hsel).
  apply Hsel, owner_Some in Hs0 as (cl & Hcl & Hmon).
  rewrite (Hvis s cl Hcl) by lia. done.
Qed.

Lemma updategeom_drains_in_front_witness :
  let W := session_two_monitors in
  let m0 := first_monitor_of_two in
  let W' := fst (updategeom default_config (Some left_screen_only) None W) in
  let moved := moved_clients (drop 1 (mons W)) in
  moved = [11; 12]
  /\ length (mons W') = 1%nat
  /\ clients_of W' 0 = moved ++ m_clients m0
  /\ stack_of W' 0 = moved ++ m_stack m0
  /\ (forall i, (i < 1)%nat -> sel_of W' i = sel_of W i)
  /\ (forall i, (0 < i < 1)%nat -> mons W' !! i = mons W !! i)
  /\ (forall w, store W' !! w = rehome 1 <$> store W !! w)
  /\ wf W'
  /\ (config_ok default_config -> tag_inv default_config W ->
      tag_inv default_config W')
  /\ (forall w cl, store W !! w = Some cl -> (c_mon cl < 1)%nat ->
        ISVISIBLE W' w = ISVISIBLE W w)
  /\ (forall i s, sel_of W' i = Some s -> ISVISIBLE W s = true ->
        ISVISIBLE W' s = true).
Proof.
  split; [by vm_compute|].
  apply (updategeom_drains_in_front default_config left_screen_only None
           session_two_monitors first_monitor_of_two 1).
  - apply (reachable_wf default_config), reachable_session_two_monitors.
  - by vm_compute.
  - reflexivity.
  - vm_compute. lia.
Defined.

(* ================================================================= *)
(** ** The tile layout under size hints *)





Section TileFit.
Variables (mi : nat) (m : Monitor) (n : Z).
Hypothesis Hlt : lt_floating m = false.
Hypothesis Hn : 0 < n.
Hypothesis Hwx : 0 <= m_wx m.
Hypothesis Hwy : 0 <= m_wy m.
Hypothesis Hxr : m_wx m + m_ww m < 2 ^ 31.
Hypothesis Hyr : m_wy m + m_wh m < 2 ^ 31.
Hypothesis Hmw : 0 <= master_width m n <= m_ww m.






End TileFit.

Lemma reachable_session_two_wide : reachable default_config session_two_wide.
Proof.
  apply reachable_run_events.
  - by apply reach_setup.
  - by repeat constructor.
  - intros [|[|k]] Hk; simpl in Hk; try lia; by vm_compute.
Qed.




